(* ===== verification/_CoqProject ===== *)
-Q . S2P
Prelude.v
Strconv.v
Bitfield.v
GoValue.v
BenDecode.v
BenEncode.v
BenTotal.v
BenRound.v
BenGet.v
Wire.v
Handshake.v
Metainfo.v
Magnet.v
Bitmap.v
Piece.v
Pieces.v
Storage.v
StorageSafe.v
Metadata.v
ConnInfo.v
Swarm.v
SwarmInv.v
Choker.v
Torrent.v
TorrentInv.v
TorrentSafe.v
Frames.v
Hasher.v
Download.v
Conc.v
Status.v
Exported.v
ExportedInv.v
Conn.v
ConnInv.v
ConnSteps.v
ConnFlags.v
ConnUpload.v
ConnServe.v
Reader.v
Tracker.v
TrackerInv.v
Announcer.v
HttpTracker.v
Trackers.v
Net.v
Client.v
ClientInv.v
ClientConn.v
Command.v
FreqMap.v
Examples.v
SwarmExamples.v
HasherExamples.v
DownloadExamples.v
CommandExamples.v
ConnExamples.v
TrackerExamples.v
AnnouncerExamples.v
ClientExamples.v
