(* ===== verification/Prelude.v ===== *)
(** * charo-torrent: a verification development

    charo-torrent is a BitTorrent client in Go. This library models its protocol code and
    the goroutines of a torrent as functions of Gallina and proves what makes them correct.

    ** The program and its model

    - Encoding. [bencode/] decodes into and encodes from Go values by reflection: the values
      and types are [GoValue], the decoder is [BenDecode], the encoder [BenEncode], the
      scanner for one key of a dictionary [BenGet]; numbers are parsed and printed as in
      [Strconv]. A reader is a state monad with errors and panics.
    - Wire protocol. [peer_wire/] has the messages and extensions ([Wire]), bit fields and reserved
      bits ([Bitfield]) and the handshake ([Handshake]).
    - Metainfo. [metainfo/] has the info dictionary and the torrent files ([Metainfo]) and
      magnet links ([Magnet]).
    - Pieces. [torrent/piece.go] keeps the state of every block of a piece in bitmaps
      ([Piece]) and selects blocks to request over all pieces ([Pieces]). The roaring bitmap is the
      interface [Bitmap], with an instance.
    - Storage. [torrent/storage/] writes blocks to files and verifies pieces ([Storage]).
    - Metadata. [torrent/metadata.go] assembles the info dictionary from peers ([Metadata]).
    - Torrent. The main goroutine of [torrent/torrent.go] owns the connections: their flags and
      statistics ([ConnInfo]), messages to them, dialing, announcing and the choker
      ([Swarm]), and the handlers of all that arrives ([Torrent]). [torrent/piece_hasher.go] runs
      next to it ([Hasher]). [Download] puts the torrent, its hasher and its files together: the
      turn that gets the info dictionary opens the storage (gotInfo), connections write blocks.
    - Connection. The goroutine of [torrent/conn.go] reads commands of the torrent and
      messages of the peer, requests, stores and uploads blocks ([Conn]); next to it runs its
      reader ([Reader]).
    - Tracker. [tracker/] announces to trackers over UDP ([Tracker], with the server that the
      package has for its tests) and HTTP ([HttpTracker]), as the URL says ([Trackers]). One goroutine
      of the client announces for all torrents ([Announcer]).
    - Exported calls. The methods of [torrent/torrent_xported.go] run in the goroutines of
      users while the main goroutine waits for them ([tlocker.go]): [Exported] has each call as a
      program over the torrent and the system of the main goroutine, the users and the others;
      the text of WriteStatus is made with the float64 and tabwriter parts of [Status].
    - Command line. The loop of [cmd/charo-download/main.go] runs next to the system of [Download]
      ([Command]): it starts the transfer, prints, and ends after an hour of seeding.
    - Client. [torrent/client.go] and [net.go] make clients, turn a metainfo into a torrent, keep
      the registry of torrents under a mutex, accept and dial ([Client]); addresses, ports and
      identities are in [Net]. Goroutines that share a state under a mutex are in [Conc].
    - [torrent/freqmap.go], a multiset that the program does not use, is [FreqMap].

    The torrent and its connections talk over channels. A torrent sends commands ([cmsg]); a
    connection reports ([tmsg]). When a connection waits for its torrent it goes on to take
    commands, so handling one command nests in another; when the torrent finds a connection
    closed while it sends to it, it drops the connection in the middle of whatever loop it is in.
    Both are modelled as they are: the connection by a schedule of what its selects do, and the
    torrent by a slice over a shared array that the loops go on reading.

    ** Conventions

    Integers are [Z] with the wrap-around of their width written out; bytes are lists of
    [byte]. A function that may panic returns [option] or [result], whose [Panic] is
    kept apart from an error. Loops whose end is not structural have fuel, and theorems
    show that it suffices: the decoders get more fuel than bytes, a nested drop has one
    connection less than the outer one, waiting for the torrent uses up its schedule, and a
    tracker is asked at most nine times. What
    the code does not decide is an argument: time, random numbers, map orders, the
    results of sockets, file names and SHA-1, with laws where the proofs need them
    ([EnvLaws], [CEnvLaws], [BitmapLaws], [SortSliceLaws]).

    ** What is shown

    - [BenTotal], [BenRound], [BenGet]: decoding never panics and ends on every input;
      encoded values are read back; a key is found exactly where it was written.
    - [Wire], [Handshake], [Bitfield], [Metainfo]: messages, handshakes and torrent files
      are read back; the inputs on which decoding a message panics are characterised; the
      info hash is the hash of the bytes in the file.
    - [Piece], [Pieces]: the bitmaps refine a state per block; requests are for free blocks
      of the peer, without repetition; the invariant of all pieces in every reachable state.
    - [Storage], [StorageSafe], [Metadata]: written data is read back across files, blocks are written
      once, and what is given away has the hash of its piece, in every state of the storage; the
      info dictionary is assembled in any order.
    - [SwarmInv], [Choker], [TorrentInv], [TorrentSafe]: every turn of the torrent's main loop
      returns, however many connections are lost meanwhile; its invariant; upload slots.
    - [Frames], [Hasher]: what the handlers leave alone, and the main goroutine next to the
      hasher: no result is lost or doubled, and written pieces with the right hash become owned.
    - [Download]: what the torrent owns has, in the files, the hashes of an info dictionary that is the
      one of the torrent file or has the info hash of the link.
    - [Reader]: the reader of a connection ends on every stream and hands the
      messages over in their order.
    - [ConnInv]: no turn of a connection panics or hangs, and its bounds; [ConnSteps],
      [ConnFlags]: the two ends agree on the flags; [ConnUpload]: only requested bytes of
      verified pieces are uploaded; [ConnServe]: the blocks that have been sent are parts of
      pieces with the right hash, whatever happened to the storage, and connections write only what
      [Download] expects of them.
    - [Announcer]: every announce is answered and no main loop waits in a circle with the announcer,
      while torrents are open; a torrent closed at the wrong moment stops all announces.
    - [TrackerInv]: the retries of the UDP client end, and it understands the server as far as
      its buffer goes; [HttpTracker]: the query of an announce is read back; [Trackers]: calls to
      any tracker return.
    - [ExportedInv]: users' calls are atomic for the main goroutine, and return, but for the two that
      deadlock; [ClientInv]: the registry refines an abstract one in all interleavings;
      [ClientConn]: what a new client is, that an added metainfo becomes a torrent of
      [TorrentSafe], and that two clients connect; [FreqMap] refines finite multisets.
    - [Command]: the program fails only when the torrent is closed, its start of the transfer succeeds,
      and it ends with every piece owned and right in the files.
    - [Examples], [SwarmExamples], [HasherExamples], [DownloadExamples], [CommandExamples],
      [ConnExamples], [TrackerExamples], [AnnouncerExamples], [ClientExamples]: inputs at which
      the hypotheses hold, and runs that show where the code does not do what it means to.

    ** What is not modelled

    Texts for logs, counters and deadlines; the parsing of flags, the terminal and the profiler of the
    command line, whose model starts when the torrent has been added; the loop that accepts
    connections, which only starts the goroutines that [Client] models. SetMaxInFlightPieces and
    scrapeTracker are commented out in the source. Sizes for people (go-humanize) are a parameter
    of the status, and what int() makes of a float64 that does not fit, which the language leaves
    open. What [Download] and [Command] say of the files is for files that can be opened, have
    different names and that no other program writes to. Hashing a piece is one step; the hasher is there from the start. A turn
    of a main loop submits its announces when it is over.
    The libraries (roaring bitmaps, DHT, HTTP, files) are
    parameters. Data races are outside the model: other goroutines act on shared state only
    between the steps of a handler, at its waits.

    This first file is the prelude: machine integers, bytes, Go results and the generic lemmas
    and tactics that the components share. *)

From Stdlib Require Export ZArith Lia Strings.Byte.
From Stdlib Require String.
Export (notations) String.
From stdpp Require Export base gmap sorting countable.
From stdpp Require Export list.
Export list.

#[global] Set Default Goal Selector "!".

Declare Scope go_scope.
Delimit Scope go_scope with go.
Open Scope Z_scope.

(** ** Tactics *)

(** Case analysis on every boolean test or [match] scrutinee of the goal. *)
Ltac split_ifs :=
  repeat match goal with
  | |- context [if ?b then _ else _] => destruct b eqn:?
  end.

(** Turn boolean comparisons in the context into propositions. *)
Ltac bool_to_prop :=
  repeat match goal with
  | H : (_ =? _) = true |- _ => apply Z.eqb_eq in H
  | H : (_ =? _) = false |- _ => apply Z.eqb_neq in H
  | H : (_ <? _) = true |- _ => apply Z.ltb_lt in H
  | H : (_ <? _) = false |- _ => apply Z.ltb_ge in H
  | H : (_ <=? _) = true |- _ => apply Z.leb_le in H
  | H : (_ <=? _) = false |- _ => apply Z.leb_gt in H
  | H : (_ && _) = true |- _ => apply andb_true_iff in H as [? ?]
  | H : (_ || _) = false |- _ => apply orb_false_iff in H as [? ?]
  | H : negb _ = true |- _ => apply negb_true_iff in H
  | H : negb _ = false |- _ => apply negb_false_iff in H
  end.

(** Linear arithmetic in the presence of division and remainder by constants. *)
Ltac lia_div := Z.to_euclidean_division_equations; lia.

Create HintDb go_core.

(** ** Results of Go functions: a value, an error value, or a run-time panic *)

Inductive result (E A : Type) : Type :=
| Ok (a : A)
| Err (e : E)
| Panic.
Arguments Ok {E A} a.
Arguments Err {E A} e.
Arguments Panic {E A}.

#[global] Instance result_ret {E} : MRet (result E) := fun _ a => Ok a.
#[global] Instance result_bind {E} : MBind (result E) := fun _ _ f m =>
  match m with Ok a => f a | Err e => Err e | Panic => Panic end.
#[global] Instance result_fmap {E} : FMap (result E) := fun _ _ f m =>
  match m with Ok a => Ok (f a) | Err e => Err e | Panic => Panic end.

Definition is_ok {E A} (r : result E A) : bool :=
  match r with Ok _ => true | _ => false end.

(** ** Machine integers

    [int] is 64 bits wide. A conversion to a narrower type keeps the low bits. *)

Definition wrapU (w z : Z) : Z := z mod 2 ^ w.
Definition wrapS (w z : Z) : Z := (z + 2 ^ (w - 1)) mod 2 ^ w - 2 ^ (w - 1).

Abbreviation uint8 := (wrapU 8).
Abbreviation uint16 := (wrapU 16).
Abbreviation uint32 := (wrapU 32).
Abbreviation uint64 := (wrapU 64).
Abbreviation int8 := (wrapS 8).
Abbreviation int16 := (wrapS 16).
Abbreviation int32 := (wrapS 32).
Abbreviation int64 := (wrapS 64).

Definition in_u (w z : Z) : Prop := 0 <= z < 2 ^ w.
Definition in_s (w z : Z) : Prop := - 2 ^ (w - 1) <= z < 2 ^ (w - 1).

Definition MaxInt64 : Z := 2 ^ 63 - 1.

Lemma wrapU_id w z : in_u w z -> wrapU w z = z.
Proof. apply Z.mod_small. Qed.

Lemma wrapU_range w z : 0 <= w -> in_u w (wrapU w z).
Proof. intros. apply Z.mod_pos_bound, Z.pow_pos_nonneg; lia. Qed.

Lemma pow2_half w : 1 <= w -> 2 ^ w = 2 * 2 ^ (w - 1).
Proof. intros. rewrite <- Z.pow_succ_r by lia. f_equal; lia. Qed.

Lemma wrapS_id w z : 1 <= w -> in_s w z -> wrapS w z = z.
Proof.
  unfold in_s, wrapS. intros Hw Hz. rewrite Z.mod_small; [lia|].
  rewrite (pow2_half w) by lia. lia.
Qed.

Lemma int64_small z : 0 <= z < 2 ^ 63 -> int64 z = z.
Proof. intros. apply wrapS_id; [lia|unfold in_s; lia]. Qed.

Lemma wrapS_range w z : 1 <= w -> in_s w (wrapS w z).
Proof.
  intros Hw. unfold in_s, wrapS.
  pose proof (Z.mod_pos_bound (z + 2 ^ (w - 1)) (2 ^ w)
                ltac:(apply Z.pow_pos_nonneg; lia)) as H.
  rewrite (pow2_half w) in H by lia. rewrite (pow2_half w) by lia. lia.
Qed.

Lemma in_s_mono w w' z : 1 <= w <= w' -> in_s w z -> in_s w' z.
Proof.
  unfold in_s. intros Hw H.
  pose proof (Z.pow_le_mono_r 2 (w - 1) (w' - 1)). lia.
Qed.

(** The float64 nearest to an integer, ties to even: 53 significant bits. The
    value is an integer again, so it is kept as one. *)
Definition f64_of_int (n : Z) : Z :=
  let a := Z.abs n in
  let e := Z.max 0 (Z.log2 a - 52) in
  let q := Z.shiftr a e in
  let r := a - Z.shiftl q e in
  let up := if 2 * r <? 2 ^ e then 0
            else if (2 * r =? 2 ^ e) && Z.even q then 0
            else if e =? 0 then 0 else 1 in
  Z.sgn n * Z.shiftl (q + up) e.

Lemma f64_of_int_exact n : Z.abs n < 2 ^ 53 -> f64_of_int n = n.
Proof.
  intros Hn. unfold f64_of_int.
  assert (He : Z.max 0 (Z.log2 (Z.abs n) - 52) = 0).
  { destruct (Z.eq_dec n 0) as [->|Hz]; [reflexivity|].
    assert (Z.log2 (Z.abs n) < 53) by (apply Z.log2_lt_pow2; lia). lia. }
  rewrite He, !Z.shiftl_0_r, Z.shiftr_0_r.
  replace (Z.abs n - Z.abs n) with 0 by lia.
  cbn. rewrite Z.add_0_r. lia.
Qed.

(** ** Bytes *)

Abbreviation byte := Byte.byte.
Abbreviation bytes := (list Byte.byte).

Definition b2z (b : byte) : Z := Z.of_N (Byte.to_N b).
Definition z2b (z : Z) : byte :=
  match Byte.of_N (Z.to_N (z mod 256)) with Some b => b | None => Byte.x00 end.

(** The bytes of a string literal of the source. *)
Definition bs (s : String.string) : bytes := String.list_byte_of_string s.

#[global] Instance byte_eq_dec : EqDecision byte := Byte.byte_eq_dec.

Lemma b2z_range b : 0 <= b2z b < 256.
Proof. unfold b2z. pose proof (Byte.to_N_bounded b). lia. Qed.

Lemma b2z_inj b c : b2z b = b2z c -> b = c.
Proof.
  unfold b2z. intros H%N2Z.inj.
  pose proof (Byte.of_to_N b). pose proof (Byte.of_to_N c). congruence.
Qed.

Lemma b2z_z2b z : b2z (z2b z) = z mod 256.
Proof.
  unfold z2b, b2z. pose proof (Z.mod_pos_bound z 256 eq_refl).
  destruct (Byte.of_N _) eqn:E.
  - apply Byte.to_of_N in E. rewrite E, Z2N.id; lia.
  - apply Byte.of_N_None_iff in E. lia.
Qed.

Lemma z2b_b2z b : z2b (b2z b) = b.
Proof. apply b2z_inj. rewrite b2z_z2b. apply Z.mod_small, b2z_range. Qed.

#[global] Instance byte_countable : Countable byte :=
  inj_countable Byte.to_N Byte.of_N Byte.of_to_N.

Definition byte_ltb (b c : byte) : bool := b2z b <? b2z c.

(** Order of Go strings: bytewise, lexicographic. *)
Fixpoint bytes_ltb (s t : bytes) : bool :=
  match s, t with
  | _, [] => false
  | [], _ :: _ => true
  | b :: s, c :: t => (b2z b <? b2z c) || ((b2z b =? b2z c) && bytes_ltb s t)
  end.

(** ** Big-endian encoding (encoding/binary) *)

Fixpoint be_enc (n : nat) (z : Z) : bytes :=
  match n with
  | O => []
  | S n => z2b (Z.shiftr z (8 * Z.of_nat n)) :: be_enc n z
  end.

Fixpoint be_dec_acc (acc : Z) (l : bytes) : Z :=
  match l with
  | [] => acc
  | b :: l => be_dec_acc (acc * 256 + b2z b) l
  end.
Definition be_dec : bytes -> Z := be_dec_acc 0.

Lemma length_be_enc n z : length (be_enc n z) = n.
Proof. induction n; simpl; congruence. Qed.

Lemma be_dec_acc_shift acc l :
  be_dec_acc acc l = acc * 256 ^ Z.of_nat (length l) + be_dec l.
Proof.
  unfold be_dec. revert acc. induction l as [|b l IH]; intros acc; cbn [be_dec_acc length].
  - cbn. lia.
  - rewrite IH, (IH (0 * 256 + b2z b)), Nat2Z.inj_succ, Z.pow_succ_r by lia. lia.
Qed.

Lemma be_dec_cons b l : be_dec (b :: l) = b2z b * 256 ^ Z.of_nat (length l) + be_dec l.
Proof. unfold be_dec at 1. cbn [be_dec_acc]. rewrite be_dec_acc_shift. lia. Qed.

Lemma be_dec_range l : 0 <= be_dec l < 256 ^ Z.of_nat (length l).
Proof.
  induction l as [|b l IH]; [cbn; lia|].
  rewrite be_dec_cons. cbn [length]. rewrite Nat2Z.inj_succ, Z.pow_succ_r by lia.
  pose proof (b2z_range b). nia.
Qed.

Lemma be_dec_enc n z : be_dec (be_enc n z) = z mod 256 ^ Z.of_nat n.
Proof.
  induction n as [|n IH]; [cbn; by rewrite Z.mod_1_r|].
  cbn [be_enc]. rewrite be_dec_cons, length_be_enc, IH, b2z_z2b.
  rewrite Z.shiftr_div_pow2 by lia.
  replace (2 ^ (8 * Z.of_nat n)) with (256 ^ Z.of_nat n)
    by (rewrite Z.pow_mul_r by lia; reflexivity).
  rewrite Nat2Z.inj_succ, Z.pow_succ_r by lia.
  assert (0 < 256 ^ Z.of_nat n) by (apply Z.pow_pos_nonneg; lia).
  rewrite (Z.mul_comm 256), Z.rem_mul_r by lia. lia.
Qed.

Lemma be_enc_dec l : be_enc (length l) (be_dec l) = l.
Proof.
  assert (forall k l' a, be_enc (length l') (a * 256 ^ Z.of_nat (k + length l') + be_dec l') = l') as H.
  { intros k l'. revert k. induction l' as [|b l' IH]; intros k a; [done|].
    cbn [length be_enc]. rewrite be_dec_cons. f_equal.
    - apply b2z_inj. rewrite b2z_z2b, Z.shiftr_div_pow2 by lia.
      replace (2 ^ (8 * Z.of_nat (length l'))) with (256 ^ Z.of_nat (length l'))
        by (rewrite Z.pow_mul_r by lia; reflexivity).
      set (p := 256 ^ Z.of_nat (length l')).
      assert (0 < p) by (apply Z.pow_pos_nonneg; lia).
      replace (256 ^ Z.of_nat (k + S (length l'))) with (256 ^ Z.of_nat k * 256 * p).
      2:{ unfold p. rewrite Nat.add_succ_r, Nat2Z.inj_succ, Nat2Z.inj_add, Z.pow_succ_r,
            Z.pow_add_r by lia. lia. }
      replace (a * (256 ^ Z.of_nat k * 256 * p) + (b2z b * p + be_dec l'))
        with (be_dec l' + (a * 256 ^ Z.of_nat k * 256 + b2z b) * p) by lia.
      rewrite Z.div_add by lia. rewrite Z.div_small by apply be_dec_range.
      rewrite Z.add_0_l, Z.add_comm, Z.mod_add by lia.
      apply Z.mod_small, b2z_range.
    - rewrite Nat.add_succ_r.
      replace (a * 256 ^ Z.of_nat (S (k + length l')) + (b2z b * 256 ^ Z.of_nat (length l') + be_dec l'))
        with ((a * 256 ^ Z.of_nat (S k) + b2z b) * 256 ^ Z.of_nat (0 + length l') + be_dec l').
      2:{ rewrite !Nat2Z.inj_succ, Nat.add_0_l, Nat2Z.inj_add, !Z.pow_succ_r, Z.pow_add_r by lia. lia. }
      apply IH. }
  specialize (H 0%nat l 0). rewrite Z.mul_0_l, Z.add_0_l in H. exact H.
Qed.

Lemma be_dec_enc_small n z : 0 <= z < 256 ^ Z.of_nat n -> be_dec (be_enc n z) = z.
Proof. intros. rewrite be_dec_enc. by apply Z.mod_small. Qed.

(** ** Slices and arrays indexed by [int]

    Indexing outside the bounds is a run-time panic: [None]. *)

Definition at_index {A} (l : list A) (i : Z) : option A :=
  if 0 <=? i then l !! Z.to_nat i else None.

Definition set_index {A} (l : list A) (i : Z) (x : A) : option (list A) :=
  if (0 <=? i) && (i <? Z.of_nat (length l)) then Some (<[Z.to_nat i := x]> l) else None.

Abbreviation lenZ l := (Z.of_nat (length l)).

Lemma at_index_Some {A} (l : list A) i :
  0 <= i < lenZ l -> exists x, at_index l i = Some x.
Proof.
  intros [H0 H1]. unfold at_index. destruct (Z.leb_spec 0 i); [|lia].
  destruct (lookup_lt_is_Some_2 l (Z.to_nat i)) as [x Hx]; [lia|]. by exists x.
Qed.

Lemma at_index_bound {A} (l : list A) i x : at_index l i = Some x -> 0 <= i < lenZ l.
Proof.
  unfold at_index. destruct (Z.leb_spec 0 i); [|done].
  intros Hx%lookup_lt_Some. lia.
Qed.

Lemma set_index_Some {A} (l : list A) i x :
  0 <= i < lenZ l -> set_index l i x = Some (<[Z.to_nat i := x]> l).
Proof.
  intros. unfold set_index. rewrite (proj2 (andb_true_iff _ _)); [done|].
  split; [apply Z.leb_le|apply Z.ltb_lt]; lia.
Qed.

Lemma set_index_bound {A} (l l' : list A) i x :
  set_index l i x = Some l' -> 0 <= i < lenZ l /\ l' = <[Z.to_nat i := x]> l.
Proof. unfold set_index. destruct (_ && _) eqn:E; intros; bool_to_prop; naive_solver. Qed.

Lemma at_index_set_index {A} (l l' : list A) i j x :
  set_index l i x = Some l' -> at_index l' j = if j =? i then Some x else at_index l j.
Proof.
  intros [Hi ->]%set_index_bound. unfold at_index.
  destruct (Z.leb_spec 0 j), (Z.eqb_spec j i) as [->|Hne]; try done; try lia.
  - apply list_lookup_insert_eq. lia.
  - apply list_lookup_insert_ne. lia.
Qed.

Lemma length_set_index {A} (l l' : list A) i x :
  set_index l i x = Some l' -> length l' = length l.
Proof. intros [_ ->]%set_index_bound. apply length_insert. Qed.

#[export] Hint Resolve b2z_range be_dec_range : go_core.

(** ** Sorted lists *)

Lemma StronglySorted_filter {A} (R : A -> A -> Prop) (P : A -> Prop) `{!forall x, Decision (P x)} l :
  StronglySorted R l -> StronglySorted R (filter P l).
Proof.
  induction 1 as [|x l Hs IH Hx]; [constructor|].
  rewrite filter_cons. case_decide; [|done].
  constructor; [done|]. rewrite Forall_forall in *.
  intros y [_ Hy]%list_elem_of_filter. auto.
Qed.

Lemma StronglySorted_seqZ m n : StronglySorted Z.lt (seqZ m n).
Proof.
  destruct (Z.le_gt_cases n 0) as [?|Hn]; [rewrite seqZ_nil by done; constructor|].
  rewrite <- (Z2Nat.id n) by lia. clear Hn. generalize (Z.to_nat n). clear n. intros n.
  revert m. induction n as [|n IH]; intros m; [constructor|].
  rewrite seqZ_cons by lia. replace (Z.pred (Z.of_nat (S n))) with (Z.of_nat n) by lia.
  constructor; [apply IH|]. apply Forall_forall. intros i Hi%elem_of_seqZ. lia.
Qed.

(** ** Pointwise relations *)

Lemma Forall2_impl_elem {A B} (P Q : A -> B -> Prop) l k :
  Forall2 P l k -> (forall x y, x ∈ l -> P x y -> Q x y) -> Forall2 Q l k.
Proof.
  induction 1 as [|x y l k Hxy _ IH]; intros H; constructor; [apply H; [left|done]|].
  apply IH. intros x' y' Hx. apply H. by right.
Qed.

(** ** Filtered lists *)

Lemma filter_fmap {A B} (f : A -> B) (P : B -> Prop) `{!forall x, Decision (P x)} (l : list A) :
  filter P (f <$> l) = f <$> filter (fun x => P (f x)) l.
Proof.
  induction l as [|x l IH]; [done|]. rewrite fmap_cons, !filter_cons.
  case_decide; [|done]. by rewrite fmap_cons, IH.
Qed.

Lemma NoDup_fmap_filter {A B} (f : A -> B) (P : A -> Prop) `{!forall x, Decision (P x)} (l : list A) :
  NoDup (f <$> l) -> NoDup (f <$> filter P l).
Proof.
  induction l as [|x l IH]; [done|]. rewrite fmap_cons, NoDup_cons, filter_cons.
  intros [Hx Hl]. case_decide; [|by apply IH]. rewrite fmap_cons, NoDup_cons.
  split; [|by apply IH]. intros (y & E & [_ Hy]%list_elem_of_filter)%list_elem_of_fmap.
  apply Hx, list_elem_of_fmap. by exists y.
Qed.
