(* ===== verification/Strconv.v ===== *)
(** * Decimal text: the parts of Go's strconv package the sources use

    [ParseUint], [ParseInt] (base 10, 64 bits), [FormatUint], [FormatInt] and
    [Itoa], with the round trip between them. *)

From S2P Require Import Prelude.

Inductive num_error := ErrSyntax | ErrRange.

Definition is_digit (b : byte) : bool := (48 <=? b2z b) && (b2z b <=? 57).
Definition digit (d : Z) : byte := z2b (48 + d).
Definition digit_val (b : byte) : Z := b2z b - 48.

(** The loop of ParseUint for base 10: stop at the first byte that is not a
    digit and as soon as the value leaves 64 bits. *)
Fixpoint parse_uint_loop (acc : Z) (s : bytes) : result num_error Z :=
  match s with
  | [] => Ok acc
  | c :: s =>
      if is_digit c then
        let n := acc * 10 + digit_val c in
        if 2 ^ 64 <=? n then Err ErrRange else parse_uint_loop n s
      else Err ErrSyntax
  end.

Definition ParseUint (s : bytes) : result num_error Z :=
  match s with [] => Err ErrSyntax | _ => parse_uint_loop 0 s end.

Definition ParseInt (s : bytes) : result num_error Z :=
  match s with
  | [] => Err ErrSyntax
  | c :: s' =>
      let neg := bool_decide (c = "-"%byte) in
      let body := if neg || bool_decide (c = "+"%byte) then s' else s in
      un ← ParseUint body;
      if negb neg && (2 ^ 63 <=? un) then Err ErrRange
      else if neg && (2 ^ 63 <? un) then Err ErrRange
      else Ok (if neg then - un else un)
  end.

(** Digits are produced from the least significant one; a value below
    [2 ^ fuel] never exhausts the fuel. *)
Fixpoint format_loop (fuel : nat) (n : Z) (acc : bytes) : bytes :=
  match fuel with
  | O => acc
  | S fuel =>
      if n <? 10 then digit n :: acc
      else format_loop fuel (n / 10) (digit (n mod 10) :: acc)
  end.

Definition FormatUint (n : Z) : bytes := format_loop (S (Z.to_nat (Z.log2 n))) n [].

Definition FormatInt (n : Z) : bytes :=
  if n <? 0 then "-"%byte :: FormatUint (- n) else FormatUint n.

Definition Itoa : Z -> bytes := FormatInt.

(** ** Lemmas *)

Lemma digit_val_digit d : 0 <= d < 10 -> digit_val (digit d) = d.
Proof. intros. unfold digit_val, digit. rewrite b2z_z2b, Z.mod_small; lia. Qed.

Lemma is_digit_digit d : 0 <= d < 10 -> is_digit (digit d) = true.
Proof.
  intros. unfold is_digit, digit. rewrite b2z_z2b, Z.mod_small by lia.
  apply andb_true_iff. lia.
Qed.

Lemma digit_val_range b : is_digit b = true -> 0 <= digit_val b < 10.
Proof. unfold is_digit, digit_val. intros. bool_to_prop. lia. Qed.

(** The value of a digit string, most significant digit first. *)
Fixpoint dec_val (acc : Z) (s : bytes) : Z :=
  match s with [] => acc | c :: s => dec_val (acc * 10 + digit_val c) s end.

Lemma dec_val_ge s acc :
  0 <= acc -> forallb is_digit s = true -> acc <= dec_val acc s.
Proof.
  revert acc. induction s as [|c s IH]; cbn; intros acc Ha Hs; [lia|].
  apply andb_true_iff in Hs as [Hc Hs]. apply digit_val_range in Hc.
  specialize (IH (acc * 10 + digit_val c) ltac:(lia) Hs). lia.
Qed.

Lemma parse_uint_loop_val s acc :
  0 <= acc -> forallb is_digit s = true -> dec_val acc s < 2 ^ 64 ->
  parse_uint_loop acc s = Ok (dec_val acc s).
Proof.
  revert acc. induction s as [|c s IH]; cbn [dec_val parse_uint_loop forallb];
    intros acc Ha Hs Hv; [done|].
  apply andb_true_iff in Hs as [Hc Hs]. rewrite Hc.
  pose proof (digit_val_range _ Hc).
  pose proof (dec_val_ge s (acc * 10 + digit_val c) ltac:(lia) Hs).
  destruct (Z.leb_spec (2 ^ 64) (acc * 10 + digit_val c)); [lia|].
  apply IH; [lia|done|done].
Qed.

Lemma format_loop_digits fuel n acc :
  0 <= n -> forallb is_digit acc = true ->
  forallb is_digit (format_loop fuel n acc) = true.
Proof.
  revert n acc. induction fuel as [|fuel IH]; intros n acc Hn Ha; cbn; [done|].
  destruct (Z.ltb_spec n 10); cbn.
  - by rewrite is_digit_digit.
  - apply IH; [apply Z.div_pos; lia|].
    cbn. rewrite is_digit_digit; [done|]. apply Z.mod_pos_bound. lia.
Qed.

Lemma format_loop_val fuel n acc :
  0 <= n < 2 ^ Z.of_nat fuel -> (0 < fuel)%nat ->
  dec_val 0 (format_loop fuel n acc) = dec_val n acc.
Proof.
  revert n acc. induction fuel as [|fuel IH]; intros n acc Hn Hf; [lia|].
  cbn [format_loop]. destruct (Z.ltb_spec n 10).
  - cbn [dec_val]. by rewrite digit_val_digit by lia.
  - rewrite Nat2Z.inj_succ, Z.pow_succ_r in Hn by lia.
    assert (0 < fuel)%nat.
    { destruct fuel; [cbn in Hn; lia|lia]. }
    rewrite IH; [|split; [apply Z.div_pos; lia|apply Z.div_lt_upper_bound; lia]|done].
    cbn [dec_val]. rewrite digit_val_digit by (apply Z.mod_pos_bound; lia).
    f_equal. pose proof (Z.div_mod n 10). lia.
Qed.

Lemma FormatUint_fuel n : 0 <= n -> n < 2 ^ Z.of_nat (S (Z.to_nat (Z.log2 n))).
Proof.
  intros Hn. rewrite Nat2Z.inj_succ, Z2Nat.id by apply Z.log2_nonneg.
  destruct (Z.eq_dec n 0) as [->|]; [done|]. apply Z.log2_spec. lia.
Qed.

Lemma FormatUint_digits n : 0 <= n -> forallb is_digit (FormatUint n) = true.
Proof. intros. by apply format_loop_digits. Qed.

Lemma FormatUint_val n : 0 <= n -> dec_val 0 (FormatUint n) = n.
Proof.
  intros. unfold FormatUint. rewrite format_loop_val; [done| |lia].
  split; [done|by apply FormatUint_fuel].
Qed.

Lemma format_loop_ne fuel n acc : (0 < fuel)%nat \/ acc <> [] -> format_loop fuel n acc <> [].
Proof.
  revert n acc. induction fuel as [|fuel IH]; intros n acc H; cbn.
  - destruct H; [lia|done].
  - destruct (n <? 10); [done|]. apply IH. by right.
Qed.

Lemma FormatUint_cons n : 0 <= n ->
  exists c s, FormatUint n = c :: s /\ is_digit c = true /\ forallb is_digit s = true.
Proof.
  intros Hn. pose proof (FormatUint_digits n Hn) as Hd.
  destruct (FormatUint n) as [|c s] eqn:E.
  - exfalso. revert E. apply format_loop_ne. left. lia.
  - apply andb_true_iff in Hd as [??]. by exists c, s.
Qed.

Lemma ParseUint_FormatUint n : in_u 64 n -> ParseUint (FormatUint n) = Ok n.
Proof.
  intros [H0 H1]. destruct (FormatUint_cons n H0) as (c & s & E & Hc & Hs).
  unfold ParseUint. rewrite E, <- E.
  rewrite parse_uint_loop_val; rewrite ?FormatUint_val by lia; [done|lia| |lia].
  by apply FormatUint_digits.
Qed.

Lemma is_digit_not_sign c : is_digit c = true -> c <> "-"%byte /\ c <> "+"%byte.
Proof. intros H. split; intros ->; discriminate. Qed.

Lemma ParseInt_FormatInt n : in_s 64 n -> ParseInt (FormatInt n) = Ok n.
Proof.
  intros [H0 H1]. cbn in H0, H1. unfold FormatInt.
  destruct (Z.ltb_spec n 0).
  - unfold ParseInt. cbn [bool_decide decide_rel].
    rewrite bool_decide_true by done. cbn [orb].
    rewrite ParseUint_FormatUint by (unfold in_u; lia). cbn [mbind result_bind].
    cbn [negb andb]. destruct (Z.ltb_spec (2 ^ 63) (- n)); [lia|]. f_equal. lia.
  - destruct (FormatUint_cons n) as (c & s & E & Hc & Hs); [lia|].
    unfold ParseInt. rewrite E, <- E.
    apply is_digit_not_sign in Hc as [??].
    rewrite !bool_decide_false by done. cbn [orb].
    rewrite ParseUint_FormatUint by (unfold in_u; lia). cbn [mbind result_bind negb andb].
    destruct (Z.leb_spec (2 ^ 63) n); [lia|]. done.
Qed.

(** Every byte of a formatted number is a digit or the sign. *)
Lemma FormatInt_bytes n c : c ∈ FormatInt n -> is_digit c = true \/ c = "-"%byte.
Proof.
  unfold FormatInt. destruct (Z.ltb_spec n 0); intros Hc.
  - apply elem_of_cons in Hc as [->|Hc]; [by right|left].
    pose proof (FormatUint_digits (- n) ltac:(lia)) as Hd.
    rewrite forallb_forall in Hd. by apply Hd, list_elem_of_In.
  - left. pose proof (FormatUint_digits n ltac:(lia)) as Hd.
    rewrite forallb_forall in Hd. by apply Hd, list_elem_of_In.
Qed.
