(* ===== verification/Bitfield.v ===== *)
(** * peer_wire/bitfield.go and peer_wire/reserved.go

    Bit fields of pieces (most significant bit first) and the reserved bytes of
    the handshake. [None] is a run-time panic (an index out of range). *)

From S2P Require Import Prelude.

(** ** Data and operations *)

Definition BitField := bytes.

(** [int(math.Ceil(float64(numPieces) / 8))]: the division by 8 of a float64 is
    exact, the conversion to float64 rounds. *)
Definition BfLen (numPieces : Z) : Z := - ((- f64_of_int numPieces) / 8).

Definition NewBitField (numPieces : Z) : option BitField :=
  if BfLen numPieces <? 0 then None else Some (replicate (Z.to_nat (BfLen numPieces)) Byte.x00).

Definition Valid (bf : BitField) (expectedLen : Z) : bool := lenZ bf =? BfLen expectedLen.

Definition piece_mask (i : Z) : Z := uint8 (Z.shiftl 1 (7 - Z.rem i 8)).

Definition HasPiece (bf : BitField) (i : Z) : option bool :=
  b ← at_index bf (Z.quot i 8);
  Some (0 <? Z.land (b2z b) (piece_mask i)).

Definition SetPiece (bf : BitField) (i : Z) : option BitField :=
  b ← at_index bf (Z.quot i 8);
  set_index bf (Z.quot i 8) (z2b (Z.lor (b2z b) (piece_mask i))).

Fixpoint filter_loop (bf : BitField) (ixs : list Z) : option (list Z) :=
  match ixs with
  | [] => Some []
  | i :: ixs =>
      has ← HasPiece bf i;
      set ← filter_loop bf ixs;
      Some (if has : bool then i :: set else set)
  end.

Definition FilterNotSet (bf : BitField) : option (list Z) :=
  filter_loop bf (seqZ 0 (lenZ bf * 8)).

(** math/bits.OnesCount *)
Definition OnesCount (x : Z) : Z :=
  foldr (fun k acc => Z.b2z (Z.testbit x k) + acc) 0 (seqZ 0 64).

Definition BitsSet (bf : BitField) : Z :=
  foldl (fun sum b => sum + OnesCount (b2z b)) 0 bf.

(** The unused writer of message.go: a slice of booleans as a bit field. *)
Fixpoint bool_field_loop (bf : BitField) (i : Z) (l : list bool) : option BitField :=
  match l with
  | [] => Some bf
  | v :: l => bf' ← (if v then SetPiece bf i else Some bf); bool_field_loop bf' (i + 1) l
  end.

Definition writeBinaryBitField (bytefield : list bool) : option bytes :=
  bf ← NewBitField (lenZ bytefield); bool_field_loop bf 0 bytefield.

(** reserved.go: [8]byte, the values below are of that length. *)
Definition Reserved := bytes.

Definition SupportDHT (r : Reserved) : option bool :=
  b ← at_index r 7; Some (negb (Z.land (b2z b) 1 =? 0)).
Definition SetDHT (r : Reserved) : option Reserved :=
  b ← at_index r 7; set_index r 7 (z2b (Z.lor (b2z b) 1)).
Definition SetExtended (r : Reserved) : option Reserved :=
  b ← at_index r 5; set_index r 5 (z2b (Z.lor (b2z b) 16)).
Definition SupportExtended (r : Reserved) : option bool :=
  b ← at_index r 5; Some (negb (Z.land (b2z b) 16 =? 0)).

(** ** Lemmas *)

Lemma BfLen_ceil n : 0 <= n < 2 ^ 53 -> BfLen n = (n + 7) / 8.
Proof. intros. unfold BfLen. rewrite f64_of_int_exact by lia. lia_div. Qed.

Lemma piece_mask_pow i : 0 <= i -> piece_mask i = 2 ^ (7 - i mod 8).
Proof.
  intros. unfold piece_mask. rewrite Z.rem_mod_nonneg by lia.
  pose proof (Z.mod_pos_bound i 8 eq_refl).
  rewrite Z.shiftl_1_l. apply wrapU_id. unfold in_u.
  split; [apply Z.pow_nonneg; lia|apply Z.pow_lt_mono_r; lia].
Qed.

Lemma land_pow2_pos x k : 0 <= x -> 0 <= k -> (0 <? Z.land x (2 ^ k)) = Z.testbit x k.
Proof.
  intros Hx Hk.
  assert (Z.land x (2 ^ k) = if Z.testbit x k then 2 ^ k else 0) as ->.
  { apply Z.bits_inj'. intros n Hn. rewrite Z.land_spec, Z.pow2_bits_eqb by lia.
    destruct (Z.testbit x k) eqn:E.
    - rewrite Z.pow2_bits_eqb by lia. destruct (Z.eqb_spec k n); subst; [by rewrite E|by rewrite andb_false_r].
    - rewrite Z.bits_0. destruct (Z.eqb_spec k n); subst; [by rewrite E|by rewrite andb_false_r]. }
  destruct (Z.testbit x k); [|done].
  apply Z.ltb_lt, Z.pow_pos_nonneg; lia.
Qed.

Lemma land_pow2_nz x k : 0 <= x -> 0 <= k -> negb (Z.land x (2 ^ k) =? 0) = Z.testbit x k.
Proof.
  intros. rewrite <- land_pow2_pos by done.
  assert (0 <= Z.land x (2 ^ k)) by (apply Z.land_nonneg; lia).
  destruct (Z.eqb_spec (Z.land x (2 ^ k)) 0), (Z.ltb_spec 0 (Z.land x (2 ^ k))); cbn; lia || done.
Qed.

(** The bit of a byte that stands for a piece, and the effect of setting one. *)
Lemma testbit_lor_byte b k n : 0 <= k < 8 -> 0 <= n ->
  Z.testbit (b2z (z2b (Z.lor (b2z b) (2 ^ k)))) n = (k =? n) || Z.testbit (b2z b) n.
Proof.
  intros Hk Hn. rewrite b2z_z2b. change 256 with (2 ^ 8).
  rewrite <- Z.land_ones, Z.land_spec, Z.lor_spec, Z.pow2_bits_eqb by lia.
  destruct (Z.ltb_spec n 8).
  - rewrite Z.ones_spec_low by lia. rewrite andb_true_r. apply orb_comm.
  - rewrite Z.ones_spec_high by lia. rewrite andb_false_r.
    destruct (Z.eqb_spec k n); [lia|]. cbn. symmetry. apply Z.bits_above_log2; [apply b2z_range|].
    destruct (Z.eq_dec (b2z b) 0) as [->|]; [cbn; lia|].
    apply Z.log2_lt_pow2; pose proof (b2z_range b); [lia|].
    apply Z.lt_le_trans with (2 ^ 8); [lia|]. apply Z.pow_le_mono_r; lia.
Qed.

Definition piece_bit (bf : BitField) (i : Z) : bool :=
  match at_index bf (i / 8) with Some b => Z.testbit (b2z b) (7 - i mod 8) | None => false end.

Lemma HasPiece_bit bf i :
  0 <= i < lenZ bf * 8 -> HasPiece bf i = Some (piece_bit bf i).
Proof.
  intros Hi. unfold HasPiece, piece_bit. rewrite Z.quot_div_nonneg by lia.
  destruct (at_index_Some bf (i / 8)) as [b Hb]; [lia_div|].
  rewrite Hb. cbn. rewrite piece_mask_pow by lia.
  rewrite land_pow2_pos; [done|apply b2z_range|].
  pose proof (Z.mod_pos_bound i 8 eq_refl). lia.
Qed.

Lemma SetPiece_bit bf i :
  0 <= i < lenZ bf * 8 ->
  exists bf', SetPiece bf i = Some bf' /\ length bf' = length bf /\
    forall j, 0 <= j -> piece_bit bf' j = (j =? i) || piece_bit bf j.
Proof.
  intros Hi. unfold SetPiece. rewrite Z.quot_div_nonneg by lia.
  destruct (at_index_Some bf (i / 8)) as [b Hb]; [lia_div|].
  rewrite Hb. cbn. rewrite piece_mask_pow by lia.
  destruct (set_index bf (i / 8) _) as [bf'|] eqn:E.
  2:{ rewrite set_index_Some in E; [done|lia_div]. }
  exists bf'. split; [done|]. split; [eapply length_set_index, E|].
  intros j Hj. unfold piece_bit. rewrite (at_index_set_index _ _ _ _ _ E).
  pose proof (Z.mod_pos_bound i 8 eq_refl). pose proof (Z.mod_pos_bound j 8 eq_refl).
  destruct (Z.eqb_spec (j / 8) (i / 8)) as [Heq|Hne].
  - rewrite testbit_lor_byte by lia. rewrite Heq, Hb. f_equal.
    apply eq_true_iff_eq. rewrite !Z.eqb_eq. lia_div.
  - destruct (Z.eqb_spec j i); [subst; done|done].
Qed.

Lemma filter_loop_spec bf ixs :
  Forall (fun i => 0 <= i < lenZ bf * 8) ixs ->
  filter_loop bf ixs = Some (filter (fun i => piece_bit bf i = true) ixs).
Proof.
  induction 1 as [|i ixs Hi _ IH]; [done|].
  cbn [filter_loop]. rewrite HasPiece_bit by done.
  cbn [mbind option_bind]. rewrite IH. cbn [mbind option_bind].
  rewrite filter_cons. by destruct (piece_bit bf i).
Qed.

Lemma NewBitField_spec n : 0 <= n < 2 ^ 53 ->
  exists bf, NewBitField n = Some bf /\ lenZ bf = (n + 7) / 8 /\
    forall i, piece_bit bf i = false.
Proof.
  intros Hn. unfold NewBitField. rewrite BfLen_ceil by done.
  destruct (Z.ltb_spec ((n + 7) / 8) 0); [lia_div|].
  eexists. split; [done|]. rewrite length_replicate. split; [lia|].
  intros i. unfold piece_bit, at_index. destruct (0 <=? i / 8); [|done].
  destruct (_ !! _) eqn:E; [|done]. apply lookup_replicate in E as [-> _].
  change (b2z Byte.x00) with 0. apply Z.bits_0.
Qed.

Lemma foldl_sum_shift (bf : bytes) a :
  foldl (fun sum b => sum + OnesCount (b2z b)) a bf = a + BitsSet bf.
Proof.
  unfold BitsSet. revert a. induction bf as [|b bf IH]; intros a; cbn; [lia|].
  rewrite IH, (IH (0 + _)). lia.
Qed.

Lemma first_byte_count b bf :
  Z.of_nat (length (filter (fun i => piece_bit (b :: bf) i = true) (seqZ 0 8))) = OnesCount (b2z b).
Proof. destruct b; reflexivity. Qed.

Lemma piece_bit_tail b bf i : 0 <= i -> piece_bit (b :: bf) (i + 8) = piece_bit bf i.
Proof.
  intros Hi. unfold piece_bit, at_index.
  replace ((i + 8) / 8) with (i / 8 + 1) by lia_div.
  replace ((i + 8) mod 8) with (i mod 8) by lia_div.
  assert (0 <= i / 8) by lia_div.
  destruct (Z.leb_spec 0 (i / 8)), (Z.leb_spec 0 (i / 8 + 1)); try lia.
  by replace (Z.to_nat (i / 8 + 1)) with (S (Z.to_nat (i / 8))) by lia.
Qed.

Lemma filter_shift_tail b bf l :
  Forall (fun i => 0 <= i) l ->
  length (filter (fun i => piece_bit (b :: bf) i = true) ((fun i => i + 8) <$> l)) =
  length (filter (fun i => piece_bit bf i = true) l).
Proof.
  induction 1 as [|i l Hi _ IH]; [done|].
  rewrite fmap_cons, !filter_cons, piece_bit_tail by done.
  destruct (piece_bit bf i); cbn [decide decide_rel bool_eq_dec]; simpl; by rewrite IH.
Qed.

Lemma seqZ_split_byte n : seqZ 0 (Z.of_nat (S n) * 8) = seqZ 0 8 ++ ((fun i => i + 8) <$> seqZ 0 (Z.of_nat n * 8)).
Proof.
  replace (Z.of_nat (S n) * 8) with (8 + Z.of_nat n * 8) by lia.
  rewrite seqZ_app by lia. f_equal.
  rewrite (list_fmap_ext _ (Z.add 8)) by (intros; lia).
  by rewrite fmap_add_seqZ.
Qed.

Lemma count_pieces bf :
  Z.of_nat (length (filter (fun i => piece_bit bf i = true) (seqZ 0 (lenZ bf * 8)))) = BitsSet bf.
Proof.
  induction bf as [|b bf IH]; [done|].
  change (length (b :: bf)) with (S (length bf)).
  rewrite seqZ_split_byte, filter_app, length_app, Nat2Z.inj_add, first_byte_count.
  rewrite filter_shift_tail.
  - rewrite IH. unfold BitsSet at 2. cbn [foldl]. rewrite foldl_sum_shift. lia.
  - apply Forall_forall. intros i Hi%elem_of_seqZ. lia.
Qed.

(** ** Theorems *)

(** Setting a piece of a bit field that is long enough succeeds, keeps the
    length, makes exactly that piece present and leaves the others. *)
Theorem SetPiece_HasPiece bf i j :
  0 <= i < lenZ bf * 8 -> 0 <= j < lenZ bf * 8 ->
  exists bf', SetPiece bf i = Some bf' /\ length bf' = length bf /\
    HasPiece bf' j = if j =? i then Some true else HasPiece bf j.
Proof.
  intros Hi Hj. destruct (SetPiece_bit bf i Hi) as (bf' & E & Hl & Hb).
  exists bf'. split; [done|]. split; [done|].
  rewrite !HasPiece_bit by (rewrite ?Hl; done). rewrite Hb by lia.
  by destruct (j =? i).
Qed.

Lemma FilterNotSet_filter bf :
  FilterNotSet bf = Some (filter (fun i => piece_bit bf i = true) (seqZ 0 (lenZ bf * 8))).
Proof.
  apply filter_loop_spec, Forall_forall. intros i Hi%elem_of_seqZ. lia.
Qed.

(** C40: FilterNotSet lists, in increasing order and without repetition, exactly the
    pieces of the bit field that are present, and BitsSet counts them. *)
Theorem FilterNotSet_BitsSet bf :
  exists set, FilterNotSet bf = Some set /\ StronglySorted Z.lt set /\
    (forall i, i ∈ set <-> HasPiece bf i = Some true /\ 0 <= i) /\
    lenZ set = BitsSet bf.
Proof.
  rewrite FilterNotSet_filter. eexists. split; [done|]. split_and!.
  - apply StronglySorted_filter, StronglySorted_seqZ.
  - intros i. rewrite list_elem_of_filter, elem_of_seqZ. split.
    + intros [Hb Hi]. rewrite HasPiece_bit by lia. split; [congruence|lia].
    + intros [Hh Hi]. assert (i < lenZ bf * 8) as Hlt.
      { unfold HasPiece in Hh. destruct (at_index _ _) eqn:E; [|done].
        apply at_index_bound in E. rewrite Z.quot_div_nonneg in E by lia. lia_div. }
      rewrite HasPiece_bit in Hh by lia. split; [congruence|lia].
  - apply count_pieces.
Qed.
