(* ===== verification/GoValue.v ===== *)
(** * Go types and values, as the reflection of package bencode sees them

    The Go types that occur in the sources (integers, strings, byte slices,
    slices, string-keyed maps, structs with their tags, pointers and the empty
    interface) and the values of these types. [reflect.Zero] and the [isZero] of
    encode.go are defined here. *)

From S2P Require Import Prelude.

#[local] Set Warnings "-register-all".

(** ** Data *)

(** A [reflect.StructField]: the name and the values of the tags [bencode] and
    [empty] (the empty string when the tag is absent). *)
Record sfield := mkField {
  sf_name : bytes;
  sf_bencode : bytes;
  sf_empty : bytes;
}.

Inductive gtype :=
| TInt (w : Z)
| TUint (w : Z)
| TBool
| TString
| TBytes                              (* []byte *)
| TArray (n : nat)                    (* [n]byte *)
| TSlice (t : gtype)
| TMap (t : gtype)                    (* map[string]t *)
| TStruct (fs : list (sfield * gtype))
| TPtr (t : gtype)
| TIface.                             (* interface{} *)

(** [None] is a nil slice, map, pointer or interface. A map is the list of its
    entries in increasing order of the keys. *)
Inductive gval :=
| VInt (z : Z)
| VUint (z : Z)
| VBool (b : bool)
| VString (s : bytes)
| VBytes (s : option bytes)
| VArray (s : bytes)
| VSlice (l : option (list gval))
| VMap (m : option (list (bytes * gval)))
| VStruct (fs : list gval)
| VPtr (p : option gval)
| VIface (p : option (gtype * gval)).

(** [reflect.Zero]. *)
Fixpoint zero (t : gtype) : gval :=
  match t with
  | TInt _ => VInt 0
  | TUint _ => VUint 0
  | TBool => VBool false
  | TString => VString []
  | TBytes => VBytes None
  | TArray n => VArray (replicate n Byte.x00)
  | TSlice _ => VSlice None
  | TMap _ => VMap None
  | TStruct fs => VStruct ((fun f => zero f.2) <$> fs)
  | TPtr _ => VPtr None
  | TIface => VIface None
  end.

(** [isZero] of encode.go. *)
Fixpoint isZero (v : gval) : bool :=
  match v with
  | VMap m => bool_decide (m = None)
  | VSlice l => bool_decide (l = None)
  | VBytes s => bool_decide (s = None)
  | VArray s => forallb (fun b => bool_decide (b = Byte.x00)) s
  | VStruct fs => forallb isZero fs
  | VInt z | VUint z => z =? 0
  | VBool b => negb b
  | VString s => bool_decide (s = [])
  | VPtr p => bool_decide (p = None)
  | VIface p => bool_decide (p = None)
  end.

(** The name under which a field appears in a dictionary. *)
Definition field_key (f : sfield) : bytes :=
  if bool_decide (sf_bencode f = []) then sf_name f else sf_bencode f.

Definition tag_skip : bytes := bs "-".
Definition tag_omit : bytes := bs "omit".

(** [v.FieldByName]: the position of the field with a name. *)
Fixpoint field_index (fs : list (sfield * gtype)) (name : bytes) : option nat :=
  match fs with
  | [] => None
  | f :: fs => if bool_decide (sf_name f.1 = name) then Some O else S <$> field_index fs name
  end.

(** Assignment to a key of a map. *)
Fixpoint map_set {A} (k : bytes) (x : A) (m : list (bytes * A)) : list (bytes * A) :=
  match m with
  | [] => [(k, x)]
  | (k', y) :: m' =>
      if bytes_ltb k k' then (k, x) :: m
      else if bool_decide (k = k') then (k, x) :: m'
      else (k', y) :: map_set k x m'
  end.

Fixpoint assoc {A} (k : bytes) (m : list (bytes * A)) : option A :=
  match m with
  | [] => None
  | (k', x) :: m => if bool_decide (k = k') then Some x else assoc k m
  end.

(** ** The order of strings *)

Lemma bytes_ltb_irrefl s : bytes_ltb s s = false.
Proof. induction s as [|b s IH]; [done|]. cbn. rewrite Z.ltb_irrefl, IH. by rewrite andb_false_r. Qed.

Lemma bytes_ltb_trans s t u : bytes_ltb s t = true -> bytes_ltb t u = true -> bytes_ltb s u = true.
Proof.
  revert t u. induction s as [|b s IH]; intros [|c t] [|d u]; cbn; try done.
  intros H1 H2. apply orb_true_iff in H1, H2. apply orb_true_iff.
  destruct H1 as [H1|H1], H2 as [H2|H2]; bool_to_prop.
  - left. apply Z.ltb_lt. lia.
  - left. apply Z.ltb_lt. lia.
  - left. apply Z.ltb_lt. lia.
  - right. apply andb_true_iff. split; [apply Z.eqb_eq; lia|by eapply IH].
Qed.

Lemma bytes_ltb_total s t : bytes_ltb s t = false -> s = t \/ bytes_ltb t s = true.
Proof.
  revert t. induction s as [|b s IH]; intros [|c t]; cbn; try (by auto).
  intros H. apply orb_false_iff in H as [H1 H2]. bool_to_prop.
  destruct (Z.ltb_spec (b2z c) (b2z b)); [by right|].
  assert (b2z b = b2z c) as E by lia. rewrite E, Z.eqb_refl in H2. cbn in H2.
  apply b2z_inj in E. subst c. rewrite Z.eqb_refl. cbn.
  destruct (IH _ H2) as [->|]; [by left|by right].
Qed.

Definition bytes_lt (s t : bytes) : Prop := bytes_ltb s t = true.
#[global] Instance bytes_lt_dec s t : Decision (bytes_lt s t).
Proof. unfold bytes_lt. apply _. Defined.
#[global] Instance bytes_lt_strict : StrictOrder bytes_lt.
Proof.
  split.
  - intros s H. unfold bytes_lt in H. by rewrite bytes_ltb_irrefl in H.
  - intros s t u. apply bytes_ltb_trans.
Qed.

(** A map's entries are strictly sorted by key. *)
Definition keys_sorted {A} (m : list (bytes * A)) : Prop := StronglySorted bytes_lt m.*1.

(** Appending an entry whose key is above all others. *)
Lemma map_set_last {A} (m : list (bytes * A)) k x :
  Forall (fun e => bytes_lt e.1 k) m -> map_set k x m = m ++ [(k, x)].
Proof.
  induction 1 as [|[k' y] m Hk _ IH]; [done|]. cbn in *.
  destruct (bytes_ltb k k') eqn:E.
  { exfalso. eapply (irreflexivity bytes_lt). etrans; [exact Hk|exact E]. }
  rewrite bool_decide_false; [by rewrite IH|].
  intros ->. by eapply (irreflexivity bytes_lt).
Qed.

Lemma keys_sorted_app_lt {A} (m1 m2 : list (bytes * A)) k x :
  keys_sorted (m1 ++ (k, x) :: m2) -> Forall (fun e => bytes_lt e.1 k) m1.
Proof.
  unfold keys_sorted. rewrite fmap_app, fmap_cons.
  induction m1 as [|e m1 IH]; cbn; [constructor|].
  intros Hs. inversion Hs as [|? ? Hs' Hf]; subst. constructor; [|by apply IH].
  rewrite Forall_forall in Hf. apply Hf. set_solver.
Qed.

(** ** Induction over types and values, with the hypothesis at every component *)

Section gtype_ind.
Variable P : gtype -> Prop.
Hypothesis Hint : forall w, P (TInt w).
Hypothesis Huint : forall w, P (TUint w).
Hypothesis Hbool : P TBool.
Hypothesis Hstring : P TString.
Hypothesis Hbytes : P TBytes.
Hypothesis Harray : forall n, P (TArray n).
Hypothesis Hslice : forall t, P t -> P (TSlice t).
Hypothesis Hmap : forall t, P t -> P (TMap t).
Hypothesis Hstruct : forall fs, Forall (fun f => P f.2) fs -> P (TStruct fs).
Hypothesis Hptr : forall t, P t -> P (TPtr t).
Hypothesis Hiface : P TIface.

Fixpoint gtype_ind' (t : gtype) : P t :=
  match t with
  | TInt w => Hint w
  | TUint w => Huint w
  | TBool => Hbool
  | TString => Hstring
  | TBytes => Hbytes
  | TArray n => Harray n
  | TSlice t => Hslice t (gtype_ind' t)
  | TMap t => Hmap t (gtype_ind' t)
  | TStruct fs => Hstruct fs
      ((fix go fs := match fs return Forall (fun f => P f.2) fs with
        | [] => List.Forall_nil _
        | f :: fs => List.Forall_cons _ _ _ (gtype_ind' f.2) (go fs)
        end) fs)
  | TPtr t => Hptr t (gtype_ind' t)
  | TIface => Hiface
  end.
End gtype_ind.

(** The number of constructors of a value: the measure for inductions on values. *)
Fixpoint vsize (v : gval) : nat :=
  match v with
  | VSlice (Some l) => S (list_sum (vsize <$> l))
  | VMap (Some m) => S (list_sum ((fun e => vsize e.2) <$> m))
  | VStruct fs => S (list_sum (vsize <$> fs))
  | VPtr (Some x) => S (vsize x)
  | VIface (Some (_, x)) => S (vsize x)
  | _ => 1
  end.

Lemma list_sum_elem (l : list nat) n : n ∈ l -> (n <= list_sum l)%nat.
Proof. unfold list_sum. induction 1; simpl; lia. Qed.
