(* ===== verification/BenDecode.v ===== *)
(** * bencode/decode.go

    The decoder, driven by the type of the destination. The buffer is a
    [bytes.Buffer] with its one-step [UnreadByte]; the recursion is bounded by a
    fuel, and [Decode] supplies one that is proved sufficient in BenTotal.v. *)

From S2P Require Import Prelude Strconv GoValue.

(** ** bytes.Buffer: bytes already read (last one first), bytes left, and
    whether the last operation was a read that [UnreadByte] can undo *)

Record Buffer := mkBuf {
  bread : bytes;
  brest : bytes;
  lastRead : bool;
}.

Inductive derror :=
| EOF
| ErrUnreadByte
| ErrNum (e : num_error)
| IncompatibleTypesError (bencType dataType : bytes)
| UnknownValueError (symbol : byte)
| ErrStringLength
| ErrBoolLength
| ErrBoolSyntax
| ErrMandatoryDup
| ErrDupIncompatible
| ErrNotFilled (names : list bytes)
| LargeBufferErr (RemainingLen : Z).

(** Outcome of a read: a value, an error (with the buffer as the failed read
    left it), a panic, or the end of the model's fuel. *)
Inductive step (A : Type) :=
| SOk (a : A) (b : Buffer)
| SErr (e : derror) (b : Buffer)
| SPanic
| SFuel.
Arguments SOk {A} a b.
Arguments SErr {A} e b.
Arguments SPanic {A}.
Arguments SFuel {A}.

Definition reader (A : Type) : Type := Buffer -> step A.

#[global] Instance reader_ret : MRet reader := fun _ a b => SOk a b.
#[global] Instance reader_bind : MBind reader := fun _ _ f m b =>
  match m b with
  | SOk a b' => f a b'
  | SErr e b' => SErr e b'
  | SPanic => SPanic
  | SFuel => SFuel
  end.

Definition throw {A} (e : derror) : reader A := fun b => SErr e b.
Definition panic {A} : reader A := fun _ => SPanic.
Definition out_of_fuel {A} : reader A := fun _ => SFuel.

Definition blen (b : Buffer) : nat := length (brest b).

Definition ReadByte : reader byte := fun b =>
  match brest b with
  | [] => SErr EOF (mkBuf [] [] false)
  | c :: r => SOk c (mkBuf (c :: bread b) r true)
  end.

Definition UnreadByte : reader unit := fun b =>
  if lastRead b then
    match bread b with
    | [] => SOk tt (mkBuf [] (brest b) false)
    | c :: p => SOk tt (mkBuf p (c :: brest b) false)
    end
  else SErr ErrUnreadByte b.

(** The bytes up to and including the first delimiter, and the rest. *)
Fixpoint split_at_byte (delim : byte) (s : bytes) : option (bytes * bytes) :=
  match s with
  | [] => None
  | c :: s =>
      if bool_decide (c = delim) then Some ([c], s)
      else match split_at_byte delim s with
           | Some (l, r) => Some (c :: l, r)
           | None => None
           end
  end.

Definition ReadString (delim : byte) : reader bytes := fun b =>
  match split_at_byte delim (brest b) with
  | Some (line, r) => SOk line (mkBuf (reverse line ++ bread b) r true)
  | None => SErr EOF (mkBuf (reverse (brest b) ++ bread b) [] true)
  end.

Definition Next (n : Z) : reader bytes := fun b =>
  if n <? 0 then SPanic
  else let k := Z.to_nat (Z.min n (lenZ (brest b))) in
       SOk (take k (brest b))
           (mkBuf (reverse (take k (brest b)) ++ bread b) (drop k (brest b))
                  (negb (k =? 0)%nat)).

Definition lift_num {A} (r : result num_error A) : reader A := fun b =>
  match r with Ok a => SOk a b | Err e => SErr (ErrNum e) b | Panic => SPanic end.

(** ** Elements *)

Definition benElems (b : byte) : bytes :=
  if bool_decide (b = "l"%byte) then bs "list "
  else if bool_decide (b = "d"%byte) then bs "dictionary"
  else if bool_decide (b = "i"%byte) then bs "integer"
  else if bool_decide (b = "s"%byte) then bs "string"
  else [].

Definition benElemBasedOnFirstByte (b : byte) : result derror bytes :=
  if bool_decide (b = "i"%byte) || bool_decide (b = "l"%byte) || bool_decide (b = "d"%byte)
  then Ok (benElems b)
  else if is_digit b then Ok (bs "string")
  else Err (UnknownValueError b).

Definition assertBenElem (what : byte) : reader unit :=
  b ← ReadByte;
  let mismatch : reader unit :=
    match benElemBasedOnFirstByte b with
    | Ok s => throw (IncompatibleTypesError s (benElems what))
    | Err e => throw e
    | Panic => panic
    end in
  if bool_decide (what = "i"%byte) || bool_decide (what = "d"%byte) || bool_decide (what = "l"%byte)
  then if bool_decide (b = what) then mret tt else mismatch
  else if bool_decide (what = "s"%byte)
  then if is_digit b then mret tt else mismatch
  else panic.

Definition checkEnd : reader bool :=
  b ← ReadByte;
  if bool_decide (b = "e"%byte) then mret true
  else (_ ← UnreadByte; mret false).

Definition drop_last (s : bytes) : bytes := take (length s - 1) s.

Definition readBenString : reader bytes :=
  _ ← assertBenElem "s"%byte;
  _ ← UnreadByte;
  lenbytes ← ReadString ":"%byte;
  strLen ← lift_num (ParseInt (drop_last lenbytes));
  str ← Next strLen;
  if lenZ str =? strLen then mret str else throw ErrStringLength.

Definition readBenInt : reader Z :=
  _ ← assertBenElem "i"%byte;
  benInt ← ReadString "e"%byte;
  lift_num (ParseInt (drop_last benInt)).

Definition readBenUint : reader Z :=
  _ ← assertBenElem "i"%byte;
  benInt ← ReadString "e"%byte;
  lift_num (ParseUint (drop_last benInt)).

(** strconv.ParseBool *)
Definition ParseBool (s : bytes) : result derror bool :=
  if bool_decide (s ∈ [bs "1"; bs "t"; bs "T"; bs "true"; bs "TRUE"; bs "True"]) then Ok true
  else if bool_decide (s ∈ [bs "0"; bs "f"; bs "F"; bs "false"; bs "FALSE"; bs "False"]) then Ok false
  else Err ErrBoolSyntax.

Definition readBenBool : reader bool :=
  _ ← assertBenElem "i"%byte;
  benInt ← ReadString "e"%byte;
  match benInt with
  | [c] => match ParseBool [c] with Ok v => mret v | Err e => throw e | Panic => panic end
  | _ => throw ErrBoolLength
  end.

(** ** Struct fields *)

(** strings.Split(s, "?") *)
Fixpoint split_question (s : bytes) : list bytes :=
  match s with
  | [] => [[]]
  | c :: s =>
      let rest := split_question s in
      if bool_decide (c = "?"%byte) then [] :: rest
      else match rest with
           | n :: names => (c :: n) :: names
           | [] => [[c]]
           end
  end.

(** Mandatory field names, and the field names of each dictionary key joined
    with "?". *)
Fixpoint structInfo_loop (fs : list (sfield * gtype)) (nonOmit : list bytes)
    (fnames : list (bytes * bytes)) : list bytes * list (bytes * bytes) :=
  match fs with
  | [] => (nonOmit, fnames)
  | (sf, _) :: fs =>
      if bool_decide (sf_bencode sf = tag_skip) then structInfo_loop fs nonOmit fnames
      else
        let nonOmit' := if bool_decide (sf_empty sf = tag_omit) then nonOmit
                        else nonOmit ++ [sf_name sf] in
        let key := field_key sf in
        let fnames' := match assoc key fnames with
                       | Some v => map_set key (v ++ bs "?" ++ sf_name sf) fnames
                       | None => map_set key (sf_name sf) fnames
                       end in
        structInfo_loop fs nonOmit' fnames'
  end.

Definition structInfo (fs : list (sfield * gtype)) : list bytes * list (bytes * bytes) :=
  structInfo_loop fs [] [].

Definition remove_name (n : bytes) (l : list bytes) : list bytes :=
  filter (fun m => m <> n) l.

(** Undo the reads of a failed attempt, one [UnreadByte] per byte. *)
Fixpoint unread_loop (n : nat) : reader unit :=
  match n with
  | O => mret tt
  | S n => _ ← UnreadByte; unread_loop n
  end.

(** ** The decoder *)

(** The value an interface receives for a first byte, before decoding. *)
Definition nil_interface_target (b : byte) : option (gtype * gval) :=
  if bool_decide (b = "i"%byte) then Some (TInt 64, VInt 0)
  else if is_digit b then Some (TString, VString [])
  else if bool_decide (b = "l"%byte) then Some (TSlice TIface, VSlice (Some []))
  else if bool_decide (b = "d"%byte) then Some (TMap TIface, VMap (Some []))
  else None.

Definition setNilInterface (dec : gtype -> gval -> reader gval) (t : gtype) (v : gval) : reader gval :=
  _ ← UnreadByte;
  v' ← dec t v;
  mret (VIface (Some (t, v'))).

Definition handleNilInterface (dec : gtype -> gval -> reader gval) : reader gval :=
  b ← ReadByte;
  match nil_interface_target b with
  | Some (t, v) => setNilInterface dec t v
  | None => throw (UnknownValueError b)
  end.

(** A key shared by several fields: try them in order, rewinding after a
    failure. [vals] are the values of the struct's fields. Only one byte can be
    unread, so an attempt that is followed by another one failed on its first
    byte and has stored nothing. *)
Fixpoint dup_loop (dec : gtype -> gval -> reader gval) (fs : list (sfield * gtype))
    (nonOmit : list bytes) (vals : list gval) (names : list bytes) : reader (list gval) :=
  match names with
  | [] => throw ErrDupIncompatible
  | fname :: names =>
      if bool_decide (fname ∈ nonOmit) then throw ErrMandatoryDup
      else
        match field_index fs fname with
        | None => panic
        | Some i =>
            match fs !! i, vals !! i with
            | Some (_, t), Some fv => fun b =>
                match dec t fv b with
                | SOk v b' => SOk (<[i := v]> vals) b'
                | SErr _ b' =>
                    (_ ← unread_loop (blen b - blen b'); dup_loop dec fs nonOmit vals names) b'
                | SPanic => SPanic
                | SFuel => SFuel
                end
            | _, _ => panic
            end
        end
  end.

(** readBenDictMap stores its one elemVal under every key, so entries share what elemVal refers to:
    an entry [x] that has been stored before sees what later values write into the map or behind
    the pointer that it has in common with elemVal, which is [e] now. *)
Fixpoint shared (t : gtype) (x e : gval) : gval :=
  match t, x, e with
  | TMap _, VMap (Some _), _ => e
  | TPtr _, VPtr (Some _), _ => e
  | TStruct fs, VStruct xs, VStruct es =>
      VStruct ((fix go (fs : list (sfield * gtype)) (xs es : list gval) : list gval :=
         match fs, xs, es with
         | f :: fs, x :: xs, e :: es => shared f.2 x e :: go fs xs es
         | _, _, _ => xs
         end) fs xs es)
  | _, _, _ => x
  end.

(** The entries that have been stored under the keys [ks]. *)
Definition share_entries (t : gtype) (ks : list bytes) (e : gval) (m : list (bytes * gval)) : list (bytes * gval) :=
  (fun kx => (kx.1, if bool_decide (kx.1 ∈ ks) then shared t kx.2 e else kx.2)) <$> m.

Fixpoint decode (fuel : nat) (t : gtype) (v : gval) : reader gval :=
  match fuel with
  | O => out_of_fuel
  | S fuel =>
      match t, v with
      | TIface, _ => handleNilInterface (decode fuel)
      | TPtr t, VPtr None => e ← decode fuel t (zero t); mret (VPtr (Some e))
      | TPtr t, VPtr (Some x) => e ← decode fuel t x; mret (VPtr (Some e))
      | TInt w, _ => num ← readBenInt; mret (VInt (wrapS w num))
      | TUint w, _ => num ← readBenUint; mret (VUint (wrapU w num))
      | TBool, _ => b ← readBenBool; mret (VBool b)
      | TString, _ => s ← readBenString; mret (VString s)
      | TBytes, _ => s ← readBenString; mret (VBytes (Some s))
      | TSlice t, VSlice l => _ ← assertBenElem "l"%byte; readBenList fuel t l
      | TMap t, VMap m => _ ← assertBenElem "d"%byte; readBenDictMap fuel t (zero t) [] m
      | TStruct fs, VStruct vals =>
          _ ← assertBenElem "d"%byte;
          let '(nonOmit, fnames) := structInfo fs in
          readBenDictStruct fuel fs fnames nonOmit vals
      | TArray _, _ => mret v
      | _, _ => panic
      end
  end
(** the loop of readBenList: elements are appended until an 'e' *)
with readBenList (fuel : nat) (t : gtype) (l : option (list gval)) : reader gval :=
  match fuel with
  | O => out_of_fuel
  | S fuel =>
      fin ← checkEnd;
      if fin : bool then mret (VSlice l)
      else (e ← decode fuel t (zero t); readBenList fuel t (Some (default [] l ++ [e])))
  end
(** the loop of readBenDictMap: one destination for all the values, which have been stored under [ks] *)
with readBenDictMap (fuel : nat) (t : gtype) (elemVal : gval) (ks : list bytes)
    (m : option (list (bytes * gval))) : reader gval :=
  match fuel with
  | O => out_of_fuel
  | S fuel =>
      fin ← checkEnd;
      if fin : bool then mret (VMap m)
      else (k ← readBenString;
            e ← decode fuel t elemVal;
            readBenDictMap fuel t e (k :: ks) (Some (map_set k e (share_entries t ks e (default [] m)))))
  end
(** the loop of readBenDictStruct *)
with readBenDictStruct (fuel : nat) (fs : list (sfield * gtype)) (fnames : list (bytes * bytes))
    (nonOmit : list bytes) (vals : list gval) : reader gval :=
  match fuel with
  | O => out_of_fuel
  | S fuel =>
      fin ← checkEnd;
      if fin : bool then
        (if bool_decide (nonOmit = []) then mret (VStruct vals) else throw (ErrNotFilled nonOmit))
      else
        (benKey ← readBenString;
         match assoc benKey fnames with
         | None => _ ← handleNilInterface (decode fuel); readBenDictStruct fuel fs fnames nonOmit vals
         | Some fname =>
             match split_question fname with
             | [_] =>
                 match field_index fs fname with
                 | None => panic
                 | Some i =>
                     match fs !! i, vals !! i with
                     | Some (_, t), Some fv =>
                         v ← decode fuel t fv;
                         readBenDictStruct fuel fs fnames (remove_name fname nonOmit) (<[i := v]> vals)
                     | _, _ => panic
                     end
                 end
             | names =>
                 vals' ← dup_loop (decode fuel) fs nonOmit vals names;
                 readBenDictStruct fuel fs fnames nonOmit vals'
             end
         end)
  end.

(** ** Entry point *)

(** The fuel a type needs beyond eight units per byte of input. *)
Fixpoint type_fuel (t : gtype) : Z :=
  match t with
  | TSlice t | TMap t => Z.max 1 (type_fuel t - 6)
  | TStruct fs => foldr (fun f acc => Z.max (type_fuel f.2) acc) 2 fs
  | TPtr t => 1 + type_fuel t
  | TIface => 2
  | _ => 1
  end.

Definition decode_fuel (t : gtype) (data : bytes) : nat :=
  Z.to_nat (8 * lenZ data + type_fuel t).

(** [Decode(data, &v)] for a destination of type [t] that holds [v]. [Ok (v', e)]:
    the value was read, the destination holds [v'], and [e] is the error about the
    bytes left over, if any. [Err e]: the decoder failed with [e]; what it had
    already stored in the destination is not part of the result. *)
Definition Decode (data : bytes) (t : gtype) (v : gval) : result derror (gval * option derror) :=
  match decode (decode_fuel t data) t v (mkBuf [] data false) with
  | SOk v' b =>
      match ReadByte b with
      | SOk _ b' => Ok (v', Some (LargeBufferErr (Z.of_nat (blen b') + 1)))
      | _ => Ok (v', None)
      end
  | SErr e _ => Err e
  | SPanic | SFuel => Panic
  end.
