(* ===== verification/BenEncode.v ===== *)
(** * bencode/encode.go

    The encoder. Struct fields and map entries are written in increasing order
    of their keys; [Err] is the error of an unsupported type. *)

From S2P Require Import Prelude Strconv GoValue.

Inductive eerror := ErrUnsupportedType.

Definition enc_string (s : bytes) : bytes := Itoa (lenZ s) ++ bs ":" ++ s.

(** [handleNilPtr]: what a nil pointer to a type writes. *)
Definition handleNilPtr (e : gtype) : bytes :=
  match e with
  | TInt _ => bs "i0e"
  | TSlice _ => bs "le"
  | TBytes => bs "0:"
  | TString => bs "0:"
  | TStruct _ => bs "de"
  | _ => []
  end.

(** sort.Sort by key: insertion of an entry before the first greater key. *)
Fixpoint insert_key {A} (k : bytes) (x : A) (l : list (bytes * A)) : list (bytes * A) :=
  match l with
  | [] => [(k, x)]
  | (k', y) :: l' =>
      if bytes_ltb k k' then (k, x) :: l else (k', y) :: insert_key k x l'
  end.

Definition sort_keys {A} (l : list (bytes * A)) : list (bytes * A) :=
  foldr (fun e acc => insert_key e.1 e.2 acc) [] l.

(** The written entries of a dictionary, stopping at the first error. *)
Fixpoint enc_entries (l : list (bytes * result eerror bytes)) : result eerror bytes :=
  match l with
  | [] => Ok []
  | (k, r) :: l => x ← r; rest ← enc_entries l; Ok (enc_string k ++ x ++ rest)
  end.

Fixpoint enc_all (l : list (result eerror bytes)) : result eerror bytes :=
  match l with
  | [] => Ok []
  | r :: l => x ← r; rest ← enc_all l; Ok (x ++ rest)
  end.

(** A field that is not written: tagged "-", or empty and tagged "omit". *)
Definition field_skipped (f : sfield) (v : gval) : bool :=
  bool_decide (sf_bencode f = tag_skip) || (bool_decide (sf_empty f = tag_omit) && isZero v).

Fixpoint encode (t : gtype) (v : gval) {struct v} : result eerror bytes :=
  match t, v with
  | TPtr t, VPtr None => Ok (handleNilPtr t)
  | TPtr t, VPtr (Some x) => encode t x
  | TIface, VIface None => Ok []
  | TIface, VIface (Some (t, x)) => encode t x
  | TInt _, VInt z => Ok (bs "i" ++ FormatInt z ++ bs "e")
  | TUint _, VUint z => Ok (bs "i" ++ FormatUint z ++ bs "e")
  | TBool, VBool b => Ok (if b then bs "i1e" else bs "i0e")
  | TString, VString s => Ok (enc_string s)
  | TBytes, VBytes s => Ok (enc_string (default [] s))
  | TSlice _, VSlice None => Ok (bs "le")
  | TSlice t, VSlice (Some l) =>
      body ← enc_all (encode t <$> l); Ok (bs "l" ++ body ++ bs "e")
  | TMap t, VMap None => Ok (bs "de" ++ bs "d" ++ bs "e")
  | TMap t, VMap (Some m) =>
      body ← enc_entries (sort_keys ((fun e => (e.1, encode t e.2)) <$> m));
      Ok (bs "d" ++ body ++ bs "e")
  | TStruct fs, VStruct vals =>
      let empty := if bool_decide (fs = []) then bs "de" else [] in
      let fields :=
        (fix go (fs : list (sfield * gtype)) (vals : list gval) {struct vals} :=
           match fs, vals with
           | (f, t) :: fs, v :: vals =>
               (field_key f, (field_skipped f v, encode t v)) :: go fs vals
           | _, _ => []
           end) fs vals in
      let written := filter (fun e => e.2.1 = false) (sort_keys fields) in
      body ← enc_entries ((fun e => (e.1, e.2.2)) <$> written);
      Ok (empty ++ bs "d" ++ body ++ bs "e")
  | TArray _, _ => Err ErrUnsupportedType
  | _, _ => Panic
  end.

(** The fields of a struct with their keys, in declaration order: whether they
    are skipped, and what they write. *)
Fixpoint struct_fields (fs : list (sfield * gtype)) (vals : list gval)
    : list (bytes * (bool * result eerror bytes)) :=
  match fs, vals with
  | (f, t) :: fs, v :: vals => (field_key f, (field_skipped f v, encode t v)) :: struct_fields fs vals
  | _, _ => []
  end.

(** [Encode(v)]. *)
Definition Encode (t : gtype) (v : gval) : result eerror bytes := encode t v.

Lemma encode_struct fs vals :
  encode (TStruct fs) (VStruct vals) =
  (body ← enc_entries ((fun e => (e.1, e.2.2)) <$>
             filter (fun e => e.2.1 = false) (sort_keys (struct_fields fs vals)));
   Ok ((if bool_decide (fs = []) then bs "de" else []) ++ bs "d" ++ body ++ bs "e")).
Proof.
  cbn [encode].
  assert (forall fs vals,
    (fix go (fs : list (sfield * gtype)) (vals : list gval) {struct vals} :=
       match fs, vals with
       | (f, t) :: fs, v :: vals => (field_key f, (field_skipped f v, encode t v)) :: go fs vals
       | _, _ => []
       end) fs vals = struct_fields fs vals) as E.
  { intros fs'. induction fs' as [|[f t] fs' IH]; intros [|v vals']; try done.
    cbn. by rewrite IH. }
  by rewrite E.
Qed.
