(* ===== verification/BenTotal.v ===== *)
(** * The decoder is total

    On any input and any destination of a supported type, [Decode] neither
    panics nor runs out of fuel: the loops of decode.go end and every field
    lookup succeeds. *)

From S2P Require Import Prelude Strconv GoValue BenDecode.

(** ** Supported types and destinations *)

(** A successful decode into the type reads at least one byte; arrays are
    skipped without reading. *)
Fixpoint consumes (t : gtype) : bool :=
  match t with TArray _ => false | TPtr t => consumes t | _ => true end.

Definition no_question (s : bytes) : bool := forallb (fun c => negb (bool_decide (c = "?"%byte))) s.

Fixpoint type_ok (t : gtype) : bool :=
  match t with
  | TSlice t => consumes t && type_ok t
  | TMap t | TPtr t => type_ok t
  | TStruct fs => forallb (fun f => no_question (sf_name f.1) && type_ok f.2) fs
  | TInt w => 1 <=? w
  | TUint w => 0 <=? w
  | _ => true
  end.

(** The value is one of the type: integers are in range, and elements, entries
    and fields are values of their types. What an interface holds is free. *)
Fixpoint wt (t : gtype) (v : gval) : Prop :=
  match t, v with
  | TInt w, VInt z => in_s w z
  | TUint w, VUint z => in_u w z
  | TArray n, VArray s => length s = n
  | TBool, VBool _ | TString, VString _ | TBytes, VBytes _ | TIface, VIface _ => True
  | TSlice t, VSlice l => Forall (wt t) (default [] l)
  | TMap t, VMap m => Forall (fun e => wt t e.2) (default [] m)
  | TPtr _, VPtr None => True
  | TPtr t, VPtr (Some x) => wt t x
  | TStruct fs, VStruct vals =>
      (fix go (fs : list (sfield * gtype)) (vals : list gval) : Prop :=
         match fs, vals with
         | [], [] => True
         | f :: fs, v :: vals => wt f.2 v /\ go fs vals
         | _, _ => False
         end) fs vals
  | _, _ => False
  end.

Lemma wt_struct fs vals :
  wt (TStruct fs) (VStruct vals) <-> Forall2 (fun f v => wt f.2 v) fs vals.
Proof.
  cbn [wt]. revert vals. induction fs as [|f fs IH]; intros [|v vals].
  - split; [constructor|done].
  - split; [done|inversion 1].
  - split; [done|inversion 1].
  - rewrite IH. split; [intros [??]; by constructor|inversion 1; by subst].
Qed.

Lemma in_s_0 w : 1 <= w -> in_s w 0.
Proof. intros. unfold in_s. pose proof (Z.pow_pos_nonneg 2 (w - 1)). lia. Qed.

Lemma in_u_0 w : 0 <= w -> in_u w 0.
Proof. intros. unfold in_u. pose proof (Z.pow_pos_nonneg 2 w). lia. Qed.

Lemma wt_zero t : type_ok t = true -> wt t (zero t).
Proof.
  induction t as [| | | | |n| | |fs H| |] using gtype_ind'; cbn [type_ok]; intros Hok; try done.
  - by apply in_s_0, Z.leb_le.
  - by apply in_u_0, Z.leb_le.
  - cbn. apply length_replicate.
  - by apply Forall_nil_2.
  - by apply Forall_nil_2.
  - cbn [zero]. apply wt_struct. induction H as [|f fs Hf _ IH]; [constructor|]. cbn in Hok.
    apply andb_true_iff in Hok as [[_ Hok]%andb_true_iff Hfs]. constructor; [by apply Hf|by apply IH].
Qed.

Lemma wt_map_set t k e m :
  wt t e -> Forall (fun e => wt t e.2) m -> Forall (fun e => wt t e.2) (map_set k e m).
Proof.
  intros He. induction 1 as [|[k' y] m Hy Hm IH]; cbn; [by repeat constructor|].
  split_ifs; repeat constructor; try done.
Qed.

Lemma wt_shared t x e : wt t x -> wt t e -> wt t (shared t x e).
Proof.
  revert x e. induction t as [| | | | |n| | |fs Hfs| |] using gtype_ind'; intros x e Hx He; cbn [shared]; try done.
  - by destruct x as [| | | | | | |[]| | |].
  - destruct x as [| | | | | | | |xs| |], e as [| | | | | | | |es| |]; try done. rewrite wt_struct in *.
    revert xs es Hx He. induction Hfs as [|f fs Hf _ IH]; intros xs es Hx He; inversion Hx; inversion He; subst; constructor; auto.
  - by destruct x as [| | | | | | | | |[]|].
Qed.

Lemma wt_share_entries t ks e m :
  wt t e -> Forall (fun e => wt t e.2) m -> Forall (fun e => wt t e.2) (share_entries t ks e m).
Proof.
  intros He Hm. unfold share_entries. rewrite Forall_fmap. eapply Forall_impl; [exact Hm|]. intros [k x] Hx. cbn in *.
  case_bool_decide; [by apply wt_shared|done].
Qed.

(** ** Outcomes that neither panic nor run out of fuel, and that leave at most
    [n - c] bytes after a success and at most [n] after an error *)

Definition good {A} (n c : nat) (P : A -> Prop) (r : step A) : Prop :=
  match r with
  | SOk a b => P a /\ (blen b + c <= n)%nat
  | SErr _ b => (blen b <= n)%nat
  | SPanic | SFuel => False
  end.

Lemma good_bind {A B} n c c' (P : A -> Prop) (Q : B -> Prop) (m : reader A) f b :
  good n c P (m b) ->
  (forall a b', P a -> (blen b' + c <= n)%nat -> good n c' Q (f a b')) ->
  good n c' Q ((m ≫= f) b).
Proof. unfold mbind, reader_bind, good. destruct (m b); [intros [??] Hf; by apply Hf|auto..]. Qed.

Lemma good_weaken {A} n n' c c' (P Q : A -> Prop) r :
  good n c P r -> (n <= n')%nat -> (n + c' <= n' + c)%nat -> (forall a, P a -> Q a) -> good n' c' Q r.
Proof. unfold good. destruct r; [intros [??] ???; split; [auto|lia]|lia|auto..]. Qed.

Lemma good_ret {A} n c (P : A -> Prop) a b :
  P a -> (blen b + c <= n)%nat -> good n c P ((mret a : reader A) b).
Proof. done. Qed.

Lemma good_throw {A} n c (P : A -> Prop) e b : (blen b <= n)%nat -> good n c P (throw e b).
Proof. done. Qed.

Lemma ReadByte_cases b :
  (brest b = [] /\ ReadByte b = SErr EOF (mkBuf [] [] false)) \/
  (exists c r, brest b = c :: r /\ ReadByte b = SOk c (mkBuf (c :: bread b) r true)).
Proof. unfold ReadByte. destruct (brest b) as [|c r]; [by left|right]. by exists c, r. Qed.

Lemma ReadByte_good b : good (blen b) 1 (fun _ => True) (ReadByte b).
Proof.
  unfold blen. destruct (ReadByte_cases b) as [[E ->]|(c & r & E & ->)]; rewrite E; cbn; lia.
Qed.

Lemma split_at_byte_app delim s l r : split_at_byte delim s = Some (l, r) -> s = l ++ r /\ l <> [].
Proof.
  revert l. induction s as [|c s IH]; intros l H; cbn in H; [done|].
  case_bool_decide; [by simplify_eq|].
  destruct (split_at_byte delim s) as [[l' r']|]; [|done]. simplify_eq.
  destruct (IH l') as [-> _]; [done|]. done.
Qed.

Lemma ReadString_good delim b : good (blen b) 1 (fun s => s <> []) (ReadString delim b).
Proof.
  unfold ReadString, blen. destruct (split_at_byte delim (brest b)) as [[l r]|] eqn:E; cbn; [|lia].
  apply split_at_byte_app in E as [-> Hl]. split; [done|].
  rewrite length_app. destruct l; [done|]. cbn. lia.
Qed.

Lemma Next_good n b : 0 <= n -> good (blen b) 0 (fun _ => True) (Next n b).
Proof.
  intros Hn. unfold Next. destruct (Z.ltb_spec n 0); [lia|].
  cbn. unfold blen. cbn. rewrite length_drop. lia.
Qed.

Lemma lift_num_good {A} n (P : A -> Prop) (r : result num_error A) b :
  r <> Panic -> (forall a, r = Ok a -> P a) -> (blen b <= n)%nat -> good n 0 P (lift_num r b).
Proof. intros ???. unfold lift_num. destruct r; cbn; [split; [auto|lia]|done|done]. Qed.

Lemma parse_uint_loop_no_panic acc s : parse_uint_loop acc s <> Panic.
Proof. revert acc. induction s as [|c s IH]; intros acc; cbn; [done|]. split_ifs; done || apply IH. Qed.

Lemma ParseUint_no_panic s : ParseUint s <> Panic.
Proof. destruct s; [done|]. apply parse_uint_loop_no_panic. Qed.

Lemma ParseInt_no_panic s : ParseInt s <> Panic.
Proof.
  unfold ParseInt. destruct s as [|c s]; [done|].
  match goal with |- context [ParseUint ?x] => pose proof (ParseUint_no_panic x); destruct (ParseUint x) end;
    cbn; [|done|done]. by split_ifs.
Qed.

(** A length that starts with a digit is not negative. *)
Lemma parse_uint_loop_nonneg s acc n : 0 <= acc -> parse_uint_loop acc s = Ok n -> 0 <= n.
Proof.
  revert acc. induction s as [|c s IH]; intros acc Ha H; cbn in H; [by simplify_eq|].
  destruct (is_digit c) eqn:Hd; [|done]. apply digit_val_range in Hd.
  destruct (_ <=? _); [done|]. eapply IH; [|exact H]. lia.
Qed.

Lemma ParseInt_digit_nonneg c s n : is_digit c = true -> ParseInt (c :: s) = Ok n -> 0 <= n.
Proof.
  intros Hc. unfold ParseInt. apply is_digit_not_sign in Hc as [??].
  rewrite !bool_decide_false by done. cbn [orb].
  destruct (ParseUint (c :: s)) eqn:E; cbn; [|done|done].
  split_ifs; intros; simplify_eq. by eapply parse_uint_loop_nonneg, E.
Qed.

Lemma assertBenElem_good what b :
  what ∈ ["i"; "d"; "l"; "s"]%byte -> good (blen b) 1 (fun _ => True) (assertBenElem what b).
Proof.
  intros Hw. unfold assertBenElem. eapply good_bind; [apply ReadByte_good|].
  intros c b' _ Hb'.
  assert (Hmis : good (blen b) 1 (fun _ : unit => True)
    (match benElemBasedOnFirstByte c with
     | Ok s => throw (IncompatibleTypesError s (benElems what))
     | Err e => throw e
     | Panic => panic end b')).
  { unfold benElemBasedOnFirstByte. split_ifs; apply good_throw; lia. }
  assert (Hcase : forall x : bool, good (blen b) 1 (fun _ : unit => True)
            ((if x then mret tt else
              match benElemBasedOnFirstByte c with
              | Ok s => throw (IncompatibleTypesError s (benElems what))
              | Err e => throw e
              | Panic => panic end) b')) by (intros []; [by apply good_ret|exact Hmis]).
  rewrite !elem_of_cons, elem_of_nil in Hw.
  destruct Hw as [Hw|[Hw|[Hw|[Hw|[]]]]]; subst what.
  - exact (Hcase (bool_decide (c = "i"%byte))).
  - exact (Hcase (bool_decide (c = "d"%byte))).
  - exact (Hcase (bool_decide (c = "l"%byte))).
  - exact (Hcase (is_digit c)).
Qed.

(** The test of a string's first byte, undone. *)
Lemma assert_unread_string b :
  (exists e b', (assertBenElem "s"%byte ≫= fun _ => UnreadByte) b = SErr e b' /\ (blen b' <= blen b)%nat) \/
  (exists c r, brest b = c :: r /\ is_digit c = true /\
    (assertBenElem "s"%byte ≫= fun _ => UnreadByte) b = SOk tt (mkBuf (bread b) (c :: r) false)).
Proof.
  pose proof (assertBenElem_good "s"%byte b ltac:(set_solver)) as Hg.
  destruct (ReadByte_cases b) as [[E Hr]|(c & r & E & Hr)].
  - left. exists EOF, (mkBuf [] [] false). unfold assertBenElem, mbind, reader_bind. rewrite Hr.
    split; [done|unfold blen; cbn; lia].
  - unfold mbind, reader_bind in *.
    destruct (is_digit c) eqn:Hd.
    + right. exists c, r. split_and!; [done|done|].
      unfold assertBenElem, mbind, reader_bind. rewrite Hr. cbn. by rewrite Hd.
    + left. destruct (assertBenElem "s"%byte b) eqn:Ea; try done.
      * exfalso. unfold assertBenElem, mbind, reader_bind in Ea. rewrite Hr in Ea. cbn in Ea. rewrite Hd in Ea.
        unfold benElemBasedOnFirstByte in Ea. revert Ea. split_ifs; done.
      * by exists e, b0.
Qed.

Lemma readBenString_good b : good (blen b) 1 (fun _ => True) (readBenString b).
Proof.
  unfold readBenString.
  assert (Eassoc : forall A (k : reader A),
    mbind (M := reader) (fun _ => mbind (M := reader) (fun _ => k) UnreadByte) (assertBenElem "s"%byte) b =
    mbind (M := reader) (fun _ => k) (assertBenElem "s"%byte ≫= fun _ => UnreadByte) b).
  { intros. unfold mbind, reader_bind. by destruct (assertBenElem "s"%byte b). }
  rewrite Eassoc.
  destruct (assert_unread_string b) as [(e & b' & E & Hb')|(c & r & Er & Hc & E)].
  { unfold mbind at 1, reader_bind at 1. rewrite E. exact Hb'. }
  unfold mbind at 1, reader_bind at 1. rewrite E.
  assert (blen b = S (length r)) as Hlen by (unfold blen; by rewrite Er).
  unfold mbind at 1, reader_bind at 1. unfold ReadString. cbn [brest bread].
  cbn [split_at_byte]. rewrite bool_decide_false by (intros ->; done).
  destruct (split_at_byte ":"%byte r) as [[l r']|] eqn:Es; [|cbn; unfold blen; cbn; lia].
  apply split_at_byte_app in Es as [-> Hl].
  assert (drop_last (c :: l) = c :: drop_last l) as ->.
  { unfold drop_last. destruct l as [|d l]; [done|]. cbn. by rewrite Nat.sub_0_r. }
  rewrite length_app in Hlen. destruct l as [|d l]; [done|].
  eapply good_bind with (c := 1%nat) (P := fun n => 0 <= n).
  - unfold lift_num. destruct (ParseInt _) eqn:Ep.
    + split; [by eapply ParseInt_digit_nonneg|]. unfold blen in *; cbn in *; lia.
    + unfold good, blen in *; cbn in *; lia.
    + by apply ParseInt_no_panic in Ep.
  - intros n b' Hn Hb'. eapply good_bind with (c := 1%nat) (P := fun _ => True).
    + eapply good_weaken; [by apply Next_good|lia|lia|done].
    + intros s b'' _ Hb''. destruct (_ =? _); [by apply good_ret|apply good_throw; lia].
Qed.

Lemma readBen_number_good {A} (parse : bytes -> result num_error A) b :
  (forall s, parse s <> Panic) ->
  good (blen b) 1 (fun _ => True)
    ((_ ← assertBenElem "i"%byte; benInt ← ReadString "e"%byte; lift_num (parse (drop_last benInt))) b).
Proof.
  intros Hp. eapply good_bind; [apply assertBenElem_good; set_solver|].
  intros _ b' _ Hb'. eapply good_bind with (c := 1%nat) (P := fun _ => True).
  - eapply good_weaken; [apply ReadString_good|lia|lia|done].
  - intros s b'' _ Hb''. unfold lift_num. specialize (Hp (drop_last s)).
    destruct (parse (drop_last s)); cbn; naive_solver lia.
Qed.

Lemma readBenBool_good b : good (blen b) 1 (fun _ => True) (readBenBool b).
Proof.
  unfold readBenBool. eapply good_bind; [apply assertBenElem_good; set_solver|].
  intros _ b' _ Hb'. eapply good_bind with (c := 1%nat) (P := fun _ => True).
  - eapply good_weaken; [apply ReadString_good|lia|lia|done].
  - intros s b'' _ Hb''. destruct s as [|c [|]]; try (apply good_throw; lia).
    unfold ParseBool. split_ifs; (by apply good_ret) || (apply good_throw; lia).
Qed.

Lemma checkEnd_good b : good (blen b) 0 (fun _ => True) (checkEnd b).
Proof.
  unfold checkEnd, mbind, reader_bind.
  destruct (ReadByte_cases b) as [[E ->]|(c & r & E & ->)]; [cbn; lia|].
  unfold blen. rewrite E. case_bool_decide; cbn; lia.
Qed.

Lemma unread_loop_good n b :
  good (blen b + n) 0 (fun _ => True) (unread_loop n b).
Proof.
  revert b. induction n as [|n IH]; intros b; [cbn; lia|].
  cbn [unread_loop]. unfold mbind, reader_bind, UnreadByte.
  destruct (lastRead b); [|unfold good, blen; lia].
  destruct (bread b) as [|c p]; (eapply good_weaken; [apply IH| | |done]); unfold blen; cbn; lia.
Qed.

(** ** Field lookups *)

Lemma split_question_plain s : no_question s = true -> split_question s = [s].
Proof.
  induction s as [|c s IH]; [done|]. cbn. intros [Hc Hs]%andb_true_iff.
  apply negb_true_iff in Hc. rewrite Hc, (IH Hs). done.
Qed.

Lemma split_question_ne s : split_question s <> [].
Proof. destruct s as [|c s]; cbn; [done|]. destruct (split_question s); by case_bool_decide. Qed.

Lemma split_question_single s n : split_question s = [n] -> n = s.
Proof.
  revert n. induction s as [|c s IH]; intros n Eq; cbn in Eq; [congruence|].
  pose proof (split_question_ne s). destruct (split_question s) as [|m l]; [done|].
  case_bool_decide; [done|]. destruct l; [|done]. rewrite (IH m eq_refl) in Eq. congruence.
Qed.

Lemma split_question_join s t :
  no_question t = true -> split_question (s ++ bs "?" ++ t) = split_question s ++ [t].
Proof.
  intros Ht. induction s as [|c s IH]; [cbn; by rewrite split_question_plain|].
  cbn [app split_question]. rewrite IH. case_bool_decide; [done|].
  pose proof (split_question_ne s). by destruct (split_question s).
Qed.

Lemma assoc_map_set {A} k k' (x : A) m :
  assoc k' (map_set k x m) = if bool_decide (k' = k) then Some x else assoc k' m.
Proof.
  induction m as [|[k1 y] m IH]; [done|]. cbn.
  destruct (bytes_ltb k k1) eqn:E; [done|].
  destruct (bool_decide (k = k1)) eqn:Ek; cbn.
  - apply bool_decide_eq_true in Ek as <-. by case_bool_decide.
  - rewrite IH. apply bool_decide_eq_false in Ek.
    destruct (bool_decide (k' = k1)) eqn:Ek1; [|done].
    apply bool_decide_eq_true in Ek1 as ->. by rewrite bool_decide_false.
Qed.

(** The names behind a dictionary key are names of fields. *)
Definition fnames_ok (fs : list (sfield * gtype)) (fnames : list (bytes * bytes)) : Prop :=
  forall k j, assoc k fnames = Some j ->
    Forall (fun n => n ∈ (fun f => sf_name f.1) <$> fs) (split_question j).

Lemma structInfo_loop_ok all fs nonOmit fnames :
  (forall f, f ∈ fs -> f ∈ all) ->
  Forall (fun f => no_question (sf_name f.1) = true) fs ->
  fnames_ok all fnames ->
  fnames_ok all (structInfo_loop fs nonOmit fnames).2.
Proof.
  revert nonOmit fnames. induction fs as [|[sf t] fs IH]; intros nonOmit fnames Hin Hq Hok; [done|].
  apply Forall_cons in Hq as [Hq Hqs]. cbn [structInfo_loop].
  case_bool_decide; [apply IH; set_solver|]. apply IH; [set_solver|done|].
  assert (Hmem : sf_name sf ∈ (fun f => sf_name f.1) <$> all).
  { apply list_elem_of_fmap. exists (sf, t). split; [done|set_solver]. }
  intros k j. destruct (assoc (field_key sf) fnames) as [v|] eqn:E; rewrite assoc_map_set;
    (case_bool_decide; [|apply Hok]); intros Hj.
  - assert (j = v ++ bs "?" ++ sf_name sf) as -> by congruence. rewrite split_question_join by done. apply Forall_app. split; [by eapply Hok|by constructor].
  - assert (j = sf_name sf) as -> by congruence. rewrite split_question_plain by done. by constructor.
Qed.

Lemma structInfo_ok fs :
  Forall (fun f => no_question (sf_name f.1) = true) fs -> fnames_ok fs (structInfo fs).2.
Proof. intros. by apply structInfo_loop_ok. Qed.

Lemma field_index_mem fs n :
  n ∈ (fun f : sfield * gtype => sf_name f.1) <$> fs ->
  exists i f, field_index fs n = Some i /\ fs !! i = Some f.
Proof.
  induction fs as [|f fs IH]; [by intros ?%elem_of_nil|].
  rewrite fmap_cons, elem_of_cons. cbn [field_index]. intros Hn.
  case_bool_decide; [by exists 0%nat, f|].
  destruct Hn as [->|Hn]; [done|]. destruct (IH Hn) as (i & g & -> & Hg). by exists (S i), g.
Qed.

Lemma type_ok_struct fs : type_ok (TStruct fs) = true ->
  Forall (fun f => no_question (sf_name f.1) = true) fs /\ Forall (fun f => type_ok f.2 = true) fs.
Proof.
  cbn. intros H. rewrite forallb_forall in H.
  split; apply Forall_forall; intros f Hf%list_elem_of_In; specialize (H f Hf);
    by apply andb_true_iff in H as [??].
Qed.

Lemma type_fuel_field fs i f :
  fs !! i = Some f -> type_fuel f.2 <= type_fuel (TStruct fs).
Proof.
  cbn. revert i. induction fs as [|g fs IH]; intros [|i] H; try done; cbn in *.
  - simplify_eq. lia.
  - specialize (IH _ H). lia.
Qed.

Lemma type_fuel_pos t : 1 <= type_fuel t.
Proof.
  induction t using gtype_ind'; cbn; try lia.
  induction fs as [|f fs IH]; cbn; [lia|]. inversion H; subst. specialize (IH H3). lia.
Qed.

Lemma type_fuel_struct_ge fs : 2 <= type_fuel (TStruct fs).
Proof. cbn. induction fs as [|f fs IH]; cbn; lia. Qed.

(** ** The induction on the fuel *)

Definition total_decode (fuel : nat) : Prop := forall t v b,
  type_ok t = true -> wt t v -> 8 * Z.of_nat (blen b) + type_fuel t <= Z.of_nat fuel ->
  good (blen b) (if consumes t then 1 else 0) (wt t) (decode fuel t v b).

Definition total_list (fuel : nat) : Prop := forall t l b,
  type_ok t = true -> consumes t = true -> wt (TSlice t) (VSlice l) ->
  8 * Z.of_nat (blen b) + type_fuel t + 1 <= Z.of_nat fuel ->
  good (blen b) 1 (wt (TSlice t)) (readBenList fuel t l b).

Definition total_map (fuel : nat) : Prop := forall t e ks m b,
  type_ok t = true -> wt t e -> wt (TMap t) (VMap m) ->
  8 * Z.of_nat (blen b) + type_fuel t + 1 <= Z.of_nat fuel ->
  good (blen b) 1 (wt (TMap t)) (readBenDictMap fuel t e ks m b).

Definition total_struct (fuel : nat) : Prop := forall fs fnames nonOmit vals b,
  type_ok (TStruct fs) = true -> fnames_ok fs fnames -> wt (TStruct fs) (VStruct vals) ->
  8 * Z.of_nat (blen b) + type_fuel (TStruct fs) + 1 <= Z.of_nat fuel ->
  good (blen b) 1 (wt (TStruct fs)) (readBenDictStruct fuel fs fnames nonOmit vals b).

(** [checkEnd] either ends the loop or leaves the buffer as it was. *)
Lemma checkEnd_cases b :
  (exists e, checkEnd b = SErr e (mkBuf [] [] false)) \/
  (exists b', checkEnd b = SOk true b' /\ S (blen b') = blen b) \/
  (exists b', checkEnd b = SOk false b' /\ brest b' = brest b).
Proof.
  unfold checkEnd, mbind, reader_bind.
  destruct (ReadByte_cases b) as [[E ->]|(c & r & E & ->)]; [left; by eexists|right].
  case_bool_decide.
  - left. eexists. split; [done|]. unfold blen. by rewrite E.
  - right. eexists. split; [done|]. by rewrite E.
Qed.

Lemma nil_interface_target_ok c t v :
  nil_interface_target c = Some (t, v) ->
  type_ok t = true /\ wt t v /\ type_fuel t = 1 /\ consumes t = true.
Proof.
  unfold nil_interface_target.
  split_ifs; intros; simplify_eq; split_and!; try done; try by apply Forall_nil_2.
Qed.

Lemma handleNilInterface_good fuel b :
  total_decode fuel -> 8 * Z.of_nat (blen b) + 1 <= Z.of_nat fuel ->
  good (blen b) 1 (wt TIface) (handleNilInterface (decode fuel) b).
Proof.
  intros IH Hf. unfold handleNilInterface, mbind at 1, reader_bind at 1.
  destruct (ReadByte_cases b) as [[E ->]|(c & r & E & ->)]; [cbn; lia|].
  destruct (nil_interface_target c) as [[t v]|] eqn:Et.
  2:{ apply good_throw. unfold blen. rewrite E. cbn. lia. }
  apply nil_interface_target_ok in Et as (Hok & Hwt & Htf & Hc).
  unfold setNilInterface, mbind at 1, reader_bind at 1. cbn [UnreadByte lastRead bread brest].
  assert (Hb : blen b = blen (mkBuf (bread b) (c :: r) false)) by (unfold blen; by rewrite E).
  rewrite Hb. eapply good_bind.
  - specialize (IH t v (mkBuf (bread b) (c :: r) false) Hok Hwt). rewrite Hc in IH. apply IH.
    rewrite <- Hb. lia.
  - intros v' b' _ Hb'. by apply good_ret.
Qed.

Lemma total_list_step fuel : total_decode fuel -> total_list fuel -> total_list (S fuel).
Proof.
  intros IHd IHl t l b Hok Hc Hl Hf. cbn [readBenList]. unfold mbind at 1, reader_bind at 1.
  destruct (checkEnd_cases b) as [[e ->]|[(b' & -> & Hb)|(b' & -> & Hb)]]; [cbn; lia|by split; [|lia]|].
  assert (Hbb : blen b = blen b') by (unfold blen; by rewrite Hb). rewrite Hbb in Hf |- *.
  eapply good_bind with (c := 1%nat).
  - specialize (IHd t (zero t) b' Hok (wt_zero t Hok)). rewrite Hc in IHd. apply IHd. lia.
  - intros v b'' Hv Hb''. eapply good_weaken; [apply IHl; [done..| |lia]|lia|lia|done].
    cbn [wt default]. apply Forall_app. by repeat constructor.
Qed.

Lemma total_map_step fuel : total_decode fuel -> total_map fuel -> total_map (S fuel).
Proof.
  intros IHd IHm t e ks m b Hok He Hm Hf. cbn [readBenDictMap]. unfold mbind at 1, reader_bind at 1.
  destruct (checkEnd_cases b) as [[e' ->]|[(b' & -> & Hb)|(b' & -> & Hb)]]; [cbn; lia|by split; [|lia]|].
  assert (Hbb : blen b = blen b') by (unfold blen; by rewrite Hb). rewrite Hbb in Hf |- *.
  eapply good_bind; [apply readBenString_good|]. intros k b1 _ Hb1.
  eapply good_bind with (c := 1%nat).
  - eapply good_weaken; [apply (IHd t e b1 Hok He); lia|lia|lia|intros a Ha; exact Ha].
  - intros v b2 Hv Hb2. eapply good_weaken; [apply IHm; [done..| |lia]|lia|lia|done].
    apply wt_map_set; [done|]. by apply wt_share_entries.
Qed.

Lemma wt_struct_lookup fs vals i f :
  wt (TStruct fs) (VStruct vals) -> fs !! i = Some f -> exists v, vals !! i = Some v /\ wt f.2 v.
Proof.
  rewrite wt_struct. intros H Hi. destruct (Forall2_lookup_l _ _ _ _ _ H Hi) as (v & ? & ?).
  by exists v.
Qed.

Lemma wt_struct_insert fs vals i f v :
  wt (TStruct fs) (VStruct vals) -> fs !! i = Some f -> wt f.2 v ->
  wt (TStruct fs) (VStruct (<[i := v]> vals)).
Proof.
  rewrite !wt_struct. intros H Hi Hv.
  rewrite <- (list_insert_id fs i f) by done. by apply Forall2_insert.
Qed.

Lemma dup_loop_good fuel fs nonOmit vals names b :
  total_decode fuel -> type_ok (TStruct fs) = true -> wt (TStruct fs) (VStruct vals) ->
  Forall (fun n => n ∈ (fun f => sf_name f.1) <$> fs) names ->
  8 * Z.of_nat (blen b) + type_fuel (TStruct fs) <= Z.of_nat fuel ->
  good (blen b) 0 (fun vals' => wt (TStruct fs) (VStruct vals'))
    (dup_loop (decode fuel) fs nonOmit vals names b).
Proof.
  intros IHd Hok Hwt Hn. revert b. induction Hn as [|n names Hn _ IH]; intros b Hf.
  { apply good_throw. lia. }
  cbn [dup_loop]. case_bool_decide; [apply good_throw; lia|].
  destruct (field_index_mem fs n Hn) as (i & f & -> & Hi).
  destruct (wt_struct_lookup _ _ _ _ Hwt Hi) as (fv & Hv & Hfv). rewrite Hi, Hv. destruct f as [sf t].
  pose proof (proj2 (type_ok_struct fs Hok)) as Hoks.
  rewrite Forall_forall in Hoks. specialize (Hoks (sf, t) (list_elem_of_lookup_2 _ _ _ Hi)).
  pose proof (type_fuel_field _ _ _ Hi) as Htf. cbn [snd] in *.
  specialize (IHd t fv b Hoks Hfv ltac:(lia)).
  destruct (decode fuel t fv b) as [v b'|e b'| |]; cbn [good] in IHd; [| |done|done].
  - destruct IHd as [Hv' Hb']. split; [by eapply wt_struct_insert|]. destruct (consumes t); lia.
  - unfold mbind, reader_bind.
    pose proof (unread_loop_good (blen b - blen b') b') as Hu.
    destruct (unread_loop (blen b - blen b') b') as [[] b''|e' b''| |]; cbn [good] in Hu; [|unfold good; lia|done|done].
    eapply good_weaken; [apply IH; lia|lia|lia|done].
Qed.

Lemma total_struct_step fuel : total_decode fuel -> total_struct fuel -> total_struct (S fuel).
Proof.
  intros IHd IHs fs fnames nonOmit vals b Hok Hfn Hwt Hf.
  cbn [readBenDictStruct]. unfold mbind at 1, reader_bind at 1.
  destruct (checkEnd_cases b) as [[e' ->]|[(b' & -> & Hb)|(b' & -> & Hb)]]; [cbn; lia| |].
  { case_bool_decide; [apply good_ret; [done|lia]|apply good_throw; lia]. }
  assert (Hbb : blen b = blen b') by (unfold blen; by rewrite Hb). rewrite Hbb in Hf |- *.
  pose proof (type_fuel_struct_ge fs) as Hge.
  eapply good_bind; [apply readBenString_good|]. intros k b1 _ Hb1.
  assert (Hloop : forall no vs b2, wt (TStruct fs) (VStruct vs) -> (blen b2 + 1 <= blen b')%nat ->
    good (blen b') 1 (wt (TStruct fs)) (readBenDictStruct fuel fs fnames no vs b2)).
  { intros no vs b2 Hvs Hb2. eapply good_weaken; [apply IHs; [done..|lia]|lia|lia|done]. }
  destruct (assoc k fnames) as [fname|] eqn:Ek.
  - pose proof (Hfn _ _ Ek) as Hnames.
    assert (Hdup : good (blen b') 1 (wt (TStruct fs))
      ((vals' ← dup_loop (decode fuel) fs nonOmit vals (split_question fname);
        readBenDictStruct fuel fs fnames nonOmit vals') b1)).
    { eapply good_bind with (c := 1%nat).
      - eapply good_weaken; [apply (dup_loop_good fuel fs nonOmit vals (split_question fname) b1); try done; lia|lia|lia|].
        intros a Ha. exact Ha.
      - intros vs b2 Hvs Hb2. apply Hloop; [done|lia]. }
    destruct (split_question fname) as [|n [|n' names]] eqn:Eq; [exact Hdup| |exact Hdup].
    apply split_question_single in Eq as ->.
    inversion Hnames as [|? ? Hn _]; subst.
    destruct (field_index_mem fs fname Hn) as (i & f & -> & Hi).
    destruct (wt_struct_lookup _ _ _ _ Hwt Hi) as (fv & Hv & Hfv). rewrite Hi, Hv. destruct f as [sf t].
    pose proof (proj2 (type_ok_struct fs Hok)) as Hoks.
    rewrite Forall_forall in Hoks. specialize (Hoks (sf, t) (list_elem_of_lookup_2 _ _ _ Hi)).
    pose proof (type_fuel_field _ _ _ Hi) as Htf. cbn [snd] in *.
    eapply good_bind with (c := 1%nat).
    + eapply good_weaken; [apply (IHd t fv b1 Hoks Hfv); lia|lia|lia|intros a Ha; exact Ha].
    + intros v b2 Hv' Hb2. apply Hloop; [by eapply wt_struct_insert|lia].
  - eapply good_bind with (c := 1%nat) (P := fun _ => True).
    + eapply good_weaken; [apply handleNilInterface_good; [done|lia]|lia|lia|done].
    + intros _ b2 _ Hb2. apply Hloop; [done|lia].
Qed.

Lemma total_decode_step fuel :
  total_decode fuel -> total_list fuel -> total_map fuel -> total_struct fuel ->
  total_decode (S fuel).
Proof.
  intros IHd IHl IHm IHs t v b Hok Hwt Hf.
  destruct t; destruct v; cbn [wt] in Hwt; try done; cbn [decode].
  - eapply good_bind; [by apply (readBen_number_good ParseInt), ParseInt_no_panic|].
    intros r b' _ Hb'. apply good_ret; [|done]. by apply wrapS_range, Z.leb_le.
  - eapply good_bind; [by apply (readBen_number_good ParseUint), ParseUint_no_panic|].
    intros r b' _ Hb'. apply good_ret; [|done]. by apply wrapU_range, Z.leb_le.
  - eapply good_bind; [apply readBenBool_good|]. intros r b' _ Hb'. by apply good_ret.
  - eapply good_bind; [apply readBenString_good|]. intros r b' _ Hb'. by apply good_ret.
  - eapply good_bind; [apply readBenString_good|]. intros r b' _ Hb'. by apply good_ret.
  - apply good_ret; [done|cbn; lia].
  - cbn in Hok. apply andb_true_iff in Hok as [Hc Hok]. cbn [type_fuel] in Hf.
    eapply good_bind; [apply assertBenElem_good; set_solver|]. intros _ b' _ Hb'.
    eapply good_weaken; [apply IHl; [done..|lia]|lia|cbn; lia|done].
  - cbn [type_fuel] in Hf. eapply good_bind; [apply assertBenElem_good; set_solver|]. intros _ b' _ Hb'.
    eapply good_weaken; [apply IHm; [done|by apply wt_zero|done|lia]|lia|cbn; lia|done].
  - eapply good_bind; [apply assertBenElem_good; set_solver|]. intros _ b' _ Hb'.
    pose proof (structInfo_ok fs (proj1 (type_ok_struct fs Hok))) as Hfn.
    destruct (structInfo fs) as [nonOmit fnames].
    eapply good_weaken; [apply IHs; [done..|lia]|lia|cbn; lia|done].
  - cbn [type_fuel] in Hf. destruct p as [x|].
    + eapply good_bind; [apply (IHd t x b Hok Hwt); lia|]. intros y b' Hy Hb'. by apply good_ret.
    + eapply good_bind; [apply (IHd t (zero t) b Hok (wt_zero t Hok)); lia|].
      intros y b' Hy Hb'. by apply good_ret.
  - cbn [type_fuel] in Hf. apply handleNilInterface_good; [done|lia].
Qed.

Lemma decode_total fuel : total_decode fuel /\ total_list fuel /\ total_map fuel /\ total_struct fuel.
Proof.
  induction fuel as [|fuel (IHd & IHl & IHm & IHs)].
  - split_and!.
    + intros t v b _ _ Hf. pose proof (type_fuel_pos t). lia.
    + intros t l b _ _ _ Hf. pose proof (type_fuel_pos t). lia.
    + intros t e ks m b _ _ _ Hf. pose proof (type_fuel_pos t). lia.
    + intros fs fnames no vals b _ _ _ Hf. pose proof (type_fuel_struct_ge fs). lia.
  - split_and!.
    + by apply total_decode_step.
    + by apply total_list_step.
    + by apply total_map_step.
    + by apply total_struct_step.
Qed.

Lemma Decode_shape data t v :
  type_ok t = true -> wt t v ->
  match Decode data t v with Ok (v', _) => wt t v' | Err _ => True | Panic => False end.
Proof.
  intros Hok Hwt. unfold Decode.
  pose proof (proj1 (decode_total (decode_fuel t data)) t v (mkBuf [] data false) Hok Hwt) as H.
  pose proof (type_fuel_pos t). unfold decode_fuel in *.
  specialize (H ltac:(unfold blen; cbn [brest]; lia)).
  destruct (decode _ _ _ _) as [a b|e b| |]; cbn [good] in H; [|done..].
  destruct (ReadByte b); apply H.
Qed.

(** ** Slices of what the decoder skips *)

Lemma decode_skips fuel t b : consumes t = false -> decode fuel t (zero t) b = SFuel \/ exists v, decode fuel t (zero t) b = SOk v b.
Proof.
  revert fuel. induction t as [| | | | |n| | |fs _|t IH|] using gtype_ind'; intros [|fuel] Hc; try done; try (by left); [by right; eexists|].
  cbn [decode zero]. unfold mbind, reader_bind. destruct (IH fuel Hc) as [->|[v ->]]; [by left|right]. by eexists.
Qed.

Lemma checkEnd_more c rest prev fl : c <> "e"%byte -> checkEnd (mkBuf prev (c :: rest) fl) = SOk false (mkBuf prev (c :: rest) false).
Proof. intros Hc. unfold checkEnd, mbind, reader_bind, ReadByte. cbn [brest bread]. by rewrite bool_decide_false. Qed.

Lemma list_skips fuel t l prev c rest fl :
  consumes t = false -> c <> "e"%byte -> readBenList fuel t l (mkBuf prev (c :: rest) fl) = SFuel.
Proof.
  intros Ht Hc. revert l fl. induction fuel as [|fuel IH]; intros l fl; [done|]. cbn [readBenList].
  unfold mbind at 1, reader_bind at 1. rewrite checkEnd_more by done. unfold mbind, reader_bind.
  destruct (decode_skips fuel t (mkBuf prev (c :: rest) false) Ht) as [->|[v ->]]; [done|apply IH].
Qed.

(** ** Theorems *)

