(* ===== verification/BenRound.v ===== *)
(** * Round trip of package bencode

    [Decode] reads back what [Encode] writes, for the canonical values of every
    supported type: integers in range, non-nil byte slices, slices and maps that
    are nil or non-empty, structs whose omitted fields are zero, and interfaces
    that hold what the decoder puts into them. *)

From S2P Require Import Prelude Strconv GoValue BenDecode BenEncode BenTotal.

#[local] Set Warnings "-register-all".

(** ** Canonical values *)

(** Decoding into the type replaces whatever the destination holds. *)
Definition overwrites (t : gtype) : bool :=
  match t with TInt _ | TUint _ | TString | TBytes | TIface => true | _ => false end.

Definition short (s : bytes) : Prop := lenZ s < 2 ^ 63.

Definition written_tag (f : sfield) : Prop := sf_bencode f <> tag_skip.

(** Names and keys of a struct's fields identify them. *)
Record struct_ok (fs : list (sfield * gtype)) : Prop := mkStructOk {
  so_ne : fs <> [];
  so_names : NoDup ((fun f => sf_name f.1) <$> fs);
  so_keys : forall i j f g, fs !! i = Some f -> fs !! j = Some g ->
    written_tag f.1 -> written_tag g.1 -> field_key f.1 = field_key g.1 -> i = j;
  so_plain : Forall (fun f => no_question (sf_name f.1) = true) fs;
  so_short : Forall (fun f => short (field_key f.1)) fs;
}.

Inductive canon : gtype -> gval -> Prop :=
| canon_int w z : 1 <= w <= 64 -> in_s w z -> canon (TInt w) (VInt z)
| canon_uint w z : 0 <= w <= 64 -> in_u w z -> canon (TUint w) (VUint z)
| canon_string s : short s -> canon TString (VString s)
| canon_bytes s : short s -> canon TBytes (VBytes (Some s))
| canon_slice_nil t : canon (TSlice t) (VSlice None)
| canon_slice t x l : Forall (canon t) (x :: l) -> canon (TSlice t) (VSlice (Some (x :: l)))
| canon_map t e m : overwrites t = true -> keys_sorted (e :: m) ->
    Forall (fun e => short e.1 /\ canon t e.2) (e :: m) -> canon (TMap t) (VMap (Some (e :: m)))
| canon_struct fs vals : struct_ok fs ->
    Forall2 (fun f v => field_skipped f.1 v = true /\ v = zero f.2 \/
                        field_skipped f.1 v = false /\ canon f.2 v) fs vals ->
    canon (TStruct fs) (VStruct vals)
| canon_ptr t v : canon t v -> canon (TPtr t) (VPtr (Some v))
| canon_iface_int z : in_s 64 z -> canon TIface (VIface (Some (TInt 64, VInt z)))
| canon_iface_string s : short s -> canon TIface (VIface (Some (TString, VString s)))
| canon_iface_list l : Forall (canon TIface) l ->
    canon TIface (VIface (Some (TSlice TIface, VSlice (Some l))))
| canon_iface_dict m : keys_sorted m -> Forall (fun e => short e.1 /\ canon TIface e.2) m ->
    canon TIface (VIface (Some (TMap TIface, VMap (Some m)))).

(** ** Readers that consume exactly a given text *)

Definition reads {A} (m : reader A) (s : bytes) (a : A) : Prop :=
  forall prev rest fl, exists prev' fl',
    m (mkBuf prev (s ++ rest) fl) = SOk a (mkBuf prev' rest fl').

Lemma reads_ret {A} (a : A) : reads (mret a) [] a.
Proof. intros prev rest fl. by exists prev, fl. Qed.

Lemma reads_bind {A B} (m : reader A) (f : A -> reader B) s1 s2 a b :
  reads m s1 a -> reads (f a) s2 b -> reads (m ≫= f) (s1 ++ s2) b.
Proof.
  intros Hm Hf prev rest fl. unfold mbind, reader_bind. rewrite <- app_assoc.
  destruct (Hm prev (s2 ++ rest) fl) as (p1 & f1 & ->). apply Hf.
Qed.

Lemma reads_bind_ret {A B} (m : reader A) (f : A -> B) s a :
  reads m s a -> reads (x ← m; mret (f x)) s (f a).
Proof. intros H. rewrite <- (app_nil_r s). eapply reads_bind; [exact H|apply reads_ret]. Qed.

Lemma split_at_byte_found delim l r :
  delim ∉ l -> split_at_byte delim (l ++ delim :: r) = Some (l ++ [delim], r).
Proof.
  induction l as [|c l IH]; intros Hl; cbn; [by rewrite bool_decide_true|].
  rewrite bool_decide_false by set_solver. by rewrite IH by set_solver.
Qed.

Lemma drop_last_snoc s c : drop_last (s ++ [c]) = s.
Proof. unfold drop_last. rewrite length_app, Nat.add_sub. apply take_app_length. Qed.

Lemma reads_ReadString delim l : delim ∉ l -> reads (ReadString delim) (l ++ [delim]) (l ++ [delim]).
Proof.
  intros Hl prev rest fl. unfold ReadString. cbn [brest].
  rewrite <- app_assoc. cbn [app]. rewrite split_at_byte_found by done. by eexists _, _.
Qed.

Lemma digits_not_in l c : forallb is_digit l = true -> is_digit c = false -> c ∉ l.
Proof.
  intros Hl Hc Hin. rewrite forallb_forall in Hl.
  by rewrite (Hl c) in Hc by by apply list_elem_of_In.
Qed.

Lemma reads_Next s : reads (Next (lenZ s)) s s.
Proof.
  intros prev rest fl. unfold Next. destruct (Z.ltb_spec (lenZ s) 0); [lia|]. cbn [brest].
  replace (Z.to_nat _) with (length s) by (rewrite length_app; lia).
  rewrite take_app_length, drop_app_length. by eexists _, _.
Qed.

Lemma reads_assert what : what ∈ ["i"; "d"; "l"]%byte -> reads (assertBenElem what) [what] tt.
Proof.
  intros Hw prev rest fl. rewrite !elem_of_cons, elem_of_nil in Hw.
  destruct Hw as [Hw|[Hw|[Hw|[]]]]; subst what; by eexists _, _.
Qed.

Lemma enc_string_cons s : exists c r, enc_string s = c :: r /\ is_digit c = true.
Proof.
  unfold enc_string, Itoa, FormatInt. destruct (Z.ltb_spec (lenZ s) 0); [lia|].
  destruct (FormatUint_cons (lenZ s)) as (c & r & -> & Hc & _); [lia|]. by eexists _, _.
Qed.

Lemma reads_string s : short s -> reads readBenString (enc_string s) s.
Proof.
  intros Hs prev rest fl.
  assert (Hp : ParseInt (Itoa (lenZ s)) = Ok (lenZ s)) by (apply ParseInt_FormatInt; unfold in_s, short in *; lia).
  unfold enc_string, Itoa, FormatInt in *. destruct (Z.ltb_spec (lenZ s) 0); [lia|].
  destruct (FormatUint_cons (lenZ s)) as (c & r & E & Hc & Hr); [lia|]. rewrite E in *.
  assert (Hrun : reads (lenbytes ← ReadString ":"%byte;
    strLen ← lift_num (ParseInt (drop_last lenbytes));
    str ← Next strLen;
    if lenZ str =? strLen then mret str else throw ErrStringLength)
    (((c :: r) ++ [":"%byte]) ++ s) s).
  { eapply reads_bind.
    - apply reads_ReadString. apply digits_not_in; [cbn; by rewrite Hc|done].
    - rewrite drop_last_snoc, Hp. cbn [lift_num].
      rewrite <- (app_nil_l s) at 2. eapply reads_bind; [intros ???; by eexists _, _|].
      rewrite <- (app_nil_r s) at 2. eapply reads_bind; [apply reads_Next|].
      rewrite Z.eqb_refl. apply reads_ret. }
  unfold readBenString, mbind at 1, reader_bind at 1.
  unfold assertBenElem at 1, mbind at 1, reader_bind at 1. cbn [ReadByte brest bread app].
  change (bool_decide ("s"%byte = "i"%byte) || bool_decide ("s"%byte = "d"%byte) || bool_decide ("s"%byte = "l"%byte)) with false.
  change (bool_decide ("s"%byte = "s"%byte)) with true. cbn iota. rewrite Hc.
  cbn [mret reader_ret]. unfold mbind at 1, reader_bind at 1. cbn [UnreadByte lastRead bread brest].
  destruct (Hrun prev rest false) as (p' & f' & H'). exists p', f'.
  rewrite <- H'. rewrite <- !app_assoc. done.
Qed.

Lemma reads_number {A} (parse : bytes -> result num_error A) text z :
  "e"%byte ∉ text -> parse text = Ok z ->
  reads (_ ← assertBenElem "i"%byte; benInt ← ReadString "e"%byte; lift_num (parse (drop_last benInt)))
    (bs "i" ++ text ++ bs "e") z.
Proof.
  intros He Hp. eapply reads_bind; [apply reads_assert; set_solver|].
  rewrite <- (app_nil_r (text ++ bs "e")).
  eapply reads_bind; [by apply (reads_ReadString "e"%byte)|].
  rewrite drop_last_snoc, Hp. intros ???. by eexists _, _.
Qed.

Lemma FormatInt_no_e z : "e"%byte ∉ FormatInt z.
Proof. intros H. by apply FormatInt_bytes in H as [|]. Qed.

Lemma reads_int z : in_s 64 z -> reads readBenInt (bs "i" ++ FormatInt z ++ bs "e") z.
Proof. intros. apply (reads_number ParseInt); [apply FormatInt_no_e|by apply ParseInt_FormatInt]. Qed.

Lemma reads_uint z : in_u 64 z -> reads readBenUint (bs "i" ++ FormatUint z ++ bs "e") z.
Proof.
  intros Hz. apply (reads_number ParseUint); [|by apply ParseUint_FormatUint].
  apply digits_not_in; [apply FormatUint_digits; unfold in_u in Hz; lia|done].
Qed.

(** A text that does not start with the end mark. *)
Definition starts (s : bytes) : Prop := exists c r, s = c :: r /\ c <> "e"%byte.

Lemma starts_app s t : starts s -> starts (s ++ t).
Proof. intros (c & r & -> & ?). by exists c, (r ++ t). Qed.

Lemma starts_enc_string s : starts (enc_string s).
Proof. destruct (enc_string_cons s) as (c & r & E & Hc). exists c, r. split; [done|by intros ->]. Qed.

Lemma reads_checkEnd_end {A} (f : bool -> reader A) s a :
  reads (f true) s a -> reads (checkEnd ≫= f) (bs "e" ++ s) a.
Proof. intros. eapply reads_bind; [|done]. intros prev rest fl. by eexists _, _. Qed.

Lemma reads_checkEnd_more {A} (f : bool -> reader A) s a :
  starts s -> reads (f false) s a -> reads (checkEnd ≫= f) s a.
Proof.
  intros (c & r & -> & Hc) Hf prev rest fl.
  unfold mbind, reader_bind. unfold checkEnd, mbind at 1, reader_bind at 1.
  cbn [ReadByte brest bread app]. rewrite bool_decide_false by done.
  unfold mbind, reader_bind. cbn [UnreadByte lastRead bread brest]. apply Hf.
Qed.

Lemma reads_nil_interface dec c s t v0 v :
  nil_interface_target c = Some (t, v0) -> reads (dec t v0) (c :: s) v ->
  reads (handleNilInterface dec) (c :: s) (VIface (Some (t, v))).
Proof.
  intros Ht Hd prev rest fl.
  unfold handleNilInterface, mbind at 1, reader_bind at 1. cbn [ReadByte brest bread app].
  rewrite Ht. unfold setNilInterface, mbind at 1, reader_bind at 1.
  cbn [UnreadByte lastRead bread brest].
  unfold mbind, reader_bind. destruct (Hd prev rest false) as (p & f & E).
  cbn [app] in E. rewrite E. by eexists _, _.
Qed.

(** ** Slices *)

(** The text decodes to the value, with the fuel that [Decode] provides. *)
Definition decodes (t : gtype) (v0 : gval) (s : bytes) (v : gval) : Prop :=
  forall fuel, 8 * lenZ s + type_fuel t <= Z.of_nat fuel -> reads (decode fuel t v0) s v.

Lemma decode_overwrites t fuel v v' : overwrites t = true -> decode fuel t v = decode fuel t v'.
Proof. destruct fuel; [done|]. by destruct t. Qed.

Definition append_all (l : option (list gval)) (vs : list gval) : option (list gval) :=
  foldl (fun acc v => Some (default [] acc ++ [v])) l vs.

Lemma append_all_some l vs : append_all (Some l) vs = Some (l ++ vs).
Proof.
  unfold append_all. revert l. induction vs as [|v vs IH]; intros l; cbn [foldl].
  - by rewrite app_nil_r.
  - rewrite IH. cbn. by rewrite <- app_assoc.
Qed.

Lemma append_all_none v vs : append_all None (v :: vs) = Some (v :: vs).
Proof. apply (append_all_some [v] vs). Qed.

Lemma starts_length s : starts s -> 1 <= lenZ s.
Proof. intros (c & r & -> & _). cbn. lia. Qed.

Lemma reads_list t vs ss :
  Forall2 (fun v s => starts s /\ decodes t (zero t) s v) vs ss ->
  forall l fuel, 8 * lenZ (concat ss) + type_fuel t + 1 <= Z.of_nat fuel ->
  reads (readBenList fuel t l) (concat ss ++ bs "e") (VSlice (append_all l vs)).
Proof.
  induction 1 as [|v s vs ss [Hst Hd] _ IH]; intros l fuel Hf.
  - pose proof (type_fuel_pos t). destruct fuel as [|fuel]; [lia|]. cbn [readBenList concat app].
    rewrite <- (app_nil_r (bs "e")). apply reads_checkEnd_end, reads_ret.
  - pose proof (type_fuel_pos t). destruct fuel as [|fuel]; [lia|]. cbn [readBenList concat] in *.
    rewrite length_app in Hf. pose proof (starts_length s Hst).
    rewrite <- app_assoc. apply reads_checkEnd_more; [by apply starts_app|].
    eapply reads_bind; [apply Hd; lia|]. cbn [append_all foldl]. apply IH. lia.
Qed.

Lemma decodes_slice t vs ss v0 l :
  Forall2 (fun v s => starts s /\ decodes t (zero t) s v) vs ss -> v0 = VSlice l ->
  decodes (TSlice t) v0 (bs "l" ++ concat ss ++ bs "e") (VSlice (append_all l vs)).
Proof.
  intros H -> fuel Hf. pose proof (type_fuel_pos t). rewrite !length_app in Hf. cbn [type_fuel] in Hf.
  change (lenZ (bs "l")) with 1 in Hf. destruct fuel as [|fuel]; [cbn in Hf; lia|].
  cbn [decode]. eapply reads_bind; [apply reads_assert; set_solver|]. apply reads_list; [done|].
  change (length (bs "l")) with 1%nat in Hf. change (length (bs "e")) with 1%nat in Hf. lia.
Qed.

Lemma enc_all_inv rs body :
  enc_all rs = Ok body -> exists ss, Forall2 (fun r s => r = Ok s) rs ss /\ body = concat ss.
Proof.
  revert body. induction rs as [|r rs IH]; intros body H; cbn in H.
  - simplify_eq. exists []. by split; [constructor|].
  - destruct r as [x| |]; cbn in H; try done. destruct (enc_all rs) as [y| |]; cbn in H; try done.
    simplify_eq. destruct (IH y eq_refl) as (ss & Hss & ->). exists (x :: ss). by split; [constructor|].
Qed.

(** ** Dictionaries *)

Lemma enc_entries_inv es body :
  enc_entries es = Ok body ->
  exists ss, Forall2 (fun e s => e.2 = Ok s) es ss /\
    body = concat (zip_with (fun e s => enc_string e.1 ++ s) es ss).
Proof.
  revert body. induction es as [|[k r] es IH]; intros body H; cbn in H.
  - simplify_eq. exists []. by split; [constructor|].
  - destruct r as [x| |]; cbn in H; try done. destruct (enc_entries es) as [y| |]; cbn in H; try done.
    simplify_eq. destruct (IH y eq_refl) as (ss & Hss & ->). exists (x :: ss).
    split; [by constructor|]. cbn. by rewrite <- app_assoc.
Qed.

Lemma insert_key_first {A} k (x : A) l :
  Forall (fun e => bytes_lt k e.1) l -> insert_key k x l = (k, x) :: l.
Proof. destruct 1 as [|[k' y] l Hk _]; [done|]. cbn in *. unfold bytes_lt in Hk. by rewrite Hk. Qed.

Lemma sort_keys_sorted {A} (l : list (bytes * A)) : keys_sorted l -> sort_keys l = l.
Proof.
  unfold keys_sorted. induction l as [|[k x] l IH]; [done|]. rewrite fmap_cons.
  inversion 1 as [|? ? Hs Hf]; subst.
  change (insert_key k x (sort_keys l) = (k, x) :: l). rewrite IH by done.
  apply insert_key_first. by rewrite Forall_fmap in Hf.
Qed.

Lemma insert_key_perm {A} k (x : A) l : insert_key k x l ≡ₚ (k, x) :: l.
Proof.
  induction l as [|[k' y] l IH]; [done|]. cbn. destruct (bytes_ltb k k'); [done|].
  rewrite IH. by constructor.
Qed.

Lemma sort_keys_perm {A} (l : list (bytes * A)) : sort_keys l ≡ₚ l.
Proof.
  induction l as [|[k x] l IH]; [done|].
  change (insert_key k x (sort_keys l) ≡ₚ (k, x) :: l). by rewrite insert_key_perm, IH.
Qed.

Definition set_all (m : option (list (bytes * gval))) (es : list (bytes * gval)) :=
  foldl (fun acc e => Some (map_set e.1 e.2 (default [] acc))) m es.

Lemma set_all_sorted m es : keys_sorted (m ++ es) -> set_all (Some m) es = Some (m ++ es).
Proof.
  unfold set_all. revert m. induction es as [|[k x] es IH]; intros m Hs; cbn [foldl].
  - by rewrite app_nil_r.
  - cbn [default fst snd]. rewrite map_set_last by (by eapply keys_sorted_app_lt).
    rewrite IH by (by rewrite <- app_assoc). by rewrite <- app_assoc.
Qed.

Lemma set_all_sorted_none e es : keys_sorted (e :: es) -> set_all None (e :: es) = Some (e :: es).
Proof. destruct e as [k x]. intros. by apply (set_all_sorted [(k, x)] es). Qed.

Lemma share_overwrites t ks e m : overwrites t = true -> share_entries t ks e m = m.
Proof.
  intros Ho. unfold share_entries. induction m as [|[k x] m IH]; [done|]. rewrite fmap_cons, IH. cbn.
  case_bool_decide; [|done]. by destruct t.
Qed.

Lemma reads_map t es ss :
  overwrites t = true ->
  Forall2 (fun e s => short e.1 /\ decodes t (zero t) s e.2) es ss ->
  forall e0 ks m fuel,
  8 * lenZ (concat (zip_with (fun e s => enc_string e.1 ++ s) es ss)) + type_fuel t + 1 <= Z.of_nat fuel ->
  reads (readBenDictMap fuel t e0 ks m)
    (concat (zip_with (fun e s => enc_string e.1 ++ s) es ss) ++ bs "e") (VMap (set_all m es)).
Proof.
  intros Ho. induction 1 as [|[k v] s es ss [Hk Hd] _ IH]; intros e0 ks m fuel Hf.
  - pose proof (type_fuel_pos t). destruct fuel as [|fuel]; [cbn in Hf; lia|]. cbn [readBenDictMap zip_with concat app].
    rewrite <- (app_nil_r (bs "e")). apply reads_checkEnd_end, reads_ret.
  - pose proof (type_fuel_pos t). destruct fuel as [|fuel]; [lia|].
    cbn [readBenDictMap zip_with concat fst snd] in *.
    rewrite !length_app in Hf. pose proof (starts_length _ (starts_enc_string k)).
    rewrite <- !app_assoc. apply reads_checkEnd_more; [apply starts_app, starts_enc_string|].
    eapply reads_bind; [by apply reads_string|].
    eapply reads_bind; [rewrite (decode_overwrites t fuel e0 (zero t)) by done; apply Hd; lia|].
    cbn [set_all foldl fst snd]. rewrite share_overwrites by done. apply IH. lia.
Qed.

Lemma decodes_map t es ss m :
  overwrites t = true ->
  Forall2 (fun e s => short e.1 /\ decodes t (zero t) s e.2) es ss ->
  decodes (TMap t) (VMap m)
    (bs "d" ++ concat (zip_with (fun e s => enc_string e.1 ++ s) es ss) ++ bs "e") (VMap (set_all m es)).
Proof.
  intros Ho H fuel Hf. pose proof (type_fuel_pos t). rewrite !length_app in Hf. cbn [type_fuel] in Hf.
  change (length (bs "d")) with 1%nat in Hf. change (length (bs "e")) with 1%nat in Hf.
  destruct fuel as [|fuel]; [lia|].
  cbn [decode]. eapply reads_bind; [apply reads_assert; set_solver|]. apply reads_map; [done|done|]. lia.
Qed.

(** ** Structs *)

Definition keys_distinct (fs : list (sfield * gtype)) : Prop :=
  forall i j f g, fs !! i = Some f -> fs !! j = Some g ->
    written_tag f.1 -> written_tag g.1 -> field_key f.1 = field_key g.1 -> i = j.

Lemma keys_distinct_cons f fs :
  keys_distinct (f :: fs) ->
  keys_distinct fs /\
  forall g, g ∈ fs -> written_tag f.1 -> written_tag g.1 -> field_key f.1 <> field_key g.1.
Proof.
  intros H. split.
  - intros i j g h Hi Hj Hg Hh E. specialize (H (S i) (S j) g h Hi Hj Hg Hh E). lia.
  - intros g Hg Hf Hgw E. apply list_elem_of_lookup in Hg as [j Hj].
    by specialize (H 0%nat (S j) f g eq_refl Hj Hf Hgw E).
Qed.

Lemma structInfo_loop_mandatory fs no fn n :
  n ∈ (structInfo_loop fs no fn).1 ->
  n ∈ no \/ exists f, f ∈ fs /\ n = sf_name f.1 /\ written_tag f.1 /\ sf_empty f.1 <> tag_omit.
Proof.
  revert no fn. induction fs as [|[sf t] fs IH]; intros no fn Hn; cbn [structInfo_loop] in Hn; [by left|].
  case_bool_decide as Hskip.
  { destruct (IH _ _ Hn) as [|(f & ? & ?)]; [by left|right]. exists f. set_solver. }
  destruct (IH _ _ Hn) as [Hin|(f & ? & ?)]; [|right; exists f; set_solver].
  case_bool_decide as Ho; [by left|]. apply elem_of_app in Hin as [|Hin]; [by left|right].
  exists (sf, t). cbn. set_solver.
Qed.

Lemma structInfo_loop_other fs no fn k :
  (forall f, f ∈ fs -> written_tag f.1 -> field_key f.1 <> k) ->
  assoc k (structInfo_loop fs no fn).2 = assoc k fn.
Proof.
  revert no fn. induction fs as [|[sf t] fs IH]; intros no fn Hk; cbn [structInfo_loop]; [done|].
  case_bool_decide as Hskip; [apply IH; set_solver|].
  rewrite IH by set_solver.
  assert (k <> field_key sf) by (intros ->; by eapply (Hk (sf, t)); [set_solver| |]).
  destruct (assoc (field_key sf) fn); rewrite assoc_map_set, bool_decide_false; done.
Qed.

Lemma structInfo_loop_key fs no fn f :
  keys_distinct fs -> (forall g, g ∈ fs -> written_tag g.1 -> assoc (field_key g.1) fn = None) ->
  f ∈ fs -> written_tag f.1 ->
  assoc (field_key f.1) (structInfo_loop fs no fn).2 = Some (sf_name f.1).
Proof.
  revert no fn. induction fs as [|[sf t] fs IH]; intros no fn Hd Hn Hf Hw; [set_solver|].
  apply keys_distinct_cons in Hd as [Hd Hne]. cbn [structInfo_loop].
  case_bool_decide as Hskip.
  { apply IH; [done|set_solver| |done]. apply elem_of_cons in Hf as [->|]; [done|done]. }
  assert (assoc (field_key sf) fn = None) as -> by (apply (Hn (sf, t)); [set_solver|done]).
  apply elem_of_cons in Hf as [->|Hf].
  - rewrite structInfo_loop_other; [by rewrite assoc_map_set, bool_decide_true|].
    intros g Hg Hgw E. symmetry in E. revert E. by apply (Hne g).
  - apply IH; [done| |done|done]. intros g Hg Hgw. rewrite assoc_map_set, bool_decide_false.
    + apply Hn; [set_solver|done].
    + intros E. symmetry in E. revert E. by apply (Hne g).
Qed.

Lemma field_index_lookup fs i f :
  NoDup ((fun f : sfield * gtype => sf_name f.1) <$> fs) -> fs !! i = Some f ->
  field_index fs (sf_name f.1) = Some i.
Proof.
  revert i. induction fs as [|g fs IH]; intros [|i] Hnd Hi; try done; cbn in *; simplify_eq.
  - by rewrite bool_decide_true.
  - apply NoDup_cons in Hnd as [Hni Hnd]. rewrite bool_decide_false; [by rewrite (IH i)|].
    intros E. apply Hni. rewrite E. apply list_elem_of_fmap. exists f. split; [done|].
    by eapply list_elem_of_lookup_2.
Qed.

(** The fields after the assignments of the loop. *)
Definition assign_all (target vals : list gval) (es : list (bytes * nat)) : list gval :=
  foldl (fun vs e => match target !! e.2 with Some v => <[e.2 := v]> vs | None => vs end) vals es.

Lemma assign_all_lookup target es vals i :
  length vals = length target ->
  assign_all target vals es !! i = if decide (i ∈ es.*2) then target !! i else vals !! i.
Proof.
  unfold assign_all. revert vals. induction es as [|[k j] es IH]; intros vals Hl; cbn [foldl fmap list_fmap].
  { rewrite decide_False by set_solver. done. }
  cbn [snd]. rewrite IH by (destruct (target !! j); rewrite ?length_insert; done).
  destruct (decide (i ∈ es.*2)) as [Hin|Hni]; [by rewrite decide_True by set_solver|].
  destruct (decide (i = j)) as [->|Hne].
  - rewrite decide_True by set_solver. destruct (target !! j) as [v|] eqn:E; [|].
    + apply list_lookup_insert_eq. rewrite Hl. by eapply lookup_lt_Some.
    + apply lookup_ge_None in E. apply lookup_ge_None. lia.
  - rewrite decide_False by set_solver. destruct (target !! j); [|done].
    by apply list_lookup_insert_ne.
Qed.

(** What the loop needs of an entry that was written for a field. *)
Definition entry_ok (fs : list (sfield * gtype)) (fnames : list (bytes * bytes)) (target : list gval)
    (e : bytes * nat) (s : bytes) : Prop :=
  exists f v, fs !! e.2 = Some f /\ target !! e.2 = Some v /\ e.1 = field_key f.1 /\
    assoc (field_key f.1) fnames = Some (sf_name f.1) /\ no_question (sf_name f.1) = true /\
    field_index fs (sf_name f.1) = Some e.2 /\ short (field_key f.1) /\
    decodes f.2 (zero f.2) s v.

Lemma reads_struct fs fnames target es ss :
  Forall2 (entry_ok fs fnames target) es ss -> NoDup es.*2 ->
  forall vals nonOmit fuel,
  (forall i f, i ∈ es.*2 -> fs !! i = Some f -> vals !! i = Some (zero f.2)) ->
  (forall n, n ∈ nonOmit -> exists i f, i ∈ es.*2 /\ fs !! i = Some f /\ sf_name f.1 = n) ->
  8 * lenZ (concat (zip_with (fun e s => enc_string e.1 ++ s) es ss)) + type_fuel (TStruct fs) + 1
    <= Z.of_nat fuel ->
  reads (readBenDictStruct fuel fs fnames nonOmit vals)
    (concat (zip_with (fun e s => enc_string e.1 ++ s) es ss) ++ bs "e")
    (VStruct (assign_all target vals es)).
Proof.
  pose proof (type_fuel_struct_ge fs) as Hge.
  induction 1 as [|[k i] s es ss Hok _ IH]; intros Hnd vals nonOmit fuel Hz Hno Hf.
  - destruct fuel as [|fuel]; [lia|]. cbn [readBenDictStruct zip_with concat app].
    rewrite <- (app_nil_r (bs "e")). apply reads_checkEnd_end.
    rewrite bool_decide_true; [apply reads_ret|].
    destruct nonOmit as [|n no]; [done|]. destruct (Hno n) as (i & f & Hi & _); set_solver.
  - destruct Hok as (f & v & Hfi & Hti & Hk & Has & Hq & Hix & Hsh & Hd). cbn [fst snd] in *. subst k.
    destruct fuel as [|fuel]; [lia|]. cbn [readBenDictStruct zip_with concat fst] in *.
    rewrite !length_app in Hf. pose proof (starts_length _ (starts_enc_string (field_key f.1))).
    rewrite <- !app_assoc. apply reads_checkEnd_more; [apply starts_app, starts_enc_string|].
    eapply reads_bind; [by apply reads_string|].
    rewrite Has, split_question_plain, Hix, Hfi by done.
    rewrite (Hz i f) by (set_solver || done). destruct f as [sf t]. cbn [fst snd] in *.
    rewrite fmap_cons, NoDup_cons in Hnd. destruct Hnd as [Hni Hnd].
    pose proof (type_fuel_field _ _ _ Hfi) as Htf. cbn [snd] in Htf.
    eapply reads_bind; [apply Hd; lia|].
    replace (assign_all target vals ((field_key sf, i) :: es)) with (assign_all target (<[i:=v]> vals) es)
      by (unfold assign_all; cbn [foldl snd]; by rewrite Hti).
    apply IH; [done| | |lia].
    + intros j g Hj Hg. rewrite list_lookup_insert_ne by (intros ->; done). apply Hz; [set_solver|done].
    + intros n Hn. unfold remove_name in Hn. apply list_elem_of_filter in Hn as [Hnn Hn].
      destruct (Hno n Hn) as (j & g & Hj & Hg & <-). exists j, g. split; [|done].
      rewrite fmap_cons, elem_of_cons in Hj. destruct Hj as [->|]; [|done].
      cbn in Hg. rewrite Hfi in Hg. by simplify_eq.
Qed.

Lemma insert_key_fmap {A B} (g : A -> B) k x l :
  insert_key k (g x) ((fun e => (e.1, g e.2)) <$> l) = (fun e => (e.1, g e.2)) <$> insert_key k x l.
Proof.
  induction l as [|[k' y] l IH]; [done|]. cbn. destruct (bytes_ltb k k'); [done|]. cbn. by f_equal.
Qed.

Lemma sort_keys_fmap {A B} (g : A -> B) l :
  sort_keys ((fun e => (e.1, g e.2)) <$> l) = (fun e => (e.1, g e.2)) <$> sort_keys l.
Proof.
  induction l as [|[k x] l IH]; [done|]. rewrite fmap_cons.
  change (insert_key k (g x) (sort_keys ((fun e => (e.1, g e.2)) <$> l)) =
          (fun e => (e.1, g e.2)) <$> insert_key k x (sort_keys l)).
  by rewrite IH, insert_key_fmap.
Qed.

(** The fields by position. *)
Definition indexed (fs : list (sfield * gtype)) : list (bytes * nat) :=
  imap (fun i f => (field_key f.1, i)) fs.

Definition field_data (fs : list (sfield * gtype)) (vals : list gval) (i : nat)
    : bool * result eerror bytes :=
  match fs !! i, vals !! i with
  | Some f, Some v => (field_skipped f.1 v, encode f.2 v)
  | _, _ => (true, Panic)
  end.

Lemma struct_fields_lookup fs vals i :
  length fs = length vals ->
  struct_fields fs vals !! i = (fun f => (field_key f.1, field_data fs vals i)) <$> fs !! i.
Proof.
  unfold field_data. revert vals i.
  induction fs as [|[f t] fs IH]; intros [|v vals] [|i] Hl; try done; cbn in *.
  apply IH. lia.
Qed.

Lemma struct_fields_indexed fs vals :
  length fs = length vals ->
  struct_fields fs vals = (fun e => (e.1, field_data fs vals e.2)) <$> indexed fs.
Proof.
  intros Hl. apply list_eq. intros i. rewrite struct_fields_lookup by done.
  unfold indexed. rewrite list_lookup_fmap, list_lookup_imap. by destruct (fs !! i).
Qed.

Lemma indexed_snd fs : (indexed fs).*2 = seq 0 (length fs).
Proof.
  apply list_eq. intros i. unfold indexed. rewrite list_lookup_fmap, list_lookup_imap.
  destruct (fs !! i) as [f|] eqn:E; cbn.
  - apply lookup_lt_Some in E. symmetry. by apply lookup_seq_lt.
  - apply lookup_ge_None in E. symmetry. by apply lookup_seq_ge.
Qed.

(** The entries a struct writes, with the positions of their fields. *)
Definition written_entries (fs : list (sfield * gtype)) (vals : list gval) : list (bytes * nat) :=
  filter (fun e => (field_data fs vals e.2).1 = false) (sort_keys (indexed fs)).

Lemma encode_struct_entries fs vals :
  length fs = length vals -> fs <> [] ->
  encode (TStruct fs) (VStruct vals) =
  (body ← enc_entries ((fun e => (e.1, (field_data fs vals e.2).2)) <$> written_entries fs vals);
   Ok (bs "d" ++ body ++ bs "e")).
Proof.
  intros Hl Hne. rewrite encode_struct, bool_decide_false by done. cbn [app].
  rewrite struct_fields_indexed, sort_keys_fmap, filter_fmap by done.
  by rewrite <- list_fmap_compose.
Qed.

Lemma written_entries_elem fs vals e :
  e ∈ written_entries fs vals <->
  exists f, fs !! e.2 = Some f /\ e.1 = field_key f.1 /\ (field_data fs vals e.2).1 = false.
Proof.
  unfold written_entries. rewrite list_elem_of_filter, sort_keys_perm. unfold indexed.
  rewrite elem_of_lookup_imap. destruct e as [k i]. cbn. split.
  - intros (H & j & f & [= -> ->] & Hf). by exists f.
  - intros (f & Hf & -> & H). split; [done|]. by exists i, f.
Qed.

Lemma written_entries_nodup fs vals : NoDup (written_entries fs vals).*2.
Proof.
  apply NoDup_fmap_filter. rewrite sort_keys_perm, indexed_snd. apply NoDup_seq.
Qed.

Lemma entries_ok fs vals ss :
  struct_ok fs ->
  Forall2 (fun f v => field_skipped f.1 v = true /\ v = zero f.2 \/
                      field_skipped f.1 v = false /\ canon f.2 v) fs vals ->
  (forall i f v s, fs !! i = Some f -> vals !! i = Some v -> canon f.2 v ->
     encode f.2 v = Ok s -> decodes f.2 (zero f.2) s v) ->
  Forall2 (fun e s => (field_data fs vals e.2).2 = Ok s) (written_entries fs vals) ss ->
  Forall2 (entry_ok fs (structInfo fs).2 vals) (written_entries fs vals) ss.
Proof.
  intros [Hne Hnames Hkeys Hplain Hshort] Hc Hdec H.
  apply Forall2_same_length_lookup_2; [by eapply Forall2_length|]. intros n e s He Hn.
  pose proof (Forall2_lookup_lr _ _ _ _ _ _ H He Hn) as Hs. cbn in Hs.
  apply list_elem_of_lookup_2 in He. apply written_entries_elem in He as (f & Hf & Ek & Hw).
  destruct (Forall2_lookup_l _ _ _ _ _ Hc Hf) as (v & Hv & Hcv).
  unfold field_data in Hw, Hs. rewrite Hf, Hv in Hw, Hs. cbn in Hw, Hs.
  destruct Hcv as [[Hsk _]|[_ Hcv]]; [congruence|].
  assert (Hwt : written_tag f.1).
  { intros Htag. unfold field_skipped in Hw. by rewrite bool_decide_true in Hw. }
  pose proof (list_elem_of_lookup_2 _ _ _ Hf) as Hin.
  exists f, v. split_and!; try done.
  - unfold structInfo. by apply structInfo_loop_key.
  - by apply (proj1 (Forall_forall _ _) Hplain).
  - by apply field_index_lookup.
  - by apply (proj1 (Forall_forall _ _) Hshort).
  - by eapply Hdec.
Qed.

Lemma zero_fields_lookup (fs : list (sfield * gtype)) (i : nat) f :
  fs !! i = Some f -> ((fun f : sfield * gtype => zero f.2) <$> fs) !! i = Some (zero f.2).
Proof. intros H. by rewrite list_lookup_fmap, H. Qed.

(** Assigning the written fields to a zero struct restores the value. *)
Lemma assign_written fs vals :
  Forall2 (fun f v => field_skipped f.1 v = true /\ v = zero f.2 \/
                      field_skipped f.1 v = false /\ canon f.2 v) fs vals ->
  assign_all vals ((fun f => zero f.2) <$> fs) (written_entries fs vals) = vals.
Proof.
  intros Hc. pose proof (Forall2_length _ _ _ Hc) as Hl.
  apply list_eq. intros i. rewrite assign_all_lookup by (by rewrite length_fmap).
  case_decide as Hi; [done|].
  destruct (fs !! i) as [f|] eqn:Hf.
  - destruct (Forall2_lookup_l _ _ _ _ _ Hc Hf) as (v & Hv & [[_ ->]|[Hsk _]]).
    + by rewrite Hv, (zero_fields_lookup _ _ f).
    + exfalso. apply Hi, list_elem_of_fmap. exists (field_key f.1, i). split; [done|].
      apply written_entries_elem. exists f. cbn. unfold field_data. by rewrite Hf, Hv.
  - apply lookup_ge_None in Hf. rewrite !(proj2 (lookup_ge_None _ _)); [done|lia|rewrite length_fmap; lia].
Qed.

Lemma decodes_struct fs vals s :
  struct_ok fs ->
  Forall2 (fun f v => field_skipped f.1 v = true /\ v = zero f.2 \/
                      field_skipped f.1 v = false /\ canon f.2 v) fs vals ->
  (forall i f v s, fs !! i = Some f -> vals !! i = Some v -> canon f.2 v ->
     encode f.2 v = Ok s -> decodes f.2 (zero f.2) s v) ->
  encode (TStruct fs) (VStruct vals) = Ok s ->
  decodes (TStruct fs) (zero (TStruct fs)) s (VStruct vals).
Proof.
  intros Hok Hc Hdec Henc fuel Hf.
  rewrite encode_struct_entries in Henc by (eauto using Forall2_length || apply Hok).
  destruct (enc_entries _) as [body| |] eqn:Hb; cbn [mbind result_bind] in Henc; try done.
  assert (s = bs "d" ++ body ++ bs "e") as -> by congruence.
  apply enc_entries_inv in Hb as (ss & Hss & ->). rewrite Forall2_fmap_l in Hss.
  rewrite zip_with_fmap_l in *. cbn [fst] in *.
  rewrite !length_app in Hf.
  change (length (bs "d")) with 1%nat in Hf. change (length (bs "e")) with 1%nat in Hf.
  destruct fuel as [|fuel]; [pose proof (type_fuel_struct_ge fs); lia|].
  cbn [decode zero]. eapply reads_bind; [apply reads_assert; set_solver|].
  pose proof (entries_ok fs vals ss Hok Hc Hdec Hss) as Hent.
  destruct (structInfo fs) as [nonOmit fnames] eqn:Esi. cbn [snd] in Hent.
  rewrite <- (assign_written fs vals Hc) at 2.
  apply reads_struct; [done|apply written_entries_nodup| | |lia].
  - intros i f _ Hfi. by apply zero_fields_lookup.
  - intros n Hn. replace nonOmit with (structInfo fs).1 in Hn by (by rewrite Esi).
    apply structInfo_loop_mandatory in Hn as [Hn|(f & Hin & -> & Hw & Ho)]; [set_solver|].
    apply list_elem_of_lookup in Hin as [i Hi]. exists i, f. split; [|done].
    apply list_elem_of_fmap. exists (field_key f.1, i). split; [done|].
    apply written_entries_elem. exists f. cbn. split_and!; [done|done|].
    destruct (Forall2_lookup_l _ _ _ _ _ Hc Hi) as (v & Hv & _).
    unfold field_data. rewrite Hi, Hv. cbn. unfold field_skipped. by rewrite !bool_decide_false.
Qed.

(** ** All types *)

Lemma encode_starts t v s : canon t v -> encode t v = Ok s -> starts s.
Proof.
  intros H. revert s. induction H; intros s0 Henc; cbn [encode] in Henc.
  all: try (injection Henc as <-; by apply starts_enc_string).
  all: try (injection Henc as <-; by eexists _, _).
  - destruct (enc_all _); cbn in Henc; [|done|done]. injection Henc as <-. by eexists _, _.
  - destruct (enc_entries _); cbn in Henc; [|done|done]. injection Henc as <-. by eexists _, _.
  - rewrite bool_decide_false in Henc by apply so_ne, H.
    destruct (enc_entries _); cbn in Henc; [|done|done]. injection Henc as <-. by eexists _, _.
  - by apply IHcanon.
  - destruct (enc_all _); cbn in Henc; [|done|done]. injection Henc as <-. by eexists _, _.
  - destruct (enc_entries _); cbn in Henc; [|done|done]. injection Henc as <-. by eexists _, _.
Qed.

Lemma vsize_elem v l : v ∈ l -> (vsize v <= list_sum (vsize <$> l))%nat.
Proof. intros H. apply list_sum_elem, list_elem_of_fmap. by exists v. Qed.

Lemma vsize_entry e (m : list (bytes * gval)) :
  e ∈ m -> (vsize e.2 <= list_sum ((fun e => vsize e.2) <$> m))%nat.
Proof. intros H. apply list_sum_elem, list_elem_of_fmap. by exists e. Qed.

(** The statement of the induction at values up to a size. *)
Definition round_upto (n : nat) : Prop := forall v t s,
  (vsize v <= n)%nat -> canon t v -> encode t v = Ok s -> decodes t (zero t) s v.

Lemma round_list n t l ss :
  round_upto n -> (list_sum (vsize <$> l) <= n)%nat -> Forall (canon t) l ->
  Forall2 (fun r s => r = Ok s) (encode t <$> l) ss ->
  Forall2 (fun v s => starts s /\ decodes t (zero t) s v) l ss.
Proof.
  intros IH Hn Hc. rewrite Forall2_fmap_l. intros H.
  apply Forall2_same_length_lookup_2; [by eapply Forall2_length|]. intros i v s Hv Hs.
  pose proof (Forall2_lookup_lr _ _ _ _ _ _ H Hv Hs) as E. cbn in E.
  apply list_elem_of_lookup_2 in Hv. pose proof (vsize_elem _ _ Hv).
  rewrite Forall_forall in Hc. split; [by eapply encode_starts; eauto|].
  apply IH; [lia|by apply Hc|done].
Qed.

Lemma round_dict n t (m : list (bytes * gval)) ss :
  round_upto n -> (list_sum ((fun e => vsize e.2) <$> m) <= n)%nat -> keys_sorted m ->
  Forall (fun e => short e.1 /\ canon t e.2) m ->
  Forall2 (fun e s => e.2 = Ok s) (sort_keys ((fun e => (e.1, encode t e.2)) <$> m)) ss ->
  Forall2 (fun e s => short e.1 /\ decodes t (zero t) s e.2) m ss.
Proof.
  intros IH Hn Hk Hc. rewrite (sort_keys_fmap (encode t)), sort_keys_sorted by done.
  rewrite Forall2_fmap_l. intros H.
  apply Forall2_same_length_lookup_2; [by eapply Forall2_length|]. intros i e s He Hs.
  pose proof (Forall2_lookup_lr _ _ _ _ _ _ H He Hs) as E. cbn in E.
  apply list_elem_of_lookup_2 in He. pose proof (vsize_entry _ _ He).
  rewrite Forall_forall in Hc. destruct (Hc e He) as [Hsh Hce]. split; [done|].
  apply IH; [lia|done|done].
Qed.

Lemma dict_text t (m : list (bytes * gval)) (ss : list bytes) :
  keys_sorted m ->
  zip_with (fun e s => enc_string e.1 ++ s) (sort_keys ((fun e => (e.1, encode t e.2)) <$> m)) ss =
  zip_with (fun e s => enc_string e.1 ++ s) m ss.
Proof. intros Hk. by rewrite (sort_keys_fmap (encode t)), sort_keys_sorted, zip_with_fmap_l. Qed.

Lemma decodes_iface c r t v0 v :
  nil_interface_target c = Some (t, v0) -> decodes t v0 (c :: r) v -> type_fuel t = 1 ->
  decodes TIface (zero TIface) (c :: r) (VIface (Some (t, v))).
Proof.
  intros Ht Hd Htf fuel Hf. cbn [type_fuel] in Hf. destruct fuel as [|fuel]; [lia|].
  cbn [decode]. eapply reads_nil_interface; [done|]. apply Hd. lia.
Qed.

Lemma decodes_value t v0 s (m : reader gval) v :
  type_fuel t = 1 -> (forall fuel, decode (S fuel) t v0 = m) -> reads m s v -> decodes t v0 s v.
Proof. intros Ht Hm Hr fuel Hf. destruct fuel as [|fuel]; [lia|]. by rewrite Hm. Qed.

Lemma decodes_string v0 s : short s -> decodes TString v0 (enc_string s) (VString s).
Proof.
  intros. apply (decodes_value _ _ _ (s ← readBenString; mret (VString s))); [done|done|].
  by apply (reads_bind_ret readBenString VString), reads_string.
Qed.

Lemma decodes_int w v0 z : 1 <= w <= 64 -> in_s w z ->
  decodes (TInt w) v0 (bs "i" ++ FormatInt z ++ bs "e") (VInt z).
Proof.
  intros Hw Hz.
  apply (decodes_value _ _ _ (num ← readBenInt; mret (VInt (wrapS w num)))); [done|done|].
  rewrite <- (wrapS_id w z) at 2 by (done || lia).
  apply (reads_bind_ret readBenInt (fun n => VInt (wrapS w n))), reads_int.
  by apply (in_s_mono w).
Qed.

Lemma in_u_mono w w' z : 0 <= w <= w' -> in_u w z -> in_u w' z.
Proof. unfold in_u. intros Hw H. pose proof (Z.pow_le_mono_r 2 w w'). lia. Qed.

Lemma round_all n : round_upto n.
Proof.
  induction n as [|n IH]; intros v t s Hn Hc Henc; [destruct v as [| | | | | |[]|[]| |[]|[[]|]]; cbn in Hn; lia|].
  inversion Hc; subst; cbn [encode] in Henc.
  - injection Henc as <-. by apply decodes_int.
  - injection Henc as <-.
    apply (decodes_value _ _ _ (num ← readBenUint; mret (VUint (wrapU w num)))); [done|done|].
    rewrite <- (wrapU_id w z) at 2 by done.
    apply (reads_bind_ret readBenUint (fun n => VUint (wrapU w n))), reads_uint. by apply (in_u_mono w).
  - injection Henc as <-. by apply decodes_string.
  - injection Henc as <-.
    apply (decodes_value _ _ _ (s ← readBenString; mret (VBytes (Some s)))); [done|done|].
    by apply (reads_bind_ret readBenString (fun s => VBytes (Some s))), reads_string.
  - injection Henc as <-. apply (decodes_slice t0 [] [] _ None); [constructor|done].
  - destruct (enc_all _) as [body| |] eqn:Hb; cbn in Henc; try done. injection Henc as <-.
    apply enc_all_inv in Hb as (ss & Hss & ->). rewrite <- append_all_none.
    apply decodes_slice; [|done]. apply (round_list n); [done|cbn in Hn |- *; lia|done|done].
  - destruct (enc_entries _) as [body| |] eqn:Hb; cbn [mbind result_bind] in Henc; try done.
    assert (s = bs "d" ++ body ++ bs "e") as -> by congruence.
    apply enc_entries_inv in Hb as (ss & Hss & ->). rewrite dict_text by done.
    rewrite <- set_all_sorted_none by done.
    apply decodes_map; [done|]. apply (round_dict n); [done|cbn in Hn |- *; lia|done..].
  - apply decodes_struct; [done|done| |exact Henc].
    intros i f v' s' Hf Hv' Hcv Hev. apply IH; [|done|done].
    pose proof (vsize_elem v' vals (list_elem_of_lookup_2 _ _ _ Hv')). cbn in Hn. lia.
  - intros fuel Hf. cbn [type_fuel] in Hf. destruct fuel as [|fuel]; [pose proof (type_fuel_pos t0); lia|].
    cbn [decode zero]. apply (reads_bind_ret _ (fun e => VPtr (Some e))).
    apply IH; [cbn in Hn; lia|done|done|lia].
  - injection Henc as <-. eapply (decodes_iface "i"%byte); [done| |done]. by apply (decodes_int 64).
  - injection Henc as <-. destruct (enc_string_cons s0) as (c & r & E & Hd). rewrite E.
    eapply decodes_iface; [|rewrite <- E; by apply decodes_string|done].
    unfold nil_interface_target. rewrite bool_decide_false by (by intros ->). by rewrite Hd.
  - destruct (enc_all _) as [body| |] eqn:Hb; cbn in Henc; try done. injection Henc as <-.
    apply enc_all_inv in Hb as (ss & Hss & ->).
    eapply (decodes_iface "l"%byte); [done| |done].
    replace (Some l) with (append_all (Some []) l) by apply append_all_some.
    apply decodes_slice; [|done]. apply (round_list n); [done|cbn in Hn |- *; lia|done|done].
  - destruct (enc_entries _) as [body| |] eqn:Hb; cbn [mbind result_bind] in Henc; try done.
    assert (s = bs "d" ++ body ++ bs "e") as -> by congruence.
    apply enc_entries_inv in Hb as (ss & Hss & ->). rewrite dict_text by done.
    eapply (decodes_iface "d"%byte); [done| |done].
    replace (Some m) with (set_all (Some []) m) by (by apply set_all_sorted).
    apply decodes_map; [done|]. apply (round_dict n); [done|cbn in Hn |- *; lia|done..].
Qed.

(** ** The encoder succeeds on canonical values *)

Lemma enc_all_ok rs : Forall (fun r => is_ok r = true) rs -> exists s, enc_all rs = Ok s.
Proof.
  induction 1 as [|r rs Hr _ [s Hs]]; [by exists []|]. destruct r as [x| |]; try done.
  cbn. rewrite Hs. cbn. by eexists.
Qed.

Lemma enc_entries_ok (es : list (bytes * result eerror bytes)) :
  Forall (fun e => is_ok e.2 = true) es -> exists s, enc_entries es = Ok s.
Proof.
  induction 1 as [|[k r] es Hr _ [s Hs]]; [by exists []|]. destruct r as [x| |]; try done.
  cbn. rewrite Hs. cbn. by eexists.
Qed.

Definition encodes (t : gtype) (v : gval) : Prop := exists s, encode t v = Ok s.

Lemma encodes_is_ok t v : encodes t v -> is_ok (encode t v) = true.
Proof. by intros [s ->]. Qed.

Lemma encodes_slice t l : Forall (encodes t) l -> encodes (TSlice t) (VSlice (Some l)).
Proof.
  intros H. destruct (enc_all_ok (encode t <$> l)) as [s Hs].
  { apply Forall_fmap. eapply Forall_impl; [exact H|]. apply encodes_is_ok. }
  unfold encodes. cbn [encode]. rewrite Hs. by eexists.
Qed.

Lemma encodes_map t m : Forall (fun e => encodes t e.2) m -> encodes (TMap t) (VMap (Some m)).
Proof.
  intros H. destruct (enc_entries_ok (sort_keys ((fun e => (e.1, encode t e.2)) <$> m))) as [s Hs].
  { rewrite sort_keys_perm. apply Forall_fmap. eapply Forall_impl; [exact H|].
    intros e He. by apply encodes_is_ok. }
  unfold encodes. cbn [encode]. rewrite Hs. by eexists.
Qed.

Lemma encodes_struct fs vals :
  fs <> [] -> Forall2 (fun f v => field_skipped f.1 v = true \/ encodes f.2 v) fs vals ->
  encodes (TStruct fs) (VStruct vals).
Proof.
  intros Hne H. unfold encodes.
  rewrite encode_struct_entries by (eauto using Forall2_length).
  destruct (enc_entries_ok ((fun e => (e.1, (field_data fs vals e.2).2)) <$> written_entries fs vals)) as [s Hs].
  { apply Forall_fmap, Forall_forall. intros e (f & Hf & _ & Hw)%written_entries_elem. cbn.
    destruct (Forall2_lookup_l _ _ _ _ _ H Hf) as (v & Hv & Hc).
    unfold field_data in *. rewrite Hf, Hv in *. cbn in *.
    destruct Hc as [|Hc]; [congruence|by apply encodes_is_ok]. }
  rewrite Hs. by eexists.
Qed.

Lemma canon_encodes n v t : (vsize v <= n)%nat -> canon t v -> encodes t v.
Proof.
  revert v t. induction n as [|n IH]; intros v t Hn Hc;
    [destruct v as [| | | | | |[]|[]| |[]|[[]|]]; cbn in Hn; lia|].
  assert (Hlist : forall t l, (list_sum (vsize <$> l) <= n)%nat -> Forall (canon t) l -> Forall (encodes t) l).
  { intros t' l Hl. rewrite !Forall_forall. intros H x Hx. pose proof (vsize_elem _ _ Hx).
    apply IH; [lia|by apply H]. }
  assert (Hdict : forall t (m : list (bytes * gval)), (list_sum ((fun e => vsize e.2) <$> m) <= n)%nat ->
    Forall (fun e => short e.1 /\ canon t e.2) m -> Forall (fun e => encodes t e.2) m).
  { intros t' m Hl. rewrite !Forall_forall. intros H x Hx. pose proof (vsize_entry _ _ Hx).
    apply IH; [lia|by apply H]. }
  inversion Hc; subst; cbn in Hn; try (by eexists).
  - apply encodes_slice, Hlist; [cbn; lia|done].
  - apply encodes_map, Hdict; [cbn; lia|done].
  - apply encodes_struct; [by apply so_ne|].
    apply Forall2_same_length_lookup_2; [by eapply Forall2_length|]. intros i f x Hf Hx.
    pose proof (Forall2_lookup_lr _ _ _ _ _ _ H0 Hf Hx) as [[? _]|[_ Hcx]]; [by left|right].
    apply list_elem_of_lookup_2, vsize_elem in Hx. apply IH; [lia|done].
  - apply (IH v0 t0); [lia|done].
  - apply (encodes_slice TIface), Hlist; [lia|done].
  - apply (encodes_map TIface), Hdict; [lia|done].
Qed.

(** ** Theorems *)

Lemma Decode_text t v s rest :
  canon t v -> encode t v = Ok s ->
  exists prev fl, decode (decode_fuel t (s ++ rest)) t (zero t) (mkBuf [] (s ++ rest) false) =
    SOk v (mkBuf prev rest fl).
Proof.
  intros Hc He. apply (round_all (vsize v) v t s); [done|done|done|].
  unfold decode_fuel. rewrite length_app. pose proof (type_fuel_pos t). lia.
Qed.

(** C1: Encoding a canonical value succeeds, and decoding the result into a zero
    destination of the same type gives the value back, without an error. *)
Theorem Decode_Encode t v :
  canon t v -> exists s, Encode t v = Ok s /\ Decode s t (zero t) = Ok (v, None).
Proof.
  intros Hc. destruct (canon_encodes (vsize v) v t) as [s Hs]; [done|done|].
  exists s. split; [done|]. destruct (Decode_text t v s [] Hc Hs) as (prev & fl & E).
  rewrite app_nil_r in E. unfold Decode. by rewrite E.
Qed.

(** Bytes after the encoded value do not disturb the decoded value: [Decode]
    reports how many are left. *)
Theorem Decode_trailing t v s c rest :
  canon t v -> Encode t v = Ok s ->
  Decode (s ++ c :: rest) t (zero t) = Ok (v, Some (LargeBufferErr (lenZ (c :: rest)))).
Proof.
  intros Hc Hs. destruct (Decode_text t v s (c :: rest) Hc Hs) as (prev & fl & E).
  unfold Decode. rewrite E. cbn [ReadByte brest bread]. unfold blen. cbn [brest length].
  do 4 f_equal. lia.
Qed.

(** Decoding a boolean never succeeds: the length test of readBenBool counts the
    end mark, so that not even the text the encoder writes is accepted. *)
Theorem readBenBool_never b v b' : readBenBool b <> SOk v b'.
Proof.
  unfold readBenBool, mbind, reader_bind.
  destruct (assertBenElem _ b) as [[] b1| | |]; try done.
  unfold ReadString. destruct (split_at_byte _ _) as [[l r]|] eqn:E; [|done].
  assert (Hlast : exists l0, l = l0 ++ ["e"%byte]).
  { clear -E. revert l E. induction (brest b1) as [|c s IH]; intros l E; cbn in E; [done|].
    case_bool_decide; [exists []; by simplify_eq|].
    destruct (split_at_byte _ s) as [[l' r']|]; [|done]. destruct (IH l') as [l0 ->]; [congruence|].
    exists (c :: l0). by simplify_eq. }
  destruct Hlast as [l0 ->]. destruct l0 as [|c [|]]; cbn; done.
Qed.

(** A nil map is written twice over ("de" and then "d" ... "e"), and the
    decoder rejects that text because bytes are left. *)
Theorem nil_map_text t :
  Encode (TMap t) (VMap None) = Ok (bs "dede") /\
  Decode (bs "dede") (TMap t) (VMap None) = Ok (VMap None, Some (LargeBufferErr 2)).
Proof.
  split; [done|]. unfold Decode.
  assert (Hf : exists n, decode_fuel (TMap t) (bs "dede") = S (S n)).
  { exists (decode_fuel (TMap t) (bs "dede") - 2)%nat. unfold decode_fuel.
    pose proof (type_fuel_pos (TMap t)) as Hp. set (tf := type_fuel (TMap t)) in *.
    change (lenZ (bs "dede")) with 4. lia. }
  destruct Hf as [n ->]. reflexivity.
Qed.

(** The values of a map are decoded into one variable: two dictionaries in a dictionary become one
    map under both keys. *)
Theorem map_values_shared :
  let both := VMap (Some [(bs "x", VInt 1); (bs "y", VInt 2)]) in
  Decode (bs "d1:ad1:xi1ee1:bd1:yi2eee") (TMap (TMap (TInt 64))) (VMap None) =
  Ok (VMap (Some [(bs "a", both); (bs "b", both)]), None).
Proof. by vm_compute. Qed.
