(* ===== verification/BenGet.v ===== *)
(** * bencode/get_dict.go

    [Get] extracts the text of one value of an encoded dictionary (the info
    dictionary of a metainfo file, whose hash identifies the torrent). A panic
    whose value is an error, a run-time error included, is recovered by [Get] and
    returned. The theorems: [Get] always returns, and on an encoded struct it
    gives exactly the text the encoder wrote for the field of that key. *)

From S2P Require Import Prelude Strconv GoValue BenDecode BenEncode BenTotal BenRound.

(** ** The consumer *)

Inductive gerror :=
| ErrNoDict
| GUnknownValue (symbol : byte)
| RuntimeError.

(** The unread bytes of [buf], and [off]. *)
Record benConsumer := mkConsumer {
  cbuf : bytes;
  coff : Z;
}.

Definition consumer_readByte (c : benConsumer) : option byte * benConsumer :=
  match cbuf c with
  | [] => (None, c)
  | b :: r => (Some b, mkConsumer r (int64 (coff c + 1)))
  end.

(** Without the delimiter, [buf.ReadString] drains the buffer and fails. *)
Definition consumer_readString (delim : byte) (c : benConsumer) : option bytes * benConsumer :=
  match split_at_byte delim (cbuf c) with
  | Some (s, r) => (Some s, mkConsumer r (int64 (coff c + lenZ s)))
  | None => (None, mkConsumer [] (coff c))
  end.

Definition consumer_next (n : Z) (c : benConsumer) : result gerror benConsumer :=
  if n <? 0 then Err RuntimeError
  else Ok (mkConsumer (drop (Z.to_nat (Z.min n (lenZ (cbuf c)))) (cbuf c)) (int64 (coff c + n))).

(** The value strconv.ParseInt returns next to its error. *)
Definition ParseInt_value (s : bytes) : Z :=
  match ParseInt s with
  | Ok n => n
  | Err ErrRange => MaxInt64
  | _ => 0
  end.

(** [Panic] stands for the end of the fuel. *)
Fixpoint readBenElem (fuel : nat) (c : benConsumer) : result gerror (bool * benConsumer) :=
  match fuel with
  | O => Panic
  | S fuel =>
      let '(ob, c) := consumer_readByte c in
      let b := default Byte.x00 ob in
      if bool_decide (b = "e"%byte) then Ok (false, c)
      else if bool_decide (b = "l"%byte) || bool_decide (b = "d"%byte) then
        c' ← readBenElems fuel c; Ok (true, c')
      else if bool_decide (b = "i"%byte) then Ok (true, (consumer_readString "e"%byte c).2)
      else if is_digit b then
        let '(os, c) := consumer_readString ":"%byte c in
        match default [] os with
        | [] => Err RuntimeError                         (* s[:len(s)-1] *)
        | s => c' ← consumer_next (ParseInt_value (b :: drop_last s)) c; Ok (true, c')
        end
      else Err (GUnknownValue b)
  end
(** for c.readBenElem() {} *)
with readBenElems (fuel : nat) (c : benConsumer) : result gerror benConsumer :=
  match fuel with
  | O => Panic
  | S fuel =>
      '(more, c) ← readBenElem fuel c;
      if more : bool then readBenElems fuel c else Ok c
  end.

Definition elem_fuel (c : benConsumer) : nat := 2 * length (cbuf c) + 1.

(** ** Get *)

(** The slice [data[start:end]] of a slice whose capacity is its length. *)
Definition subslice (data : bytes) (lo hi : Z) : result gerror bytes :=
  if (0 <=? lo) && (lo <=? hi) && (hi <=? lenZ data)
  then Ok (take (Z.to_nat (hi - lo)) (drop (Z.to_nat lo) data))
  else Err RuntimeError.

Definition consumer_read (c : benConsumer) : result gerror (Z * Z * benConsumer) :=
  '(_, c') ← readBenElem (elem_fuel c) c; Ok (coff c, coff c', c').

(** [Decode(key, &s)]; a failed decode leaves [s] empty. *)
Definition decoded_key (key : bytes) : bytes :=
  match Decode key TString (VString []) with
  | Ok (VString s, _) => s
  | _ => []
  end.

Fixpoint get_loop (fuel : nat) (data : bytes) (c : benConsumer) (targetKey : bytes)
    : result gerror (option bytes) :=
  match fuel with
  | O => Panic
  | S fuel =>
      if bool_decide (cbuf c = []) then Ok None
      else
        '(start, fin, c) ← consumer_read c;
        key ← subslice data start fin;
        if bool_decide (decoded_key key = targetKey) then
          '(start, fin, c) ← consumer_read c;
          val ← subslice data start fin;
          Ok (Some val)
        else
          '(_, _, c) ← consumer_read c;
          get_loop fuel data c targetKey
  end.

Definition get (data : bytes) (targetKey : bytes) : result gerror (option bytes) :=
  match data, last data with
  | b :: _, Some z =>
      if negb (bool_decide (b = "d"%byte)) || negb (bool_decide (z = "e"%byte)) then Err ErrNoDict
      else
        let _data := drop_last (drop 1 data) in
        get_loop (S (length _data)) _data (mkConsumer _data 0) targetKey
  | _, _ => Err RuntimeError                                     (* data[0] *)
  end.

(** [Ok (Some val)] is (val, true, nil), [Ok None] is (nil, false, nil). *)
Definition Get (data : bytes) (targetKey : bytes) : result gerror (option bytes) :=
  get data targetKey.

(** ** Totality *)

(** A consumer result that is not a panic and leaves fewer than [n] bytes. *)
Definition consumed {A} (n : nat) (proj : A -> benConsumer) (r : result gerror A) : Prop :=
  match r with Ok a => (length (cbuf (proj a)) < n)%nat | Err _ => True | Panic => False end.

Lemma split_at_byte_length delim s l r :
  split_at_byte delim s = Some (l, r) -> (length r < length s)%nat.
Proof.
  revert l. induction s as [|c s IH]; intros l H; cbn in H; [done|].
  case_bool_decide; simplify_eq/=; [lia|].
  destruct (split_at_byte delim s) as [[l' r']|]; simplify_eq. specialize (IH l' eq_refl). lia.
Qed.

Lemma consumer_readString_length delim c :
  (length (cbuf (consumer_readString delim c).2) <= length (cbuf c))%nat.
Proof.
  unfold consumer_readString. destruct (split_at_byte delim (cbuf c)) as [[l r]|] eqn:E; cbn; [|lia].
  apply split_at_byte_length in E. lia.
Qed.

Lemma readBenElem_total fuel :
  (forall c, (2 * length (cbuf c) + 1 <= fuel)%nat ->
     consumed (length (cbuf c)) snd (readBenElem fuel c)) /\
  (forall c, (2 * length (cbuf c) + 2 <= fuel)%nat ->
     consumed (length (cbuf c)) id (readBenElems fuel c)).
Proof.
  induction fuel as [|fuel [IHe IHl]]; split; intros c Hf; try lia.
  - cbn [readBenElem]. destruct c as [[|b s] off]; [done|]. cbn in Hf |- *.
    set (c := mkConsumer s _). split_ifs; cbn; try lia; try done.
    + specialize (IHl c ltac:(cbn; lia)). destruct (readBenElems fuel c); cbn in *; [lia|done..].
    + pose proof (consumer_readString_length "e"%byte c). cbn in *. lia.
    + pose proof (consumer_readString_length ":"%byte c).
      destruct (consumer_readString ":"%byte c) as [os c']. cbn in *.
      destruct (default [] os); [done|]. unfold consumer_next. split_ifs; cbn; [done|].
      rewrite length_drop. lia.
  - cbn [readBenElems]. specialize (IHe c ltac:(lia)).
    destruct (readBenElem fuel c) as [[more c']| |]; cbn in *; [|done..].
    destruct more; cbn; [|lia]. specialize (IHl c' ltac:(lia)).
    destruct (readBenElems fuel c'); cbn in *; [lia|done..].
Qed.

Lemma consumer_read_total c : consumed (length (cbuf c)) snd (consumer_read c).
Proof.
  unfold consumer_read. pose proof (proj1 (readBenElem_total (elem_fuel c)) c ltac:(unfold elem_fuel; lia)) as H.
  destruct (readBenElem _ c) as [[more c']| |]; done.
Qed.

Lemma subslice_total data lo hi : subslice data lo hi <> Panic.
Proof. unfold subslice. by split_ifs. Qed.

Lemma get_loop_total fuel data c key :
  (length (cbuf c) < fuel)%nat -> get_loop fuel data c key <> Panic.
Proof.
  revert c. induction fuel as [|fuel IH]; intros c Hf; [lia|]. cbn [get_loop].
  case_bool_decide; [done|].
  pose proof (consumer_read_total c) as H1.
  destruct (consumer_read c) as [[[start fin] c1]| |]; cbn [mbind result_bind consumed snd] in *; [|done..].
  pose proof (subslice_total data start fin). destruct (subslice data start fin); cbn [mbind result_bind]; [|done..].
  pose proof (consumer_read_total c1) as H2. case_bool_decide.
  all: destruct (consumer_read c1) as [[[start2 fin2] c2]| |]; cbn [mbind result_bind consumed snd] in *; try done.
  - pose proof (subslice_total data start2 fin2). by destruct (subslice data start2 fin2).
  - apply IH. lia.
Qed.

(** ** Texts the consumer skips as a whole *)

Definition skips (s : bytes) : Prop := forall fuel rest off,
  (2 * length (s ++ rest) + 1 <= fuel)%nat ->
  readBenElem fuel (mkConsumer (s ++ rest) off) = Ok (true, mkConsumer rest (int64 (off + lenZ s))).

Lemma int64_add a b : int64 (int64 a + b) = int64 (a + b).
Proof.
  unfold wrapS. f_equal. set (h := 2 ^ (64 - 1)).
  replace ((a + h) mod 2 ^ 64 - h + b + h) with ((a + h) mod 2 ^ 64 + b) by lia.
  rewrite Z.add_mod_idemp_l by done. f_equal. lia.
Qed.

Lemma readBenElem_number fuel r off :
  readBenElem (S fuel) (mkConsumer ("i"%byte :: r) off) =
  Ok (true, (consumer_readString "e"%byte (mkConsumer r (int64 (off + 1)))).2).
Proof. reflexivity. Qed.

Lemma consumer_readString_found delim l rest off :
  delim ∉ l ->
  consumer_readString delim (mkConsumer (l ++ [delim] ++ rest) off) =
  (Some (l ++ [delim]), mkConsumer rest (int64 (off + lenZ l + 1))).
Proof.
  intros Hl. unfold consumer_readString. cbn [cbuf coff]. cbn [app].
  rewrite split_at_byte_found by done. do 3 f_equal. rewrite length_app. cbn [length]. lia.
Qed.

Lemma skips_number l : "e"%byte ∉ l -> skips (bs "i" ++ l ++ bs "e").
Proof.
  intros Hl fuel rest off Hf. destruct fuel as [|fuel]; [lia|].
  change ((bs "i" ++ l ++ bs "e") ++ rest) with ("i"%byte :: (l ++ ["e"%byte]) ++ rest).
  rewrite readBenElem_number, <- app_assoc, consumer_readString_found by done. cbn [snd].
  do 3 f_equal. rewrite <- Z.add_assoc, int64_add. f_equal. rewrite !length_app. cbn [length bs]. cbn. lia.
Qed.

Lemma readBenElem_string fuel c r rest off :
  is_digit c = true -> forallb is_digit r = true ->
  readBenElem (S fuel) (mkConsumer (c :: r ++ [":"%byte] ++ rest) off) =
  (c' ← consumer_next (ParseInt_value (c :: r)) (mkConsumer rest (int64 (off + lenZ (c :: r) + 1)));
   Ok (true, c')).
Proof.
  intros Hc Hr. cbn [readBenElem consumer_readByte cbuf coff]. change (default Byte.x00 (Some c)) with c.
  rewrite !bool_decide_false by (intros ->; discriminate). cbn [orb]. rewrite Hc.
  rewrite consumer_readString_found by (by apply digits_not_in).
  change (default [] (Some ?l)) with l. destruct (r ++ [":"%byte]) as [|x y] eqn:E2; [by destruct r|].
  rewrite <- E2, drop_last_snoc.
  assert (int64 (int64 (off + 1) + lenZ r + 1) = int64 (off + lenZ (c :: r) + 1)) as ->; [|done].
  rewrite <- Z.add_assoc, int64_add. f_equal. cbn [length]. lia.
Qed.

Lemma ParseInt_value_FormatInt n : in_s 64 n -> ParseInt_value (FormatInt n) = n.
Proof. intros H. unfold ParseInt_value. by rewrite ParseInt_FormatInt. Qed.

Lemma skips_string s : short s -> skips (enc_string s).
Proof.
  intros Hs fuel rest off Hf. destruct fuel as [|fuel]; [lia|].
  assert (Hn : exists c r, FormatInt (lenZ s) = c :: r /\ is_digit c = true /\ forallb is_digit r = true).
  { unfold FormatInt. destruct (Z.ltb_spec (lenZ s) 0); [lia|].
    destruct (FormatUint_cons (lenZ s)) as (c & r & E & ?); [lia|]. exists c, r. split; [done|].
    pose proof (FormatUint_digits (lenZ s) ltac:(lia)) as Hd. rewrite E in Hd. cbn in Hd.
    by apply andb_true_iff in Hd. }
  destruct Hn as (c & r & E & Hc & Hr). unfold enc_string, Itoa in *. rewrite E.
  rewrite <- !app_assoc. change ((c :: r) ++ bs ":" ++ s ++ rest) with (c :: r ++ [":"%byte] ++ s ++ rest).
  rewrite readBenElem_string, <- E, ParseInt_value_FormatInt by (done || unfold in_s, short in *; lia).
  unfold consumer_next. destruct (Z.ltb_spec (lenZ s) 0); [lia|]. cbn [cbuf coff mbind result_bind].
  rewrite <- Z.add_assoc, int64_add. do 3 f_equal.
  - rewrite length_app. replace (Z.to_nat _) with (length s) by lia. apply drop_app_length.
  - f_equal. rewrite !length_app. cbn. lia.
Qed.

Lemma skips_elems ss fuel rest off :
  Forall skips ss -> Forall starts ss -> (2 * length (concat ss ++ bs "e" ++ rest) + 2 <= fuel)%nat ->
  readBenElems fuel (mkConsumer (concat ss ++ bs "e" ++ rest) off) =
  Ok (mkConsumer rest (int64 (off + lenZ (concat ss) + 1))).
Proof.
  intros Hs Hst. revert fuel off. induction Hs as [|s ss Hs _ IH]; intros fuel off Hf.
  - destruct fuel as [|[|fuel]]; [cbn in Hf; lia..|].
    transitivity (Ok (E := gerror) (mkConsumer rest (int64 (off + 1)))); [reflexivity|].
    do 3 f_equal. cbn [concat length]. lia.
  - destruct fuel as [|fuel]; [lia|]. cbn [readBenElems concat]. rewrite <- app_assoc.
    cbn [concat] in Hf. rewrite <- app_assoc in Hf. rewrite Hs by lia. cbn [mbind result_bind].
    inversion Hst as [|? ? H1 H2]; subst. pose proof (starts_length _ H1).
    rewrite IH; [|done|rewrite length_app in Hf; lia].
    do 2 f_equal. rewrite <- !Z.add_assoc, int64_add, length_app. f_equal. lia.
Qed.

Lemma skips_body b ss : b = "l"%byte \/ b = "d"%byte ->
  Forall skips ss -> Forall starts ss -> skips ([b] ++ concat ss ++ bs "e").
Proof.
  intros Hb Hs Hst fuel rest off Hf. destruct fuel as [|fuel]; [lia|].
  cbn [readBenElem app consumer_readByte cbuf coff]. change (default Byte.x00 (Some b)) with b.
  rewrite <- app_assoc in *.
  rewrite bool_decide_false by (destruct Hb; by subst).
  assert (bool_decide (b = "l"%byte) || bool_decide (b = "d"%byte) = true) as ->
    by (apply orb_true_iff; rewrite !bool_decide_eq_true; done).
  rewrite skips_elems; [|done|done|cbn [app length] in Hf; rewrite <- app_assoc in Hf; lia].
  cbn [mbind result_bind]. do 3 f_equal.
  rewrite <- Z.add_assoc, int64_add. f_equal. cbn [length]. rewrite length_app. cbn. lia.
Qed.

(** The text of a dictionary's entries. *)
Definition entries_text {A} (es : list (bytes * A)) (ss : list bytes) : bytes :=
  concat (zip_with (fun e s => enc_string e.1 ++ s) es ss).

Definition entry_skips {A} (e : bytes * A) (s : bytes) : Prop := short e.1 /\ skips s /\ starts s.

Lemma skips_dict {A} (es : list (bytes * A)) ss :
  Forall2 entry_skips es ss -> skips (bs "d" ++ entries_text es ss ++ bs "e").
Proof.
  intros H.
  assert (exists ts, Forall skips ts /\ Forall starts ts /\ entries_text es ss = concat ts) as (ts & H1 & H2 & ->).
  { induction H as [|[k a] s es ss (Hk & Hs & Hst) _ (ts & H1 & H2 & E)]; [by exists []|].
    exists (enc_string k :: s :: ts). split_and!.
    - by repeat constructor; [apply skips_string|..].
    - by repeat constructor; [apply starts_enc_string|..].
    - unfold entries_text in *. cbn. rewrite E. by rewrite <- app_assoc. }
  by apply (skips_body "d"%byte); [right|..].
Qed.

Definition skips_upto (n : nat) : Prop := forall v t s,
  (vsize v <= n)%nat -> canon t v -> encode t v = Ok s -> skips s.

Lemma encode_skips_list n t l body :
  skips_upto n -> (list_sum (vsize <$> l) <= n)%nat -> Forall (canon t) l ->
  enc_all (encode t <$> l) = Ok body -> skips (bs "l" ++ body ++ bs "e").
Proof.
  intros IH Hl Hc (ss & Hss & ->)%enc_all_inv. rewrite Forall2_fmap_l in Hss.
  rewrite Forall_forall in Hc.
  assert (Forall2 (fun _ s => skips s /\ starts s) l ss) as H.
  { eapply Forall2_impl_elem; [exact Hss|]. intros v s Hv E. pose proof (vsize_elem _ _ Hv).
    split; [apply (IH v t); [lia|auto|done]|eapply encode_starts; eauto]. }
  apply (skips_body "l"%byte); [by left|..]; apply (Forall2_Forall_r _ _ _ _ H);
    apply Forall_true; naive_solver.
Qed.

Lemma encode_skips_dict n t (m : list (bytes * gval)) body :
  skips_upto n -> (list_sum ((fun e => vsize e.2) <$> m) <= n)%nat ->
  Forall (fun e => short e.1 /\ canon t e.2) m ->
  enc_entries (sort_keys ((fun e => (e.1, encode t e.2)) <$> m)) = Ok body ->
  skips (bs "d" ++ body ++ bs "e").
Proof.
  intros IH Hl Hc (ss & Hss & ->)%enc_entries_inv. apply skips_dict.
  rewrite (sort_keys_fmap (encode t)) in *. rewrite Forall2_fmap_l in *.
  rewrite Forall_forall in Hc. eapply Forall2_impl_elem; [exact Hss|].
  intros e s He E. rewrite sort_keys_perm in He. pose proof (vsize_entry _ _ He).
  destruct (Hc e He) as [Hk Hce].
  split_and!; [done|apply (IH e.2 t); [lia|done|done]|eapply encode_starts; eauto].
Qed.

(** What a struct writes, entry by entry. *)
Lemma encode_struct_inv fs vals s :
  canon (TStruct fs) (VStruct vals) -> encode (TStruct fs) (VStruct vals) = Ok s ->
  exists ss, s = bs "d" ++ entries_text (written_entries fs vals) ss ++ bs "e" /\
    Forall2 (fun e x => exists f v, fs !! e.2 = Some f /\ vals !! e.2 = Some v /\ e.1 = field_key f.1 /\
      short e.1 /\ canon f.2 v /\ encode f.2 v = Ok x) (written_entries fs vals) ss.
Proof.
  intros Hc He. inversion Hc as [| | | | | | |? ? Hok Hfs| | | | |]; subst.
  rewrite encode_struct_entries in He by (eauto using Forall2_length, so_ne).
  destruct (enc_entries _) as [body| |] eqn:E; cbn in He; simplify_eq.
  apply enc_entries_inv in E as (ss & Hss & ->). exists ss. rewrite zip_with_fmap_l. split; [done|].
  rewrite Forall2_fmap_l in Hss. eapply Forall2_impl_elem; [exact Hss|].
  intros e x (f & Hf & Ek & Hw)%written_entries_elem Ex. cbn in Ex.
  destruct (Forall2_lookup_l _ _ _ _ _ Hfs Hf) as (v & Hv & Hcv). exists f, v.
  unfold field_data in *. rewrite Hf, Hv in *. cbn in *. rewrite Ek.
  pose proof (proj1 (Forall_forall _ _) (so_short _ Hok) f (list_elem_of_lookup_2 _ _ _ Hf)).
  destruct Hcv as [[? _]|[_ ?]]; [congruence|]. by split_and!.
Qed.

Lemma encode_skips n : skips_upto n.
Proof.
  induction n as [|n IH]; intros v t s Hn Hc He;
    [destruct v as [| | | | | |[]|[]| |[]|[[]|]]; cbn in Hn; lia|].
  inversion Hc; subst; cbn in Hn.
  all: try (injection He as <-; by apply skips_string).
  all: try (injection He as <-; by apply skips_number, FormatInt_no_e).
  - injection He as <-. apply skips_number, digits_not_in; [|done].
    apply FormatUint_digits. unfold in_u in *. lia.
  - injection He as <-. by apply (skips_body "l"%byte []); [left|..].
  - cbn [encode] in He. destruct (enc_all _) eqn:E; cbn in He; simplify_eq.
    eapply (encode_skips_list n); [done|..|exact E]; [cbn; lia|done].
  - cbn [encode] in He. destruct (enc_entries _) eqn:E; cbn in He; simplify_eq.
    eapply (encode_skips_dict n); [done|..|exact E]; [cbn; lia|done].
  - destruct (encode_struct_inv _ _ _ Hc He) as (ss & -> & H1). apply skips_dict.
    eapply Forall2_impl; [exact H1|]. cbn beta. intros e x (f & v & Hf & Hv & Ek & Hsh & Hcv & Ex).
    split_and!; [done| |eapply encode_starts; eauto].
    apply list_elem_of_lookup_2, vsize_elem in Hv. apply (IH v f.2); [lia|done|done].
  - by apply (IH v0 t0); [lia|..].
  - cbn [encode] in He. destruct (enc_all _) eqn:E; cbn in He; simplify_eq.
    eapply (encode_skips_list n); [done|..|exact E]; [cbn; lia|done].
  - cbn [encode] in He. destruct (enc_entries _) eqn:E; cbn in He; simplify_eq.
    eapply (encode_skips_dict n); [done|..|exact E]; [cbn; lia|done].
Qed.

(** ** Looking a key up *)

Lemma read_text c s rest off :
  skips s -> c = mkConsumer (s ++ rest) off ->
  consumer_read c = Ok (off, int64 (off + lenZ s), mkConsumer rest (int64 (off + lenZ s))).
Proof. intros Hs ->. unfold consumer_read. by rewrite Hs by (unfold elem_fuel; cbn; lia). Qed.

Lemma subslice_mid data pre s rest :
  data = pre ++ s ++ rest -> subslice data (lenZ pre) (lenZ pre + lenZ s) = Ok s.
Proof.
  intros ->. unfold subslice.
  rewrite (proj2 (andb_true_iff _ _)).
  - replace (Z.to_nat _) with (length s) by lia. rewrite Nat2Z.id, drop_app_length.
    by rewrite take_app_length.
  - rewrite andb_true_iff, !Z.leb_le, !length_app. lia.
Qed.

Lemma decoded_key_enc k : short k -> decoded_key (enc_string k) = k.
Proof.
  intros Hk. unfold decoded_key, Decode.
  destruct (Decode_text TString (VString k) (enc_string k) [] (canon_string k Hk) eq_refl) as (p & fl & E).
  rewrite app_nil_r in E. change (VString []) with (zero TString). by rewrite E.
Qed.

Lemma get_loop_entries {A} data pre (es : list (bytes * A)) ss key fuel :
  Forall2 entry_skips es ss -> data = pre ++ entries_text es ss -> short data -> (length es < fuel)%nat ->
  get_loop fuel data (mkConsumer (entries_text es ss) (lenZ pre)) key = Ok (assoc key (zip es.*1 ss)).
Proof.
  intros H. revert pre fuel. induction H as [|[k a] s es ss (Hk & Hs & Hst) _ IH]; intros pre fuel E Hd Hf;
    (destruct fuel as [|fuel]; [lia|]); [done|]. cbn [fst] in *.
  assert (E1 : entries_text ((k, a) :: es) (s :: ss) = enc_string k ++ s ++ entries_text es ss)
    by (unfold entries_text; cbn; by rewrite <- app_assoc).
  rewrite E1 in *. assert (Hlen : lenZ data < 2 ^ 63) by exact Hd. rewrite E, !length_app in Hlen.
  cbn [get_loop cbuf]. rewrite bool_decide_false.
  2:{ destruct (starts_enc_string k) as (c & r & -> & _). done. }
  erewrite (read_text _ (enc_string k)); [|by apply skips_string|done]. cbn [mbind result_bind].
  rewrite !int64_small by lia. rewrite (subslice_mid _ pre _ (s ++ entries_text es ss)) by done.
  cbn [mbind result_bind]. rewrite decoded_key_enc by done.
  erewrite (read_text _ s); [|done|done]. cbn [mbind result_bind fst].
  rewrite !int64_small by lia. rewrite fmap_cons. cbn [zip_with assoc fst].
  destruct (decide (k = key)) as [->|Hne].
  - rewrite !bool_decide_true by done.
    replace (lenZ pre + lenZ (enc_string key)) with (lenZ (pre ++ enc_string key)) by (rewrite length_app; lia).
    by rewrite (subslice_mid _ _ s (entries_text es ss)) by (by rewrite <- app_assoc).
  - rewrite !bool_decide_false by done.
    replace (lenZ pre + lenZ (enc_string k) + lenZ s) with (lenZ (pre ++ enc_string k ++ s))
      by (rewrite !length_app; lia).
    apply IH; [by rewrite <- !app_assoc|done|cbn in Hf; lia].
Qed.

Lemma length_entries_text {A} (es : list (bytes * A)) ss :
  Forall2 entry_skips es ss -> (length es <= length (entries_text es ss))%nat.
Proof.
  induction 1 as [|[k a] s es ss (_ & _ & Hst) _ IH]; [done|]. unfold entries_text in *. cbn.
  rewrite !length_app. pose proof (starts_length _ Hst). lia.
Qed.

Lemma Get_entries {A} (es : list (bytes * A)) ss key :
  Forall2 entry_skips es ss -> short (entries_text es ss) ->
  Get (bs "d" ++ entries_text es ss ++ bs "e") key = Ok (assoc key (zip es.*1 ss)).
Proof.
  intros H Hs. unfold Get, get.
  change (bs "d" ++ entries_text es ss ++ bs "e") with ("d"%byte :: entries_text es ss ++ ["e"%byte]).
  cbv beta iota.  rewrite last_cons, last_snoc. rewrite !bool_decide_true by done. cbn [negb orb drop].
  rewrite drop_0, drop_last_snoc. apply (get_loop_entries _ []); [done|done|done|].
  pose proof (length_entries_text _ _ H). lia.
Qed.

Lemma written_entry fs vals i f v :
  fs !! i = Some f -> vals !! i = Some v -> field_skipped f.1 v = false ->
  (field_key f.1, i) ∈ written_entries fs vals.
Proof.
  intros Hf Hv Hw. apply written_entries_elem. exists f. cbn. unfold field_data. by rewrite Hf, Hv.
Qed.

Lemma assoc_zip_lookup {A} k (ks : list bytes) (xs : list A) x :
  assoc k (zip ks xs) = Some x -> exists i, ks !! i = Some k /\ xs !! i = Some x.
Proof.
  revert xs. induction ks as [|k' ks IH]; intros [|x' xs]; cbn; try done.
  case_bool_decide as E; intros Hx; [exists O; by simplify_eq|]. destruct (IH _ Hx) as [i Hi]. by exists (S i).
Qed.

Lemma assoc_zip_absent {A} k (ks : list bytes) (xs : list A) :
  length ks = length xs -> assoc k (zip ks xs) = None -> k ∉ ks.
Proof.
  revert xs. induction ks as [|k' ks IH]; intros [|x' xs]; cbn; try done; [set_solver|].
  case_bool_decide; intros; [done|]. apply not_elem_of_cons. split; [done|]. by apply (IH xs); [lia|].
Qed.

Lemma get_returns data key : get data key <> Panic.
Proof.
  unfold get. destruct data as [|b s]; [done|]. destruct (last (b :: s)); [|done].
  destruct (_ || _); [done|]. apply get_loop_total. cbn [cbuf]. lia.
Qed.

Lemma get_encoded fs vals s key :
  canon (TStruct fs) (VStruct vals) -> Encode (TStruct fs) (VStruct vals) = Ok s -> short s ->
  match Get s key with
  | Ok (Some x) => exists i f v, fs !! i = Some f /\ vals !! i = Some v /\ field_key f.1 = key /\
      field_skipped f.1 v = false /\ Encode f.2 v = Ok x
  | Ok None => forall i f v, fs !! i = Some f -> vals !! i = Some v -> field_key f.1 = key ->
      field_skipped f.1 v = true
  | _ => False
  end.
Proof.
  intros Hc He Hs. destruct (encode_struct_inv _ _ _ Hc He) as (ss & -> & H).
  assert (H1 : Forall2 entry_skips (written_entries fs vals) ss).
  { eapply Forall2_impl; [exact H|]. cbn beta. intros e x (f & v & Hf & Hv & Ek & Hsh & Hcv & Ex).
    split_and!; [done|eapply encode_skips; eauto|eapply encode_starts; eauto]. }
  rewrite Get_entries by (done || unfold short in *; rewrite !length_app in Hs; lia).
  destruct (assoc _ _) as [x|] eqn:E.
  - apply assoc_zip_lookup in E as (i & Hi & Hx). rewrite list_lookup_fmap in Hi.
    destruct (written_entries fs vals !! i) as [e|] eqn:Ei; [|done]. injection Hi as <-.
    destruct (Forall2_lookup_lr _ _ _ _ _ _ H Ei Hx) as (f & v & Hf & Hv & Ek & _ & _ & Ex).
    exists e.2, f, v. split_and!; try done.
    apply list_elem_of_lookup_2, written_entries_elem in Ei as (f' & Hf' & _ & Hw).
    unfold field_data in Hw. by rewrite Hf, Hv in Hw.
  - apply assoc_zip_absent in E; [|rewrite length_fmap; by eapply Forall2_length].
    intros i f v Hf Hv <-. apply not_false_iff_true. intros Hw. apply E, list_elem_of_fmap.
    exists (field_key f.1, i). split; [done|]. by apply (written_entry _ _ _ _ v).
Qed.

(** ** Theorems *)

(** [Get] always returns: on every byte string it ends, with the text of a
    value, without one, or with an error. *)
Theorem Get_total data key : Get data key <> Panic.
Proof. apply get_returns. Qed.

(** On the text of an encoded struct, [Get] returns exactly the bytes the encoder
    wrote for the field with the key, and finds nothing exactly when no written
    field has that key. *)
Theorem Get_Encode fs vals s key :
  canon (TStruct fs) (VStruct vals) -> Encode (TStruct fs) (VStruct vals) = Ok s -> short s ->
  match Get s key with
  | Ok (Some x) => exists i f v, fs !! i = Some f /\ vals !! i = Some v /\ field_key f.1 = key /\
      field_skipped f.1 v = false /\ Encode f.2 v = Ok x
  | Ok None => forall i f v, fs !! i = Some f -> vals !! i = Some v -> field_key f.1 = key ->
      field_skipped f.1 v = true
  | _ => False
  end.
Proof. apply get_encoded. Qed.
