(* ===== verification/Wire.v ===== *)
(** * peer_wire/message.go and peer_wire/extension.go

    Messages of the peer wire protocol: their data, [Encode], [Decode] from a byte
    stream, the extension messages (BEP 10 handshake and BEP 9 metadata messages,
    whose payload is bencoded by package bencode), and [Request]. *)

From S2P Require Import Prelude Strconv GoValue BenDecode BenEncode BenTotal BenRound Bitfield.

(** ** Constants *)

Definition maxMsgLength : Z := Z.shiftl 1 10 * 256.

Definition Choke : Z := 0.
Definition Unchoke : Z := 1.
Definition Interested : Z := 2.
Definition NotInterested : Z := 3.
Definition Have : Z := 4.
Definition BitfieldK : Z := 5.
Definition RequestK : Z := 6.
Definition Piece : Z := 7.
Definition Cancel : Z := 8.
Definition Port : Z := 9.
Definition KeepAlive : Z := 10.
Definition Extended : Z := 20.

Definition ExtHandshakeID : Z := 0.
Definition ExtMetadataID : Z := 1.

Definition MetadataReqID : Z := 0.
Definition MetadataDataID : Z := 1.
Definition MetadataRejID : Z := 2.

Definition MessageKind_String (id : Z) : bytes :=
  if id =? Choke then bs "Choke"
  else if id =? Unchoke then bs "Unchoke"
  else if id =? Interested then bs "Interested"
  else if id =? NotInterested then bs "NotInterested"
  else if id =? Have then bs "Have"
  else if id =? BitfieldK then bs "Bitfield"
  else if id =? RequestK then bs "Request"
  else if id =? Piece then bs "Piece"
  else if id =? Cancel then bs "Cancel"
  else if id =? Port then bs "Port"
  else if id =? KeepAlive then bs "Keepalive"
  else if id =? Extended then bs "Extended"
  else bs "Unknown".

(** ** Data *)

(** map[string]interface{}, nil or its entries. *)
Definition ExtHandshakeDict : Type := option (list (bytes * gval)).

Record MetadataExtMsg := mkMetadataExtMsg {
  me_Kind : Z;
  me_Piece : Z;
  me_TotalSz : Z;
  me_Data : option bytes;
}.

(** The values the program stores in [ExtendedMsg]. *)
Inductive extmsg :=
| ExtNil
| ExtDict (d : ExtHandshakeDict)
| ExtMetadata (m : MetadataExtMsg).

Record Msg := mkMsg {
  Kind : Z;
  Index : Z;
  Begin : Z;
  Len : Z;
  Bf : BitField;
  Block : bytes;
  MsgPort : Z;
  ExtendedID : Z;
  ExtendedMsg : extmsg;
}.

(** A message whose fields other than [Kind] are zero. *)
Definition simple_msg (k : Z) : Msg := mkMsg k 0 0 0 [] [] 0 0 ExtNil.

(** The reflected type of MetadataExtMsg. *)
Definition MetadataExtMsg_type : gtype := TStruct
  [ (mkField (bs "Kind") (bs "msg_type") [], TInt 8);
    (mkField (bs "Piece") (bs "piece") [], TInt 64);
    (mkField (bs "TotalSz") (bs "total_size") (bs "omit"), TInt 64);
    (mkField (bs "Data") (bs "-") [], TBytes) ].

Definition MetadataExtMsg_val (m : MetadataExtMsg) : gval :=
  VStruct [VInt (me_Kind m); VInt (me_Piece m); VInt (me_TotalSz m); VBytes (me_Data m)].

Definition MetadataExtMsg_of (v : gval) : option MetadataExtMsg :=
  match v with
  | VStruct [VInt k; VInt p; VInt t; VBytes d] => Some (mkMetadataExtMsg k p t d)
  | _ => None
  end.

Definition ExtHandshakeDict_type : gtype := TMap TIface.

(** [ExtendedMsg] as the interface value it is. *)
Definition extmsg_val (e : extmsg) : gval :=
  match e with
  | ExtNil => VIface None
  | ExtDict d => VIface (Some (ExtHandshakeDict_type, VMap d))
  | ExtMetadata m => VIface (Some (MetadataExtMsg_type, MetadataExtMsg_val m))
  end.

(** ** Encoding *)

(** [None] is a panic. *)
Definition writeExtension (msg : Msg) : option bytes :=
  match BenEncode.Encode (TPtr TIface) (VPtr (Some (extmsg_val (ExtendedMsg msg)))) with
  | Ok b =>
      if ExtendedID msg =? 0 then Some b
      else match ExtendedMsg msg with
           | ExtMetadata emsg =>
               match me_Data emsg with
               | None => Some b
               | Some d => Some (b ++ d)
               end
           | _ => None                                  (* type assertion *)
           end
  | _ => None
  end.

Definition w8 (z : Z) : bytes := be_enc 1 z.
Definition w16 (z : Z) : bytes := be_enc 2 z.
Definition w32 (z : Z) : bytes := be_enc 4 z.

(** The bytes after the length prefix. *)
Definition encode_body (m : Msg) : option bytes :=
  let k := Kind m in
  if k =? KeepAlive then Some []
  else if (k =? Choke) || (k =? Unchoke) || (k =? Interested) || (k =? NotInterested) then Some (w8 k)
  else if k =? Have then Some (w8 k ++ w32 (Index m))
  else if k =? BitfieldK then Some (w8 k ++ Bf m)
  else if (k =? RequestK) || (k =? Cancel) then
    Some (w8 k ++ w32 (Index m) ++ w32 (Begin m) ++ w32 (Len m))
  else if k =? Piece then Some (w8 k ++ w32 (Index m) ++ w32 (Begin m) ++ Block m)
  else if k =? Extended then
    payload ← writeExtension m; Some (w8 k ++ w8 (ExtendedID m) ++ payload)
  else if k =? Port then Some (w8 k ++ w16 (MsgPort m))
  else None.

Definition Encode (m : Msg) : option bytes :=
  b ← encode_body m; Some (w32 (uint32 (lenZ b)) ++ b).

(** ** Decoding *)

Inductive werror :=
| WEOF
| WUnexpectedEOF
| WTooLong
| WUnknownKind
| WUnknownExtension
| WExpectedBinaryData
| WBencode (e : derror).

(** [io.ReadFull] of [n] bytes from a stream. *)
Definition ReadFull (n : Z) (r : bytes) : result werror (bytes * bytes) :=
  if n <=? lenZ r then Ok (take (Z.to_nat n) r, drop (Z.to_nat n) r)
  else Err (if bool_decide (r = []) then WEOF else WUnexpectedEOF).

(** [binary.Read] of an unsigned integer of [n] bytes; a failure makes the caller
    panic. *)
Definition read_uint (n : nat) (b : bytes) : result werror (Z * bytes) :=
  if (n <=? length b)%nat then Ok (be_dec (take n b), drop n b) else Panic.

Definition read_int8 (b : bytes) : result werror (Z * bytes) :=
  '(z, b) ← read_uint 1 b; Ok (int8 z, b).

Definition decodeExtHandshakeMsg (msg : bytes) : result werror ExtHandshakeDict :=
  match BenDecode.Decode msg ExtHandshakeDict_type (VMap None) with
  | Ok (VMap d, None) => Ok d
  | Ok (_, Some e) => Err (WBencode e)
  | Err e => Err (WBencode e)
  | _ => Panic
  end.

Definition readExtension (extKind : Z) (payload : bytes) : result werror extmsg :=
  if extKind =? 0 then d ← decodeExtHandshakeMsg payload; Ok (ExtDict d)
  else if extKind =? ExtMetadataID then
    match BenDecode.Decode payload MetadataExtMsg_type (zero MetadataExtMsg_type) with
    | Panic => Panic
    | Err e => Err (WBencode e)
    | Ok (v, err) =>
        match MetadataExtMsg_of v with
        | None => Panic
        | Some metaExt =>
            match err with
            | Some (LargeBufferErr n) =>
                if negb (me_Kind metaExt =? MetadataDataID) then Err (WBencode (LargeBufferErr n))
                else Ok (ExtMetadata (mkMetadataExtMsg (me_Kind metaExt) (me_Piece metaExt)
                           (me_TotalSz metaExt) (Some (drop (Z.to_nat (lenZ payload - n)) payload))))
            | Some e => Err (WBencode e)
            | None =>
                if me_Kind metaExt =? MetadataDataID then Err WExpectedBinaryData
                else Ok (ExtMetadata metaExt)
            end
        end
    end
  else Err WUnknownExtension.

(** The message in a non-empty frame. *)
Definition decode_body (buf : bytes) : result werror Msg :=
  '(k, b) ← read_int8 buf;
  if (k =? Choke) || (k =? Unchoke) || (k =? Interested) || (k =? NotInterested) then
    Ok (simple_msg k)
  else if k =? Have then
    '(i, b) ← read_uint 4 b; Ok (mkMsg k i 0 0 [] [] 0 0 ExtNil)
  else if k =? BitfieldK then Ok (mkMsg k 0 0 0 b [] 0 0 ExtNil)
  else if (k =? RequestK) || (k =? Cancel) then
    '(i, b) ← read_uint 4 b; '(bg, b) ← read_uint 4 b; '(l, b) ← read_uint 4 b;
    Ok (mkMsg k i bg l [] [] 0 0 ExtNil)
  else if k =? Piece then
    '(i, b) ← read_uint 4 b; '(bg, b) ← read_uint 4 b;
    Ok (mkMsg k i bg 0 [] b 0 0 ExtNil)
  else if k =? Port then
    '(p, b) ← read_uint 2 b; Ok (mkMsg k 0 0 0 [] [] p 0 ExtNil)
  else if k =? Extended then
    '(id, b) ← read_int8 b; e ← readExtension id b;
    Ok (mkMsg k 0 0 0 [] [] 0 id e)
  else Err WUnknownKind.

(** A message and what is left of the stream. *)
Definition Decode (r : bytes) : result werror (Msg * bytes) :=
  '(msgLen, r) ← ReadFull 4 r;
  let n := be_dec msgLen in
  if maxMsgLength <? n then Err WTooLong
  else if n =? 0 then Ok (simple_msg KeepAlive, r)
  else
    '(buf, r) ← ReadFull n r;
    msg ← decode_body buf;
    Ok (msg, r).

(** [Request]: [None] is a panic. *)
Definition Request (m : Msg) : option Msg :=
  if negb (Kind m =? Piece) then None
  else Some (mkMsg RequestK (Index m) (Begin m) (uint32 (lenZ (Block m))) [] [] 0 0 ExtNil).

(** ** The extension handshake *)

Inductive xerror := ErrNoM | ErrMNotDict | ErrValueNotInteger.

(** The loop over the 'm' dictionary: it stops at the first value that is not an
    int64, whatever the order. *)
Fixpoint extensions_loop (m : list (bytes * gval)) (peerExt : list (bytes * Z))
    : result xerror (list (bytes * Z)) :=
  match m with
  | [] => Ok peerExt
  | (k, v) :: m =>
      match v with
      | VIface (Some (TInt 64, VInt id)) => extensions_loop m (map_set k (int8 id) peerExt)
      | _ => Err ErrValueNotInteger
      end
  end.

Definition Extensions (d : ExtHandshakeDict) : result xerror (list (bytes * Z)) :=
  match assoc (bs "m") (default [] d) with
  | None => Err ErrNoM
  | Some (VIface (Some (TMap TIface, VMap m))) => extensions_loop (default [] m) []
  | Some _ => Err ErrMNotDict
  end.

Definition MetadataSize (d : ExtHandshakeDict) : option Z :=
  match assoc (bs "metadata_size") (default [] d) with
  | Some (VIface (Some (TInt 64, VInt z))) => Some z
  | _ => None
  end.

(** ** Reading back what was written *)

Lemma read_uint_enc n z rest :
  0 <= z < 256 ^ Z.of_nat n -> read_uint n (be_enc n z ++ rest) = Ok (z, rest).
Proof.
  intros Hz. unfold read_uint. destruct (Nat.leb_spec n (length (be_enc n z ++ rest))) as [_|H].
  2:{ rewrite length_app, length_be_enc in H. lia. }
  rewrite <- (length_be_enc n z) at 1 3. by rewrite take_app_length, drop_app_length, be_dec_enc_small.
Qed.

Lemma int8_mod z : in_s 8 z -> int8 (z mod 256) = z.
Proof.
  intros Hz. unfold wrapS. change (2 ^ 8) with 256. change (2 ^ (8 - 1)) with 128.
  rewrite Z.add_mod_idemp_l by done. unfold in_s in Hz. rewrite Z.mod_small; lia.
Qed.

Lemma read_int8_enc z rest : in_s 8 z -> read_int8 (w8 z ++ rest) = Ok (z, rest).
Proof.
  intros Hz. unfold read_int8, read_uint, w8. cbn [be_enc app length Nat.leb take drop].
  cbn [mbind result_bind]. unfold be_dec. cbn [be_dec_acc]. rewrite b2z_z2b.
  rewrite Z.mul_0_l, Z.add_0_l. rewrite take_0. cbn [be_dec_acc].
  change (8 * Z.of_nat 0) with 0. by rewrite Z.shiftr_0_r, int8_mod, drop_0.
Qed.

Lemma ReadFull_app n s rest : lenZ s = n -> ReadFull n (s ++ rest) = Ok (s, rest).
Proof.
  intros <-. unfold ReadFull. rewrite length_app. destruct (Z.leb_spec (lenZ s) (Z.of_nat (length s + length rest))); [|lia].
  by rewrite Nat2Z.id, take_app_length, drop_app_length.
Qed.

(** The frame around a body. *)
Lemma Decode_frame b rest :
  0 < lenZ b <= maxMsgLength ->
  Decode (w32 (uint32 (lenZ b)) ++ b ++ rest) = (msg ← decode_body b; Ok (msg, rest)).
Proof.
  intros Hb. change maxMsgLength with 262144 in Hb. unfold Decode.
  rewrite ReadFull_app by (unfold w32; by rewrite length_be_enc). cbn [mbind result_bind].
  unfold w32. rewrite wrapU_id by (unfold in_u; lia).
  rewrite be_dec_enc_small by (cbn; lia).
  destruct (Z.ltb_spec maxMsgLength (lenZ b)) as [H|_]; [change maxMsgLength with 262144 in H; lia|].
  destruct (Z.eqb_spec (lenZ b) 0); [lia|]. by rewrite ReadFull_app.
Qed.

(** ** Well-formed messages: the fields of the kind are in range, the others zero *)

Inductive wf_msg : Msg -> Prop :=
| wf_simple k : k ∈ [Choke; Unchoke; Interested; NotInterested; KeepAlive] -> wf_msg (simple_msg k)
| wf_have i : in_u 32 i -> wf_msg (mkMsg Have i 0 0 [] [] 0 0 ExtNil)
| wf_bitfield bf : lenZ bf < maxMsgLength -> wf_msg (mkMsg BitfieldK 0 0 0 bf [] 0 0 ExtNil)
| wf_request k i b l : k = RequestK \/ k = Cancel -> in_u 32 i -> in_u 32 b -> in_u 32 l ->
    wf_msg (mkMsg k i b l [] [] 0 0 ExtNil)
| wf_piece i b block : in_u 32 i -> in_u 32 b -> lenZ block + 9 <= maxMsgLength ->
    wf_msg (mkMsg Piece i b 0 [] block 0 0 ExtNil)
| wf_port p : in_u 16 p -> wf_msg (mkMsg Port 0 0 0 [] [] p 0 ExtNil)
| wf_ext_handshake d text : canon ExtHandshakeDict_type (VMap d) ->
    BenEncode.Encode ExtHandshakeDict_type (VMap d) = Ok text -> lenZ text + 2 <= maxMsgLength ->
    wf_msg (mkMsg Extended 0 0 0 [] [] 0 ExtHandshakeID (ExtDict d))
| wf_ext_metadata k p t d text : in_s 8 k -> in_s 64 p -> in_s 64 t ->
    (k <> MetadataDataID /\ d = None \/ k = MetadataDataID /\ exists c s, d = Some (c :: s)) ->
    BenEncode.Encode MetadataExtMsg_type (MetadataExtMsg_val (mkMetadataExtMsg k p t d)) = Ok text ->
    lenZ text + lenZ (default [] d) + 2 <= maxMsgLength ->
    wf_msg (mkMsg Extended 0 0 0 [] [] 0 ExtMetadataID (ExtMetadata (mkMetadataExtMsg k p t d))).

Definition meta_header (m : MetadataExtMsg) : MetadataExtMsg :=
  mkMetadataExtMsg (me_Kind m) (me_Piece m) (me_TotalSz m) None.

Lemma MetadataExtMsg_struct_ok :
  struct_ok [ (mkField (bs "Kind") (bs "msg_type") [], TInt 8);
    (mkField (bs "Piece") (bs "piece") [], TInt 64);
    (mkField (bs "TotalSz") (bs "total_size") (bs "omit"), TInt 64);
    (mkField (bs "Data") (bs "-") [], TBytes) ].
Proof.
  constructor.
  - done.
  - by apply (bool_decide_unpack _); vm_compute.
  - intros i j f g Hi Hj Hf Hg E.
    destruct i as [|[|[|[|i]]]]; cbn in Hi; simplify_eq;
      destruct j as [|[|[|[|j]]]]; cbn in Hj; simplify_eq; done.
  - by repeat constructor.
  - by repeat constructor.
Qed.

Lemma MetadataExtMsg_canon m :
  in_s 8 (me_Kind m) -> in_s 64 (me_Piece m) -> in_s 64 (me_TotalSz m) -> 
  canon MetadataExtMsg_type (MetadataExtMsg_val (meta_header m)).
Proof.
  intros Hk Hp Ht. apply canon_struct; [apply MetadataExtMsg_struct_ok|].
  constructor; [right; split; [done|by constructor]|].
  constructor; [right; split; [done|by constructor]|].
  constructor; [|constructor; [by left|constructor]]. cbn.
  destruct (Z.eqb_spec (me_TotalSz m) 0) as [->|]; [by left|right]. split; [|by constructor].
  unfold field_skipped. cbn. by destruct (Z.eqb_spec (me_TotalSz m) 0).
Qed.

(** The data of a metadata message is not part of its dictionary. *)
Lemma encode_meta_header m :
  encode MetadataExtMsg_type (MetadataExtMsg_val m) =
  encode MetadataExtMsg_type (MetadataExtMsg_val (meta_header m)).
Proof. unfold MetadataExtMsg_type, MetadataExtMsg_val. rewrite !encode_struct. reflexivity. Qed.


Lemma encode_ptr_iface t x : encode (TPtr TIface) (VPtr (Some (VIface (Some (t, x))))) = encode t x.
Proof. reflexivity. Qed.

(** An extension message is read back from its payload. *)
Definition ext_reads (id : Z) (e : extmsg) (payload : bytes) : Prop :=
  in_s 8 id /\ writeExtension (mkMsg Extended 0 0 0 [] [] 0 id e) = Some payload /\
  readExtension id payload = Ok e.

Lemma ext_reads_handshake d text :
  canon ExtHandshakeDict_type (VMap d) -> BenEncode.Encode ExtHandshakeDict_type (VMap d) = Ok text ->
  ext_reads ExtHandshakeID (ExtDict d) text.
Proof.
  intros Hc He. split; [by unfold in_s|]. split.
  - unfold writeExtension. cbn [ExtendedMsg extmsg_val]. unfold BenEncode.Encode in *.
    by rewrite encode_ptr_iface, He.
  - unfold readExtension, decodeExtHandshakeMsg. cbn [Z.eqb ExtHandshakeID].
    destruct (Decode_text _ _ _ [] Hc He) as (p & fl & E). rewrite app_nil_r in E.
    unfold BenDecode.Decode. change (VMap None) with (zero ExtHandshakeDict_type). by rewrite E.
Qed.

Lemma readExtension_request k p t text :
  let m := mkMetadataExtMsg k p t None in
  in_s 8 k -> in_s 64 p -> in_s 64 t -> k <> MetadataDataID ->
  encode MetadataExtMsg_type (MetadataExtMsg_val m) = Ok text ->
  readExtension ExtMetadataID text = Ok (ExtMetadata m).
Proof.
  intros m Hk Hp Ht Hne He. destruct (Decode_text _ _ _ [] (MetadataExtMsg_canon m Hk Hp Ht) He) as (q & fl & E).
  rewrite app_nil_r in E. unfold readExtension, BenDecode.Decode.
  change (ExtMetadataID =? 0) with false. change (ExtMetadataID =? ExtMetadataID) with true. cbv iota.
  rewrite E. unfold ReadByte. cbn [brest MetadataExtMsg_of MetadataExtMsg_val meta_header me_Kind m].
  by destruct (Z.eqb_spec k MetadataDataID).
Qed.

Lemma readExtension_data p t c d text :
  let m := mkMetadataExtMsg MetadataDataID p t (Some (c :: d)) in
  in_s 64 p -> in_s 64 t ->
  encode MetadataExtMsg_type (MetadataExtMsg_val m) = Ok text ->
  readExtension ExtMetadataID (text ++ c :: d) = Ok (ExtMetadata m).
Proof.
  intros m Hp Ht He. rewrite encode_meta_header in He.
  destruct (Decode_text _ _ _ (c :: d) (MetadataExtMsg_canon m ltac:(done) Hp Ht) He) as (q & fl & E).
  unfold readExtension, BenDecode.Decode.
  change (ExtMetadataID =? 0) with false. change (ExtMetadataID =? ExtMetadataID) with true. cbv iota.
  rewrite E. unfold ReadByte. cbn [brest MetadataExtMsg_of MetadataExtMsg_val meta_header me_Kind m].
  change (negb (MetadataDataID =? MetadataDataID)) with false. cbv iota.
  unfold blen. cbn [brest me_Piece me_TotalSz]. do 4 f_equal. rewrite length_app. cbn [length].
  replace (Z.to_nat _) with (length text) by lia. apply drop_app_length.
Qed.

Lemma ext_reads_metadata k p t d text :
  in_s 8 k -> in_s 64 p -> in_s 64 t ->
  (k <> MetadataDataID /\ d = None \/ k = MetadataDataID /\ exists c s, d = Some (c :: s)) ->
  BenEncode.Encode MetadataExtMsg_type (MetadataExtMsg_val (mkMetadataExtMsg k p t d)) = Ok text ->
  ext_reads ExtMetadataID (ExtMetadata (mkMetadataExtMsg k p t d)) (text ++ default [] d).
Proof.
  intros Hk Hp Ht Hd He. split; [by unfold in_s|]. split.
  - unfold writeExtension. cbn [ExtendedMsg extmsg_val]. unfold BenEncode.Encode in *.
    rewrite encode_ptr_iface, He. cbn.
    destruct Hd as [[_ ->]|[_ (c & s & ->)]]; [by rewrite app_nil_r|done].
  - destruct Hd as [[Hne ->]|[-> (c & s & ->)]]; cbn [default].
    + rewrite app_nil_r. by apply readExtension_request.
    + by apply readExtension_data.
Qed.

(** Reading the kind of a body, and its fixed-size fields. *)
Ltac read_fields :=
  unfold decode_body; rewrite read_int8_enc by (by unfold in_s);
  cbn [mbind result_bind]; cbn -[read_uint read_int8 w32 w16 w8 readExtension];
  repeat (rewrite (read_uint_enc 4) by assumption; cbn [mbind result_bind]).

Definition body_reads (m : Msg) (b : bytes) : Prop :=
  encode_body m = Some b /\ 0 < lenZ b <= maxMsgLength /\ decode_body b = Ok m.

Lemma body_reads_ext id e payload :
  ext_reads id e payload -> lenZ payload + 2 <= maxMsgLength ->
  body_reads (mkMsg Extended 0 0 0 [] [] 0 id e) (w8 Extended ++ w8 id ++ payload).
Proof.
  intros (Hid & Hw & Hr) Hl. split_and!.
  - unfold encode_body. change (Kind _) with Extended. cbn -[writeExtension w8]. by rewrite Hw.
  - rewrite !length_app. cbn. lia.
  - rewrite !length_app. change (length (w8 _)) with 1%nat. lia.
  - read_fields. rewrite read_int8_enc by done. cbn [mbind result_bind]. by rewrite Hr.
Qed.

(** The frame of every well-formed message but KeepAlive. *)
Lemma wf_msg_body m : wf_msg m -> m = simple_msg KeepAlive \/ exists b, body_reads m b.
Proof.
  unfold body_reads. change maxMsgLength with 262144.
  destruct 1 as [k Hk|i Hi|bf Hbf|k i b l Hk Hi Hb Hl|i b block Hi Hb Hbl|p Hp|d text Hc He Hl
    |k p t d text Hk Hp Ht Hd He Hl]; [|right..].
  - rewrite !elem_of_cons in Hk. destruct Hk as [->|[->|[->|[->|[->|[]%elem_of_nil]]]]];
      [right; by eexists..|by left].
  - exists (w8 Have ++ w32 i ++ []). split; [by rewrite app_nil_r|]. split; [done|]. by read_fields.
  - exists (w8 BitfieldK ++ bf). split; [done|]. change maxMsgLength with 262144 in Hbf.
    split; [rewrite length_app; change (length (w8 _)) with 1%nat; lia|]. by read_fields.
  - exists (w8 k ++ w32 i ++ w32 b ++ w32 l ++ []). rewrite app_nil_r.
    split; [by destruct Hk as [->| ->]|]. split; [done|].
    rewrite <- (app_nil_r (w32 l)). by destruct Hk as [->| ->]; read_fields.
  - exists (w8 Piece ++ w32 i ++ w32 b ++ block). split; [done|]. change maxMsgLength with 262144 in Hbl.
    split; [rewrite !length_app; change (length (w8 _)) with 1%nat; unfold w32; rewrite !length_be_enc; lia|].
    by read_fields.
  - exists (w8 Port ++ w16 p ++ []). split; [by rewrite app_nil_r|]. split; [done|]. read_fields.
    by rewrite (read_uint_enc 2) by exact Hp.
  - eexists. apply body_reads_ext; [by apply ext_reads_handshake|done].
  - eexists. apply body_reads_ext; [by apply ext_reads_metadata|]. rewrite length_app. lia.
Qed.

(** ** When decoding panics *)

Lemma readExtension_total id payload : readExtension id payload <> Panic.
Proof.
  unfold readExtension, decodeExtHandshakeMsg. split_ifs.
  - pose proof (Decode_shape payload ExtHandshakeDict_type (VMap None) eq_refl (List.Forall_nil _)) as H.
    by destruct (BenDecode.Decode _ _ _) as [[[] []]| |].
  - pose proof (Decode_shape payload MetadataExtMsg_type (zero MetadataExtMsg_type) eq_refl
      (wt_zero MetadataExtMsg_type eq_refl)) as H.
    destruct (BenDecode.Decode _ _ _) as [[v err]|e|]; [|done..].
    assert (exists m, MetadataExtMsg_of v = Some m) as [m ->].
    { destruct v as [| | | | | | | |vals| |]; try done.
      apply wt_struct in H. apply Forall2_cons_inv_l in H as (v1 & ? & H1 & H & ->).
      apply Forall2_cons_inv_l in H as (v2 & ? & H2 & H & ->).
      apply Forall2_cons_inv_l in H as (v3 & ? & H3 & H & ->).
      apply Forall2_cons_inv_l in H as (v4 & ? & H4 & ->%Forall2_nil_inv_l & ->).
      destruct v1; try done. destruct v2; try done. destruct v3; try done. destruct v4; try done.
      by eexists. }
    destruct err as [[]|]; split_ifs; done.
  - done.
Qed.

(** The bytes that must follow the kind of a message. *)
Definition payload_need (k : Z) : nat :=
  if k =? Have then 4
  else if (k =? RequestK) || (k =? Cancel) then 12
  else if k =? Piece then 8
  else if k =? Port then 2
  else if k =? Extended then 1
  else 0.

Lemma read_uint_cases n b :
  (length b < n)%nat /\ read_uint n b = Panic \/
  exists z, (n <= length b)%nat /\ read_uint n b = Ok (z, drop n b).
Proof. unfold read_uint. destruct (Nat.leb_spec n (length b)); [right; eauto|by left]. Qed.

Lemma read_int8_cons c p : read_int8 (c :: p) = Ok (int8 (b2z c), p).
Proof. unfold read_int8, read_uint. cbn. by rewrite take_0, drop_0. Qed.

(** Case analysis on the reads of the goal. *)
Ltac read_cases :=
  repeat match goal with
  | |- context [read_uint ?n ?b] =>
      destruct (read_uint_cases n b) as [[? ->]|(? & ? & ->)]; cbn [mbind result_bind]
  end; rewrite ?length_drop in *; split; done || lia.

Lemma decode_body_panic buf :
  decode_body buf = Panic <->
  buf = [] \/ exists c p, buf = c :: p /\ (length p < payload_need (int8 (b2z c)))%nat.
Proof.
  destruct buf as [|c p]; [split; [by left|done]|].
  transitivity (length p < payload_need (int8 (b2z c)))%nat; [|naive_solver].
  unfold decode_body. rewrite read_int8_cons. cbn [mbind result_bind]. unfold payload_need.
  generalize (int8 (b2z c)). intros k.
  destruct (Z.eqb_spec k Have) as [->|]; [cbn -[read_uint]; read_cases|].
  destruct (Z.eqb_spec k RequestK) as [->|]; [cbn -[read_uint]; read_cases|].
  destruct (Z.eqb_spec k Cancel) as [->|]; [cbn -[read_uint]; read_cases|].
  destruct (Z.eqb_spec k Piece) as [->|]; [cbn -[read_uint]; read_cases|].
  destruct (Z.eqb_spec k Port) as [->|]; [cbn -[read_uint]; read_cases|].
  destruct (Z.eqb_spec k Extended) as [->|]; cbn [orb].
  - cbn -[read_int8 readExtension]. destruct p as [|i p]; [split; [cbn; lia|done]|].
    rewrite read_int8_cons. cbn [mbind result_bind].
    pose proof (readExtension_total (int8 (b2z i)) p). destruct (readExtension _ _); [split; [done|cbn; lia]..|done].
  - split; [by split_ifs|lia].
Qed.

Lemma ReadFull_inv n r a b : 0 <= n -> ReadFull n r = Ok (a, b) -> r = a ++ b /\ lenZ a = n.
Proof.
  unfold ReadFull. destruct (Z.leb_spec n (lenZ r)); intros Hn E; simplify_eq.
  rewrite take_drop, length_take. split; [done|lia].
Qed.

Lemma ReadFull_total n r : ReadFull n r <> Panic.
Proof. unfold ReadFull. by split_ifs. Qed.

(** The bytes of a well-formed message are read back from the front of a stream. *)
Lemma wf_msg_read m : wf_msg m -> exists s, Encode m = Some s /\ (forall rest, Decode (s ++ rest) = Ok (m, rest)) /\ (4 <= length s)%nat.
Proof.
  intros [->|(b & Hb & Hl & Hd)]%wf_msg_body.
  - exists (w32 0). split_and!; [done| |done]. intros rest. unfold Decode. by rewrite ReadFull_app.
  - exists (w32 (uint32 (lenZ b)) ++ b). unfold Encode. rewrite Hb. split_and!; [done| |rewrite length_app; cbn; lia]. intros rest.
    rewrite <- app_assoc, Decode_frame, Hd by done. done.
Qed.

(** A message takes at least the four bytes of its length. *)
Lemma Decode_takes r m rest : Decode r = Ok (m, rest) -> exists s, r = s ++ rest /\ (4 <= length s)%nat.
Proof.
  unfold Decode. destruct (ReadFull 4 r) as [[h r1]| |] eqn:E1; cbn [mbind result_bind]; [|done..].
  apply ReadFull_inv in E1 as [-> Hh]; [|done]. destruct (_ <? _); [done|]. destruct (_ =? 0); [intros [= _ <-]; exists h; split; [done|lia]|].
  pose proof (be_dec_range h). destruct (ReadFull (be_dec h) r1) as [[buf r2]| |] eqn:E2; cbn [mbind result_bind]; [|done..].
  apply ReadFull_inv in E2 as [-> _]; [|lia]. destruct (decode_body buf); cbn [mbind result_bind]; [|done..]. intros [= _ <-].
  exists (h ++ buf). rewrite app_assoc, length_app. split; [done|lia].
Qed.

(** ** Theorems *)

(** C3: A well-formed message of any kind is encoded, and decoding a stream that
    starts with its bytes gives the message back and leaves the rest unread. *)
Theorem Decode_Encode_msg m :
  wf_msg m -> exists s, Encode m = Some s /\ forall rest, Decode (s ++ rest) = Ok (m, rest).
Proof. intros (s & E & H & _)%wf_msg_read. eauto. Qed.

(** C34: Decoding panics exactly on a complete frame whose payload is shorter than
    the fields of its kind; such a frame is at the choice of the peer. *)
Theorem Decode_panic r :
  Decode r = Panic <->
  exists c p rest, r = w32 (lenZ (c :: p)) ++ (c :: p) ++ rest /\ lenZ (c :: p) <= maxMsgLength /\
    (length p < payload_need (int8 (b2z c)))%nat.
Proof.
  split.
  - unfold Decode. pose proof (ReadFull_total 4 r).
    destruct (ReadFull 4 r) as [[h r1]| |] eqn:E1; cbn [mbind result_bind]; [|done..].
    apply ReadFull_inv in E1 as [-> Hh]; [|done].
    destruct (Z.ltb_spec maxMsgLength (be_dec h)); [done|]. destruct (Z.eqb_spec (be_dec h) 0); [done|].
    pose proof (ReadFull_total (be_dec h) r1). pose proof (be_dec_range h).
    destruct (ReadFull (be_dec h) r1) as [[buf r2]| |] eqn:E2; cbn [mbind result_bind]; [|done..].
    apply ReadFull_inv in E2 as [-> Hbuf]; [|lia].
    destruct (decode_body buf) eqn:E3; cbn [mbind result_bind]; [done..|]. intros _.
    apply decode_body_panic in E3 as [->|(c & p & -> & Hp)]; [cbn in Hbuf; lia|].
    exists c, p, r2. rewrite Hbuf. split; [|done]. unfold w32. f_equal.
    rewrite <- (be_enc_dec h) at 1. f_equal. lia.
  - intros (c & p & rest & -> & Hl & Hp).
    rewrite <- (wrapU_id 32 (lenZ (c :: p))) at 1.
    + rewrite Decode_frame by (cbn [length] in *; lia).
      rewrite (proj2 (decode_body_panic (c :: p))) by (right; eauto). done.
    + unfold in_u. change maxMsgLength with 262144 in Hl. lia.
Qed.

(** The request derived from a received block asks for exactly that block: the
    same piece and offset, and the length of the data. *)
Theorem Request_of_piece m :
  wf_msg m -> Kind m = Piece ->
  exists q, Request m = Some q /\ wf_msg q /\ Index q = Index m /\ Begin q = Begin m /\
    Len q = lenZ (Block m).
Proof.
  intros Hm Hk. unfold Request. rewrite Hk. change (negb (Piece =? Piece)) with false. cbv iota.
  assert (in_u 32 (Index m) /\ in_u 32 (Begin m) /\ in_u 32 (lenZ (Block m))) as (Hi & Hb & Hl).
  { destruct Hm as [k Hin| | |k ? ? ? Hkk| | | |]; cbn in Hk; try done.
    cbn [Index Begin Block]. split_and!; [done..|]. change maxMsgLength with 262144 in *.
      unfold in_u. lia. }
  eexists. split; [done|]. cbn. rewrite wrapU_id by done. split_and!; try done.
  apply wf_request; [by left|done..].
Qed.
