(* ===== verification/Handshake.v ===== *)
(** * peer_wire/handshake.go

    The BitTorrent handshake over a connection: the bytes the peer sends, what we
    wrote, and which writes fail. *)

From S2P Require Import Prelude Bitfield Wire.

(** ** Data *)

Definition protoLen : byte := z2b 19.
Definition proto : bytes := bs "BitTorrent protocol".

Record HandShake := mkHandShake {
  hs_Reserved : Reserved;
  hs_InfoHash : bytes;
  hs_PeerID : bytes;
}.

(** The arrays have their lengths. *)
Definition hs_wf (h : HandShake) : Prop :=
  length (hs_Reserved h) = 8%nat /\ length (hs_InfoHash h) = 20%nat /\ length (hs_PeerID h) = 20%nat.

Definition zero20 : bytes := replicate 20 Byte.x00.
Definition new_HandShake : HandShake := mkHandShake (replicate 8 Byte.x00) zero20 zero20.

(** [c_writes]: whether the next writes succeed; after the list, all do. *)
Record conn := mkConn {
  c_in : bytes;
  c_out : bytes;
  c_writes : list bool;
}.

Inductive herror := HRead (e : werror) | HWrite | HProto | HInfoHash.

(** ** Operations *)

Definition hs_bytes (h : HandShake) : bytes :=
  [protoLen] ++ proto ++ hs_Reserved h ++ hs_InfoHash h ++ hs_PeerID h.

Definition conn_write (s : bytes) (c : conn) : result herror conn :=
  match c_writes c with
  | false :: _ => Err HWrite
  | l => Ok (mkConn (c_in c) (c_out c ++ s) (tail l))
  end.

Definition hs_write (h : HandShake) (c : conn) : result herror conn := conn_write (hs_bytes h) c.

Definition conn_ReadFull (n : Z) (c : conn) : result herror (bytes * conn) :=
  match ReadFull n (c_in c) with
  | Ok (b, r) => Ok (b, mkConn r (c_out c) (c_writes c))
  | Err e => Err (HRead e)
  | Panic => Panic
  end.

Definition readHsWithoutPeerID (c : conn) : result herror (HandShake * conn) :=
  '(pstrLenSlc, c) ← conn_ReadFull 20 c;
  match pstrLenSlc with
  | [] => Panic
  | b0 :: pstr =>
      if negb (b2z b0 =? 19) && bool_decide (pstr = proto) then Err HProto
      else
        '(buf, c) ← conn_ReadFull 28 c;
        Ok (mkHandShake (take 8 buf) (take 20 (drop 8 buf)) (hs_PeerID new_HandShake), c)
  end.

Definition readPeerID (h : HandShake) (c : conn) : result herror (HandShake * conn) :=
  '(buf, c) ← conn_ReadFull 20 c;
  Ok (mkHandShake (hs_Reserved h) (hs_InfoHash h) buf, c).

Definition readHs (c : conn) : result herror (HandShake * conn) :=
  '(hs, c) ← readHsWithoutPeerID c; readPeerID hs c.

(** The peer's handshake and the connection afterwards. *)
Definition initiate (h : HandShake) (c : conn) : result herror (HandShake * conn) :=
  c ← hs_write h c;
  '(_h, c) ← readHs c;
  if negb (bool_decide (hs_InfoHash h = hs_InfoHash _h)) then Err HInfoHash else Ok (_h, c).

Definition receipt (h : HandShake) (c : conn) : result herror (HandShake * conn) :=
  '(_h, c) ← readHsWithoutPeerID c;
  let h := mkHandShake (hs_Reserved h) (hs_InfoHash _h) (hs_PeerID h) in
  c ← hs_write h c;
  readPeerID _h c.

Definition Do (h : HandShake) (c : conn) : result herror (HandShake * conn) :=
  if negb (bool_decide (hs_InfoHash h = zero20)) then initiate h c else receipt h c.

(** ** Lemmas *)

Lemma conn_ReadFull_app n s rest out ok :
  lenZ s = n -> conn_ReadFull n (mkConn (s ++ rest) out ok) = Ok (s, mkConn rest out ok).
Proof. intros H. unfold conn_ReadFull. cbn [c_in]. by rewrite ReadFull_app. Qed.

Lemma readHsWithoutPeerID_bytes h rest out ok :
  hs_wf h ->
  readHsWithoutPeerID (mkConn (hs_bytes h ++ rest) out ok) =
  Ok (mkHandShake (hs_Reserved h) (hs_InfoHash h) zero20, mkConn (hs_PeerID h ++ rest) out ok).
Proof.
  intros (Hr & Hi & _). unfold readHsWithoutPeerID, hs_bytes.
  rewrite <- !app_assoc, (app_assoc [protoLen]), conn_ReadFull_app by reflexivity.
  cbn [mbind result_bind app]. change (b2z protoLen =? 19) with true. cbn [negb andb].
  rewrite (app_assoc (hs_Reserved h)), conn_ReadFull_app by (rewrite length_app, Hr, Hi; done).
  cbn [mbind result_bind]. rewrite (take_app_length' _ _ 8), (drop_app_length' _ _ 8) by done.
  by rewrite (take_ge _ 20) by lia.
Qed.

Lemma readPeerID_bytes h p rest out ok :
  length p = 20%nat ->
  readPeerID h (mkConn (p ++ rest) out ok) =
  Ok (mkHandShake (hs_Reserved h) (hs_InfoHash h) p, mkConn rest out ok).
Proof. intros Hp. unfold readPeerID. by rewrite conn_ReadFull_app by (by rewrite Hp). Qed.

Lemma readHs_bytes h rest out ok :
  hs_wf h -> readHs (mkConn (hs_bytes h ++ rest) out ok) = Ok (h, mkConn rest out ok).
Proof.
  intros Hh. unfold readHs. rewrite readHsWithoutPeerID_bytes by done. cbn [mbind result_bind].
  rewrite readPeerID_bytes by apply Hh. by destruct h.
Qed.

(** The recipient of a handshake, which has no info hash of its own. *)
Lemma Do_receipt hI hR rest :
  hs_wf hI -> hs_InfoHash hR = zero20 ->
  Do hR (mkConn (hs_bytes hI ++ rest) [] []) =
  Ok (hI, mkConn rest (hs_bytes (mkHandShake (hs_Reserved hR) (hs_InfoHash hI) (hs_PeerID hR))) []).
Proof.
  intros HI Hz. unfold Do. rewrite bool_decide_true by done. cbn [negb].
  unfold receipt. rewrite readHsWithoutPeerID_bytes by done. cbn [mbind result_bind].
  unfold hs_write, conn_write. cbn [c_writes tail c_in c_out app mbind result_bind hs_InfoHash].
  rewrite readPeerID_bytes by apply HI. by destruct hI.
Qed.

(** The initiator, with an answer for its info hash. *)
Lemma Do_initiate hI answer rest :
  hs_wf answer -> hs_InfoHash hI <> zero20 -> hs_InfoHash answer = hs_InfoHash hI ->
  Do hI (mkConn (hs_bytes answer ++ rest) [] []) = Ok (answer, mkConn rest (hs_bytes hI) []).
Proof.
  intros HA Hne Hh. unfold Do. rewrite bool_decide_false by done. cbn [negb].
  unfold initiate, hs_write, conn_write. cbn [c_writes tail c_in c_out app mbind result_bind].
  rewrite readHs_bytes by done. cbn [mbind result_bind]. by rewrite bool_decide_true.
Qed.

(** ** Theorems *)

(** The two ends of a handshake agree: the recipient learns the initiator's
    handshake and answers with its own identity and the initiator's info hash; with
    that answer the initiator learns the recipient's handshake. What either end
    sends after its handshake stays unread. *)
Theorem handshake_agrees hI hR restI restR :
  hs_wf hI -> hs_wf hR -> hs_InfoHash hI <> zero20 -> hs_InfoHash hR = zero20 ->
  let answer := mkHandShake (hs_Reserved hR) (hs_InfoHash hI) (hs_PeerID hR) in
  Do hR (mkConn (hs_bytes hI ++ restI) [] []) = Ok (hI, mkConn restI (hs_bytes answer) []) /\
  Do hI (mkConn (hs_bytes answer ++ restR) [] []) = Ok (answer, mkConn restR (hs_bytes hI) []).
Proof.
  intros HI HR Hne Hz answer. split; [by apply Do_receipt|]. apply Do_initiate; [|done|done].
  destruct HI as (? & ? & ?), HR as (? & ? & ?). by split_and!.
Qed.

(** An initiator never accepts a peer that answers for another torrent. *)
Theorem initiate_same_torrent h c h' c' :
  initiate h c = Ok (h', c') -> hs_InfoHash h' = hs_InfoHash h.
Proof.
  unfold initiate. destruct (hs_write h c) as [c1| |]; cbn [mbind result_bind]; [|done..].
  destruct (readHs c1) as [[h1 c2]| |]; cbn [mbind result_bind]; [|done..].
  case_bool_decide as E; cbn [negb]; [|done]. intros. by simplify_eq.
Qed.

(** The protocol name of the peer is not checked: a header of 20 bytes that
    starts with 19 is accepted whatever its name. *)
Theorem protocol_name_ignored name h rest out ok :
  hs_wf h -> length name = 19%nat ->
  readHs (mkConn ([protoLen] ++ name ++ hs_Reserved h ++ hs_InfoHash h ++ hs_PeerID h ++ rest) out ok) =
  Ok (h, mkConn rest out ok).
Proof.
  intros Hh Hn. rewrite <- (readHs_bytes h rest out ok Hh). unfold readHs, readHsWithoutPeerID, hs_bytes.
  rewrite <- !app_assoc, !(app_assoc [protoLen]).
  rewrite !conn_ReadFull_app by (cbn [app length]; rewrite ?Hn; reflexivity). reflexivity.
Qed.
