(* ===== verification/Metainfo.v ===== *)
(** * metainfo/info.go, metainfo/metainfo.go and metainfo/parser.go

    The info dictionary of a torrent, the metainfo file around it, and loading a
    metainfo file: decoding, the check of the piece hashes, and the info hash over
    the text of the info dictionary. SHA-1 is a parameter. *)

From S2P Require Import Prelude Strconv GoValue BenDecode BenEncode BenTotal BenRound BenGet.

Definition pieceSize : Z := 20.

(** ** Data *)

Record File := mkFile {
  f_Len : Z;
  f_Md5 : option bytes;
  f_Path : option (list bytes);
}.

Record InfoDict := mkInfo {
  Files : option (list File);
  Len : Z;
  Md5 : option bytes;
  Name : bytes;
  PieceLen : Z;
  Pieces : option bytes;
  Private : Z;
  Hash : bytes;
}.

Record MetaInfo := mkMeta {
  Announce : bytes;
  AnnounceList : option (list (option (list bytes)));
  Comment : bytes;
  Created : bytes;
  CreationDate : Z;
  Encoding : bytes;
  Info : option InfoDict;
  InfoBytes : option bytes;
}.

(** The types as reflection sees them. *)
Definition fld (name key empty : String.string) (t : gtype) : sfield * gtype :=
  (mkField (bs name) (bs key) (bs empty), t).

Definition File_fields : list (sfield * gtype) :=
  [ fld "Len" "length" "" (TInt 64);
    fld "Md5" "md5sum" "omit" TBytes;
    fld "Path" "path" "" (TSlice TString) ].

Definition InfoDict_fields : list (sfield * gtype) :=
  [ fld "Files" "files" "omit" (TSlice (TStruct File_fields));
    fld "Len" "length" "omit" (TInt 64);
    fld "Md5" "md5sum" "omit" TBytes;
    fld "Name" "name" "omit" TString;
    fld "PieceLen" "piece length" "" (TInt 64);
    fld "Pieces" "pieces" "" TBytes;
    fld "Private" "private" "omit" (TInt 64);
    fld "Hash" "-" "" (TArray 20) ].

Definition InfoDict_type : gtype := TStruct InfoDict_fields.

Definition MetaInfo_fields : list (sfield * gtype) :=
  [ fld "Announce" "announce" "" TString;
    fld "AnnounceList" "announce-list" "omit" (TSlice (TSlice TString));
    fld "Comment" "comment" "omit" TString;
    fld "Created" "created by" "omit" TString;
    fld "CreationDate" "creation date" "omit" (TInt 64);
    fld "Encoding" "encoding" "omit" TString;
    fld "Info" "info" "" (TPtr InfoDict_type);
    fld "InfoBytes" "-" "" TBytes ].

Definition MetaInfo_type : gtype := TStruct MetaInfo_fields.

(** Records as reflected values, and back. *)
Definition slice_val {A} (f : A -> gval) (o : option (list A)) : gval :=
  VSlice (match o with None => None | Some l => Some (f <$> l) end).

Definition File_val (f : File) : gval :=
  VStruct [VInt (f_Len f); VBytes (f_Md5 f); slice_val VString (f_Path f)].

Definition Info_val (i : InfoDict) : gval :=
  VStruct [slice_val File_val (Files i); VInt (Len i); VBytes (Md5 i); VString (Name i);
           VInt (PieceLen i); VBytes (Pieces i); VInt (Private i); VArray (Hash i)].

Definition Meta_val (m : MetaInfo) : gval :=
  VStruct [VString (Announce m);
           slice_val (slice_val VString) (AnnounceList m);
           VString (Comment m); VString (Created m); VInt (CreationDate m); VString (Encoding m);
           VPtr (Info_val <$> Info m); VBytes (InfoBytes m)].

Definition val_string (v : gval) : option bytes :=
  match v with VString s => Some s | _ => None end.
Definition val_slice {A} (f : gval -> option A) (v : gval) : option (option (list A)) :=
  match v with
  | VSlice None => Some None
  | VSlice (Some l) => Some <$> mapM f l
  | _ => None
  end.

Definition File_of (v : gval) : option File :=
  match v with
  | VStruct [VInt l; VBytes m; p] => path ← val_slice val_string p; Some (mkFile l m path)
  | _ => None
  end.

Definition Info_of (v : gval) : option InfoDict :=
  match v with
  | VStruct [fs; VInt l; VBytes m; VString n; VInt pl; VBytes ps; VInt pr; VArray h] =>
      files ← val_slice File_of fs; Some (mkInfo files l m n pl ps pr h)
  | _ => None
  end.

Definition Meta_of (v : gval) : option MetaInfo :=
  match v with
  | VStruct [VString a; al; VString c; VString cr; VInt cd; VString e; VPtr i; VBytes ib] =>
      l ← val_slice (val_slice val_string) al;
      info ← match i with None => Some None | Some x => Some <$> Info_of x end;
      Some (mkMeta a l c cr cd e info ib)
  | _ => None
  end.

(** ** Operations of the info dictionary *)

Inductive merror :=
| ErrPiecesLength
| ErrNoInfo
| ErrDecode (e : derror)
| ErrReadFile.

(** [nil] when [None]. *)
Definition Info_Parse (info : InfoDict) : option merror :=
  if Z.rem (lenZ (default [] (Pieces info))) pieceSize =? 0 then None else Some ErrPiecesLength.

Definition TotalLength (info : InfoDict) : Z :=
  match Files info with
  | None => Len info
  | Some fs => foldl (fun total f => int64 (total + f_Len f)) 0 fs
  end.

Definition NumPieces (info : InfoDict) : Z := Z.quot (lenZ (default [] (Pieces info))) pieceSize.

(** A slice expression within the length of the slice; [None] is a panic. *)
Definition slice {A} (l : list A) (lo hi : Z) : option (list A) :=
  if (0 <=? lo) && (lo <=? hi) && (hi <=? lenZ l)
  then Some (take (Z.to_nat (hi - lo)) (drop (Z.to_nat lo) l)) else None.

Definition PieceHash (info : InfoDict) (i : Z) : option bytes :=
  slice (default [] (Pieces info)) (i * pieceSize) (i * pieceSize + pieceSize).

(** for i := 0; i < len(info.Pieces); i += pieceSize *)
Fixpoint PiecesHash_loop (fuel : nat) (ps : bytes) (i : Z) (h : list bytes) : option (list bytes) :=
  match fuel with
  | O => Some h
  | S fuel =>
      if i <? lenZ ps then
        x ← slice ps i (i + pieceSize); PiecesHash_loop fuel ps (i + pieceSize) (h ++ [x])
      else Some h
  end.

Definition PiecesHash (info : InfoDict) : option (list bytes) :=
  let ps := default [] (Pieces info) in PiecesHash_loop (length ps) ps 0 [].

Definition FilesInfo (info : InfoDict) : list File :=
  match default [] (Files info) with
  | [] => [mkFile (Len info) None None]
  | fs => fs
  end.

(** The remainder by a zero piece length is a panic. *)
Definition PieceLength (info : InfoDict) (i : Z) : option Z :=
  if i =? NumPieces info - 1 then
    if PieceLen info =? 0 then None else Some (Z.rem (TotalLength info) (PieceLen info))
  else Some (PieceLen info).

Definition PieceOffset (info : InfoDict) (i : Z) : Z := int64 (PieceLen info * i).

(** ** Metainfo files *)

Section sha1.
Variable sha1_Sum : bytes -> bytes.

Definition set_Hash (info : InfoDict) (h : bytes) : InfoDict :=
  mkInfo (Files info) (Len info) (Md5 info) (Name info) (PieceLen info) (Pieces info) (Private info) h.

Definition setInfoHash (info : InfoDict) (data : bytes) : result merror InfoDict :=
  match Get data (bs "info") with
  | Ok (Some infoBytes) => Ok (set_Hash info (sha1_Sum infoBytes))
  | Ok None | Err _ => Err ErrNoInfo
  | Panic => Panic
  end.

(** The info dictionary's text in a .torrent file, which may be unreadable. *)
Definition Bytes (file : option bytes) : result merror bytes :=
  match file with
  | None => Err ErrReadFile
  | Some data =>
      match Get data (bs "info") with
      | Ok (Some infoBenc) => Ok infoBenc
      | Ok None | Err _ => Err ErrNoInfo
      | Panic => Panic
      end
  end.

(** [m.Info.Parse()] dereferences [m.Info]. *)
Definition Meta_Parse (m : MetaInfo) : result merror unit :=
  match Info m with
  | None => Panic
  | Some info => match Info_Parse info with None => Ok tt | Some e => Err e end
  end.

Definition set_Info (m : MetaInfo) (info : InfoDict) (ib : option bytes) : MetaInfo :=
  mkMeta (Announce m) (AnnounceList m) (Comment m) (Created m) (CreationDate m) (Encoding m)
         (Some info) ib.

Definition loadMetainfoFromBytes (data : bytes) : result merror MetaInfo :=
  match Decode data MetaInfo_type (zero MetaInfo_type) with
  | Err e | Ok (_, Some e) => Err (ErrDecode e)
  | Panic => Panic
  | Ok (v, None) =>
      match Meta_of v with
      | None => Panic
      | Some meta =>
          _ ← Meta_Parse meta;
          match Info meta with
          | None => Panic
          | Some info =>
              (* the error of this call is overwritten by the one of Get *)
              let info := match setInfoHash info data with Ok info' => info' | _ => info end in
              match Get data (bs "info") with
              | Ok (Some infoBytes) =>
                  Ok (set_Info meta (set_Hash info (sha1_Sum infoBytes)) (Some infoBytes))
              | Ok None | Err _ => Err ErrNoInfo
              | Panic => Panic
              end
          end
      end
  end.

Definition LoadMetainfoFile (file : option bytes) : result merror MetaInfo :=
  match file with None => Err ErrReadFile | Some data => loadMetainfoFromBytes data end.

(** The bytes written to the .torrent file. *)
Definition CreateTorrentFile (m : MetaInfo) : result eerror bytes :=
  Encode (TPtr MetaInfo_type) (VPtr (Some (Meta_val m))).

(** ReaderParser: the bytes read until EOF, or a read error. *)
Definition ReaderParser_Parse (data : option bytes) : result merror MetaInfo :=
  LoadMetainfoFile data.

Definition InfoHashParser_Parse (InfoHash : bytes) : MetaInfo :=
  mkMeta [] None [] [] 0 [] (Some (mkInfo None 0 None [] 0 None 0 InfoHash)) None.

End sha1.

(** ** Records and reflected values *)

Lemma val_slice_of {A} (f : gval -> option A) (g : A -> gval) o :
  (forall x, f (g x) = Some x) -> val_slice f (slice_val g o) = Some o.
Proof.
  intros H. destruct o as [l|]; [|done]. cbn [val_slice slice_val]. by rewrite mapM_fmap_Some.
Qed.

Lemma File_of_val f : File_of (File_val f) = Some f.
Proof. unfold File_of, File_val. rewrite val_slice_of by done. by destruct f. Qed.

Lemma Info_of_val i : Info_of (Info_val i) = Some i.
Proof. unfold Info_of, Info_val. rewrite (val_slice_of File_of File_val) by apply File_of_val. by destruct i. Qed.

Lemma Meta_of_val m : Meta_of (Meta_val m) = Some m.
Proof.
  unfold Meta_of, Meta_val. rewrite val_slice_of by (intros; by apply val_slice_of).
  destruct m as [? ? ? ? ? ? [i|] ?]; cbn -[Info_of Info_val]; [|done]. by rewrite Info_of_val.
Qed.

(** Values of the types are records. *)
Lemma val_slice_wt {A} (f : gval -> option A) t v :
  (forall x, wt t x -> exists y, f x = Some y) -> wt (TSlice t) v -> exists l, val_slice f v = Some l.
Proof.
  intros H Hv. destruct v as [| | | | | |[l|]| | | |]; try done; [|by eexists]. cbn in Hv |- *.
  assert (exists ys, mapM f l = Some ys) as [ys ->]; [|by eexists].
  induction Hv as [|x l Hx _ [ys E]]; [by eexists|]. destruct (H x Hx) as [y Ey].
  exists (y :: ys). cbn. by rewrite Ey, E.
Qed.

Lemma val_string_wt v : wt TString v -> exists s, val_string v = Some s.
Proof. destruct v; try done. by eexists. Qed.

(** Take a struct value apart, field by field. *)
Ltac struct_fields H :=
  apply wt_struct in H;
  match type of H with Forall2 _ ?fs _ => unfold fs in H end;
  repeat match type of H with
  | Forall2 _ (_ :: _) _ =>
      let v := fresh "v" in let Hv := fresh "Hv" in
      apply Forall2_cons_inv_l in H as (v & ? & Hv & H & ->)
  end;
  apply Forall2_nil_inv_l in H as ->.

Lemma File_of_wt v : wt (TStruct File_fields) v -> exists f, File_of v = Some f.
Proof.
  intros H. destruct v as [| | | | | | | |vals| |]; try done. struct_fields H. cbn [snd fld] in *.
  destruct v; try done. destruct v0; try done. cbn [File_of].
  destruct (val_slice_wt val_string TString v1 val_string_wt Hv1) as [p ->]. by eexists.
Qed.

Lemma Info_of_wt v : wt InfoDict_type v -> exists i, Info_of v = Some i.
Proof.
  intros H. destruct v as [| | | | | | | |vals| |]; try done. struct_fields H. cbn [snd fld] in *.
  destruct v0; try done. destruct v1; try done. destruct v2; try done. destruct v3; try done.
  destruct v4; try done. destruct v5; try done. destruct v6; try done. cbn [Info_of].
  destruct (val_slice_wt File_of _ v File_of_wt Hv) as [fs ->]. by eexists.
Qed.

Lemma Meta_of_wt v : wt MetaInfo_type v -> exists m, Meta_of v = Some m.
Proof.
  intros H. destruct v as [| | | | | | | |vals| |]; try done. struct_fields H. cbn [snd fld] in *.
  destruct v; try done. destruct v1; try done. destruct v2; try done. destruct v3; try done.
  destruct v4; try done. destruct v5 as [| | | | | | | | |i|]; try done. destruct v6; try done. cbn [Meta_of].
  destruct (val_slice_wt (val_slice val_string) _ v0
              (fun x Hx => val_slice_wt val_string TString x val_string_wt Hx) Hv0) as [al ->].
  cbn. destruct i as [x|]; [|by eexists]. destruct (Info_of_wt x Hv5) as [i ->]. by eexists.
Qed.

(** ** A mandatory pointer field is set *)

Lemma decode_ptr_some fuel t v b v' b' :
  decode fuel (TPtr t) v b = SOk v' b' -> exists x, v' = VPtr (Some x).
Proof.
  destruct fuel as [|fuel]; [done|]. cbn [decode]. destruct v as [| | | | | | | | |[x|]|]; try done.
  - unfold mbind, reader_bind, mret, reader_ret. destruct (decode fuel t x b); intros; simplify_eq; by eexists.
  - unfold mbind, reader_bind, mret, reader_ret. destruct (decode fuel t (zero t) b); intros; simplify_eq; by eexists.
Qed.

Section mandatory.
Context (fs : list (sfield * gtype)) (fnames : list (bytes * bytes)) (i0 : nat) (f0 : sfield) (t0 : gtype).
Hypothesis Hf0 : fs !! i0 = Some (f0, TPtr t0).
Hypothesis Hnames : NoDup ((fun f : sfield * gtype => sf_name f.1) <$> fs).
Hypothesis Hplain : forall k fname, assoc k fnames = Some fname -> split_question fname = [fname].

Lemma mandatory_pointer fuel nonOmit vals b v b' :
  (sf_name f0 ∈ nonOmit \/ exists x, vals !! i0 = Some (VPtr (Some x))) ->
  readBenDictStruct fuel fs fnames nonOmit vals b = SOk v b' ->
  exists vals' x, v = VStruct vals' /\ vals' !! i0 = Some (VPtr (Some x)).
Proof.
  revert nonOmit vals b. induction fuel as [|fuel IH]; intros nonOmit vals b Hi E; [done|].
  cbn [readBenDictStruct] in E. unfold mbind, reader_bind in E.
  destruct (checkEnd b) as [[] b1| | |]; [| |done..].
  { case_bool_decide as Hno; [|done]. unfold mret, reader_ret in E. simplify_eq.
    destruct Hi as [Hi|[x Hx]]; [set_solver|by exists vals, x]. }
  destruct (readBenString b1) as [k b2| | |]; [|done..].
  destruct (assoc k fnames) as [fname|] eqn:Ek.
  - rewrite (Hplain _ _ Ek) in E. destruct (field_index fs fname) as [i|] eqn:Ei; [|done].
    destruct (fs !! i) as [[sf t]|] eqn:Efs; [|done]. destruct (vals !! i) as [fv|] eqn:Ev; [|done].
    destruct (decode fuel t fv b2) as [v' b3| | |] eqn:Ed; [|done..].
    eapply IH; [|exact E]. destruct (decide (i = i0)) as [->|Hne].
    + right. rewrite Hf0 in Efs. simplify_eq. destruct (decode_ptr_some _ _ _ _ _ _ Ed) as [x ->].
      exists x. apply list_lookup_insert_eq. by eapply lookup_lt_Some.
    + destruct Hi as [Hi|[x Hx]]; [left|right; exists x; by rewrite list_lookup_insert_ne].
      unfold remove_name. apply list_elem_of_filter. split; [|done]. intros <-.
      pose proof (field_index_lookup fs i0 (f0, TPtr t0) Hnames Hf0) as Hi0. cbn in Hi0. congruence.
  - destruct (handleNilInterface (decode fuel) b2) as [? b3| | |]; [|done..]. by eapply IH.
Qed.
End mandatory.

(** ** Loading *)

Lemma MetaInfo_names : NoDup ((fun f : sfield * gtype => sf_name f.1) <$> MetaInfo_fields).
Proof. by apply (bool_decide_unpack _); vm_compute. Qed.

Lemma assoc_elem {A} k (m : list (bytes * A)) x : assoc k m = Some x -> x ∈ m.*2.
Proof.
  induction m as [|[k' y] m IH]; [done|]. cbn. case_bool_decide; intros; simplify_eq; [left|right; auto].
Qed.

Lemma MetaInfo_plain k fname :
  assoc k (structInfo MetaInfo_fields).2 = Some fname -> split_question fname = [fname].
Proof.
  intros H%assoc_elem. apply split_question_plain.
  assert (Forall (fun n => no_question n = true) (structInfo MetaInfo_fields).2.*2) as Hall
    by (by apply (bool_decide_unpack _); vm_compute).
  rewrite Forall_forall in Hall. by apply Hall.
Qed.

Lemma Decode_MetaInfo data v e :
  Decode data MetaInfo_type (zero MetaInfo_type) = Ok (v, e) ->
  exists m info, Meta_of v = Some m /\ Info m = Some info.
Proof.
  intros E. pose proof (Decode_shape data MetaInfo_type _ eq_refl (wt_zero MetaInfo_type eq_refl)) as Hwt.
  rewrite E in Hwt. destruct (Meta_of_wt v Hwt) as [m Hm]. exists m. rewrite Hm.
  unfold Decode in E. destruct (decode _ _ _ _) as [v' b| | |] eqn:Ed; [|done..].
  assert (v' = v) as -> by (destruct (ReadByte b); congruence). clear E.
  destruct (decode_fuel MetaInfo_type data) as [|fuel]; [done|].
  unfold MetaInfo_type in Ed. cbn [decode zero] in Ed. unfold mbind, reader_bind in Ed.
  destruct (assertBenElem "d"%byte _) as [? b1| | |]; [|done..].
  rewrite (surjective_pairing (structInfo MetaInfo_fields)) in Ed.
  eapply (mandatory_pointer MetaInfo_fields _ 6 _ InfoDict_type) in Ed as (vals & x & -> & Hx);
    [|done|exact MetaInfo_names|exact MetaInfo_plain|left; by apply (bool_decide_unpack _); vm_compute].
  struct_fields Hwt. cbn [snd fld] in *. cbn in Hx. injection Hx as ->.
  destruct v; try done. destruct v1; try done. destruct v2; try done. destruct v3; try done.
  destruct v4; try done. destruct v6; try done. cbn [Meta_of] in Hm.
  destruct (val_slice _ v0); [|done]. destruct (Info_of x) as [info|]; [|done].
  cbn in Hm. simplify_eq. by exists info.
Qed.

(** The info hash and the bytes of the file are the only fields a metainfo file
    does not store. *)
Definition bare (m : MetaInfo) : MetaInfo :=
  mkMeta (Announce m) (AnnounceList m) (Comment m) (Created m) (CreationDate m) (Encoding m)
         ((fun info => set_Hash info (replicate 20 Byte.x00)) <$> Info m) None.

Lemma encode_info_hash info h :
  encode InfoDict_type (Info_val (set_Hash info h)) = encode InfoDict_type (Info_val info).
Proof. unfold InfoDict_type, Info_val. rewrite !encode_struct. reflexivity. Qed.

Lemma encode_ptr_info info h :
  encode (TPtr InfoDict_type) (VPtr (Info_val <$> ((fun i => set_Hash i h) <$> info))) =
  encode (TPtr InfoDict_type) (VPtr (Info_val <$> info)).
Proof. destruct info as [info|]; [|done]. apply encode_info_hash. Qed.

Lemma encode_bare m : encode MetaInfo_type (Meta_val (bare m)) = encode MetaInfo_type (Meta_val m).
Proof.
  unfold MetaInfo_type, Meta_val. rewrite !encode_struct. unfold MetaInfo_fields.
  cbn [struct_fields fld]. cbn [bare Announce AnnounceList Comment Created CreationDate Encoding Info InfoBytes].
  rewrite encode_ptr_info. reflexivity.
Qed.

Lemma set_Hash_idem info h h' : set_Hash (set_Hash info h) h' = set_Hash info h'.
Proof. done. Qed.

Section load.
Variable sha1_Sum : bytes -> bytes.
Abbreviation load := (loadMetainfoFromBytes sha1_Sum).

(** What loading does once the file is decoded. *)
Lemma load_decoded data meta info :
  Decode data MetaInfo_type (zero MetaInfo_type) = Ok (Meta_val meta, None) ->
  Info meta = Some info -> Info_Parse info = None ->
  load data =
  match Get data (bs "info") with
  | Ok (Some ib) => Ok (set_Info meta (set_Hash info (sha1_Sum ib)) (Some ib))
  | Ok None | Err _ => Err ErrNoInfo
  | Panic => Panic
  end.
Proof.
  intros E Hi Hp. unfold loadMetainfoFromBytes. rewrite E, Meta_of_val. unfold Meta_Parse. rewrite Hi, Hp.
  cbn [mbind result_bind]. unfold setInfoHash.
  by destruct (Get data (bs "info")) as [[ib|]| |].
Qed.

Lemma info_key_field i f : MetaInfo_fields !! i = Some f -> field_key f.1 = bs "info" -> i = 6%nat.
Proof. destruct i as [|[|[|[|[|[|[|[|i]]]]]]]]; cbn; intros; simplify_eq; done. Qed.

Lemma Get_info m info s :
  canon MetaInfo_type (Meta_val m) -> Info m = Some info ->
  Encode MetaInfo_type (Meta_val m) = Ok s -> short s ->
  exists ib, Get s (bs "info") = Ok (Some ib) /\ Encode InfoDict_type (Info_val info) = Ok ib.
Proof.
  intros Hc Hi He Hs. pose proof (get_encoded _ _ _ (bs "info") Hc He Hs) as H.
  destruct (Get s (bs "info")) as [[ib|]| |]; [| |done..].
  - destruct H as (i & f & v & Hf & Hv & Hk & _ & E). exists ib. split; [done|].
    pose proof (info_key_field i f Hf Hk) as ->. cbn in Hf, Hv. rewrite Hi in Hv. by simplify_eq.
  - specialize (H 6%nat _ _ eq_refl eq_refl eq_refl). done.
Qed.

Lemma Decode_canon t v s : canon t v -> Encode t v = Ok s -> Decode s t (zero t) = Ok (v, None).
Proof.
  intros Hc He. destruct (Decode_text t v s [] Hc He) as (p & fl & E). rewrite app_nil_r in E.
  unfold Decode. by rewrite E.
Qed.

(** ** Theorems *)

(** C31: Loading a metainfo file returns on every input. When it succeeds, the info
    dictionary is there, its text is the one [Get] cuts out of the file, its hash is
    the SHA-1 of that text, and its piece hashes have whole lengths. *)
Theorem load_sound data :
  match load data with
  | Ok m => exists info ib, Info m = Some info /\ InfoBytes m = Some ib /\
      Get data (bs "info") = Ok (Some ib) /\ Hash info = sha1_Sum ib /\ Info_Parse info = None
  | Err _ => True
  | Panic => False
  end.
Proof.
  unfold loadMetainfoFromBytes.
  pose proof (Decode_shape data MetaInfo_type _ eq_refl (wt_zero MetaInfo_type eq_refl)) as Hwt.
  destruct (Decode data _ _) as [[v [e|]]|e|] eqn:E; [done| |done|done].
  destruct (Decode_MetaInfo _ _ _ E) as (m & info & -> & Hi). unfold Meta_Parse. rewrite Hi.
  destruct (Info_Parse info) eqn:Hp; cbn [mbind result_bind]; [done|].
  pose proof (get_returns data (bs "info") : Get data (bs "info") <> Panic) as Hg.
  unfold setInfoHash. destruct (Get data (bs "info")) as [[ib|]| |]; try done.
  eexists _, ib. by split_and!.
Qed.

(** C32: A metainfo file written by CreateTorrentFile is loaded back: the same
    metainfo, with the hash and the text of its info dictionary filled in. *)
Theorem load_CreateTorrentFile m info s :
  canon MetaInfo_type (Meta_val (bare m)) -> Info m = Some info -> Info_Parse info = None ->
  CreateTorrentFile m = Ok s -> short s ->
  exists ib, Encode InfoDict_type (Info_val info) = Ok ib /\
    load s = Ok (set_Info m (set_Hash info (sha1_Sum ib)) (Some ib)).
Proof.
  intros Hc Hi Hp Hs Hsh. assert (He : Encode MetaInfo_type (Meta_val (bare m)) = Ok s)
    by (unfold Encode; rewrite encode_bare; exact Hs).
  assert (Hib : Info (bare m) = Some (set_Hash info (replicate 20 Byte.x00))) by (cbn; by rewrite Hi).
  destruct (Get_info _ _ _ Hc Hib He Hsh) as (ib & Hg & Hib').
  exists ib. unfold Encode in *. rewrite encode_info_hash in Hib'. split; [done|].
  erewrite load_decoded; [|by apply Decode_canon|exact Hib|done]. by rewrite Hg.
Qed.

End load.

(** ** Pieces *)

(** The number of piece hashes is the number of pieces of the content. *)
Record pieces_match (info : InfoDict) : Prop := mkPiecesMatch {
  pm_len : 0 < PieceLen info;
  pm_total : 0 < TotalLength info;
  pm_num : NumPieces info = (TotalLength info + PieceLen info - 1) / PieceLen info;
}.

Lemma NumPieces_nonneg info : 0 <= NumPieces info.
Proof. unfold NumPieces. rewrite Z.quot_div_nonneg by (unfold pieceSize; lia). apply Z.div_pos; unfold pieceSize; lia. Qed.

Definition sumZ (l : list Z) : Z := foldr Z.add 0 l.

Lemma sumZ_app l k : sumZ (l ++ k) = sumZ l + sumZ k.
Proof. unfold sumZ. induction l as [|x l IH]; [done|]. cbn [foldr app]. lia. Qed.

Lemma sumZ_replicate n x : sumZ (replicate n x) = Z.of_nat n * x.
Proof. unfold sumZ. induction n as [|n IH]; [done|]. cbn [foldr replicate]. lia. Qed.

Lemma seqZ_snoc n : 0 < n -> seqZ 0 n = seqZ 0 (n - 1) ++ [n - 1].
Proof.
  intros Hn. rewrite <- (Z.sub_add 1 n) at 1. by rewrite seqZ_app by lia.
Qed.

Lemma mapM_replicate {A} (f : Z -> option A) l x :
  Forall (fun i => f i = Some x) l -> mapM f l = Some (replicate (length l) x).
Proof. induction 1 as [|i l Hi _ IH]; [done|]. cbn. by rewrite Hi, IH. Qed.

Lemma mapM_snoc {A B} (f : A -> option B) l x ys y :
  mapM f l = Some ys -> f x = Some y -> mapM f (l ++ [x]) = Some (ys ++ [y]).
Proof.
  revert ys. induction l as [|z l IH]; intros ys Hl Hx; cbn in *.
  { injection Hl as <-. by rewrite Hx. }
  destruct (f z); [|done]. cbn in *. destruct (mapM f l) as [ys'|]; [|done]. cbn in Hl.
  injection Hl as <-. by rewrite (IH ys').
Qed.

Lemma PieceLength_list info :
  0 < PieceLen info -> 0 < NumPieces info ->
  mapM (PieceLength info) (seqZ 0 (NumPieces info)) =
  Some (replicate (Z.to_nat (NumPieces info - 1)) (PieceLen info) ++ [Z.rem (TotalLength info) (PieceLen info)]).
Proof.
  intros Hp Hn. rewrite seqZ_snoc by done. apply mapM_snoc.
  - rewrite (mapM_replicate _ _ (PieceLen info)); [by rewrite length_seqZ|].
    apply Forall_forall. intros i Hi%elem_of_seqZ. unfold PieceLength.
    destruct (Z.eqb_spec i (NumPieces info - 1)); [lia|done].
  - unfold PieceLength. rewrite Z.eqb_refl. by destruct (Z.eqb_spec (PieceLen info) 0); [lia|].
Qed.

Lemma PiecesHash_loop_spec fuel ps i h :
  0 <= i -> (Z.of_nat fuel >= lenZ ps - i) -> (lenZ ps - i) mod pieceSize = 0 ->
  exists hs, PiecesHash_loop fuel ps i h = Some (h ++ hs) /\ concat hs = drop (Z.to_nat i) ps /\
    forall k x, hs !! k = Some x -> slice ps (i + Z.of_nat k * pieceSize) (i + Z.of_nat k * pieceSize + pieceSize) = Some x.
Proof.
  unfold pieceSize. revert i h. induction fuel as [|fuel IH]; intros i h Hi Hf Hm; cbn [PiecesHash_loop].
  - exists []. rewrite app_nil_r, drop_ge by lia. by split_and!.
  - destruct (Z.ltb_spec i (lenZ ps)).
    2:{ exists []. rewrite app_nil_r, drop_ge by lia. by split_and!. }
    assert (i + 20 <= lenZ ps) by (Z.to_euclidean_division_equations; lia).
    assert (Hsl : slice ps i (i + 20) = Some (take 20 (drop (Z.to_nat i) ps))).
    { unfold slice. rewrite (proj2 (andb_true_iff _ _)); [|rewrite andb_true_iff, !Z.leb_le; lia].
      do 2 f_equal. lia. }
    unfold pieceSize. rewrite Hsl. cbn [mbind option_bind].
    destruct (IH (i + 20) (h ++ [take 20 (drop (Z.to_nat i) ps)])) as (hs & E & Hc & Hk); [lia..| |].
    { Z.to_euclidean_division_equations; lia. }
    eexists (_ :: hs). rewrite E, <- app_assoc. split_and!; [done| |].
    + cbn [concat]. rewrite Hc. replace (Z.to_nat (i + 20)) with (Z.to_nat i + 20)%nat by lia.
      rewrite <- drop_drop. apply take_drop.
    + intros [|k] x Hx; cbn in Hx.
      * simplify_eq. by rewrite Z.mul_0_l, Z.add_0_r.
      * specialize (Hk k x Hx). rewrite <- Hk. f_equal; lia.
Qed.

(** The lengths of the pieces add up to the length of the content, unless the
    piece length divides it: then the last piece has length 0 and its bytes are
    missing. *)
Theorem PieceLength_sum info :
  pieces_match info ->
  exists ls, mapM (PieceLength info) (seqZ 0 (NumPieces info)) = Some ls /\
    sumZ ls = TotalLength info - (if TotalLength info mod PieceLen info =? 0 then PieceLen info else 0).
Proof.
  intros [Hl Ht Hn]. assert (0 < NumPieces info).
  { rewrite Hn. apply Z.div_str_pos. lia. }
  eexists. split; [by apply PieceLength_list|]. rewrite sumZ_app, sumZ_replicate. cbn [sumZ foldr].
  rewrite Z.rem_mod_nonneg by lia. rewrite Z2Nat.id by lia. rewrite Hn.
  set (t := TotalLength info) in *. set (p := PieceLen info) in *.
  pose proof (Z.div_mod t p ltac:(lia)). pose proof (Z.mod_pos_bound t p Hl).
  destruct (Z.eqb_spec (t mod p) 0) as [E|E].
  - replace ((t + p - 1) / p) with (t / p); [lia|].
    apply (Z.div_unique (t + p - 1) p (t / p) (p - 1)); lia.
  - replace ((t + p - 1) / p) with (t / p + 1); [lia|].
    apply (Z.div_unique (t + p - 1) p (t / p + 1) (t mod p - 1)); lia.
Qed.

(** When the check of the info dictionary passes, its piece hashes are cut
    without a remainder: they concatenate to the stored text, there is one per
    piece, and [PieceHash] returns them one by one. *)
Theorem PiecesHash_PieceHash info :
  Info_Parse info = None ->
  exists hs, PiecesHash info = Some hs /\ concat hs = default [] (Pieces info) /\
    forall k x, hs !! k = Some x -> PieceHash info (Z.of_nat k) = Some x.
Proof.
  unfold Info_Parse. destruct (Z.eqb_spec (Z.rem (lenZ (default [] (Pieces info))) pieceSize) 0) as [E|]; [|done].
  intros _. rewrite Z.rem_mod_nonneg in E by (unfold pieceSize; lia). unfold PiecesHash, PieceHash.
  destruct (PiecesHash_loop_spec (length (default [] (Pieces info))) (default [] (Pieces info)) 0 [])
    as (hs & Hl & Hc & Hk); [lia|lia|by rewrite Z.sub_0_r|].
  exists hs. split_and!; [done|by rewrite Hc|]. intros k x Hx. by apply Hk.
Qed.
