(* ===== verification/Magnet.v ===== *)
(** * metainfo/parser.go: magnet links

    The parsing of the link itself (net/url) is a parameter: it gives the scheme and the
    first xt parameter. The two encodings of an info hash are decoded as in encoding/hex
    and encoding/base32. *)

From S2P Require Import Prelude Metainfo.

(** ** encoding/hex *)

Definition fromHexChar (b : byte) : option Z :=
  let z := b2z b in
  if (48 <=? z) && (z <=? 57) then Some (z - 48)
  else if (97 <=? z) && (z <=? 102) then Some (z - 87)
  else if (65 <=? z) && (z <=? 70) then Some (z - 55)
  else None.

Fixpoint hex_Decode (src : bytes) : option bytes :=
  match src with
  | x :: y :: src => a ← fromHexChar x; b ← fromHexChar y; r ← hex_Decode src; Some (z2b (16 * a + b) :: r)
  | [] => Some []
  | [_] => None
  end.

(** ** encoding/base32 *)

Definition decodeMap (b : byte) : option Z :=
  let z := b2z b in
  if (65 <=? z) && (z <=? 90) then Some (z - 65)
  else if (50 <=? z) && (z <=? 55) then Some (z - 24)
  else None.

Definition stripNewlines (src : bytes) : bytes :=
  filter (fun b => b <> z2b 13 /\ b <> z2b 10) src.

(** The bytes of a quantum of which [length dbuf] characters are there. *)
Definition pack (dbuf : list Z) : bytes :=
  take (length dbuf * 5 / 8) (be_enc 5 (foldl (fun acc d => acc * 32 + d) 0 (dbuf ++ replicate (8 - length dbuf) 0))).

Fixpoint decode32 (src : bytes) (dbuf : list Z) : option bytes :=
  match src with
  | [] => if (length dbuf =? 0)%nat then Some [] else None
  | b :: src =>
      let j := length dbuf in
      if bool_decide (b = "="%byte) && (2 <=? j)%nat && (length src <? 8)%nat then
        if (length src + j <? 7)%nat then None
        else if negb (forallb (fun c => bool_decide (c = "="%byte)) (take (7 - j) src)) then None
        else if bool_decide (j ∈ [1; 3; 6]%nat) then None
        else Some (pack dbuf)
      else
        d ← decodeMap b;
        if (j =? 7)%nat then r ← decode32 src []; Some (pack (dbuf ++ [d]) ++ r)
        else decode32 src (dbuf ++ [d])
  end.

Definition base32_Decode (src : bytes) : option bytes := decode32 (stripNewlines src) [].

(** ** MagnetParser *)

Definition xtPrefix : bytes := bs "urn:btih:".

(** The metainfo, or the nil that is returned without an error in every case that the
    function takes for one. *)
Definition MagnetParser_Parse (url_Parse : bytes -> option (bytes * bytes)) (URI : bytes) : result merror (option MetaInfo) :=
  match url_Parse URI with
  | None => Ok None
  | Some (scheme, xt) =>
      if negb (bool_decide (scheme = bs "magnet")) then Ok None
      else if negb (bool_decide (take (length xtPrefix) xt = xtPrefix)) then Ok None
      else
        let infoHash := drop (length xtPrefix) xt in
        let decoded :=
          if (length infoHash =? 40)%nat then hex_Decode infoHash
          else if (length infoHash =? 32)%nat then base32_Decode infoHash
          else None in
        match decoded with
        | None => Ok None
        | Some ihash =>
            if negb (length ihash =? 20)%nat then Panic else Ok (Some (InfoHashParser_Parse ihash))
        end
  end.

(** ** Proofs *)

Definition hexdigit (d : Z) : byte := z2b (if d <? 10 then 48 + d else 87 + d).
Definition hex_Encode (s : bytes) : bytes := concat ((fun b => [hexdigit (b2z b / 16); hexdigit (b2z b mod 16)]) <$> s).

Lemma hex_byte b rest r :
  hex_Decode rest = Some r -> hex_Decode (hexdigit (b2z b / 16) :: hexdigit (b2z b mod 16) :: rest) = Some (b :: r).
Proof.
  intros E. cbn [hex_Decode].
  assert (H : (match fromHexChar (hexdigit (b2z b / 16)), fromHexChar (hexdigit (b2z b mod 16)) with
    Some x, Some y => bool_decide (z2b (16 * x + y) = b) | _, _ => false end) = true) by (destruct b; by vm_compute).
  destruct (fromHexChar (hexdigit (b2z b / 16))) as [x|]; [|done]. destruct (fromHexChar (hexdigit (b2z b mod 16))) as [y|]; [|done].
  apply bool_decide_eq_true in H. cbn [mbind option_bind]. rewrite E. cbn [mbind option_bind]. by rewrite H.
Qed.

Lemma hex_Decode_Encode s : hex_Decode (hex_Encode s) = Some s.
Proof. induction s as [|b s IH]; [done|]. by apply hex_byte. Qed.

Lemma hex_Decode_length n src ih : length src = (2 * n)%nat -> hex_Decode src = Some ih -> length ih = n.
Proof.
  revert n ih. induction src as [src IH] using (induction_ltof1 _ (@length byte)). intros n ih Hl. destruct src as [|x [|y src]]; cbn in *.
  - intros [= <-]. cbn. lia.
  - done.
  - destruct (fromHexChar x); [|done]. destruct (fromHexChar y); [|done]. cbn. destruct (hex_Decode src) as [r|] eqn:E; [|done].
    intros [= <-]. cbn. rewrite (IH src ltac:(unfold ltof; cbn; lia) (n - 1)%nat r ltac:(lia) E). lia.
Qed.

Lemma length_hex_Encode s : length (hex_Encode s) = (2 * length s)%nat.
Proof. induction s as [|b s IH]; [done|]. change (length (hex_Encode (b :: s))) with (S (S (length (hex_Encode s)))). rewrite IH. cbn. lia. Qed.

(** A magnet link with the hash in hexadecimal gives exactly that hash, and a metainfo is
    only ever given with a hash of 20 bytes; with a hash in hexadecimal nothing panics. *)
Theorem magnet_hash url_Parse URI :
  (forall h, length h = 20%nat -> url_Parse URI = Some (bs "magnet", xtPrefix ++ hex_Encode h) ->
     MagnetParser_Parse url_Parse URI = Ok (Some (InfoHashParser_Parse h))) /\
  (forall m, MagnetParser_Parse url_Parse URI = Ok (Some m) -> exists h, length h = 20%nat /\ m = InfoHashParser_Parse h) /\
  (MagnetParser_Parse url_Parse URI = Panic -> exists xt, url_Parse URI = Some (bs "magnet", xt) /\ length xt = 41%nat).
Proof.
  unfold MagnetParser_Parse. split_and!.
  - intros h Hh ->. rewrite bool_decide_true by done. cbn [negb]. rewrite take_app_length, bool_decide_true by done. cbn [negb].
    rewrite drop_app_length, length_hex_Encode, Hh. cbn [Nat.mul Nat.add Nat.eqb]. by rewrite hex_Decode_Encode, Hh.
  - destruct (url_Parse URI) as [[scheme xt]|]; [|done]. destruct (negb _); [done|]. destruct (negb _); [done|]. cbn zeta.
    destruct (if (_ =? 40)%nat then _ else _) as [ih|]; [|done]. destruct (Nat.eqb_spec (length ih) 20) as [Hi|]; [|done].
    intros m [= <-]. by exists ih.
  - destruct (url_Parse URI) as [[scheme xt]|]; [|done]. destruct (bool_decide_reflect (scheme = bs "magnet")) as [->|]; [|done]. cbn [negb].
    destruct (bool_decide_reflect (take (length xtPrefix) xt = xtPrefix)) as [Hx|]; [|done]. cbn [negb]. cbn zeta.
    destruct (Nat.eqb_spec (length (drop (length xtPrefix) xt)) 40) as [H4|H4].
    + destruct (hex_Decode _) as [ih|] eqn:E; [|done]. by rewrite (hex_Decode_length 20 _ _ H4 E).
    + destruct (Nat.eqb_spec (length (drop (length xtPrefix) xt)) 32) as [H3|H3]; [|done]. intros _. exists xt. split; [done|].
      rewrite <- (take_drop (length xtPrefix) xt), length_app, Hx, H3. done.
Qed.

(** A link whose base 32 hash is padded, or has line ends in it, is decoded to fewer than 20
    bytes, and the parser panics. *)
Theorem magnet_padding_panics :
  MagnetParser_Parse (fun u => Some (bs "magnet", u)) (xtPrefix ++ bs "AAAAAAAAAAAAAAAAAAAAAAAAAA======") = Panic /\
  MagnetParser_Parse (fun u => Some (bs "magnet", u)) (xtPrefix ++ replicate 8 (z2b 10) ++ bs "AAAAAAAAAAAAAAAAAAAAAAAA") = Panic.
Proof. by vm_compute. Qed.

(** A hash in base 32. *)
Example magnet_base32 :
  MagnetParser_Parse (fun u => Some (bs "magnet", u)) (xtPrefix ++ bs "MFRGGZDFMZTWQ2LKNNWG23TPOBYXE43U") =
  Ok (Some (InfoHashParser_Parse (bs "abcdefghijklmnopqrst"))).
Proof. by vm_compute. Qed.
