(* ===== verification/Bitmap.v ===== *)
(** * The bitmap interface

    Pieces and connections keep sets of indices in
    github.com/anacrolix/missinggo/bitmap, a library that is not part of the
    repository. [BitmapOps] are the operations the sources call and [BitmapLaws]
    what they rely on: a bitmap is a set of indices below 2^32, [IterTyped] visits
    it in increasing order, [Len] is its size, [Flip] returns a new bitmap. Every
    component is proved against the laws; the finite sets of stdpp satisfy them. *)

From S2P Require Import Prelude.

Class BitmapOps (B : Type) := mkBitmapOps {
  bm_empty : B;                        (* the zero value *)
  bm_Get : B -> Z -> bool;
  bm_Set : B -> Z -> bool -> B;
  bm_Len : B -> Z;
  bm_Iter : B -> list Z;               (* what IterTyped visits, in order *)
  bm_Flip : B -> Z -> Z -> B;
}.

Definition bm_index (i : Z) : Prop := 0 <= i < 2 ^ 32.

Class BitmapLaws (B : Type) `{BitmapOps B} : Prop := mkBitmapLaws {
  bm_Get_empty i : bm_Get bm_empty i = false;
  bm_Get_Set b i v j : bm_index i -> bm_Get (bm_Set b i v) j = if j =? i then v else bm_Get b j;
  bm_Iter_sorted b : StronglySorted Z.lt (bm_Iter b);
  bm_Iter_Get b i : i ∈ bm_Iter b <-> bm_Get b i = true;
  bm_Len_Iter b : bm_Len b = lenZ (bm_Iter b);
  bm_Get_Flip b lo hi i : bm_index lo -> bm_index hi -> lo <= hi ->
    bm_Get (bm_Flip b lo hi) i = if (lo <=? i) && (i <? hi) then negb (bm_Get b i) else bm_Get b i;
}.

(** ** Consequences *)

Section laws.
Context `{BitmapLaws B}.
Implicit Types b : B.

Lemma bm_Iter_NoDup b : NoDup (bm_Iter b).
Proof.
  pose proof (bm_Iter_sorted b) as Hs. induction Hs as [|x l _ IH Hx]; [constructor|].
  constructor; [|done]. intros Hin. rewrite Forall_forall in Hx. specialize (Hx x Hin). lia.
Qed.

(** The size of a bitmap with the same members as a duplicate-free list. *)
Lemma bm_Len_list b (l : list Z) :
  NoDup l -> (forall i, bm_Get b i = true <-> i ∈ l) -> bm_Len b = lenZ l.
Proof.
  intros Hl Hm. rewrite bm_Len_Iter. f_equal. apply Permutation_length, NoDup_Permutation.
  - apply bm_Iter_NoDup.
  - done.
  - intros i. by rewrite bm_Iter_Get.
Qed.

Lemma bm_Len_nonneg b : 0 <= bm_Len b.
Proof. rewrite bm_Len_Iter. lia. Qed.

Lemma bm_Len_pos b i : bm_Get b i = true -> 0 < bm_Len b.
Proof. rewrite <- bm_Iter_Get, bm_Len_Iter. destruct (bm_Iter b); [by intros ?%elem_of_nil|cbn; lia]. Qed.

Lemma bm_Len_zero b : bm_Len b = 0 <-> forall i, bm_Get b i = false.
Proof.
  rewrite bm_Len_Iter. split.
  - intros Hl i. destruct (bm_Get b i) eqn:E; [|done]. apply bm_Iter_Get in E.
    destruct (bm_Iter b); [by apply elem_of_nil in E|cbn in Hl; lia].
  - intros Hb. destruct (bm_Iter b) as [|x l] eqn:E; [done|].
    assert (bm_Get b x = true) by (apply bm_Iter_Get; rewrite E; left). rewrite Hb in *. done.
Qed.

(** A bitmap within a duplicate-free list is no larger, and as large only if it
    has all of it. *)
Lemma bm_Len_le b (l : list Z) :
  NoDup l -> (forall i, bm_Get b i = true -> i ∈ l) -> bm_Len b <= lenZ l.
Proof.
  intros Hl Hb. rewrite bm_Len_Iter.
  enough (length (bm_Iter b) <= length l)%nat by lia.
  apply submseteq_length, NoDup_submseteq; [apply bm_Iter_NoDup|].
  intros i. rewrite bm_Iter_Get. apply Hb.
Qed.

Lemma bm_Len_full b (l : list Z) :
  NoDup l -> (forall i, bm_Get b i = true -> i ∈ l) -> bm_Len b = lenZ l ->
  forall i, i ∈ l -> bm_Get b i = true.
Proof.
  intros Hl Hb Hlen i Hi. apply bm_Iter_Get.
  assert (bm_Iter b ≡ₚ l) as ->; [|done].
  apply submseteq_length_Permutation; [|rewrite bm_Len_Iter in Hlen; lia].
  apply NoDup_submseteq; [apply bm_Iter_NoDup|]. intros x. rewrite bm_Iter_Get. apply Hb.
Qed.

End laws.

(** ** The laws can hold: finite sets of integers *)

Definition gset_sorted (s : gset Z) : list Z := merge_sort Z.le (elements s).

#[export] Instance gset_BitmapOps : BitmapOps (gset Z) := {|
  bm_empty := ∅;
  bm_Get s i := bool_decide (i ∈ s);
  bm_Set s i v := if v : bool then s ∪ {[ i ]} else s ∖ {[ i ]};
  bm_Len s := Z.of_nat (size s);
  bm_Iter s := gset_sorted s;
  bm_Flip s lo hi :=
    let r : gset Z := list_to_set (seqZ lo (hi - lo)) in (s ∖ r) ∪ (r ∖ s);
|}.

Lemma gset_sorted_perm s : gset_sorted s ≡ₚ elements s.
Proof. apply merge_sort_Permutation. Qed.

#[export] Instance gset_BitmapLaws : BitmapLaws (gset Z).
Proof.
  constructor; cbn.
  - intros i. by rewrite bool_decide_false by set_solver.
  - intros b i v j _. destruct v, (Z.eqb_spec j i) as [->|]; cbv iota.
    + apply bool_decide_true. set_solver.
    + apply bool_decide_ext. set_solver.
    + apply bool_decide_false. set_solver.
    + apply bool_decide_ext. set_solver.
  - intros b. assert (Hs : StronglySorted Z.le (gset_sorted b)) by (apply (StronglySorted_merge_sort Z.le); intros ??; lia).
    assert (Hd : NoDup (gset_sorted b)) by (rewrite gset_sorted_perm; apply NoDup_elements).
    induction Hs as [|x l _ IH Hx]; [constructor|]. apply NoDup_cons in Hd as [Hn Hd].
    constructor; [by apply IH|]. rewrite Forall_forall in *. intros y Hy. specialize (Hx y Hy).
    assert (x <> y) by congruence. lia.
  - intros b i. rewrite bool_decide_eq_true, gset_sorted_perm. apply elem_of_elements.
  - intros b. by rewrite gset_sorted_perm.
  - intros b lo hi i Hlo Hhi Hle.
    assert (Hr : i ∈ (list_to_set (seqZ lo (hi - lo)) : gset Z) <-> lo <= i < hi).
    { rewrite elem_of_list_to_set, elem_of_seqZ. lia. }
    destruct (_ && _) eqn:E.
    + bool_to_prop. rewrite <- bool_decide_not. apply bool_decide_ext. set_solver by lia.
    + assert (~ (lo <= i < hi)) by (rewrite andb_false_iff, Z.leb_gt, Z.ltb_ge in E; lia).
      apply bool_decide_ext. set_solver.
Qed.
