(* ===== verification/Piece.v ===== *)
(** * torrent/piece.go: a single piece, and torrent/piece_selector.go

    A piece is divided into blocks; the code keeps the unrequested and the
    complete ones in two bitmaps, keyed by the offset of the block, and a block in
    neither is pending. [blk_state] is that three-state abstraction; the lemmas say
    what every operation does to it, and [piece_ok] is the invariant they keep.
    Offsets and lengths are bounded by the length of the content, so their [int]
    arithmetic does not wrap around and is written without it. *)

From S2P Require Import Prelude Bitmap.
From S2P Require Wire.

(** ** What a piece reads of its torrent *)

Definition maxRequestBlockSz : Z := Z.shiftl 1 14.

Record tparams := mkT {
  t_length : Z;
  t_PieceLen : Z;
  t_numPieces : Z;
  t_blockRequestSize : Z;
}.

(** [Torrent.pieceLen]; [None] is the division by zero. *)
Definition pieceLen (t : tparams) (i : Z) : option Z :=
  if i =? t_numPieces t - 1 then
    if t_PieceLen t =? 0 then None else Some (Z.rem (t_length t) (t_PieceLen t))
  else Some (t_PieceLen t).

(** [Torrent.blockSize] for a piece length. *)
Definition blockSize (PieceLen : Z) : Z :=
  if PieceLen <? maxRequestBlockSz then PieceLen else maxRequestBlockSz.

Record block := mkBlock { b_pc : Z; b_off : Z; b_len : Z }.

#[global] Instance block_eq_dec : EqDecision block.
Proof. solve_decision. Defined.

(** ** Data *)

Section piece.
Context {B : Type} `{BitmapOps B}.

(** Contributors are the connections, by number. *)
Record Piece := mkPiece {
  index : Z;
  verified : bool;
  blocks : Z;
  lastBlockLen : Z;
  rarity : Z;
  unrequestedBlocks : B;
  completeBlocks : B;
  contributors : list Z;
}.

Definition with_bitmaps (p : Piece) (u c : B) : Piece :=
  mkPiece (index p) (verified p) (blocks p) (lastBlockLen p) (rarity p) u c (contributors p).
Definition with_contributors (p : Piece) (cs : list Z) : Piece :=
  mkPiece (index p) (verified p) (blocks p) (lastBlockLen p) (rarity p)
          (unrequestedBlocks p) (completeBlocks p) cs.
Definition with_rarity (p : Piece) (r : Z) : Piece :=
  mkPiece (index p) (verified p) (blocks p) (lastBlockLen p) r
          (unrequestedBlocks p) (completeBlocks p) (contributors p).
Definition with_verified (p : Piece) (v : bool) : Piece :=
  mkPiece (index p) v (blocks p) (lastBlockLen p) (rarity p)
          (unrequestedBlocks p) (completeBlocks p) (contributors p).

(** ** Operations *)

Definition PendingBlocks (p : Piece) : Z :=
  blocks p - (bm_Len (unrequestedBlocks p) + bm_Len (completeBlocks p)).
Definition UnrequestedBlocks (p : Piece) : Z := bm_Len (unrequestedBlocks p).
Definition CompletedBlocks (p : Piece) : Z := bm_Len (completeBlocks p).

Definition piece_length (t : tparams) (p : Piece) : Z :=
  t_blockRequestSize t * (blocks p - 1) + lastBlockLen p.

(** for j := 0; j < blocks; j++ { unrequestedBlocks.Set(j*t.blockRequestSize, true) } *)
Definition set_all_offsets (brs n : Z) (b : B) : B :=
  foldl (fun b j => bm_Set b (j * brs) true) b (seqZ 0 n).

Definition newPiece (t : tparams) (i : Z) : option Piece :=
  plen ← pieceLen t (uint32 i);
  let brs := t_blockRequestSize t in
  if brs =? 0 then None
  else
    let lastBytes := Z.rem plen brs in
    let '(nblocks, last) := if negb (lastBytes =? 0) then (Z.quot plen brs + 1, lastBytes)
                            else (Z.quot plen brs, brs) in
    Some (mkPiece i false nblocks last 0 (set_all_offsets brs nblocks bm_empty) bm_empty []).

(** Divisions by [t.blockRequestSize], which [newPiece] has made sure is not zero. *)
Definition blockLen (t : tparams) (p : Piece) (off : Z) : Z :=
  if Z.quot off (t_blockRequestSize t) =? blocks p - 1 then lastBlockLen p else t_blockRequestSize t.

Inductive berror := errLargeOffset | errDivOffset.

Definition blockLenSafe (t : tparams) (p : Piece) (off : Z) : result berror Z :=
  if negb (Z.rem off (t_blockRequestSize t) =? 0) then Err errDivOffset
  else
    let bl := Z.quot off (t_blockRequestSize t) in
    if bl =? blocks p - 1 then Ok (lastBlockLen p)
    else if bl <? blocks p - 1 then Ok (t_blockRequestSize t)
    else Err errLargeOffset.

Definition msgRequest (t : tparams) (p : Piece) (off : Z) : Wire.Msg :=
  Wire.mkMsg Wire.RequestK (uint32 (index p)) (uint32 off) (uint32 (blockLen t p off)) [] [] 0 0 Wire.ExtNil.

Definition toBlock (t : tparams) (p : Piece) (off : Z) : block :=
  mkBlock (index p) off (blockLen t p off).

(** The iteration appends while [count < limit]. *)
Definition unrequestedBlocksSlc (t : tparams) (p : Piece) (limit : Z) : list block :=
  toBlock t p <$> take (Z.to_nat limit) (bm_Iter (unrequestedBlocks p)).

Definition hasUnrequestedBlocks (p : Piece) : bool := 0 <? bm_Len (unrequestedBlocks p).

Definition pendingGet (p : Piece) (off : Z) : bool :=
  negb (bm_Get (unrequestedBlocks p) off || bm_Get (completeBlocks p) off).

Definition setBlockUnrequsted (p : Piece) (off : Z) : Piece :=
  if negb (bm_Get (completeBlocks p) off)
  then with_bitmaps p (bm_Set (unrequestedBlocks p) off true) (completeBlocks p) else p.

Definition setBlockPending (p : Piece) (off : Z) : Piece :=
  if negb (bm_Get (completeBlocks p) off)
  then with_bitmaps p (bm_Set (unrequestedBlocks p) off false) (completeBlocks p) else p.

Definition setBlockComplete (p : Piece) (ci : Z) (off : Z) : Piece :=
  let p := with_bitmaps p (bm_Set (unrequestedBlocks p) off false) (bm_Set (completeBlocks p) off true) in
  with_contributors p (contributors p ++ [ci]).

Definition setAllUnrequested (t : tparams) (p : Piece) : Piece :=
  foldl (fun p i => setBlockUnrequsted p (i * t_blockRequestSize t)) p (seqZ 0 (blocks p)).

Definition complete (p : Piece) : bool := bm_Len (completeBlocks p) =? blocks p.

(** The piece and the contributors whose badPiecesContributions are incremented,
    one increment per entry; [None] is the panic. *)
Definition verificationFailed (p : Piece) : option (Piece * list Z) :=
  if negb (complete p) then None
  else Some (with_bitmaps p (completeBlocks p) (unrequestedBlocks p), contributors p).

(** The same for goodPiecesContributions. *)
Definition verificationSuccess (p : Piece) : option (Piece * list Z) :=
  if verified p then None else Some (with_verified p true, contributors p).

(** ** The piece selector *)

(** Which of two pieces with all blocks unrequested comes first. *)
Inductive nextF := nextRand | nextByRarity.

(** [coin] is what rand.Intn(2) returns to the call. *)
Definition next (f : nextF) (coin : Z) (p1 p2 : Piece) : bool :=
  match f with
  | nextRand => coin =? 1
  | nextByRarity => rarity p1 <? rarity p2
  end.

Definition completeness (p : Piece) : Z := CompletedBlocks p + PendingBlocks p - UnrequestedBlocks p.

Definition Less (f : nextF) (coin : Z) (p1 p2 : Piece) : bool :=
  if (UnrequestedBlocks p1 =? blocks p1) && (UnrequestedBlocks p2 =? blocks p2) then next f coin p1 p2
  else completeness p2 <? completeness p1.

Definition OnPieceDownload (f : nextF) (i : Z) : nextF := nextByRarity.

(** ** The abstraction: the state of a block *)

Inductive bstate := Unrequested | Pending | Complete.

Definition blk_state (p : Piece) (off : Z) : bstate :=
  if bm_Get (completeBlocks p) off then Complete
  else if bm_Get (unrequestedBlocks p) off then Unrequested
  else Pending.

(** The offsets of the blocks of a piece. *)
Definition offsets (t : tparams) (p : Piece) : list Z :=
  (fun j => j * t_blockRequestSize t) <$> seqZ 0 (blocks p).

Record piece_ok (t : tparams) (p : Piece) : Prop := mkPieceOk {
  po_size : 0 < t_blockRequestSize t;
  po_blocks : 0 <= blocks p;
  po_last : 0 < lastBlockLen p <= t_blockRequestSize t;
  po_bound : blocks p * t_blockRequestSize t <= 2 ^ 32;
  po_unreq : forall off, bm_Get (unrequestedBlocks p) off = true -> off ∈ offsets t p;
  po_comp : forall off, bm_Get (completeBlocks p) off = true -> off ∈ offsets t p;
  po_disj : forall off, bm_Get (unrequestedBlocks p) off = true ->
    bm_Get (completeBlocks p) off = false;
}.

End piece.
Arguments Piece : clear implicits.

#[global] Instance bstate_eq_dec : EqDecision bstate.
Proof. solve_decision. Defined.

(** ** Lemmas *)

Section piece_lemmas.
Context {B : Type} `{BitmapLaws B}.
Implicit Types (p : Piece B) (t : tparams) (off : Z).

Lemma elem_of_offsets t p off :
  off ∈ offsets t p <-> exists j, off = j * t_blockRequestSize t /\ 0 <= j < blocks p.
Proof.
  unfold offsets. rewrite list_elem_of_fmap. split; intros (j & -> & Hj); exists j; split; auto.
  - apply elem_of_seqZ in Hj. lia.
  - apply elem_of_seqZ. lia.
Qed.

Lemma NoDup_offsets t p : 0 < t_blockRequestSize t -> NoDup (offsets t p).
Proof.
  intros Ht. unfold offsets. apply NoDup_fmap_2_strong; [|apply NoDup_seqZ].
  intros x y _ _ E. by apply Z.mul_cancel_r in E; [|lia].
Qed.

Lemma length_offsets t p : 0 <= blocks p -> lenZ (offsets t p) = blocks p.
Proof. intros. unfold offsets. rewrite length_fmap, length_seqZ. lia. Qed.

Lemma offset_index t p off : piece_ok t p -> off ∈ offsets t p -> bm_index off.
Proof.
  intros [Hs Hb _ Hbd _ _ _] (j & -> & Hj)%elem_of_offsets. unfold bm_index. nia.
Qed.

(** The bitmaps after the three updates, block by block. *)
Lemma blk_state_setBlockUnrequsted p off o :
  bm_index off ->
  blk_state (setBlockUnrequsted p off) o =
  if (o =? off) then match blk_state p off with Complete => Complete | _ => Unrequested end
  else blk_state p o.
Proof.
  intros Hi. unfold setBlockUnrequsted, blk_state. destruct (bm_Get (completeBlocks p) off) eqn:Ec; cbn.
  - destruct (Z.eqb_spec o off) as [->|]; [by rewrite Ec|done].
  - rewrite bm_Get_Set by done. destruct (Z.eqb_spec o off) as [->|]; [|done].
    rewrite Ec. by destruct (bm_Get (unrequestedBlocks p) off).
Qed.

Lemma blk_state_setBlockPending p off o :
  bm_index off ->
  blk_state (setBlockPending p off) o =
  if (o =? off) then match blk_state p off with Complete => Complete | _ => Pending end
  else blk_state p o.
Proof.
  intros Hi. unfold setBlockPending, blk_state. destruct (bm_Get (completeBlocks p) off) eqn:Ec; cbn.
  - destruct (Z.eqb_spec o off) as [->|]; [by rewrite Ec|done].
  - rewrite bm_Get_Set by done. destruct (Z.eqb_spec o off) as [->|]; [|done].
    rewrite Ec. by destruct (bm_Get (unrequestedBlocks p) off).
Qed.

Lemma blk_state_setBlockComplete p ci off o :
  bm_index off ->
  blk_state (setBlockComplete p ci off) o = if (o =? off) then Complete else blk_state p o.
Proof.
  intros Hi. unfold setBlockComplete, blk_state. cbn. rewrite !bm_Get_Set by done.
  by destruct (Z.eqb_spec o off).
Qed.

(** Two pieces of the same shape: only bitmaps, contributors, rarity and
    verification may differ. *)
Definition same_shape p p' : Prop :=
  index p' = index p /\ blocks p' = blocks p /\ lastBlockLen p' = lastBlockLen p.

Lemma same_shape_refl p : same_shape p p.
Proof. done. Qed.
Lemma same_shape_trans p1 p2 p3 : same_shape p1 p2 -> same_shape p2 p3 -> same_shape p1 p3.
Proof. unfold same_shape. intuition congruence. Qed.

Lemma same_shape_offsets t p p' : same_shape p p' -> offsets t p' = offsets t p.
Proof. intros (_ & Hb & _). unfold offsets. by rewrite Hb. Qed.

Lemma same_shape_blockLen t p p' off : same_shape p p' -> blockLen t p' off = blockLen t p off.
Proof. intros (_ & Hb & Hl). unfold blockLen. by rewrite Hb, Hl. Qed.

Lemma setBlockUnrequsted_shape p off : same_shape p (setBlockUnrequsted p off).
Proof. unfold setBlockUnrequsted. by destruct (negb _). Qed.
Lemma setBlockPending_shape p off : same_shape p (setBlockPending p off).
Proof. unfold setBlockPending. by destruct (negb _). Qed.

(** The invariant, by the states of the blocks. *)
Lemma piece_ok_intro t p p' :
  piece_ok t p -> same_shape p p' ->
  (forall off, bm_Get (unrequestedBlocks p') off = true -> off ∈ offsets t p) ->
  (forall off, bm_Get (completeBlocks p') off = true -> off ∈ offsets t p) ->
  (forall off, bm_Get (unrequestedBlocks p') off = true -> bm_Get (completeBlocks p') off = false) ->
  piece_ok t p'.
Proof.
  intros [Hs Hb Hl Hbd _ _ _] Hsh Hu Hc Hd. pose proof Hsh as (_ & Eb & El).
  constructor; rewrite ?Eb, ?El, ?(same_shape_offsets _ _ _ Hsh); auto.
Qed.

Lemma setBlockUnrequsted_ok t p off :
  piece_ok t p -> off ∈ offsets t p -> piece_ok t (setBlockUnrequsted p off).
Proof.
  intros Hp Ho. pose proof (offset_index _ _ _ Hp Ho) as Hi.
  apply (piece_ok_intro t p); [done|apply setBlockUnrequsted_shape|..];
    unfold setBlockUnrequsted; destruct (bm_Get (completeBlocks p) off) eqn:Ec; cbn; try apply Hp.
  - intros o. rewrite bm_Get_Set by done. destruct (Z.eqb_spec o off) as [->|]; [done|apply Hp].
  - intros o. rewrite bm_Get_Set by done. destruct (Z.eqb_spec o off) as [->|]; [done|apply Hp].
Qed.

Lemma setBlockPending_ok t p off :
  piece_ok t p -> off ∈ offsets t p -> piece_ok t (setBlockPending p off).
Proof.
  intros Hp Ho. pose proof (offset_index _ _ _ Hp Ho) as Hi.
  apply (piece_ok_intro t p); [done|apply setBlockPending_shape|..];
    unfold setBlockPending; destruct (bm_Get (completeBlocks p) off) eqn:Ec; cbn; try apply Hp.
  - intros o. rewrite bm_Get_Set by done. destruct (Z.eqb_spec o off) as [->|]; [done|apply Hp].
  - intros o. rewrite bm_Get_Set by done. destruct (Z.eqb_spec o off) as [->|]; [done|apply Hp].
Qed.

Lemma setBlockComplete_ok t p ci off :
  piece_ok t p -> off ∈ offsets t p -> piece_ok t (setBlockComplete p ci off).
Proof.
  intros Hp Ho. pose proof (offset_index _ _ _ Hp Ho) as Hi.
  apply (piece_ok_intro t p); [done|done|..]; unfold setBlockComplete; cbn; intros o;
    rewrite !bm_Get_Set by done; destruct (Z.eqb_spec o off) as [->|]; try done; apply Hp.
Qed.

(** [setAllUnrequested] leaves the complete blocks and makes the others
    unrequested. *)
Lemma setAllUnrequested_loop t p js :
  piece_ok t p -> Forall (fun j => 0 <= j < blocks p) js ->
  let p' := foldl (fun p i => setBlockUnrequsted p (i * t_blockRequestSize t)) p js in
  same_shape p p' /\ piece_ok t p' /\
  forall o, blk_state p' o =
    if bool_decide (o ∈ (fun j => j * t_blockRequestSize t) <$> js)
    then match blk_state p o with Complete => Complete | _ => Unrequested end else blk_state p o.
Proof.
  cbn zeta. intros Hp Hjs. revert p Hp Hjs. induction js as [|j js IH]; intros p Hp Hjs; cbn [foldl].
  - split_and!; [done|done|]. intros o. by rewrite bool_decide_false by set_solver.
  - inversion Hjs as [|? ? Hj Hjs']; subst. set (p1 := setBlockUnrequsted p _).
    assert (Ho : j * t_blockRequestSize t ∈ offsets t p) by (apply elem_of_offsets; by exists j).
    pose proof (setBlockUnrequsted_shape p (j * t_blockRequestSize t)) as Hsh. fold p1 in Hsh.
    destruct (IH p1) as (Hsh' & Hok & Hst).
    { by apply setBlockUnrequsted_ok. }
    { destruct Hsh as (_ & -> & _). done. }
    split_and!; [by eapply same_shape_trans|done|]. intros o. rewrite Hst.
    unfold p1. rewrite blk_state_setBlockUnrequsted by (exact (offset_index t p _ Hp Ho)).
    rewrite fmap_cons. destruct (Z.eqb_spec o (j * t_blockRequestSize t)) as [->|Hne].
    + rewrite (bool_decide_true (_ ∈ _ :: _)) by left.
      case_bool_decide; by destruct (blk_state p (j * t_blockRequestSize t)).
    + rewrite (bool_decide_ext (o ∈ _ :: _) (o ∈ (fun j => j * t_blockRequestSize t) <$> js)); [done|].
      rewrite elem_of_cons. naive_solver.
Qed.

Lemma setAllUnrequested_spec t p :
  piece_ok t p ->
  same_shape p (setAllUnrequested t p) /\ piece_ok t (setAllUnrequested t p) /\
  forall o, o ∈ offsets t p -> blk_state (setAllUnrequested t p) o =
    match blk_state p o with Complete => Complete | _ => Unrequested end.
Proof.
  intros Hp. destruct (setAllUnrequested_loop t p (seqZ 0 (blocks p)) Hp) as (H1 & H2 & H3).
  { apply Forall_forall. intros j Hj%elem_of_seqZ. lia. }
  split_and!; [done|done|]. intros o Ho. unfold setAllUnrequested. rewrite H3.
  by rewrite bool_decide_true.
Qed.

(** ** A new piece *)

Lemma set_all_offsets_Get brs n (b : B) o :
  0 < brs -> (forall j, 0 <= j < n -> bm_index (j * brs)) ->
  bm_Get (set_all_offsets brs n b) o = true <->
  bm_Get b o = true \/ exists j, 0 <= j < n /\ o = j * brs.
Proof.
  intros Hb Hi. unfold set_all_offsets.
  assert (Forall (fun j => bm_index (j * brs)) (seqZ 0 n)) as Hall
    by (apply Forall_forall; intros j Hj%elem_of_seqZ; apply Hi; lia).
  transitivity (bm_Get b o = true \/ exists j, j ∈ seqZ 0 n /\ o = j * brs).
  2:{ setoid_rewrite elem_of_seqZ. rewrite Z.add_0_l. done. }
  clear Hi. revert b. induction Hall as [|j js Hj _ IH]; intros b; cbn [foldl].
  - split; [by left|]. intros [|(j & ?%elem_of_nil & _)]; done.
  - rewrite IH, bm_Get_Set by done. destruct (Z.eqb_spec o (j * brs)) as [->|Hne].
    + split; [|by left]. intros _. right. exists j. split; [left|done].
    + split; (intros [|(k & Hk & ->)]; [by left|right; exists k]).
      * split; [by right|done].
      * apply elem_of_cons in Hk as [->|]; done.
Qed.

(** The lengths of the blocks add up to the length of the piece. *)
Lemma blockLen_at t p j :
  piece_ok t p -> 0 <= j < blocks p ->
  blockLen t p (j * t_blockRequestSize t) =
  if j =? blocks p - 1 then lastBlockLen p else t_blockRequestSize t.
Proof. intros Hp Hj. unfold blockLen. rewrite Z.quot_mul by (pose proof (po_size _ _ Hp); lia). done. Qed.

Definition sum_len t p (l : list Z) : Z := foldr (fun off acc => blockLen t p off + acc) 0 l.

Lemma sum_len_app t p l k : sum_len t p (l ++ k) = sum_len t p l + sum_len t p k.
Proof. unfold sum_len. induction l as [|x l IH]; cbn [foldr app]; lia. Qed.

Lemma sum_len_prefix t p n :
  piece_ok t p -> 0 <= n < blocks p ->
  sum_len t p ((fun j => j * t_blockRequestSize t) <$> seqZ 0 n) = n * t_blockRequestSize t.
Proof.
  intros Hp [Hn Hlt]. revert Hlt. pattern n. apply natlike_ind; [|clear n Hn|done].
  - intros _. rewrite seqZ_nil by lia. done.
  - intros n Hn IH Hlt. unfold Z.succ. rewrite seqZ_app by lia. rewrite fmap_app, sum_len_app, IH by lia.
    cbn [fmap list_fmap sum_len foldr seqZ]. change (seqZ (0 + n) 1) with [0 + n]. cbn [fmap list_fmap sum_len foldr].
    rewrite Z.add_0_l, blockLen_at by (done || lia). destruct (Z.eqb_spec n (blocks p - 1)); lia.
Qed.

Lemma sum_len_offsets t p :
  piece_ok t p -> 0 < blocks p -> sum_len t p (offsets t p) = piece_length t p.
Proof.
  intros Hp Hb. unfold offsets, piece_length. replace (blocks p) with (blocks p - 1 + 1) at 1 by lia.
  rewrite seqZ_app by lia. rewrite fmap_app, sum_len_app, sum_len_prefix by (done || lia).
  change (seqZ (0 + (blocks p - 1)) 1) with [0 + (blocks p - 1)]. cbn [fmap list_fmap sum_len foldr].
  rewrite Z.add_0_l, blockLen_at, Z.eqb_refl by (done || lia). lia.
Qed.

(** The number of blocks of a piece of a given length. *)
Definition nblocks (plen brs : Z) : Z := (plen + brs - 1) / brs.

Definition fresh_piece t i nb last : Piece B :=
  mkPiece i false nb last 0 (set_all_offsets (t_blockRequestSize t) nb bm_empty) bm_empty [].

Lemma fresh_piece_ok t i nb last :
  0 < t_blockRequestSize t -> 0 <= nb -> 0 < last <= t_blockRequestSize t ->
  nb * t_blockRequestSize t <= 2 ^ 32 ->
  let p := fresh_piece t i nb last in
  piece_ok t p /\ forall o, o ∈ offsets t p -> blk_state p o = Unrequested.
Proof.
  intros Hb Hn Hl Hbd p.
  assert (Hget : forall o, bm_Get (unrequestedBlocks p) o = true <-> o ∈ offsets t p).
  { intros o. unfold p, fresh_piece. cbn [unrequestedBlocks]. rewrite set_all_offsets_Get, bm_Get_empty, elem_of_offsets.
    - cbn [blocks]. naive_solver.
    - done.
    - intros j Hj. unfold bm_index. nia. }
  split.
  - constructor; try done.
    + intros o. by rewrite Hget.
    + intros o. unfold p, fresh_piece. cbn. by rewrite bm_Get_empty.
    + intros o _. unfold p, fresh_piece. cbn. apply bm_Get_empty.
  - intros o Ho%Hget. unfold blk_state. rewrite Ho. unfold p, fresh_piece at 1. cbn. by rewrite bm_Get_empty.
Qed.

Lemma newPiece_spec t i plen :
  pieceLen t (uint32 i) = Some plen -> 0 <= plen -> 0 < t_blockRequestSize t ->
  plen + t_blockRequestSize t <= 2 ^ 32 ->
  exists nb last, newPiece t i = Some (fresh_piece t i nb last) /\
    nb = nblocks plen (t_blockRequestSize t) /\ 0 < last <= t_blockRequestSize t /\ 0 <= nb /\
    nb * t_blockRequestSize t <= 2 ^ 32 /\ t_blockRequestSize t * (nb - 1) + last = plen.
Proof.
  intros Hpl Hpos Hbrs Hbd. unfold newPiece, nblocks. rewrite Hpl. cbn [mbind option_bind].
  destruct (Z.eqb_spec (t_blockRequestSize t) 0); [lia|].
  rewrite Z.rem_mod_nonneg, Z.quot_div_nonneg by lia. fold (fresh_piece t i).
  set (brs := t_blockRequestSize t) in *.
  pose proof (Z.div_mod plen brs ltac:(lia)) as Hdm. pose proof (Z.mod_pos_bound plen brs Hbrs) as Hmod.
  pose proof (Z.div_pos plen brs Hpos Hbrs) as Hdiv.
  destruct (Z.eqb_spec (plen mod brs) 0) as [E|E]; cbn [negb].
  - exists (plen / brs), brs. split_and!; try done; try nia.
    apply (Z.div_unique (plen + brs - 1) brs (plen / brs) (brs - 1)); lia.
  - exists (plen / brs + 1), (plen mod brs). split_and!; try done; try nia.
    apply (Z.div_unique (plen + brs - 1) brs (plen / brs + 1) (plen mod brs - 1)); lia.
Qed.

(** ** Counting blocks by state *)

Definition in_state t p (s : bstate) : list Z := filter (fun o => blk_state p o = s) (offsets t p).

Lemma NoDup_in_state t p s : piece_ok t p -> NoDup (in_state t p s).
Proof. intros Hp. apply NoDup_filter, NoDup_offsets, Hp. Qed.

Lemma Unrequested_Get t p o :
  piece_ok t p -> bm_Get (unrequestedBlocks p) o = true <-> o ∈ in_state t p Unrequested.
Proof.
  intros Hp. unfold in_state. rewrite list_elem_of_filter. unfold blk_state. split.
  - intros Hu. rewrite (po_disj _ _ Hp _ Hu), Hu. split; [done|by apply (po_unreq _ _ Hp)].
  - intros [Hs _]. destruct (bm_Get (completeBlocks p) o); [done|]. by destruct (bm_Get (unrequestedBlocks p) o).
Qed.

Lemma Complete_Get t p o :
  piece_ok t p -> bm_Get (completeBlocks p) o = true <-> o ∈ in_state t p Complete.
Proof.
  intros Hp. unfold in_state. rewrite list_elem_of_filter. unfold blk_state. split.
  - intros Hc. rewrite Hc. split; [done|by apply (po_comp _ _ Hp)].
  - intros [Hs _]. destruct (bm_Get (completeBlocks p) o); [done|]. by destruct (bm_Get (unrequestedBlocks p) o).
Qed.

Lemma UnrequestedBlocks_count t p : piece_ok t p -> UnrequestedBlocks p = lenZ (in_state t p Unrequested).
Proof. intros Hp. apply bm_Len_list; [by apply NoDup_in_state|]. intros o. by apply Unrequested_Get. Qed.

Lemma CompletedBlocks_count t p : piece_ok t p -> CompletedBlocks p = lenZ (in_state t p Complete).
Proof. intros Hp. apply bm_Len_list; [by apply NoDup_in_state|]. intros o. by apply Complete_Get. Qed.

Lemma states_partition t p (l : list Z) :
  (length (filter (fun o => blk_state p o = Unrequested) l) + length (filter (fun o => blk_state p o = Pending) l) +
   length (filter (fun o => blk_state p o = Complete) l) = length l)%nat.
Proof.
  induction l as [|o l IH]; [done|]. rewrite !filter_cons. cbn [length]. destruct (blk_state p o).
  - rewrite decide_True, !decide_False by done. cbn [length]. lia.
  - rewrite decide_False, decide_True, decide_False by done. cbn [length]. lia.
  - rewrite !decide_False, decide_True by done. cbn [length]. lia.
Qed.

Lemma PendingBlocks_count t p : piece_ok t p -> PendingBlocks p = lenZ (in_state t p Pending).
Proof.
  intros Hp. unfold PendingBlocks. fold (UnrequestedBlocks p) (CompletedBlocks p).
  rewrite (UnrequestedBlocks_count t), (CompletedBlocks_count t) by done.
  pose proof (states_partition t p (offsets t p)) as Hst. fold (in_state t p Unrequested) in Hst.
  fold (in_state t p Pending) (in_state t p Complete) in Hst.
  pose proof (length_offsets t p (po_blocks _ _ Hp)). lia.
Qed.

(** A piece is complete when all its blocks are. *)
Lemma complete_spec t p :
  piece_ok t p -> complete p = true <-> forall o, o ∈ offsets t p -> blk_state p o = Complete.
Proof.
  intros Hp. unfold complete. rewrite Z.eqb_eq, <- (length_offsets t p) by apply Hp. split.
  - intros E o Ho. unfold blk_state.
    by rewrite (bm_Len_full (completeBlocks p) (offsets t p) (NoDup_offsets _ _ (po_size _ _ Hp)) (po_comp _ _ Hp) E o Ho).
  - intros Hall. apply bm_Len_list; [apply NoDup_offsets, Hp|]. intros o. rewrite (Complete_Get t) by done.
    unfold in_state. rewrite list_elem_of_filter. naive_solver.
Qed.

(** ** Verification *)

Lemma verificationFailed_ok t p p' cs :
  piece_ok t p -> verificationFailed p = Some (p', cs) ->
  piece_ok t p' /\ same_shape p p' /\ cs = contributors p /\
  forall o, o ∈ offsets t p -> blk_state p' o = Unrequested.
Proof.
  intros Hp. unfold verificationFailed. destruct (complete p) eqn:Ec; [|done]. cbn [negb].
  intros [= <- <-]. pose proof (proj1 (complete_spec t p Hp) Ec) as Hall.
  assert (Hc : forall o, o ∈ offsets t p -> bm_Get (completeBlocks p) o = true).
  { intros o Ho. specialize (Hall o Ho). unfold blk_state in Hall.
    destruct (bm_Get (completeBlocks p) o); [done|]. by destruct (bm_Get (unrequestedBlocks p) o). }
  assert (Hu : forall o, bm_Get (unrequestedBlocks p) o = false).
  { intros o. destruct (bm_Get (unrequestedBlocks p) o) eqn:E; [|done].
    pose proof (po_disj _ _ Hp _ E). rewrite Hc in *; [done|by apply (po_unreq _ _ Hp)]. }
  split_and!; [|done|done|].
  - apply (piece_ok_intro t p); [done|done|apply Hp|..]; cbn.
    + intros o. by rewrite Hu.
    + intros o _. apply Hu.
  - intros o Ho. unfold blk_state. cbn. by rewrite Hu, Hc.
Qed.

End piece_lemmas.

(** ** The specification: what happens to the blocks of a piece *)

Inductive bevent :=
| Request (off : Z)            (* setBlockPending *)
| Discard (off : Z)            (* setBlockUnrequsted *)
| Receive (ci off : Z)         (* setBlockComplete *)
| Reopen.                      (* setAllUnrequested *)

(** The state of block [o] after an event: a complete block stays complete. *)
Definition abs_step (ev : bevent) (o : Z) (s : bstate) : bstate :=
  match ev, s with
  | _, Complete => Complete
  | Request off, _ => if o =? off then Pending else s
  | Discard off, _ => if o =? off then Unrequested else s
  | Receive _ off, _ => if o =? off then Complete else s
  | Reopen, _ => Unrequested
  end.

Section piece_theorems.
Context {B : Type} `{BitmapLaws B}.

Definition piece_step (t : tparams) (ev : bevent) (p : Piece B) : Piece B :=
  match ev with
  | Request off => setBlockPending p off
  | Discard off => setBlockUnrequsted p off
  | Receive ci off => setBlockComplete p ci off
  | Reopen => setAllUnrequested t p
  end.

Definition event_ok (t : tparams) (p : Piece B) (ev : bevent) : Prop :=
  match ev with
  | Request off | Discard off | Receive _ off => off ∈ offsets t p
  | Reopen => True
  end.

Lemma piece_step_refines t p ev :
  piece_ok t p -> event_ok t p ev ->
  piece_ok t (piece_step t ev p) /\ same_shape p (piece_step t ev p) /\
  forall o, o ∈ offsets t p -> blk_state (piece_step t ev p) o = abs_step ev o (blk_state p o).
Proof.
  intros Hp Hev. destruct ev as [off|off|ci off|]; cbn [piece_step event_ok] in *.
  - pose proof (offset_index _ _ _ Hp Hev). split_and!; [by apply setBlockPending_ok|apply setBlockPending_shape|].
    intros o _. rewrite blk_state_setBlockPending by done. unfold abs_step.
    destruct (Z.eqb_spec o off) as [->|]; by destruct (blk_state p _).
  - pose proof (offset_index _ _ _ Hp Hev). split_and!; [by apply setBlockUnrequsted_ok|apply setBlockUnrequsted_shape|].
    intros o _. rewrite blk_state_setBlockUnrequsted by done. unfold abs_step.
    destruct (Z.eqb_spec o off) as [->|]; by destruct (blk_state p _).
  - pose proof (offset_index _ _ _ Hp Hev). split_and!; [by apply setBlockComplete_ok|done|].
    intros o _. rewrite blk_state_setBlockComplete by done. unfold abs_step.
    destruct (Z.eqb_spec o off) as [->|]; by destruct (blk_state p _).
  - destruct (setAllUnrequested_spec t p Hp) as (H1 & H2 & H3). split_and!; [done|done|].
    intros o Ho. rewrite H3 by done. unfold abs_step. by destruct (blk_state p o).
Qed.

(** ** Theorems *)

(** C37: The block bookkeeping refines the three-state specification: every operation
    on a block of a well-formed piece changes the states exactly as [abs_step]
    says (a complete block is never requested again), and keeps the piece
    well-formed and its shape. *)
Theorem piece_refines t (p : Piece B) ev :
  piece_ok t p -> event_ok t p ev ->
  piece_ok t (piece_step t ev p) /\ same_shape p (piece_step t ev p) /\
  forall o, o ∈ offsets t p -> blk_state (piece_step t ev p) o = abs_step ev o (blk_state p o).
Proof. apply piece_step_refines. Qed.

(** The three counters of a well-formed piece are the numbers of its blocks in
    each state; they are not negative and add up to the number of blocks. *)
Theorem piece_counts t (p : Piece B) :
  piece_ok t p ->
  UnrequestedBlocks p = lenZ (in_state t p Unrequested) /\
  PendingBlocks p = lenZ (in_state t p Pending) /\
  CompletedBlocks p = lenZ (in_state t p Complete) /\
  UnrequestedBlocks p + PendingBlocks p + CompletedBlocks p = blocks p.
Proof.
  intros Hp. split_and!; [by apply UnrequestedBlocks_count|by apply PendingBlocks_count|
    by apply CompletedBlocks_count|]. unfold PendingBlocks, UnrequestedBlocks, CompletedBlocks. lia.
Qed.

(** A new piece is well-formed and has all its blocks unrequested, as many as
    its length needs; their lengths add up to the length of the piece. A piece of
    length 0 has no block. *)
Theorem newPiece_blocks t i plen :
  pieceLen t (uint32 i) = Some plen -> 0 <= plen -> 0 < t_blockRequestSize t ->
  plen + t_blockRequestSize t <= 2 ^ 32 ->
  exists p : Piece B, newPiece t i = Some p /\ piece_ok t p /\ index p = i /\
    blocks p = nblocks plen (t_blockRequestSize t) /\
    (forall o, o ∈ offsets t p -> blk_state p o = Unrequested) /\
    sum_len t p (offsets t p) = plen.
Proof.
  intros Hpl Hpos Hb Hbd.
  destruct (newPiece_spec t i plen Hpl Hpos Hb Hbd) as (nb & last & -> & Hnb & Hl & Hnb0 & Hnbd & Hlen).
  destruct (fresh_piece_ok t i nb last Hb Hnb0 Hl Hnbd) as [Hok Hun].
  eexists. split; [done|]. split_and!; [done|done|done|done|].
  destruct (Z.le_gt_cases nb 0) as [?|Hgt].
  - assert (nb = 0) as E by lia. unfold offsets, fresh_piece. cbn [blocks]. rewrite seqZ_nil by lia. cbn.
    rewrite E in *. unfold nblocks in Hnb.
    pose proof (Z.div_mod (plen + t_blockRequestSize t - 1) (t_blockRequestSize t) ltac:(lia)).
    pose proof (Z.mod_pos_bound (plen + t_blockRequestSize t - 1) (t_blockRequestSize t) Hb). nia.
  - rewrite sum_len_offsets by done. unfold piece_length, fresh_piece. cbn [blocks lastBlockLen]. done.
Qed.

(** A failed hash check puts every block of the piece back to unrequested and
    charges every contribution; it panics exactly when a block is missing. *)
Theorem verificationFailed_reopens t (p : Piece B) :
  piece_ok t p ->
  match verificationFailed p with
  | Some (p', cs) => (forall o, o ∈ offsets t p -> blk_state p o = Complete) /\
      piece_ok t p' /\ same_shape p p' /\ cs = contributors p /\
      forall o, o ∈ offsets t p -> blk_state p' o = Unrequested
  | None => exists o, o ∈ offsets t p /\ blk_state p o <> Complete
  end.
Proof.
  intros Hp. destruct (verificationFailed p) as [[p' cs]|] eqn:E.
  - assert (Hc : complete p = true) by (unfold verificationFailed in E; by destruct (complete p)).
    split; [by apply complete_spec|]. by apply verificationFailed_ok.
  - assert (Hc : complete p = false) by (unfold verificationFailed in E; by destruct (complete p)).
    destruct (decide (Forall (fun o => blk_state p o = Complete) (offsets t p))) as [Hall|Hn].
    + rewrite Forall_forall in Hall. apply (complete_spec t p Hp) in Hall. congruence.
    + apply not_Forall_Exists in Hn; [|apply _]. apply Exists_exists in Hn. done.
Qed.

Lemma blockLenSafe_spec t (p : Piece B) off n :
  piece_ok t p -> 0 <= off ->
  blockLenSafe t p off = Ok n <-> off ∈ offsets t p /\ n = blockLen t p off.
Proof.
  intros Hp Ho. pose proof (po_size _ _ Hp) as Hs. pose proof (po_blocks _ _ Hp) as Hb.
  unfold blockLenSafe, blockLen. rewrite Z.rem_mod_nonneg, Z.quot_div_nonneg by lia.
  pose proof (Z.div_mod off (t_blockRequestSize t) ltac:(lia)) as Hdm.
  pose proof (Z.div_pos off _ Ho Hs) as Hdiv. rewrite elem_of_offsets.
  destruct (Z.eqb_spec (off mod t_blockRequestSize t) 0) as [E|E]; cbn [negb].
  2:{ split; [done|]. intros [(j & -> & _) _]. rewrite Z.mod_mul in E by lia. done. }
  assert (Hj : (exists j, off = j * t_blockRequestSize t /\ 0 <= j < blocks p) <->
               off / t_blockRequestSize t < blocks p).
  { split; [intros (j & -> & ?); rewrite Z.div_mul by lia; lia|].
    intros. exists (off / t_blockRequestSize t). lia. }
  rewrite Hj. destruct (Z.eqb_spec (off / t_blockRequestSize t) (blocks p - 1)).
  - split; [intros [= <-]; split; [lia|done]|]. by intros [_ ->].
  - destruct (Z.ltb_spec (off / t_blockRequestSize t) (blocks p - 1)).
    + split; [intros [= <-]; split; [lia|done]|]. by intros [_ ->].
    + split; [done|]. intros [? _]. lia.
Qed.

(** The length check of an incoming request: for an offset that is not negative it
    succeeds exactly at the offsets of blocks, with the length of the block. *)
Theorem blockLenSafe_offsets t (p : Piece B) off n :
  piece_ok t p -> 0 <= off ->
  blockLenSafe t p off = Ok n <-> off ∈ offsets t p /\ n = blockLen t p off.
Proof. apply blockLenSafe_spec. Qed.

(** Among pieces with the same number of blocks, the order of the default selector
    (after the first verified piece) is a strict weak order, as sort.Slice requires. *)
Theorem Less_strict_weak coin (p1 p2 p3 : Piece B) :
  blocks p1 = blocks p2 -> blocks p2 = blocks p3 ->
  Less nextByRarity coin p1 p1 = false /\
  (Less nextByRarity coin p1 p2 = true -> Less nextByRarity coin p2 p3 = true ->
   Less nextByRarity coin p1 p3 = true) /\
  (Less nextByRarity coin p1 p2 = false -> Less nextByRarity coin p2 p3 = false ->
   Less nextByRarity coin p1 p3 = false).
Proof.
  intros H12 H23. unfold Less, next, completeness, PendingBlocks, CompletedBlocks, UnrequestedBlocks.
  rewrite <- H23, <- H12. set (n := blocks p1). set (u1 := bm_Len (unrequestedBlocks p1)).
  set (u2 := bm_Len (unrequestedBlocks p2)). set (u3 := bm_Len (unrequestedBlocks p3)).
  split_and!; destruct (Z.eqb_spec u1 n), (Z.eqb_spec u2 n), (Z.eqb_spec u3 n); cbn [andb];
    rewrite ?Z.ltb_lt, ?Z.ltb_ge; lia.
Qed.

End piece_theorems.

(** With pieces of different sizes the order has cycles: [small] before [half]
    (its completeness is larger), [half] before [big], and [big] before [small]
    (it is rarer). *)
Theorem Less_cycle :
  exists small half big : Piece (gset Z),
    piece_ok (mkT 44 20 3 2) small /\ piece_ok (mkT 44 20 3 2) half /\ piece_ok (mkT 44 20 3 2) big /\
    Less nextByRarity 0 small half = true /\ Less nextByRarity 0 half big = true /\
    Less nextByRarity 0 big small = true.
Proof.
  set (t := mkT 44 20 3 2).
  assert (Hok : forall i nb, 0 <= nb <= 10 -> piece_ok t (fresh_piece (B := gset Z) t i nb 2))
    by (intros i nb Hnb; apply fresh_piece_ok; cbn; lia).
  exists (with_rarity (fresh_piece t 2 2 2) 5), (setBlockPending (setBlockPending (fresh_piece t 1 10 2) 0) 2),
    (with_rarity (fresh_piece t 0 10 2) 1).
  split_and!; try done.
  - by destruct (Hok 2 2 ltac:(lia)).
  - apply setBlockPending_ok; [apply setBlockPending_ok; [by apply Hok|]|];
      by apply (bool_decide_unpack _); vm_compute.
  - by destruct (Hok 0 10 ltac:(lia)).
Qed.
