(* ===== verification/Pieces.v ===== *)
(** * torrent/piece.go: the pieces of a torrent

    The collection the connections request from: choosing blocks for a peer,
    taking requests back, recording downloaded blocks and hash results, and the
    end game. The piece selector is an interface, with the default selector as its
    instance; sort.Slice is known by its contract. What the code does after it
    releases its lock (queueing a piece for hashing, messages to the connections) is
    returned as a list of events. *)

From S2P Require Import Prelude Bitmap Piece.

(** ** Interfaces *)

(** torrent/piece_selector.go: PieceSelector. [coin] is the random number the
    selector may draw in a comparison. *)
Class PieceSelector (S B : Type) := mkPieceSelector {
  sel_Less : S -> Z -> Piece B -> Piece B -> bool;
  sel_OnPieceDownload : S -> Z -> S;
}.

#[export] Instance DefaultPieceSelector `{BitmapOps B} : PieceSelector nextF B := {|
  sel_Less := Less;
  sel_OnPieceDownload := OnPieceDownload;
|}.

(** sort.Slice: a permutation, whatever the comparison. *)
Class SortSlice (A : Type) := sort_Slice : (A -> A -> bool) -> list A -> list A.
Class SortSliceLaws (A : Type) `{SortSlice A} : Prop :=
  sort_Slice_perm : forall less l, sort_Slice less l ≡ₚ l.

(** The contract can be met: insertion before the first element that is not less. *)
Fixpoint insert_less {A} (less : A -> A -> bool) (x : A) (l : list A) : list A :=
  match l with
  | [] => [x]
  | y :: l' => if less y x then y :: insert_less less x l' else x :: l
  end.

Definition insertion_sort {A} (less : A -> A -> bool) (l : list A) : list A :=
  foldr (insert_less less) [] l.

#[export] Instance insertion_SortSlice A : SortSlice A | 100 := insertion_sort.

Lemma insert_less_perm {A} less (x : A) l : insert_less less x l ≡ₚ x :: l.
Proof.
  induction l as [|y l IH]; [done|]. cbn. destruct (less y x); [|done].
  rewrite IH. by constructor.
Qed.

#[export] Instance insertion_SortSliceLaws A : SortSliceLaws A | 100.
Proof.
  intros less l. unfold sort_Slice, insertion_SortSlice, insertion_sort.
  induction l as [|x l IH]; [done|]. cbn. by rewrite insert_less_perm, IH.
Qed.

(** ** Data *)

(** What follows an operation outside its lock. *)
Inductive pevent :=
| QueueForHashing (i : Z)
| RequestsAvailable
| SendCancels (b : block).

Section pieces.
Context {B : Type} `{BitmapOps B} {S : Type} `{PieceSelector S B} `{SortSlice (Piece B)}.

Record pieces := mkPieces {
  ownedPieces : B;
  pcs : list (Piece B);
  selector : S;
  endGame : bool;
  downloadEnabled : bool;
}.

Definition with_pcs (p : pieces) (l : list (Piece B)) : pieces :=
  mkPieces (ownedPieces p) l (selector p) (endGame p) (downloadEnabled p).

(** ** Operations; [None] is a panic *)

Definition newPieces (t : tparams) (sel : S) : option pieces :=
  l ← mapM (newPiece t) (seqZ 0 (t_numPieces t));
  Some (mkPieces bm_empty l sel false false).

(** Apply a function to the piece at an index. *)
Definition update_piece (p : pieces) (i : Z) (f : Piece B -> Piece B) : option pieces :=
  pc ← at_index (pcs p) i;
  l ← set_index (pcs p) i (f pc);
  Some (with_pcs p l).

Definition onHave (p : pieces) (i : Z) : option pieces :=
  update_piece p i (fun pc => with_rarity pc (rarity pc + 1)).

(** Fold over a list, stopping at a panic. *)
Fixpoint foldM {A X} (f : X -> A -> option X) (x : X) (l : list A) : option X :=
  match l with
  | [] => Some x
  | a :: l => x' ← f x a; foldM f x' l
  end.

Definition onBitfield (p : pieces) (bm : B) : option pieces := foldM onHave p (bm_Iter bm).

Definition setDownloadEnabled (p : pieces) (v : bool) : pieces :=
  mkPieces (ownedPieces p) (pcs p) (selector p) (endGame p) v.

Definition filterPieces (l : list (Piece B)) (f : Piece B -> bool) : list (Piece B) :=
  filter (fun pc => f pc = true) l.

(** The loop of fillRequests over the chosen pieces, by their index: [n] requests
    of [total] are filled, in [acc]. *)
Fixpoint fill_loop (t : tparams) (total : Z) (order : list Z) (n : Z) (acc : list block) (p : pieces)
    : option (pieces * list block) :=
  match order with
  | [] => Some (p, acc)
  | i :: order =>
      piece ← at_index (pcs p) i;
      let unreq := unrequestedBlocksSlc t piece (total - n) in
      p ← (if endGame p then Some p
           else update_piece p i (fun pc => foldl (fun pc b => setBlockPending pc (b_off b)) pc unreq));
      let copied := take (Z.to_nat (total - n)) unreq in
      let n := n + lenZ copied in
      if total <? n then None
      else if n =? total then Some (p, acc ++ copied)
      else fill_loop t total order n (acc ++ copied) p
  end.

(** The requests filled in; [limit] is the length of the slice to fill. *)
Definition fillRequests (t : tparams) (coin : Piece B -> Piece B -> Z) (peerPieces : B) (limit : Z)
    (p : pieces) : option (pieces * list block) :=
  if negb (downloadEnabled p) then Some (p, [])
  else
    let unrequested := filterPieces (pcs p)
      (fun pc => (0 <? UnrequestedBlocks pc) && bm_Get peerPieces (index pc)) in
    match unrequested with
    | [] => Some (p, [])
    | _ =>
        let sorted := sort_Slice (fun p1 p2 => sel_Less (selector p) (coin p1 p2) p1 p2) unrequested in
        fill_loop t limit (index <$> sorted) 0 [] p
    end.

Definition discardRequests (p : pieces) (requests : list block) : option pieces :=
  foldM (fun p req => update_piece p (b_pc req) (fun pc => setBlockUnrequsted pc (b_off req))) p requests.

Definition allRequested (p : pieces) : bool := forallb (fun pc => negb (hasUnrequestedBlocks pc)) (pcs p).

Definition maybeStartEndgame (t : tparams) (p : pieces) : option (pieces * bool) :=
  if endGame p || negb (allRequested p) then Some (p, false)
  else
    let p := mkPieces (ownedPieces p) (pcs p) (selector p) true (downloadEnabled p) in
    let notOwned := bm_Flip (ownedPieces p) 0 (t_numPieces t) in
    p ← foldM (fun p i => update_piece p i (setAllUnrequested t)) p (bm_Iter notOwned);
    Some (p, true).

Definition setBlockComplete (t : tparams) (p : pieces) (i off ci : Z) : option (pieces * list pevent) :=
  p ← update_piece p i (fun pc => Piece.setBlockComplete pc ci off);
  '(p, transitionIntoEndGame) ← maybeStartEndgame t p;
  piece ← at_index (pcs p) i;
  let queue := if complete piece then [QueueForHashing i] else [] in
  let rest := if transitionIntoEndGame : bool then [RequestsAvailable]
              else if endGame p then [SendCancels (mkBlock i off (blockLen t piece off))] else [] in
  Some (p, queue ++ rest).

(** The pieces, and the connections credited (true) or charged (false). *)
Definition pieceHashed (p : pieces) (i : Z) (correct : bool) : option (pieces * list Z) :=
  pc ← at_index (pcs p) i;
  if correct then
    '(pc', cs) ← verificationSuccess pc;
    l ← set_index (pcs p) i (with_contributors pc' []);
    Some (mkPieces (bm_Set (ownedPieces p) i true) l (sel_OnPieceDownload (selector p) i)
                   (endGame p) (downloadEnabled p), cs)
  else
    '(pc', cs) ← verificationFailed pc;
    l ← set_index (pcs p) i (with_contributors pc' []);
    Some (with_pcs p l, cs).

Definition pieces_blocks (p : pieces) : list Z := blocks <$> pcs p.
Definition isValid (p : pieces) (i : Z) : bool := (0 <=? i) && (i <? lenZ (pcs p)).
Definition isLast (p : pieces) (i : Z) : bool := i =? lenZ (pcs p) - 1.
Definition haveAll (t : tparams) (p : pieces) : bool := bm_Len (ownedPieces p) =? t_numPieces t.

(** ** Invariant *)

Record entry_ok (t : tparams) (owned : B) (i : nat) (pc : Piece B) : Prop := mkEntryOk {
  eo_index : index pc = Z.of_nat i;
  eo_ok : piece_ok t pc;
  eo_owned : verified pc = bm_Get owned (Z.of_nat i);
  eo_verified : verified pc = true -> complete pc = true;
}.

Record pieces_ok (t : tparams) (p : pieces) : Prop := mkPiecesOk {
  pso_len : lenZ (pcs p) = t_numPieces t;
  pso_bound : t_numPieces t < 2 ^ 32;
  pso_entries : forall i pc, pcs p !! i = Some pc -> entry_ok t (ownedPieces p) i pc;
  pso_owned : forall i, bm_Get (ownedPieces p) i = true -> 0 <= i < t_numPieces t;
}.

(** The state of a block of a piece. *)
Definition state_of (p : pieces) (i off : Z) : bstate :=
  match at_index (pcs p) i with Some pc => blk_state pc off | None => Complete end.

(** [b] is a block of the torrent, with its length. *)
Definition block_in (t : tparams) (p : pieces) (b : block) : Prop :=
  exists pc, at_index (pcs p) (b_pc b) = Some pc /\ b_off b ∈ offsets t pc /\ b_len b = blockLen t pc (b_off b).

End pieces.
Arguments pieces : clear implicits.

(** ** Lemmas *)

Section pieces_lemmas.
Context {B : Type} `{BitmapLaws B} {S : Type} `{PieceSelector S B}.
Implicit Types (p : pieces B S) (pc : Piece B) (t : tparams).

Lemma update_piece_spec p i f pc :
  at_index (pcs p) i = Some pc ->
  update_piece p i f = Some (with_pcs p (<[Z.to_nat i := f pc]> (pcs p))).
Proof.
  intros Hi. unfold update_piece. rewrite Hi. cbn [mbind option_bind].
  by rewrite set_index_Some by (by eapply at_index_bound).
Qed.

Lemma update_piece_inv p i f p' :
  update_piece p i f = Some p' ->
  exists pc, at_index (pcs p) i = Some pc /\ p' = with_pcs p (<[Z.to_nat i := f pc]> (pcs p)).
Proof.
  intros E. assert (Hpc : exists pc, at_index (pcs p) i = Some pc).
  { unfold update_piece in E. destruct (at_index (pcs p) i) as [pc|]; [by exists pc|done]. }
  destruct Hpc as [pc Hpc]. exists pc. split; [done|]. rewrite (update_piece_spec _ _ _ _ Hpc) in E. congruence.
Qed.

Lemma at_index_insert p i j pc pc' :
  at_index (pcs p) i = Some pc ->
  at_index (<[Z.to_nat i := pc']> (pcs p)) j = if j =? i then Some pc' else at_index (pcs p) j.
Proof.
  intros Hi. eapply at_index_set_index. apply set_index_Some. by eapply at_index_bound.
Qed.

(** A change of one piece that the invariant allows. *)
Definition keeps t pc pc' : Prop :=
  piece_ok t pc' /\ same_shape pc pc' /\ verified pc' = verified pc /\
  (complete pc = true -> complete pc' = true).

Lemma keeps_refl t pc : piece_ok t pc -> keeps t pc pc.
Proof. done. Qed.

Lemma keeps_trans t pc1 pc2 pc3 : keeps t pc1 pc2 -> keeps t pc2 pc3 -> keeps t pc1 pc3.
Proof.
  intros (_ & Hs1 & Hv1 & Hc1) (Hok & Hs2 & Hv2 & Hc2).
  split; [done|]. split; [by eapply same_shape_trans|]. split; [congruence|auto].
Qed.

Lemma entry_keeps t owned i pc pc' : entry_ok t owned i pc -> keeps t pc pc' -> entry_ok t owned i pc'.
Proof.
  intros [Hi Hok Hv Hc] (Hok' & (E & _) & Ev & Hcc). constructor; [congruence|done|congruence|].
  intros Hv'. apply Hcc, Hc. congruence.
Qed.

Lemma at_index_nat {A} (l : list A) (i : nat) : at_index l (Z.of_nat i) = l !! i.
Proof. unfold at_index. rewrite (proj2 (Z.leb_le 0 (Z.of_nat i))) by lia. by rewrite Nat2Z.id. Qed.

Lemma at_index_lookup {A} (l : list A) i x : at_index l i = Some x -> l !! Z.to_nat i = Some x /\ 0 <= i.
Proof. unfold at_index. destruct (Z.leb_spec 0 i); [auto|done]. Qed.

Lemma pieces_entry t p i pc :
  pieces_ok t p -> at_index (pcs p) i = Some pc ->
  index pc = i /\ piece_ok t pc /\ verified pc = bm_Get (ownedPieces p) i /\
  (verified pc = true -> complete pc = true) /\ 0 <= i < t_numPieces t.
Proof.
  intros Hp Hi. pose proof (at_index_bound _ _ _ Hi) as Hb. apply at_index_lookup in Hi as [Hl Hnn].
  destruct (pso_entries _ _ Hp _ _ Hl) as [E1 E2 E3 E4]. rewrite Z2Nat.id in E1, E3 by done.
  rewrite (pso_len _ _ Hp) in Hb. split_and!; done || lia.
Qed.

Lemma with_insert_ok t p i pc pc' :
  pieces_ok t p -> at_index (pcs p) i = Some pc -> keeps t pc pc' ->
  pieces_ok t (with_pcs p (<[Z.to_nat i := pc']> (pcs p))).
Proof.
  intros [Hl Hb He Ho] Hi Hk. constructor; cbn [pcs with_pcs ownedPieces]; [by rewrite length_insert|done| |done].
  intros j pcj Hj. apply list_lookup_insert_Some in Hj as [(<- & <- & _)|[_ Hj]]; [|by apply He].
  apply at_index_lookup in Hi as [Hi _]. eapply entry_keeps; [by apply He|done].
Qed.

Lemma state_of_insert p i pc pc' j o :
  at_index (pcs p) i = Some pc ->
  state_of (with_pcs p (<[Z.to_nat i := pc']> (pcs p))) j o =
  if j =? i then blk_state pc' o else state_of p j o.
Proof.
  intros Hi. unfold state_of. cbn [pcs with_pcs]. rewrite (at_index_insert _ _ _ _ _ Hi).
  by destruct (Z.eqb_spec j i).
Qed.

(** Pieces of the same shapes have the same blocks. *)
Definition same_shapes p p' : Prop := Forall2 same_shape (pcs p) (pcs p').

Lemma same_shapes_refl p : same_shapes p p.
Proof. apply Forall_Forall2_diag, Forall_true, same_shape_refl. Qed.

Lemma same_shapes_trans p1 p2 p3 : same_shapes p1 p2 -> same_shapes p2 p3 -> same_shapes p1 p3.
Proof. apply Forall2_trans, same_shape_trans. Qed.

Lemma same_shapes_insert p i pc pc' :
  at_index (pcs p) i = Some pc -> same_shape pc pc' ->
  same_shapes p (with_pcs p (<[Z.to_nat i := pc']> (pcs p))).
Proof.
  intros [Hi _]%at_index_lookup Hs. unfold same_shapes. cbn [pcs with_pcs].
  rewrite <- (list_insert_id (pcs p) (Z.to_nat i) pc) at 1 by done.
  apply Forall2_insert; [apply same_shapes_refl|done].
Qed.

Lemma same_shapes_lookup p p' i pc :
  same_shapes p p' -> at_index (pcs p) i = Some pc ->
  exists pc', at_index (pcs p') i = Some pc' /\ same_shape pc pc'.
Proof.
  intros Hs Hi. unfold at_index in *. destruct (0 <=? i); [|done].
  destruct (Forall2_lookup_l _ _ _ _ _ Hs Hi) as (pc' & ? & ?). by exists pc'.
Qed.

Lemma same_shapes_lookup_r p p' i pc' :
  same_shapes p p' -> at_index (pcs p') i = Some pc' ->
  exists pc, at_index (pcs p) i = Some pc /\ same_shape pc pc'.
Proof.
  intros Hs Hi. unfold at_index in *. destruct (0 <=? i); [|done].
  destruct (Forall2_lookup_r _ _ _ _ _ Hs Hi) as (pc & ? & ?). by exists pc.
Qed.

Lemma same_shapes_block_in t p p' b : same_shapes p p' -> block_in t p b -> block_in t p' b.
Proof.
  intros Hs (pc & Hi & Ho & Hl). destruct (same_shapes_lookup _ _ _ _ Hs Hi) as (pc' & Hi' & Hsh).
  exists pc'. rewrite (same_shape_offsets _ _ _ Hsh), (same_shape_blockLen _ _ _ _ Hsh). done.
Qed.

(** *** Marking the blocks of one piece pending *)

Lemma complete_of_bitmap pc pc' :
  completeBlocks pc' = completeBlocks pc -> blocks pc' = blocks pc -> complete pc' = complete pc.
Proof. unfold complete. congruence. Qed.

Lemma pend_all t pc offs :
  piece_ok t pc -> Forall (fun o => o ∈ offsets t pc) offs ->
  let pc' := foldl setBlockPending pc offs in
  keeps t pc pc' /\ completeBlocks pc' = completeBlocks pc /\
  forall o, blk_state pc' o =
    if bool_decide (o ∈ offs) then match blk_state pc o with Complete => Complete | _ => Pending end
    else blk_state pc o.
Proof.
  cbn zeta. intros Hpc Hoffs. revert pc Hpc Hoffs. induction offs as [|off offs IH]; intros pc Hpc Hoffs; cbn [foldl].
  - split; [by apply keeps_refl|]. split; [done|]. intros o. by rewrite bool_decide_false by set_solver.
  - inversion Hoffs as [|? ? Ho Hoffs']; subst. set (pc1 := setBlockPending pc off).
    pose proof (setBlockPending_shape pc off) as Hsh. fold pc1 in Hsh.
    assert (Hc1 : completeBlocks pc1 = completeBlocks pc /\ verified pc1 = verified pc)
      by (unfold pc1, setBlockPending; by destruct (negb _)).
    destruct (IH pc1) as ((Hok & Hsh' & Hv & Hcp) & Hc & Hst).
    { by apply setBlockPending_ok. }
    { by rewrite (same_shape_offsets _ _ _ Hsh). }
    split_and!; [split_and!; [done|by eapply same_shape_trans|destruct Hc1; congruence|]|destruct Hc1; congruence|].
    { intros Hcomp. apply Hcp. rewrite <- Hcomp. apply complete_of_bitmap; [apply Hc1|apply Hsh]. }
    intros o. rewrite Hst. unfold pc1. rewrite blk_state_setBlockPending by (exact (offset_index _ _ _ Hpc Ho)).
    destruct (Z.eqb_spec o off) as [->|Hne].
    + rewrite (bool_decide_true (_ ∈ _ :: _)) by left. case_bool_decide; by destruct (blk_state pc off).
    + rewrite (bool_decide_ext (o ∈ off :: offs) (o ∈ offs)); [done|]. rewrite elem_of_cons. naive_solver.
Qed.

(** The blocks chosen from one piece. *)
Lemma unrequestedBlocksSlc_spec t pc k :
  piece_ok t pc ->
  let bl := unrequestedBlocksSlc t pc k in
  NoDup (b_off <$> bl) /\ (lenZ bl <= Z.max 0 k) /\
  Forall (fun b => b = toBlock t pc (b_off b) /\ b_off b ∈ offsets t pc /\ blk_state pc (b_off b) = Unrequested) bl /\
  (lenZ bl < k -> forall o, o ∈ offsets t pc -> blk_state pc o = Unrequested -> o ∈ b_off <$> bl).
Proof.
  intros Hpc bl. unfold bl, unrequestedBlocksSlc.
  set (l := take (Z.to_nat k) (bm_Iter (unrequestedBlocks pc))).
  assert (E : b_off <$> (toBlock t pc <$> l) = l).
  { apply list_eq. intros i. rewrite !list_lookup_fmap. by destruct (l !! i). }
  rewrite E, length_fmap. split_and!.
  - eapply sublist_NoDup; [apply bm_Iter_NoDup|apply sublist_take].
  - unfold l. rewrite length_take. lia.
  - apply Forall_fmap, Forall_forall. intros o Ho. cbn.
    assert (Hu : o ∈ in_state t pc Unrequested).
    { apply Unrequested_Get; [done|]. apply bm_Iter_Get. 
      apply list_elem_of_lookup in Ho as [i Hi]. unfold l in Hi. apply lookup_take_Some in Hi as [Hi _].
      by eapply list_elem_of_lookup_2. }
    apply list_elem_of_filter in Hu as [Hs Hi]. done.
  - intros Hlt o Ho Hs. unfold l in *. rewrite take_ge by (rewrite length_take in Hlt; lia).
    apply bm_Iter_Get, (Unrequested_Get t); [done|]. by apply list_elem_of_filter.
Qed.

(** *** Filling requests *)

(** Where a block is. *)
Definition keys (bl : list block) : list (Z * Z) := (fun b => (b_pc b, b_off b)) <$> bl.

(** Everything but the pieces is the same. *)
Definition same_rest p p' : Prop :=
  ownedPieces p' = ownedPieces p /\ selector p' = selector p /\ endGame p' = endGame p /\
  downloadEnabled p' = downloadEnabled p.

Lemma foldl_fmap {A X Y} (f : X -> Y -> X) (g : A -> Y) x l :
  foldl (fun x a => f x (g a)) x l = foldl f x (g <$> l).
Proof. revert x. induction l as [|a l IH]; intros x; [done|]. cbn. apply IH. Qed.

Lemma keys_toBlock t pc bl i :
  index pc = i -> Forall (fun b => b = toBlock t pc (b_off b)) bl ->
  forall j o, (j, o) ∈ keys bl <-> j = i /\ o ∈ b_off <$> bl.
Proof.
  intros Hi Hall j o. unfold keys. rewrite !list_elem_of_fmap. rewrite Forall_forall in Hall. split.
  - intros (b & [= -> ->] & Hb). split; [|by exists b]. rewrite (Hall b Hb). cbn. done.
  - intros [-> (b & -> & Hb)]. exists b. split; [|done]. f_equal. rewrite (Hall b Hb). cbn. done.
Qed.

Lemma fill_step t p i pc k :
  pieces_ok t p -> at_index (pcs p) i = Some pc ->
  let unreq := unrequestedBlocksSlc t pc k in
  exists p1,
    (if endGame p then Some p
     else update_piece p i (fun pc => foldl (fun pc b => setBlockPending pc (b_off b)) pc unreq)) = Some p1 /\
    pieces_ok t p1 /\ same_shapes p p1 /\ same_rest p p1 /\
    forall j o, state_of p1 j o =
      if negb (endGame p) && bool_decide ((j, o) ∈ keys unreq) then Pending else state_of p j o.
Proof.
  intros Hp Hi unreq. destruct (endGame p).
  { exists p. split_and!; [done|done|apply same_shapes_refl|done..]. }
  destruct (pieces_entry _ _ _ _ Hp Hi) as (Hix & Hok & _).
  destruct (unrequestedBlocksSlc_spec t pc k Hok) as (_ & _ & Hall & _). fold unreq in Hall.
  assert (Hoffs : Forall (fun o => o ∈ offsets t pc) (b_off <$> unreq)).
  { apply Forall_fmap. eapply Forall_impl; [exact Hall|]. cbn. naive_solver. }
  destruct (pend_all t pc (b_off <$> unreq) Hok Hoffs) as (Hk & _ & Hst).
  eexists. split; [by apply update_piece_spec|]. cbn beta.
  rewrite (foldl_fmap setBlockPending b_off pc unreq). split_and!.
  - by eapply with_insert_ok.
  - eapply same_shapes_insert; [done|apply Hk].
  - done.
  - intros j o. rewrite (state_of_insert _ _ _ _ _ _ Hi). cbn [negb andb].
    assert (Hkeys : (j, o) ∈ keys unreq <-> j = i /\ o ∈ b_off <$> unreq).
    { apply (keys_toBlock t pc); [done|]. eapply Forall_impl; [exact Hall|]. naive_solver. }
    rewrite (bool_decide_ext _ _ Hkeys). destruct (Z.eqb_spec j i) as [->|Hne].
    + rewrite Hst. unfold state_of. rewrite Hi. case_bool_decide as Ho.
      * rewrite bool_decide_true by done. apply list_elem_of_fmap in Ho as (b & -> & Hb).
        rewrite Forall_forall in Hall. destruct (Hall b Hb) as (_ & _ & ->). done.
      * rewrite bool_decide_false by naive_solver. done.
    + rewrite bool_decide_false by naive_solver. done.
Qed.

(** What the loop of fillRequests returns. *)
Record filled t (total : Z) (order : list Z) (n : Z) p p' (new : list block) : Prop := mkFilled {
  fl_ok : pieces_ok t p';
  fl_shapes : same_shapes p p';
  fl_rest : same_rest p p';
  fl_count : n + lenZ new <= total;
  fl_nodup : NoDup (keys new);
  fl_blocks : Forall (fun b => b_pc b ∈ order /\ block_in t p b /\ state_of p (b_pc b) (b_off b) = Unrequested) new;
  fl_states : forall j o, state_of p' j o =
    if negb (endGame p) && bool_decide ((j, o) ∈ keys new) then Pending else state_of p j o;
  fl_maximal : n + lenZ new < total -> forall i pc o, i ∈ order -> at_index (pcs p) i = Some pc ->
    o ∈ offsets t pc -> blk_state pc o = Unrequested -> (i, o) ∈ keys new;
}.

Lemma same_shapes_sym p p' : same_shapes p p' -> same_shapes p' p.
Proof.
  unfold same_shapes. induction 1 as [|x y l k (E1 & E2 & E3) _ IH]; constructor; [|done].
  unfold same_shape. by split_and!.
Qed.

Lemma state_of_at p i pc : at_index (pcs p) i = Some pc -> state_of p i = blk_state pc.
Proof. intros Hi. unfold state_of. by rewrite Hi. Qed.

Lemma keys_app l k : keys (l ++ k) = keys l ++ keys k.
Proof. apply fmap_app. Qed.

(** One piece, then the others. *)
Lemma filled_cons t total i pc order n p p1 p' unreq new :
  at_index (pcs p) i = Some pc -> i ∉ order ->
  same_shapes p p1 -> same_rest p p1 ->
  (forall j o, state_of p1 j o =
     if negb (endGame p) && bool_decide ((j, o) ∈ keys unreq) then Pending else state_of p j o) ->
  (forall j o, (j, o) ∈ keys unreq -> j = i) -> NoDup (keys unreq) ->
  Forall (fun b => b_pc b = i /\ block_in t p b /\ state_of p (b_pc b) (b_off b) = Unrequested) unreq ->
  (n + lenZ unreq < total -> forall o, o ∈ offsets t pc -> blk_state pc o = Unrequested -> (i, o) ∈ keys unreq) ->
  filled t total order (n + lenZ unreq) p1 p' new ->
  filled t total (i :: order) n p p' (unreq ++ new).
Proof.
  intros Hpc Hi Hsh Hr Hst Hk Hnd Hb Hmax [Fok Fsh Fr Fc Fnd Fb Fst Fm].
  assert (Heg : endGame p1 = endGame p) by apply Hr. rewrite Heg in Fst.
  assert (Hother : forall j o, j <> i -> state_of p1 j o = state_of p j o).
  { intros j o Hne. rewrite Hst. rewrite bool_decide_false by (intros Hj%Hk; done). by rewrite andb_false_r. }
  rewrite Forall_forall in Fb.
  assert (Fkey : forall j o, (j, o) ∈ keys new -> j ∈ order /\ j <> i).
  { intros j o Hj. unfold keys in Hj. apply list_elem_of_fmap in Hj as (b & [= -> ->] & Hin).
    destruct (Fb b Hin) as (Ho & _). split; [done|]. by intros <-. }
  constructor.
  - done.
  - by eapply same_shapes_trans.
  - destruct Hr as (? & ? & ? & ?), Fr as (? & ? & ? & ?). unfold same_rest. split_and!; congruence.
  - rewrite length_app. lia.
  - rewrite keys_app. apply NoDup_app. split_and!; [done| |done].
    intros [j o] Hj Hj'. apply Hk in Hj. by apply Fkey in Hj' as [_ ?].
  - apply Forall_app. split.
    + rewrite Forall_forall in Hb |- *. intros b Hin. destruct (Hb b Hin) as (E & ? & ?).
      split_and!; [rewrite E; left|done..].
    + apply Forall_forall. intros b Hin. destruct (Fb b Hin) as (Ho & Hbl & Hs).
      split_and!; [by right|by eapply same_shapes_block_in; [apply same_shapes_sym|]|].
      rewrite <- Hother; [done|]. by intros <-.
  - intros j o. rewrite Fst, Hst, keys_app. destruct (negb (endGame p)); [|done]. cbn [andb].
    rewrite (bool_decide_ext ((j, o) ∈ _ ++ _) ((j, o) ∈ keys unreq \/ (j, o) ∈ keys new)) by apply elem_of_app.
    repeat case_bool_decide; tauto.
  - rewrite length_app. intros Hlt j pcj o Hj Hpcj Ho Hs. rewrite keys_app. apply elem_of_app.
    apply elem_of_cons in Hj as [->|Hj].
    + left. rewrite Hpc in Hpcj. simplify_eq. apply Hmax; [lia|done|done].
    + right. assert (Hne : j <> i) by (by intros <-).
      destruct (same_shapes_lookup _ _ _ _ Hsh Hpcj) as (pcj' & Hpcj' & Hshj).
      apply (Fm ltac:(lia) j pcj' o Hj Hpcj'); [by rewrite (same_shape_offsets _ _ _ Hshj)|].
      rewrite <- (state_of_at _ _ _ Hpcj'), Hother by done. by rewrite (state_of_at _ _ _ Hpcj).
Qed.

Lemma fill_loop_filled t total order n acc p :
  pieces_ok t p -> n <= total -> lenZ acc = n -> NoDup order ->
  Forall (fun i => is_Some (at_index (pcs p) i)) order ->
  exists p' new, fill_loop t total order n acc p = Some (p', acc ++ new) /\ filled t total order n p p' new.
Proof.
  intros Hp Hn Hacc Hnd Hval. revert n acc p Hp Hn Hacc Hval.
  induction Hnd as [|i order Hi Hnd IH]; intros n acc p Hp Hn Hacc Hval.
  { exists p, []. rewrite app_nil_r. split; [done|]. constructor; try done; try (cbn; lia).
    - apply same_shapes_refl.
    - constructor.
    - intros j o. rewrite bool_decide_false by apply not_elem_of_nil. by rewrite andb_false_r.
    - intros _ i pc o []%elem_of_nil. }
  inversion Hval as [|? ? [pc Hpc] Hval']; subst.
  cbn [fill_loop]. rewrite Hpc. cbn [mbind option_bind].
  destruct (fill_step t p i pc (total - lenZ acc) Hp Hpc) as (p1 & -> & Hp1 & Hsh1 & Hr1 & Hst1).
  cbn [mbind option_bind].
  destruct (pieces_entry _ _ _ _ Hp Hpc) as (Hix & Hok & _).
  destruct (unrequestedBlocksSlc_spec t pc (total - lenZ acc) Hok) as (Hnd1 & Hlen1 & Hall1 & Hmax1).
  set (unreq := unrequestedBlocksSlc t pc (total - lenZ acc)) in *.
  rewrite (take_ge unreq) by lia.
  assert (Hkeys1 : forall j o, (j, o) ∈ keys unreq <-> j = i /\ o ∈ b_off <$> unreq).
  { apply (keys_toBlock t pc); [done|]. eapply Forall_impl; [exact Hall1|]. naive_solver. }
  assert (Hb1 : Forall (fun b => b_pc b = i /\ block_in t p b /\ state_of p (b_pc b) (b_off b) = Unrequested) unreq).
  { eapply Forall_impl; [exact Hall1|]. cbn. intros b (Eb & Ho & Hs).
    assert (Epc : b_pc b = i) by (rewrite Eb; done). split; [done|]. unfold state_of, block_in.
    rewrite Epc, Hpc. split; [|done]. exists pc. split; [done|]. split; [done|]. rewrite Eb. done. }
  assert (Hnk1 : NoDup (keys unreq)).
  { unfold keys. apply (NoDup_fmap_1 snd). rewrite <- list_fmap_compose. done. }
  destruct (Z.ltb_spec total (lenZ acc + lenZ unreq)); [lia|].
  destruct (Z.eqb_spec (lenZ acc + lenZ unreq) total) as [Efull|Hnf].
  - exists p1, unreq. split; [done|]. constructor; try done; try lia.
    rewrite Forall_forall in Hb1 |- *. intros b Hin. destruct (Hb1 b Hin) as (E & ? & ?).
    split_and!; [rewrite E; left|done..].
  - destruct (IH (lenZ acc + lenZ unreq) (acc ++ unreq) p1) as (p' & new & -> & Hf); [done|lia|rewrite length_app; lia| |].
    { eapply Forall_impl; [exact Hval'|]. intros j [pcj Hj].
      destruct (same_shapes_lookup _ _ _ _ Hsh1 Hj) as (pcj' & -> & _). by eexists. }
    exists p', (unreq ++ new). rewrite app_assoc. split; [done|].
    eapply filled_cons; try done.
    + intros j o Hj. by apply Hkeys1 in Hj as [-> _].
    + intros Hlt o Ho Hs. apply Hkeys1. split; [done|]. apply Hmax1; [lia|done|done].
Qed.

End pieces_lemmas.

Section pieces_fill.
Context {B : Type} `{BitmapLaws B} {S : Type} `{PieceSelector S B} `{SortSliceLaws (Piece B)}.
Implicit Types (p : pieces B S) (pc : Piece B) (t : tparams).

Lemma index_pcs t p : pieces_ok t p -> index <$> pcs p = Z.of_nat <$> seq 0 (length (pcs p)).
Proof.
  intros Hp. apply list_eq. intros i. rewrite !list_lookup_fmap.
  destruct (pcs p !! i) as [pc|] eqn:E; cbn.
  - rewrite lookup_seq_lt by (by eapply lookup_lt_Some). cbn. f_equal. apply (pso_entries _ _ Hp _ _ E).
  - apply lookup_ge_None in E. by rewrite lookup_seq_ge by done.
Qed.

Lemma NoDup_index_pcs t p : pieces_ok t p -> NoDup (index <$> pcs p).
Proof.
  intros Hp. rewrite (index_pcs t p Hp). apply NoDup_fmap_2; [intros ?? ?; lia|apply NoDup_seq].
Qed.

Lemma pcs_elem t p pc : pieces_ok t p -> pc ∈ pcs p -> at_index (pcs p) (index pc) = Some pc.
Proof.
  intros Hp [i Hi]%list_elem_of_lookup. rewrite (eo_index _ _ _ _ (pso_entries _ _ Hp _ _ Hi)).
  by rewrite at_index_nat.
Qed.

Lemma fillRequests_filled t coin peer limit p :
  pieces_ok t p -> 0 <= limit -> downloadEnabled p = true ->
  exists order p' new, fillRequests t coin peer limit p = Some (p', new) /\
    filled t limit order 0 p p' new /\
    forall i pc, at_index (pcs p) i = Some pc ->
      i ∈ order <-> 0 < UnrequestedBlocks pc /\ bm_Get peer i = true.
Proof.
  intros Hp Hl Hd. unfold fillRequests. rewrite Hd. cbn [negb].
  set (f := fun pc : Piece B => (0 <? UnrequestedBlocks pc) && bm_Get peer (index pc)).
  set (sorted := sort_Slice (fun x y : Piece B => sel_Less (selector p) (coin x y) x y) (filterPieces (pcs p) f)).
  assert (Hperm : sorted ≡ₚ filterPieces (pcs p) f) by apply sort_Slice_perm.
  assert (Hmem : forall pc, pc ∈ sorted <-> f pc = true /\ pc ∈ pcs p).
  { intros pc. rewrite Hperm. unfold filterPieces. by rewrite list_elem_of_filter. }
  assert (Hnd : NoDup (index <$> sorted)).
  { rewrite Hperm. unfold filterPieces. apply NoDup_fmap_filter. by eapply NoDup_index_pcs. }
  assert (Hval : Forall (fun i => is_Some (at_index (pcs p) i)) (index <$> sorted)).
  { apply Forall_fmap, Forall_forall. intros pc [_ Hpc]%Hmem. cbn. rewrite (pcs_elem t) by done. by eexists. }
  assert (Hord : forall i pc, at_index (pcs p) i = Some pc ->
    i ∈ index <$> sorted <-> 0 < UnrequestedBlocks pc /\ bm_Get peer i = true).
  { intros i pc Hi. destruct (pieces_entry _ _ _ _ Hp Hi) as (Hix & _). rewrite list_elem_of_fmap.
    rewrite <- Z.ltb_lt, <- andb_true_iff. split.
    - intros (pc' & -> & [Hf Hin]%Hmem). rewrite (pcs_elem t) in Hi by done. by simplify_eq.
    - intros Hf. exists pc. split; [done|]. apply Hmem. unfold f. rewrite Hix. split; [done|].
      apply at_index_lookup in Hi as [Hi _]. by eapply list_elem_of_lookup_2. }
  destruct (fill_loop_filled t limit (index <$> sorted) 0 [] p) as (p' & new & E & Hfill); try done.
  exists (index <$> sorted), p', new. split_and!; [|done|done].
  destruct (filterPieces (pcs p) f) as [|x l] eqn:El; [|done].
  assert (sorted = []) as Es by (apply Permutation_nil; symmetry; by rewrite Hperm).
  rewrite Es in E. cbn in E. by simplify_eq.
Qed.

End pieces_fill.

(** *** Sequences of updates of single pieces *)

Section pieces_updates.
Context {B : Type} `{BitmapLaws B} {S : Type} `{PieceSelector S B}.
Implicit Types (p : pieces B S) (pc : Piece B) (t : tparams).

(** [f] changes a piece as the invariant allows, and its blocks by [g]. *)
Definition changes t (f : Piece B -> Piece B) (g : Z -> bstate -> bstate) pc : Prop :=
  keeps t pc (f pc) /\ forall o, o ∈ offsets t pc -> blk_state (f pc) o = g o (blk_state pc o).

Lemma update_changes t p i pc f g :
  pieces_ok t p -> at_index (pcs p) i = Some pc -> changes t f g pc ->
  exists p', update_piece p i f = Some p' /\ pieces_ok t p' /\ same_shapes p p' /\ same_rest p p' /\
    forall j pcj o, at_index (pcs p) j = Some pcj -> o ∈ offsets t pcj ->
      state_of p' j o = if j =? i then g o (state_of p j o) else state_of p j o.
Proof.
  intros Hp Hi [Hk Hst]. eexists. split; [by apply update_piece_spec|]. split_and!.
  - by eapply with_insert_ok.
  - eapply same_shapes_insert; [done|apply Hk].
  - done.
  - intros j pcj o Hj Ho. rewrite (state_of_insert _ _ _ _ _ _ Hi).
    destruct (Z.eqb_spec j i) as [->|]; [|done]. rewrite Hi in Hj. simplify_eq.
    rewrite (state_of_at _ _ _ Hi). by apply Hst.
Qed.

Lemma same_rest_trans p1 p2 p3 : same_rest p1 p2 -> same_rest p2 p3 -> same_rest p1 p3.
Proof. intros (? & ? & ? & ?) (? & ? & ? & ?). unfold same_rest. split_and!; congruence. Qed.

Lemma foldM_changes {A} t (ix : A -> Z) (f : A -> Piece B -> Piece B) (g : A -> Z -> bstate -> bstate) l p :
  pieces_ok t p ->
  (forall a, a ∈ l -> is_Some (at_index (pcs p) (ix a))) ->
  (forall a pc pc', a ∈ l -> at_index (pcs p) (ix a) = Some pc -> same_shape pc pc' -> piece_ok t pc' ->
     changes t (f a) (g a) pc') ->
  exists p', foldM (fun p a => update_piece p (ix a) (f a)) p l = Some p' /\
    pieces_ok t p' /\ same_shapes p p' /\ same_rest p p' /\
    forall j pc o, at_index (pcs p) j = Some pc -> o ∈ offsets t pc ->
      state_of p' j o = foldl (fun s a => if j =? ix a then g a o s else s) (state_of p j o) l.
Proof.
  revert p. induction l as [|a l IH]; intros p Hp Hix Hch; cbn [foldM].
  { exists p. split_and!; [done|done|apply same_shapes_refl|done..]. }
  destruct (Hix a ltac:(left)) as [pca Hpca]. destruct (pieces_entry _ _ _ _ Hp Hpca) as (_ & Hoka & _).
  destruct (update_changes t p (ix a) pca (f a) (g a) Hp Hpca) as (p1 & -> & Hp1 & Hsh1 & Hr1 & Hst1).
  { eapply Hch; [left|done|apply same_shape_refl|done]. }
  cbn [mbind option_bind]. destruct (IH p1 Hp1) as (p' & -> & Hp' & Hsh & Hr & Hst).
  { intros b Hb. destruct (Hix b ltac:(by right)) as [pcb Hpcb].
    destruct (same_shapes_lookup _ _ _ _ Hsh1 Hpcb) as (pcb' & -> & _). by eexists. }
  { intros b pcb pcb' Hb Hpcb Hs Hok. destruct (Hix b ltac:(by right)) as [pc0 Hpc0].
    destruct (same_shapes_lookup _ _ _ _ Hsh1 Hpc0) as (pcx & Hpcx & Hsx). rewrite Hpcb in Hpcx. simplify_eq.
    eapply Hch; [by right|done|by eapply same_shape_trans|done]. }
  exists p'. split_and!; [done|done|by eapply same_shapes_trans|by eapply same_rest_trans|].
  intros j pc o Hj Ho. destruct (same_shapes_lookup _ _ _ _ Hsh1 Hj) as (pc1 & Hj1 & Hs1).
  rewrite (Hst j pc1 o Hj1) by (by rewrite (same_shape_offsets _ _ _ Hs1)).
  cbn [foldl]. by rewrite (Hst1 j pc o Hj Ho).
Qed.

(** *** Discarding requests *)

Definition reopened (s : bstate) : bstate := match s with Complete => Complete | _ => Unrequested end.

Lemma setBlockUnrequsted_keeps t pc off :
  piece_ok t pc -> off ∈ offsets t pc -> keeps t pc (setBlockUnrequsted pc off).
Proof.
  intros Hok Ho. split; [by apply setBlockUnrequsted_ok|]. split; [apply setBlockUnrequsted_shape|].
  unfold setBlockUnrequsted. by destruct (negb _).
Qed.

Lemma setBlockUnrequsted_changes t pc off :
  piece_ok t pc -> off ∈ offsets t pc ->
  changes t (fun pc => setBlockUnrequsted pc off) (fun o s => if o =? off then reopened s else s) pc.
Proof.
  intros Hok Ho. split; [by apply setBlockUnrequsted_keeps|]. intros o _.
  rewrite blk_state_setBlockUnrequsted by (exact (offset_index _ _ _ Hok Ho)).
  by destruct (Z.eqb_spec o off) as [->|].
Qed.

Lemma foldl_reopened j o reqs s :
  foldl (fun s b => if j =? b_pc b then (if o =? b_off b then reopened s else s) else s) s reqs =
  if bool_decide ((j, o) ∈ keys reqs) then reopened s else s.
Proof.
  revert s. induction reqs as [|b reqs IH]; intros s; cbn [foldl].
  { by rewrite bool_decide_false by apply not_elem_of_nil. }
  rewrite IH. unfold keys. rewrite fmap_cons. fold (keys reqs).
  destruct (Z.eqb_spec j (b_pc b)) as [->|].
  - destruct (Z.eqb_spec o (b_off b)) as [->|].
    + rewrite (bool_decide_true (_ ∈ _ :: _)) by left. case_bool_decide; by destruct s.
    + rewrite (bool_decide_ext ((b_pc b, o) ∈ _ :: _) ((b_pc b, o) ∈ keys reqs)); [done|].
      rewrite elem_of_cons. naive_solver.
  - rewrite (bool_decide_ext ((j, o) ∈ _ :: _) ((j, o) ∈ keys reqs)); [done|].
    rewrite elem_of_cons. naive_solver.
Qed.

Lemma discardRequests_spec t p reqs :
  pieces_ok t p -> Forall (block_in t p) reqs ->
  exists p', discardRequests p reqs = Some p' /\ pieces_ok t p' /\ same_shapes p p' /\ same_rest p p' /\
    forall j pc o, at_index (pcs p) j = Some pc -> o ∈ offsets t pc ->
      state_of p' j o = if bool_decide ((j, o) ∈ keys reqs) then reopened (state_of p j o) else state_of p j o.
Proof.
  intros Hp Hreqs. rewrite Forall_forall in Hreqs. unfold discardRequests.
  destruct (foldM_changes t b_pc (fun b pc => setBlockUnrequsted pc (b_off b))
              (fun b o s => if o =? b_off b then reopened s else s) reqs p Hp)
    as (p' & E & Hok & Hsh & Hr & Hst).
  - intros b Hb. destruct (Hreqs b Hb) as (pc & -> & _). by eexists.
  - intros b pc pc' Hb Hpc Hs Hok. apply setBlockUnrequsted_changes; [done|].
    destruct (Hreqs b Hb) as (pc0 & Hpc0 & Ho & _). rewrite Hpc in Hpc0. simplify_eq.
    by rewrite (same_shape_offsets _ _ _ Hs).
  - exists p'. split_and!; try done. intros j pc o Hj Ho. by rewrite (Hst j pc o Hj Ho), foldl_reopened.
Qed.

(** *** The end game *)

Lemma setAllUnrequested_keeps t pc : piece_ok t pc -> keeps t pc (setAllUnrequested t pc).
Proof.
  intros Hok. destruct (setAllUnrequested_spec t pc Hok) as (Hsh & Hok' & Hst).
  assert (Hv : verified (setAllUnrequested t pc) = verified pc /\
               completeBlocks (setAllUnrequested t pc) = completeBlocks pc).
  { unfold setAllUnrequested. generalize (seqZ 0 (blocks pc)). intros l. clear. revert pc.
    induction l as [|i l IH]; intros pc; [done|]. cbn [foldl].
    destruct (IH (setBlockUnrequsted pc (i * t_blockRequestSize t))) as [-> ->].
    unfold setBlockUnrequsted. by destruct (negb _). }
  split_and!; [done|done|apply Hv|]. intros Hc. rewrite <- Hc. apply complete_of_bitmap; [apply Hv|apply Hsh].
Qed.

Lemma setAllUnrequested_changes t pc :
  piece_ok t pc -> changes t (setAllUnrequested t) (fun _ s => reopened s) pc.
Proof. intros Hok. split; [by apply setAllUnrequested_keeps|]. by apply setAllUnrequested_spec. Qed.

Lemma foldl_reopened_index (j : Z) l s :
  foldl (fun s i => if j =? i then reopened s else s) s l = if bool_decide (j ∈ l) then reopened s else s.
Proof.
  revert s. induction l as [|i l IH]; intros s; cbn [foldl].
  { by rewrite bool_decide_false by apply not_elem_of_nil. }
  rewrite IH. destruct (Z.eqb_spec j i) as [->|].
  - rewrite (bool_decide_true (i ∈ i :: l)) by left. case_bool_decide; by destruct s.
  - rewrite (bool_decide_ext (j ∈ i :: l) (j ∈ l)); [done|]. rewrite elem_of_cons. naive_solver.
Qed.

Lemma allRequested_spec t p :
  pieces_ok t p ->
  allRequested p = true <-> forall j pc o, at_index (pcs p) j = Some pc -> o ∈ offsets t pc -> state_of p j o <> Unrequested.
Proof.
  intros Hp. assert (Hone : forall j pc, at_index (pcs p) j = Some pc ->
    hasUnrequestedBlocks pc = false <-> forall o, o ∈ offsets t pc -> state_of p j o <> Unrequested).
  { intros j pc Hj. destruct (pieces_entry _ _ _ _ Hp Hj) as (_ & Hok & _). unfold hasUnrequestedBlocks, state_of. rewrite Hj, Z.ltb_ge, bm_Len_Iter.
    unfold blk_state. split.
    - intros Hl o Ho. destruct (bm_Get (completeBlocks pc) o); [done|]. destruct (bm_Get (unrequestedBlocks pc) o) eqn:Hu; [|done].
      apply bm_Iter_Get in Hu. destruct (bm_Iter (unrequestedBlocks pc)); [by apply elem_of_nil in Hu|cbn in Hl; lia].
    - intros Hall. destruct (bm_Iter (unrequestedBlocks pc)) as [|o l] eqn:El; [cbn; lia|]. exfalso.
      assert (Hu : bm_Get (unrequestedBlocks pc) o = true) by (apply bm_Iter_Get; rewrite El; by left).
      apply (Hall o (po_unreq _ _ Hok o Hu)). by rewrite (po_disj _ _ Hok o Hu), Hu. }
  unfold allRequested. rewrite forallb_forall. split.
  - intros Hall j pc o Hj. apply (Hone j pc Hj), negb_true_iff, Hall, list_elem_of_In.
    unfold at_index in Hj. destruct (0 <=? j); [by eapply list_elem_of_lookup_2|done].
  - intros Hall pc [k Hk]%list_elem_of_In%list_elem_of_lookup. apply negb_true_iff, (Hone (Z.of_nat k) pc); [by rewrite at_index_nat|].
    intros o. apply Hall. by rewrite at_index_nat.
Qed.

(** The two outcomes of maybeStartEndgame. *)
Lemma maybeStartEndgame_spec t p :
  pieces_ok t p ->
  exists p' b, maybeStartEndgame t p = Some (p', b) /\ b = negb (endGame p) && allRequested p /\
    pieces_ok t p' /\ same_shapes p p' /\ endGame p' = endGame p || b /\
    ownedPieces p' = ownedPieces p /\ selector p' = selector p /\ downloadEnabled p' = downloadEnabled p /\
    forall j pc o, at_index (pcs p) j = Some pc -> o ∈ offsets t pc ->
      state_of p' j o = if b && negb (bm_Get (ownedPieces p) j) then reopened (state_of p j o) else state_of p j o.
Proof.
  intros Hp. unfold maybeStartEndgame. destruct (endGame p) eqn:Eg; cbn [orb].
  { exists p, false. split_and!; try done. apply same_shapes_refl. }
  destruct (allRequested p); cbn [negb].
  2:{ exists p, false. split_and!; try done. apply same_shapes_refl. }
  set (q := mkPieces (ownedPieces p) (pcs p) (selector p) true (downloadEnabled p)).
  assert (Hq : pieces_ok t q) by (destruct Hp; by constructor).
  assert (Hmem : forall i, i ∈ bm_Iter (bm_Flip (ownedPieces q) 0 (t_numPieces t)) <->
    0 <= i < t_numPieces t /\ bm_Get (ownedPieces p) i = false).
  { intros i. rewrite bm_Iter_Get. pose proof (pso_bound _ _ Hp). pose proof (pso_len _ _ Hp).
    rewrite bm_Get_Flip by (unfold bm_index; lia). cbn [q ownedPieces].
    destruct (_ && _) eqn:E.
    - bool_to_prop. rewrite negb_true_iff. intuition lia.
    - split; [|intros [? _]; exfalso; apply andb_false_iff in E as [E|E]; bool_to_prop; lia].
      intros Hi%(pso_owned _ _ Hp). apply andb_false_iff in E as [E|E]; bool_to_prop; lia. }
  destruct (foldM_changes t (fun i => i) (fun _ => setAllUnrequested t) (fun _ _ s => reopened s)
              (bm_Iter (bm_Flip (ownedPieces q) 0 (t_numPieces t))) q Hq) as (p' & -> & Hok & Hsh & Hr & Hst).
  - intros i [Hi _]%Hmem. cbn [q pcs]. destruct (at_index_Some (pcs p) i) as [pc ->]; [|by eexists].
    rewrite (pso_len _ _ Hp). lia.
  - intros i pc pc' _ _ _ Hok. by apply setAllUnrequested_changes.
  - exists p', true. cbn [mbind option_bind]. destruct Hr as (E1 & E2 & E3 & E4). split_and!; try done.
    intros j pc o Hj Ho. rewrite (Hst j pc o Hj Ho), foldl_reopened_index. cbn [andb].
    destruct (pieces_entry _ _ _ _ Hp Hj) as (_ & _ & _ & _ & Hjb).
    rewrite (bool_decide_ext _ (bm_Get (ownedPieces p) j = false)) by (rewrite Hmem; tauto).
    change (state_of q j o) with (state_of p j o).
    by destruct (bm_Get (ownedPieces p) j).
Qed.

End pieces_updates.

(** *** Blocks received and pieces hashed *)

Section pieces_events.
Context {B : Type} `{BitmapLaws B} {S : Type} `{PieceSelector S B}.
Implicit Types (p : pieces B S) (pc : Piece B) (t : tparams).

Lemma setBlockComplete_changes t pc ci off :
  piece_ok t pc -> off ∈ offsets t pc ->
  changes t (fun pc => Piece.setBlockComplete pc ci off) (fun o s => if o =? off then Complete else s) pc.
Proof.
  intros Hok Ho. pose proof (setBlockComplete_ok t pc ci off Hok Ho) as Hok'.
  assert (Hst : forall o, blk_state (Piece.setBlockComplete pc ci off) o = if o =? off then Complete else blk_state pc o)
    by (intros o; apply blk_state_setBlockComplete; exact (offset_index _ _ _ Hok Ho)).
  split; [|by intros o _]. split_and!; [done|done|done|]. intros Hc.
  pose proof (proj1 (complete_spec t pc Hok) Hc) as Hall.
  apply (complete_spec t _ Hok'). intros o Ho'. rewrite Hst. destruct (o =? off); [done|by apply Hall].
Qed.

(** No block is left to be requested when the one at [off] of piece [i] has come. *)
Definition none_left t p (i off : Z) : Prop :=
  forall j pc o, at_index (pcs p) j = Some pc -> o ∈ offsets t pc -> (j, o) <> (i, off) -> state_of p j o <> Unrequested.

Lemma setBlockComplete_spec t p i off ci pc :
  pieces_ok t p -> at_index (pcs p) i = Some pc -> off ∈ offsets t pc ->
  exists p' evs start, Pieces.setBlockComplete t p i off ci = Some (p', evs) /\ pieces_ok t p' /\
    same_shapes p p' /\ ownedPieces p' = ownedPieces p /\ endGame p' = endGame p || start /\
    (start = true <-> endGame p = false /\ none_left t p i off) /\
    (forall j pcj o, at_index (pcs p) j = Some pcj -> o ∈ offsets t pcj ->
       state_of p' j o =
         let s := if (j =? i) && (o =? off) then Complete else state_of p j o in
         if start && negb (bm_Get (ownedPieces p) j) then reopened s else s) /\
    (QueueForHashing i ∈ evs <-> forall o, o ∈ offsets t pc -> state_of p' i o = Complete) /\
    (RequestsAvailable ∈ evs <-> start = true) /\
    (SendCancels (mkBlock i off (blockLen t pc off)) ∈ evs <-> endGame p = true).
Proof.
  intros Hp Hpc Ho. destruct (pieces_entry _ _ _ _ Hp Hpc) as (_ & Hok & _).
  unfold Pieces.setBlockComplete.
  destruct (update_changes t p i pc _ _ Hp Hpc (setBlockComplete_changes t pc ci off Hok Ho))
    as (p1 & -> & Hp1 & Hsh1 & (Ro & _ & Re & _) & Hst1). cbn [mbind option_bind].
  destruct (maybeStartEndgame_spec t p1 Hp1) as (p2 & start & -> & Hstart & Hp2 & Hsh2 & He2 & Ho2 & _ & _ & Hst2).
  cbn [mbind option_bind].
  destruct (same_shapes_lookup _ _ _ _ (same_shapes_trans _ _ _ Hsh1 Hsh2) Hpc) as (pc2 & Hpc2 & Hsh).
  rewrite Hpc2. cbn [mbind option_bind]. exists p2. eexists. exists start.
  split; [done|]. split; [done|]. split; [by eapply same_shapes_trans|]. split; [congruence|].
  rewrite Re in *. rewrite He2. split; [done|]. assert (Hex : start = true -> endGame p = false) by (rewrite Hstart; by destruct (endGame p)).
  split.
  { rewrite Hstart, andb_true_iff, negb_true_iff, (allRequested_spec t p1 Hp1). apply and_iff_compat_l. split.
    - intros Hall j pcj o Hj Hoj Hne. destruct (same_shapes_lookup _ _ _ _ Hsh1 Hj) as (pc1 & Hj1 & Hs1).
      specialize (Hall j pc1 o Hj1). rewrite (same_shape_offsets _ _ _ Hs1), (Hst1 j pcj o Hj Hoj) in Hall.
      destruct (Z.eqb_spec j i), (Z.eqb_spec o off); subst; auto.
    - intros Hall j pc1 o Hj1 Hoj. destruct (same_shapes_lookup_r _ _ _ _ Hsh1 Hj1) as (pcj & Hj & Hs1).
      rewrite (same_shape_offsets _ _ _ Hs1) in Hoj. rewrite (Hst1 j pcj o Hj Hoj).
      destruct (Z.eqb_spec j i), (Z.eqb_spec o off); subst; try done; apply (Hall _ pcj _ Hj Hoj); congruence. }
  destruct (pieces_entry _ _ _ _ Hp2 Hpc2) as (_ & Hok2 & _).
  assert (Hq : complete pc2 = true <-> forall o, o ∈ offsets t pc -> state_of p2 i o = Complete).
  { rewrite (complete_spec t) by done. rewrite (same_shape_offsets _ _ _ Hsh).
    by rewrite (state_of_at _ _ _ Hpc2). }
  split_and!.
  - intros j pcj o Hj Hoj. destruct (same_shapes_lookup _ _ _ _ Hsh1 Hj) as (pc1 & Hj1 & Hs1).
    rewrite (Hst2 j pc1 o Hj1) by (by rewrite (same_shape_offsets _ _ _ Hs1)).
    rewrite (Hst1 j pcj o Hj Hoj), Ro. cbn zeta. by destruct (Z.eqb_spec j i), (Z.eqb_spec o off).
  - rewrite <- Hq. destruct (complete pc2), start, (endGame p); cbn; set_solver.
  - destruct (complete pc2), start, (endGame p); cbn; set_solver.
  - rewrite (same_shape_blockLen _ _ _ _ Hsh). destruct (complete pc2), start, (endGame p); cbn; try set_solver.
    all: specialize (Hex eq_refl); done.
Qed.

Lemma complete_blocks_keeps pc pc' :
  completeBlocks pc' = completeBlocks pc -> blocks pc' = blocks pc -> complete pc = true -> complete pc' = true.
Proof. intros. by rewrite (complete_of_bitmap pc pc'). Qed.

Lemma pieceHashed_spec t p i ok pc :
  pieces_ok t p -> at_index (pcs p) i = Some pc -> complete pc = true -> verified pc = false ->
  exists p', pieceHashed p i ok = Some (p', contributors pc) /\ pieces_ok t p' /\ same_shapes p p' /\
    endGame p' = endGame p /\
    (forall j, bm_Get (ownedPieces p') j = (ok && (j =? i)) || bm_Get (ownedPieces p) j) /\
    forall j pcj o, at_index (pcs p) j = Some pcj -> o ∈ offsets t pcj ->
      state_of p' j o = if negb ok && (j =? i) then Unrequested else state_of p j o.
Proof.
  intros Hp Hpc Hc Hv. destruct (pieces_entry _ _ _ _ Hp Hpc) as (Hix & Hok & Hown & _ & Hb).
  assert (Hidx : bm_index i) by (unfold bm_index; pose proof (pso_bound _ _ Hp); lia).
  unfold pieceHashed. rewrite Hpc. cbn [mbind option_bind].
  assert (Hset : forall x, set_index (pcs p) i x = Some (<[Z.to_nat i := x]> (pcs p)))
    by (intros x; apply set_index_Some; by eapply at_index_bound).
  destruct ok.
  - unfold verificationSuccess. rewrite Hv. cbn [mbind option_bind]. rewrite Hset. cbn [mbind option_bind].
    set (pc' := with_contributors (with_verified pc true) []).
    assert (Hok' : piece_ok t pc') by (apply (piece_ok_intro t pc); [done|done|apply Hok..]).
    eexists. split; [done|]. cbn [ownedPieces pcs endGame andb negb]. split_and!.
    + destruct Hp as [Hl Hbd He Ho]. constructor; cbn [ownedPieces pcs]; [by rewrite length_insert|done|..].
      * intros j pcj Hj. apply list_lookup_insert_Some in Hj as [(<- & <- & _)|[Hne Hj]].
        -- constructor; [cbn; rewrite Z2Nat.id by lia; done|done| |done].
           rewrite bm_Get_Set, Z2Nat.id, Z.eqb_refl by (done || lia). done.
        -- destruct (He j pcj Hj) as [? ? Hvj ?]. constructor; try done. rewrite bm_Get_Set by done.
           destruct (Z.eqb_spec (Z.of_nat j) i); [lia|done].
      * intros j. rewrite bm_Get_Set by done. destruct (Z.eqb_spec j i); [lia|apply Ho].
    + by apply (same_shapes_insert p i pc).
    + done.
    + intros j. rewrite bm_Get_Set by done. by destruct (j =? i).
    + intros j pcj o Hj Hoj. cbn [negb andb]. unfold state_of. cbn [pcs].
      rewrite (at_index_insert _ _ _ _ _ Hpc). destruct (Z.eqb_spec j i) as [->|]; [by rewrite Hpc|done].
  - destruct (verificationFailed pc) as [[pc' cs]|] eqn:Ef.
    2:{ unfold verificationFailed in Ef. by rewrite Hc in Ef. }
    destruct (verificationFailed_ok t pc pc' cs Hok Ef) as (Hok' & Hsh' & -> & Hst').
    cbn [mbind option_bind]. rewrite Hset. cbn [mbind option_bind]. eexists. split; [done|].
    assert (Hv' : verified pc' = false).
    { unfold verificationFailed in Ef. rewrite Hc in Ef. cbn in Ef. by simplify_eq. }
    assert (Hk : piece_ok t (with_contributors pc' [])) by (by apply (piece_ok_intro t pc'); [..|apply Hok'|apply Hok'|apply Hok']).
    cbn [ownedPieces with_pcs endGame andb]. split_and!.
    + destruct Hp as [Hl Hbd He Ho]. constructor; cbn [ownedPieces pcs with_pcs]; [by rewrite length_insert|done| |done].
      intros j pcj Hj. apply list_lookup_insert_Some in Hj as [(<- & <- & _)|[Hne Hj]]; [|by apply He].
      constructor; cbn; rewrite ?Z2Nat.id by lia; try done.
      * destruct Hsh' as (-> & _). done.
      * congruence.
      * congruence.
    + eapply same_shapes_insert; [done|]. exact Hsh'.
    + done.
    + done.
    + intros j pcj o Hj Hoj. rewrite (state_of_insert _ _ _ _ _ _ Hpc). cbn [negb andb].
      destruct (Z.eqb_spec j i) as [->|]; [|done]. rewrite Hpc in Hj. simplify_eq. by apply Hst'.
Qed.

End pieces_events.

(** ** Reachable states *)

(** The torrent's numbers as gotInfo leaves them, for pieces of moderate size. *)
Record params_ok (t : tparams) : Prop := mkParamsOk {
  pa_length : 0 <= t_length t;
  pa_brs : 0 < t_blockRequestSize t <= t_PieceLen t;
  pa_bound : t_PieceLen t + t_blockRequestSize t <= 2 ^ 32;
  pa_num : 0 <= t_numPieces t < 2 ^ 32;
}.

Section pieces_reach.
Context {B : Type} `{BitmapLaws B} {S : Type} `{PieceSelector S B} `{SortSliceLaws (Piece B)}.
Implicit Types (p : pieces B S) (pc : Piece B) (t : tparams).

Lemma pieceLen_range t i :
  params_ok t -> exists n, pieceLen t i = Some n /\ 0 <= n <= t_PieceLen t.
Proof.
  intros [Hl Hb Hbd _]. unfold pieceLen. destruct (Z.eqb_spec i (t_numPieces t - 1)).
  - destruct (Z.eqb_spec (t_PieceLen t) 0); [lia|]. eexists. split; [done|].
    rewrite Z.rem_mod_nonneg by lia. pose proof (Z.mod_pos_bound (t_length t) (t_PieceLen t)). lia.
  - eexists. split; [done|]. lia.
Qed.

Lemma newPiece_entry t i :
  params_ok t -> 0 <= i ->
  exists nb last, newPiece (B := B) t i = Some (fresh_piece t i nb last) /\ piece_ok t (fresh_piece (B := B) t i nb last).
Proof.
  intros Ht Hi. destruct (pieceLen_range t (uint32 i) Ht) as (n & Hn & Hr). pose proof (pa_brs _ Ht).
  pose proof (pa_bound _ Ht).
  destruct (newPiece_spec (B := B) t i n Hn) as (nb & last & -> & _ & Hl & Hnb & Hbd & _); [lia..|].
  exists nb, last. split; [done|]. apply fresh_piece_ok; lia.
Qed.

Lemma newPieces_ok t (sel : S) :
  params_ok t -> exists p : pieces B S, newPieces t sel = Some p /\ pieces_ok t p /\
    endGame p = false /\ downloadEnabled p = false /\ (forall i, bm_Get (ownedPieces p) i = false).
Proof.
  intros Ht. unfold newPieces.
  assert (Hall : exists l, mapM (newPiece (B := B) t) (seqZ 0 (t_numPieces t)) = Some l).
  { apply mapM_is_Some. apply Forall_forall. intros i Hi%elem_of_seqZ.
    unfold compose. destruct (newPiece_entry t i Ht) as (nb & last & -> & _); [lia|]. by eexists. }
  destruct Hall as [l Hl]. rewrite Hl. cbn [mbind option_bind]. eexists. split; [done|].
  apply mapM_Some in Hl. split_and!; [|done|done|intros i; apply bm_Get_empty].
  pose proof (pa_num _ Ht). constructor; cbn [pcs ownedPieces].
  - rewrite <- (Forall2_length _ _ _ Hl), length_seqZ. lia.
  - lia.
  - intros i pc Hi. destruct (Forall2_lookup_r _ _ _ _ _ Hl Hi) as (j & Hj & E).
    apply lookup_seqZ in Hj as [-> Hj]. rewrite Z.add_0_l in E.
    destruct (newPiece_entry t (Z.of_nat i) Ht) as (nb & last & E' & Hok); [lia|].
    rewrite E in E'. injection E' as ->. constructor; try done. symmetry. apply bm_Get_empty.
  - intros i. by rewrite bm_Get_empty.
Qed.

Lemma newPieces_at t (sel : S) p i pc :
  newPieces t sel = Some p -> at_index (pcs p) i = Some pc -> newPiece t i = Some pc.
Proof.
  unfold newPieces. destruct (mapM _ _) as [l|] eqn:El; [|done]. intros [= <-]. cbn [pcs].
  intros [Hpc Hi]%at_index_lookup. apply mapM_Some in El.
  destruct (Forall2_lookup_r _ _ _ _ _ El Hpc) as (j & Hj & Ej). apply lookup_seqZ in Hj as [-> Hj].
  rewrite Z2Nat.id in Ej by lia. by rewrite Z.add_0_l in Ej.
Qed.

Lemma rarity_changes t pc r : piece_ok t pc -> changes t (fun pc => with_rarity pc r) (fun _ s => s) pc.
Proof.
  intros Hok. split; [|done]. split_and!; try done. by apply (piece_ok_intro t pc); [..|apply Hok|apply Hok|apply Hok].
Qed.

Lemma onHave_ok t p i p' : pieces_ok t p -> onHave p i = Some p' -> pieces_ok t p'.
Proof.
  intros Hp E. destruct (update_piece_inv _ _ _ _ E) as (pc & Hi & ->).
  destruct (pieces_entry _ _ _ _ Hp Hi) as (_ & Hok & _).
  eapply with_insert_ok; [done|done|]. by apply (rarity_changes t pc (rarity pc + 1)).
Qed.

(** One operation of a connection or of the torrent. *)
Inductive pstep (t : tparams) : pieces B S -> pieces B S -> Prop :=
| ps_have p i p' : onHave p i = Some p' -> pstep t p p'
| ps_enable p v : pstep t p (setDownloadEnabled p v)
| ps_fill p coin peer limit p' new :
    0 <= limit -> fillRequests t coin peer limit p = Some (p', new) -> pstep t p p'
| ps_discard p reqs p' :
    Forall (block_in t p) reqs -> discardRequests p reqs = Some p' -> pstep t p p'
| ps_block p i off ci pc p' evs :
    at_index (pcs p) i = Some pc -> off ∈ offsets t pc ->
    Pieces.setBlockComplete t p i off ci = Some (p', evs) -> pstep t p p'
| ps_hashed p i ok pc p' cs :
    at_index (pcs p) i = Some pc -> complete pc = true -> verified pc = false ->
    pieceHashed p i ok = Some (p', cs) -> pstep t p p'.

Inductive reachable (t : tparams) : pieces B S -> Prop :=
| reach_init sel p : newPieces t sel = Some p -> reachable t p
| reach_step p p' : reachable t p -> pstep t p p' -> reachable t p'.

Lemma setDownloadEnabled_ok t p v : pieces_ok t p -> pieces_ok t (setDownloadEnabled p v).
Proof. intros [? ? ? ?]. by constructor. Qed.

Lemma fillRequests_ok t coin peer limit p p' new :
  pieces_ok t p -> 0 <= limit -> fillRequests t coin peer limit p = Some (p', new) -> pieces_ok t p'.
Proof.
  intros Hp Hl E. destruct (downloadEnabled p) eqn:Ed.
  - destruct (fillRequests_filled t coin peer limit p Hp Hl Ed) as (order & q & new' & E' & Hf & _).
    rewrite E in E'. simplify_eq. apply Hf.
  - unfold fillRequests in E. rewrite Ed in E. cbn in E. by simplify_eq.
Qed.

Lemma pstep_ok t p p' : pieces_ok t p -> pstep t p p' -> pieces_ok t p'.
Proof.
  intros Hp Hs. destruct Hs as [p i p' E|p v|p coin peer limit p' new Hl E|p reqs p' Hr E|
    p i off ci pc p' evs Hi Ho E|p i ok pc p' cs Hi Hc Hv E].
  - by eapply onHave_ok.
  - by apply setDownloadEnabled_ok.
  - by eapply fillRequests_ok.
  - destruct (discardRequests_spec t p reqs Hp Hr) as (q & E' & Hok & _). congruence.
  - destruct (setBlockComplete_spec t p i off ci pc Hp Hi Ho) as (q & evs' & st & E' & Hok & _). congruence.
  - destruct (pieceHashed_spec t p i ok pc Hp Hi Hc Hv) as (q & E' & Hok & _). congruence.
Qed.

Lemma reachable_ok t p : params_ok t -> reachable t p -> pieces_ok t p.
Proof.
  intros Ht. induction 1 as [sel p E|p p' _ IH Hs].
  - destruct (newPieces_ok t sel Ht) as (q & E' & Hok & _). congruence.
  - by eapply pstep_ok.
Qed.

(** ** Theorems *)

(** C9: Whatever sequence of operations the connections and the torrent make, every
    piece stays well-formed: its blocks are unrequested, pending or complete and
    in no two of these states, the owned pieces are exactly the verified ones, and a
    verified piece has all its blocks. *)
Theorem reachable_invariant t p :
  params_ok t -> reachable t p ->
  lenZ (pcs p) = t_numPieces t /\
  forall i pc, at_index (pcs p) i = Some pc ->
    index pc = i /\ verified pc = bm_Get (ownedPieces p) i /\
    (verified pc = true -> forall o, o ∈ offsets t pc -> blk_state pc o = Complete) /\
    (forall o, bm_Get (unrequestedBlocks pc) o = true -> o ∈ offsets t pc /\ bm_Get (completeBlocks pc) o = false) /\
    (forall o, bm_Get (completeBlocks pc) o = true -> o ∈ offsets t pc).
Proof.
  intros Ht Hr. pose proof (reachable_ok t p Ht Hr) as Hp. split; [apply Hp|]. intros i pc Hi.
  destruct (pieces_entry _ _ _ _ Hp Hi) as (Hix & Hok & Hv & Hc & _).
  split_and!; [done|done|intros E; by apply (complete_spec t pc Hok), Hc| |apply Hok].
  intros o Hu. split; [by apply (po_unreq _ _ Hok)|by apply (po_disj _ _ Hok)].
Qed.

(** C10: fillRequests never panics and returns at most [limit] blocks, no block twice:
    blocks of pieces the peer has, unrequested until now, with their right lengths.
    Outside the end game exactly these blocks become pending; in the end game no
    state changes. If fewer than [limit] come back, the peer has no other
    unrequested block. Nothing is requested while downloading is disabled. *)
Theorem fillRequests_correct t coin peer limit p :
  pieces_ok t p -> 0 <= limit ->
  exists p' new, fillRequests t coin peer limit p = Some (p', new) /\ pieces_ok t p' /\
    lenZ new <= limit /\ NoDup (keys new) /\
    Forall (fun b => bm_Get peer (b_pc b) = true /\ block_in t p b /\
                     state_of p (b_pc b) (b_off b) = Unrequested) new /\
    (forall j o, state_of p' j o =
       if negb (endGame p) && bool_decide ((j, o) ∈ keys new) then Pending else state_of p j o) /\
    (downloadEnabled p = false -> new = []) /\
    (downloadEnabled p = true -> lenZ new < limit -> forall i pc o,
       bm_Get peer i = true -> at_index (pcs p) i = Some pc -> o ∈ offsets t pc ->
       blk_state pc o = Unrequested -> (i, o) ∈ keys new).
Proof.
  intros Hp Hl. destruct (downloadEnabled p) eqn:Ed.
  2:{ exists p, []. unfold fillRequests. rewrite Ed. split_and!; try done; [constructor|].
      intros j o. rewrite bool_decide_false by apply not_elem_of_nil. by rewrite andb_false_r. }
  destruct (fillRequests_filled t coin peer limit p Hp Hl Ed) as (order & p' & new & E & [? ? ? Hc Hn Hb Hs Hm] & Hord).
  exists p', new. split_and!; try done; try lia.
  - rewrite Forall_forall in Hb |- *. intros b Hin. destruct (Hb b Hin) as (Ho & Hbl & Hst).
    split; [|done]. destruct Hbl as (pc & Hi & _). by destruct (proj1 (Hord _ _ Hi) Ho).
  - intros _ Hlt i pc o Hpeer Hi Ho Hst. apply (Hm ltac:(lia) i pc o); try done. apply (Hord i pc Hi).
    split; [|done]. destruct (pieces_entry _ _ _ _ Hp Hi) as (_ & Hok & _).
    eapply bm_Len_pos. apply (Unrequested_Get t pc o Hok). by apply list_elem_of_filter.
Qed.

(** Taking requests back restores the state before they were made: after
    fillRequests and discardRequests of its result, every block is as it was. *)
Theorem fill_discard t coin peer limit p p' new :
  pieces_ok t p -> 0 <= limit -> fillRequests t coin peer limit p = Some (p', new) ->
  exists p'', discardRequests p' new = Some p'' /\ pieces_ok t p'' /\
    forall i pc o, at_index (pcs p) i = Some pc -> o ∈ offsets t pc -> state_of p'' i o = state_of p i o.
Proof.
  intros Hp Hl E. destruct (downloadEnabled p) eqn:Ed.
  2:{ unfold fillRequests in E. rewrite Ed in E. cbn in E. simplify_eq. exists p'. done. }
  destruct (fillRequests_filled t coin peer limit p Hp Hl Ed) as (order & q & new' & E' & [Fok Fsh _ _ _ Fb Fst _] & _).
  rewrite E in E'. injection E' as <- <-.
  assert (Hb : Forall (block_in t p') new).
  { eapply Forall_impl; [exact Fb|]. cbn beta. intros b (_ & Hbl & _). by eapply same_shapes_block_in. }
  destruct (discardRequests_spec t p' new Fok Hb) as (p'' & E'' & Hok & _ & _ & Hst).
  exists p''. split_and!; [done|done|]. intros i pc o Hi Ho.
  destruct (same_shapes_lookup _ _ _ _ Fsh Hi) as (pc' & Hi' & Hs).
  rewrite (Hst i pc' o Hi') by (by rewrite (same_shape_offsets _ _ _ Hs)). rewrite Fst.
  case_bool_decide as Hk; [|by rewrite andb_false_r].
  assert (Hu : state_of p i o = Unrequested).
  { unfold keys in Hk. apply list_elem_of_fmap in Hk as (b & [= -> ->] & Hin).
    rewrite Forall_forall in Fb. by destruct (Fb b Hin) as (_ & _ & ->). }
  rewrite Hu. by destruct (negb (endGame p)).
Qed.

(** C24: A downloaded block becomes complete and no other block loses its state,
    except at the start of the end game: it starts exactly when nothing is left to
    request when the block has come, all blocks not complete of pieces not owned become requestable again,
    and the connections are told. The piece is queued for hashing exactly when it is
    complete; cancels are sent exactly when the end game was on already. *)
Theorem block_received t p i off ci pc :
  pieces_ok t p -> at_index (pcs p) i = Some pc -> off ∈ offsets t pc ->
  exists p' evs start, Pieces.setBlockComplete t p i off ci = Some (p', evs) /\ pieces_ok t p' /\
    endGame p' = endGame p || start /\ (start = true <-> endGame p = false /\ none_left t p i off) /\
    (forall j pcj o, at_index (pcs p) j = Some pcj -> o ∈ offsets t pcj ->
       state_of p' j o =
         let s := if (j =? i) && (o =? off) then Complete else state_of p j o in
         if start && negb (bm_Get (ownedPieces p) j) then reopened s else s) /\
    (QueueForHashing i ∈ evs <-> forall o, o ∈ offsets t pc -> state_of p' i o = Complete) /\
    (RequestsAvailable ∈ evs <-> start = true) /\
    (SendCancels (mkBlock i off (blockLen t pc off)) ∈ evs <-> endGame p = true).
Proof.
  intros Hp Hi Ho.
  destruct (setBlockComplete_spec t p i off ci pc Hp Hi Ho)
    as (p' & evs & start & E & Hok & _ & _ & He & Hs & Hst & Hq & Hr & Hc).
  exists p', evs, start. by split_and!.
Qed.

(** C25: The result of hashing a complete piece: a correct one becomes owned and keeps
    its blocks, an incorrect one has all its blocks to be requested again; the
    contributors are reported and no other piece is touched. *)
Theorem piece_hashed t p i ok pc :
  pieces_ok t p -> at_index (pcs p) i = Some pc -> complete pc = true -> verified pc = false ->
  exists p', pieceHashed p i ok = Some (p', contributors pc) /\ pieces_ok t p' /\
    (forall j, bm_Get (ownedPieces p') j = (ok && (j =? i)) || bm_Get (ownedPieces p) j) /\
    forall j pcj o, at_index (pcs p) j = Some pcj -> o ∈ offsets t pcj ->
      state_of p' j o = if negb ok && (j =? i) then Unrequested else state_of p j o.
Proof.
  intros Hp Hi Hc Hv. destruct (pieceHashed_spec t p i ok pc Hp Hi Hc Hv) as (p' & E & Hok & _ & _ & Ho & Hst).
  exists p'. by split_and!.
Qed.

(** When the piece length divides the length of the content, the last piece has
    no block: it can never be requested, and so never be verified. *)
Theorem last_piece_empty t (sel : S) :
  params_ok t -> 0 < t_numPieces t -> t_length t mod t_PieceLen t = 0 ->
  exists p pc, newPieces t sel = Some p /\ at_index (pcs p) (t_numPieces t - 1) = Some pc /\
    @blocks B pc = 0 /\ offsets t pc = [].
Proof.
  intros Ht Hn Hm. destruct (newPieces_ok t sel Ht) as (p & E & Hp & _).
  destruct (at_index_Some (pcs p) (t_numPieces t - 1)) as [pc Hpc]; [rewrite (pso_len _ _ Hp); lia|].
  exists p, pc. pose proof (newPieces_at t sel p _ pc E Hpc) as Ej.
  pose proof (pa_num _ Ht). pose proof (pa_brs _ Ht). pose proof (pa_bound _ Ht). pose proof (pa_length _ Ht).
  destruct (newPiece_spec (B := B) t (t_numPieces t - 1) 0) as (nb & last & En & Enb & _); [|lia..|].
  { rewrite wrapU_id by (unfold in_u; lia). unfold pieceLen. rewrite Z.eqb_refl.
    destruct (Z.eqb_spec (t_PieceLen t) 0); [lia|]. rewrite Z.rem_mod_nonneg by lia. by rewrite Hm. }
  rewrite Ej in En. injection En as ->. unfold nblocks in Enb. rewrite Z.div_small in Enb by lia. subst nb.
  by split_and!.
Qed.

End pieces_reach.
