(* ===== verification/Storage.v ===== *)
(** * torrent/storage: filestorage.go, piece.go, interface.go

    The content of a torrent as one byte range laid over several files. The file
    system maps names to contents; which names the operating system lets us open for
    writing and which writes fail are part of the environment, as are filepath.Join and SHA-1. Offsets are
    bounded by the length of the content, so the int64 arithmetic does not wrap
    around and is written without it. *)

From S2P Require Import Prelude Metainfo.

(** ** The file system *)

Abbreviation fsys := (gmap bytes bytes).

(** The content of a file after a WriteAt: gaps are filled with zeros. *)
Definition pwrite (content : bytes) (off : nat) (p : bytes) : bytes :=
  take off (content ++ replicate (off - length content) Byte.x00) ++ p ++ drop (off + length p) content.

(** (File).ReadAt: the bytes at an offset, as many as there are. *)
Definition pread (content : bytes) (off : nat) (n : nat) : bytes := take n (drop off content).

Inductive serror :=
| SEOF
| SUnexpectedEOF
| SOpen
| SWrite
| SNegativeOffset
| ErrReadNonVerified
| ErrAlreadyWritten.

(** What the operating system lets us do: whether opening (or creating) a file for writing succeeds,
    and, with the files as they are, after how many bytes a write of data at an offset of a file
    fails; [None] when it writes all of them. *)
Record fileio := mkIO {
  can_open : bytes -> bool;
  write_err : fsys -> bytes -> Z -> bytes -> option nat;
}.

(** Everything succeeds. *)
Definition good_io : fileio := mkIO (fun _ => true) (fun _ _ _ _ => None).

(** Something goes wrong with the files at some time. *)
Definition io_fails (io : fileio) : Prop :=
  (exists name, can_open io name = false) \/ exists fs name off p k, write_err io fs name off p = Some k.

(** (File).WriteAt to a file that has been opened: an error comes after a part of the data. *)
Definition file_WriteAt (io : fileio) (fs : fsys) (name : bytes) (off : Z) (p : bytes) : fsys * bool :=
  let content := default [] (fs !! name) in
  match write_err io fs name off p with
  | None => (<[name := pwrite content (Z.to_nat off) p]> fs, true)
  | Some O => (<[name := content]> fs, false)
  | Some k => (<[name := pwrite content (Z.to_nat off) (take k p)]> fs, false)
  end.

(** ** torrent/storage/piece.go *)

Record spiece := mkSpiece {
  sp_blocks : Z;
  sp_dirty : gset Z;
  sp_verified : bool;
}.

Definition reserveOffset (p : spiece) (off : Z) : spiece * bool :=
  if bool_decide (off ∈ sp_dirty p) || sp_verified p then (p, false)
  else (mkSpiece (sp_blocks p) (sp_dirty p ∪ {[ off ]}) (sp_verified p), true).

Definition readyForVerification (p : spiece) : bool := Z.of_nat (size (sp_dirty p)) =? sp_blocks p.

(** [None] is the panic. *)
Definition markComplete (p : spiece) : option spiece :=
  if sp_verified p then None else Some (mkSpiece (sp_blocks p) ∅ true).

Definition markNotComplete (p : spiece) : spiece := mkSpiece (sp_blocks p) ∅ false.

(** ** torrent/storage/filestorage.go *)

Section storage.
Variable filepath_Join : list bytes -> bytes.
Variable sha1_Sum : bytes -> bytes.
Variable io : fileio.

Record FileStorage := mkStorage {
  st_dir : bytes;
  st_info : InfoDict;
  st_pieces : list spiece;
  st_fs : fsys;
}.

Definition with_pieces (s : FileStorage) (l : list spiece) : FileStorage :=
  mkStorage (st_dir s) (st_info s) l (st_fs s).
Definition with_fs (s : FileStorage) (fs : fsys) : FileStorage :=
  mkStorage (st_dir s) (st_info s) (st_pieces s) fs.

Definition fileInfoName (s : FileStorage) (fi : File) : bytes :=
  filepath_Join ([st_dir s; Name (st_info s)] ++ default [] (f_Path fi)).

Definition dataComplete (s : FileStorage) : bool :=
  forallb (fun fi => match st_fs s !! fileInfoName s fi with
                     | Some content => negb (lenZ content <? f_Len fi)
                     | None => false
                     end) (FilesInfo (st_info s)).

(** The loop of readFileAt: [n] is what is left of the buffer, [acc] what was
    read. Every turn but the last reads something. *)
Fixpoint readFileAt_loop (fuel : nat) (content : bytes) (flen off n : Z) (acc : bytes)
    : bytes * option serror :=
  match fuel with
  | O => (acc, None)
  | Datatypes.S fuel =>
      if (off <? flen) && negb (n =? 0) then
        let d := pread content (Z.to_nat off) (Z.to_nat n) in
        if lenZ d =? 0 then (acc, Some SEOF)
        else readFileAt_loop fuel content flen (off + lenZ d) (n - lenZ d) (acc ++ d)
      else (acc, None)
  end.

(** Up to [n] bytes of a file at an offset below its length. *)
Definition readFileAt (s : FileStorage) (fi : File) (n off : Z) : bytes * option serror :=
  match st_fs s !! fileInfoName s fi with
  | None => ([], Some SEOF)
  | Some content =>
      let n := Z.min n (f_Len fi - off) in
      readFileAt_loop (Datatypes.S (Z.to_nat n)) content (f_Len fi) off n []
  end.

(** for off < flen {...}: the data read, what is left to read, the offset, and the
    result when the loop returns from ReadAt. *)
Fixpoint ReadAt_file (fuel : nat) (s : FileStorage) (fi : File) (n off : Z) (acc : bytes)
    : bytes * Z * Z * option (option serror) :=
  match fuel with
  | O => (acc, n, off, None)
  | Datatypes.S fuel =>
      if off <? f_Len fi then
        let '(d, err1) := readFileAt s fi n off in
        let acc := acc ++ d in
        let n := n - lenZ d in
        let off := off + lenZ d in
        if n =? 0 then (acc, n, off, Some None)
        else if negb (lenZ d =? 0) then ReadAt_file fuel s fi n off acc
        else (acc, n, off, Some (match err1 with Some SEOF => Some SUnexpectedEOF | e => e end))
      else (acc, n, off, None)
  end.

Fixpoint ReadAt_files (s : FileStorage) (files : list File) (n off : Z) (acc : bytes)
    : bytes * option serror :=
  match files with
  | [] => (acc, Some SEOF)
  | fi :: files =>
      let '(acc, n, off, ret) := ReadAt_file (Datatypes.S (Z.to_nat n)) s fi n off acc in
      match ret with
      | Some err => (acc, err)
      | None => ReadAt_files s files n (off - f_Len fi) acc
      end
  end.

(** [ReadAt(b, off)] with a buffer of [n] bytes: the bytes read, and the error. *)
Definition ReadAt (s : FileStorage) (n off : Z) : bytes * option serror :=
  ReadAt_files s (FilesInfo (st_info s)) n off [].

Fixpoint WriteAt_files (s : FileStorage) (files : list File) (p : bytes) (off n : Z)
    : FileStorage * Z * option serror :=
  match files with
  | [] => (s, n, None)
  | fi :: files =>
      let flen := f_Len fi in
      if flen <=? off then WriteAt_files s files p (off - flen) n
      else
        let n1 := Z.min (lenZ p) (flen - off) in
        let name := fileInfoName s fi in
        if negb (can_open io name) then (s, n, Some SOpen)
        else if off <? 0 then (s, n, Some SNegativeOffset)
        else
          let '(fs, ok) := file_WriteAt io (st_fs s) name off (take (Z.to_nat n1) p) in
          let s := with_fs s fs in
          if negb ok then (s, n, Some SWrite)
          else
            let p := drop (Z.to_nat n1) p in
            if bool_decide (p = []) then (s, n + n1, None) else WriteAt_files s files p 0 (n + n1)
  end.

Definition WriteAt (s : FileStorage) (p : bytes) (off : Z) : FileStorage * Z * option serror :=
  WriteAt_files s (FilesInfo (st_info s)) p off 0.

(** [None] is a panic: the index is out of range, or the piece length is zero. *)
Definition pieceIndex (s : FileStorage) (off : Z) : option Z :=
  if PieceLen (st_info s) =? 0 then None else Some (Z.quot off (PieceLen (st_info s))).

Definition pieceOff (s : FileStorage) (i : Z) : Z := i * PieceLen (st_info s).

Definition ReadBlock (s : FileStorage) (n off : Z) : option (bytes * option serror) :=
  i ← pieceIndex s off;
  piece ← at_index (st_pieces s) i;
  if negb (sp_verified piece) then Some ([], Some ErrReadNonVerified) else Some (ReadAt s n off).

Definition WriteBlock (s : FileStorage) (p : bytes) (off : Z) : option (FileStorage * Z * option serror) :=
  i ← pieceIndex s off;
  piece ← at_index (st_pieces s) i;
  let '(piece', ok) := reserveOffset piece off in
  if negb ok then Some (s, 0, Some ErrAlreadyWritten)
  else (l ← set_index (st_pieces s) i piece'; Some (WriteAt (with_pieces s l) p off)).

(** Neither hash is nil: both are the results of functions that allocate. *)
Definition compareHashes (a b : bytes) : bool :=
  if negb (lenZ a =? lenZ b) then false
  else forallb (fun xy => bool_decide (xy.1 = xy.2)) (zip a b).

(** io.Copy from a section of the storage: chunks of at most 32 KiB, until the
    section ends or a read gives nothing. *)
Fixpoint copy_section (fuel : nat) (s : FileStorage) (off n : Z) (acc : bytes) : bytes :=
  match fuel with
  | O => acc
  | Datatypes.S fuel =>
      if n <=? 0 then acc
      else
        let '(d, err) := ReadAt s (Z.min n 32768) off in
        let acc := acc ++ d in
        match err with
        | Some _ => acc
        | None => if lenZ d =? 0 then acc else copy_section fuel s (off + lenZ d) (n - lenZ d) acc
        end
  end.

Definition hashPiece (s : FileStorage) (i len : Z) : option (FileStorage * bool) :=
  let data := copy_section (Z.to_nat len) s (pieceOff s i) len [] in
  correct ← (if lenZ data =? len then
               actualHash ← PieceHash (st_info s) i;
               Some (compareHashes (sha1_Sum data) actualHash)
             else Some false);
  piece ← at_index (st_pieces s) i;
  piece' ← (if correct : bool then markComplete piece else Some (markNotComplete piece));
  l ← set_index (st_pieces s) i piece';
  Some (with_pieces s l, correct).

(** [None]: a panic, or logger.Fatal when the piece is verified already or not all
    of its blocks are written. *)
Definition HashPiece (s : FileStorage) (i len : Z) : option (FileStorage * bool) :=
  piece ← at_index (st_pieces s) i;
  if sp_verified piece then None
  else if negb (readyForVerification piece) then None
  else hashPiece s i len.

(** for i := range s.pieces: stops at the first piece that does not verify. *)
Fixpoint dataVerified_loop (s : FileStorage) (ixs : list Z) : option (FileStorage * bool) :=
  match ixs with
  | [] => Some (s, true)
  | i :: ixs =>
      len ← PieceLength (st_info s) i;
      '(s, correct) ← hashPiece s i len;
      if negb correct then Some (s, false) else dataVerified_loop s ixs
  end.

Definition dataVerified (s : FileStorage) : option (FileStorage * bool) :=
  dataVerified_loop s (seqZ 0 (lenZ (st_pieces s))).

Definition OpenFileStorage (info : InfoDict) (baseDir : bytes) (blocks : list Z) (fs : fsys)
    : option (FileStorage * bool) :=
  pieces ← mapM (fun i => b ← at_index blocks i; Some (mkSpiece b ∅ false)) (seqZ 0 (NumPieces info));
  let s := mkStorage baseDir info pieces fs in
  if dataComplete s then dataVerified s else Some (s, false).

End storage.

(** ** Lemmas *)

Lemma compareHashes_eq a b : compareHashes a b = bool_decide (a = b).
Proof.
  unfold compareHashes. destruct (Z.eqb_spec (lenZ a) (lenZ b)) as [E|E]; cbn [negb].
  2:{ rewrite bool_decide_false; [done|]. by intros ->. }
  assert (length a = length b) as El by lia. clear E. revert b El.
  induction a as [|x a IH]; intros [|y b] El; try done; cbn. rewrite IH by (cbn in El; lia).
  destruct (decide (x = y)) as [->|Hne].
  - rewrite bool_decide_true by done. cbn. apply bool_decide_ext. naive_solver.
  - rewrite bool_decide_false by done. cbn. rewrite bool_decide_false; [done|]. naive_solver.
Qed.

Lemma pwrite_lookup_in content off p i :
  (off <= i < off + length p)%nat -> pwrite content off p !! i = p !! (i - off)%nat.
Proof.
  intros Hi. unfold pwrite.
  assert (Hl : length (take off (content ++ replicate (off - length content) Byte.x00)) = off).
  { rewrite length_take, length_app, length_replicate. lia. }
  rewrite lookup_app_r by lia. rewrite Hl. by rewrite lookup_app_l by lia.
Qed.

Lemma pwrite_lookup_out content off p i b :
  ~ (off <= i < off + length p)%nat -> content !! i = Some b -> pwrite content off p !! i = Some b.
Proof.
  intros Hi Hb. unfold pwrite. pose proof (lookup_lt_Some _ _ _ Hb).
  assert (Hl : length (take off (content ++ replicate (off - length content) Byte.x00)) = off).
  { rewrite length_take, length_app, length_replicate. lia. }
  destruct (decide (i < off)%nat).
  - rewrite lookup_app_l by lia. rewrite lookup_take_lt by lia. by rewrite lookup_app_l by lia.
  - rewrite lookup_app_r by lia. rewrite Hl, lookup_app_r by lia.
    rewrite lookup_drop. rewrite <- Hb. f_equal. lia.
Qed.

Section storage_lemmas.
Variable filepath_Join : list bytes -> bytes.
Variable io : fileio.
Abbreviation fname := (fileInfoName filepath_Join).
Implicit Types (s : FileStorage) (files : list File).

(** The byte of the content at an offset. *)
Fixpoint fbyte s files (g : Z) : option byte :=
  match files with
  | [] => None
  | fi :: files =>
      if g <? f_Len fi then content ← st_fs s !! fname s fi; content !! Z.to_nat g
      else fbyte s files (g - f_Len fi)
  end.

Definition total_len files : Z := foldr (fun fi acc => f_Len fi + acc) 0 files.

Record files_ok s files : Prop := mkFilesOk {
  fo_len : Forall (fun fi => 0 <= f_Len fi) files;
  fo_names : NoDup (fname s <$> files);
  fo_open : Forall (fun fi => can_open io (fname s fi) = true) files;
}.

Lemma files_ok_cons s fi files :
  files_ok s (fi :: files) ->
  0 <= f_Len fi /\ fname s fi ∉ (fname s <$> files) /\ can_open io (fname s fi) = true /\ files_ok s files.
Proof.
  intros [Hl Hn Ho]. inversion Hl; inversion Ho; subst. rewrite fmap_cons in Hn.
  apply NoDup_cons in Hn as [? ?]. by split_and!.
Qed.

(** What a sequence of writes leaves alone. *)
Definition same_meta s s' : Prop :=
  st_dir s' = st_dir s /\ st_info s' = st_info s /\ st_pieces s' = st_pieces s.

Lemma same_meta_fname s s' fi : same_meta s s' -> fname s' fi = fname s fi.
Proof. intros (Hd & Hi & _). unfold fileInfoName. by rewrite Hd, Hi. Qed.

Lemma same_meta_files_ok s s' files : same_meta s s' -> files_ok s files -> files_ok s' files.
Proof.
  intros Hm [Hl Hn Ho]. constructor; [done|..].
  - erewrite list_fmap_ext; [exact Hn|]. intros i fi _. by apply same_meta_fname.
  - eapply Forall_impl; [exact Ho|]. intros fi. by rewrite (same_meta_fname _ _ _ Hm).
Qed.

(** Bytes of files whose contents did not change. *)
Lemma fbyte_frame s s' files g :
  same_meta s s' -> (forall fi, fi ∈ files -> st_fs s' !! fname s fi = st_fs s !! fname s fi) ->
  fbyte s' files g = fbyte s files g.
Proof.
  intros Hm. revert g. induction files as [|fi files IH]; intros g Hf; [done|]. cbn [fbyte].
  rewrite (same_meta_fname _ _ _ Hm), Hf by left. destruct (g <? f_Len fi); [done|].
  apply IH. intros. apply Hf. by right.
Qed.

(** Writing [p] at [off] changes the bytes in the range and keeps the others. *)
Definition writes s s' files (p : bytes) (off : Z) : Prop :=
  same_meta s s' /\
  (forall name, name ∉ (fname s <$> files) -> st_fs s' !! name = st_fs s !! name) /\
  (forall g, off <= g < off + lenZ p -> fbyte s' files g = p !! Z.to_nat (g - off)) /\
  (forall g b, 0 <= g -> ~ (off <= g < off + lenZ p) -> fbyte s files g = Some b -> fbyte s' files g = Some b).

Lemma total_len_nonneg files : Forall (fun fi => 0 <= f_Len fi) files -> 0 <= total_len files.
Proof. unfold total_len. induction 1; cbn [foldr]; lia. Qed.

(** One file: the first [n1] bytes at [off] of it. *)
Lemma writes_here s fi files p off n1 :
  files_ok s (fi :: files) -> 0 <= off < f_Len fi -> 0 <= n1 <= lenZ p -> off + n1 <= f_Len fi ->
  let s1 := with_fs s (<[fname s fi := pwrite (default [] (st_fs s !! fname s fi)) (Z.to_nat off)
                                         (take (Z.to_nat n1) p)]> (st_fs s)) in
  writes s s1 (fi :: files) (take (Z.to_nat n1) p) off.
Proof.
  intros Hok Hoff Hn1 Hfit s1. apply files_ok_cons in Hok as (Hl & Hnew & _ & _).
  assert (Hm : same_meta s s1) by done.
  assert (Hlen : lenZ (take (Z.to_nat n1) p) = n1) by (rewrite length_take; lia).
  assert (Hother : forall g, fbyte s1 files g = fbyte s files g).
  { intros g. apply fbyte_frame; [done|]. intros fi' Hfi'. unfold s1. cbn [st_fs with_fs].
    rewrite lookup_insert_ne; [done|]. intros E. apply Hnew. rewrite E. by apply list_elem_of_fmap_2. }
  unfold writes. rewrite Hlen. split_and!; [done|..].
  - intros name Hname. unfold s1. cbn [st_fs with_fs]. rewrite lookup_insert_ne; [done|].
    intros <-. apply Hname. rewrite fmap_cons. left.
  - intros g Hg. cbn [fbyte]. rewrite (same_meta_fname _ _ _ Hm).
    destruct (Z.ltb_spec g (f_Len fi)); [|lia]. unfold s1. cbn [st_fs with_fs].
    rewrite lookup_insert_eq. cbn [mbind option_bind]. rewrite pwrite_lookup_in by lia. f_equal. lia.
  - intros g b Hg0 Hg Hb. cbn [fbyte] in *. rewrite (same_meta_fname _ _ _ Hm), Hother.
    destruct (Z.ltb_spec g (f_Len fi)); [|done]. unfold s1. cbn [st_fs with_fs].
    rewrite lookup_insert_eq. cbn [mbind option_bind].
    destruct (st_fs s !! fname s fi) as [content|] eqn:E; [|done]. cbn [default mbind option_bind id] in *.
    apply pwrite_lookup_out; [lia|done].
Qed.

(** Two adjacent writes. *)
Lemma writes_app s s1 s2 files p1 p2 off :
  0 <= off -> writes s s1 files p1 off -> writes s1 s2 files p2 (off + lenZ p1) ->
  writes s s2 files (p1 ++ p2) off.
Proof.
  intros Hoff (Hm1 & Hn1 & Hin1 & Hout1) (Hm2 & Hn2 & Hin2 & Hout2).
  assert (En : fname s1 <$> files = fname s <$> files)
    by (apply list_fmap_ext; intros i fi _; by apply same_meta_fname).
  rewrite En in Hn2. unfold writes. rewrite length_app. split_and!.
  - destruct Hm1 as (? & ? & ?), Hm2 as (? & ? & ?). unfold same_meta. split_and!; congruence.
  - intros name Hname. by rewrite Hn2, Hn1.
  - intros g Hg. destruct (Z.lt_ge_cases g (off + lenZ p1)).
    + rewrite lookup_app_l by lia.
      assert (exists b, p1 !! Z.to_nat (g - off) = Some b) as [b Hb] by (apply lookup_lt_is_Some_2; lia).
      rewrite Hb. apply Hout2; [lia|lia|]. by rewrite Hin1 by lia.
    + rewrite lookup_app_r by lia. rewrite Hin2 by lia. f_equal. lia.
  - intros g b Hg0 Hg Hb. apply Hout2; [done|lia|]. apply Hout1; [done|lia|done].
Qed.

(** A write to the files after the first one. *)
Lemma writes_later s s' fi files p off :
  0 <= f_Len fi -> fname s fi ∉ (fname s <$> files) -> 0 <= off ->
  writes s s' files p off -> writes s s' (fi :: files) p (f_Len fi + off).
Proof.
  intros Hl Hnew Hoff (Hm & Hn & Hin & Hout). unfold writes. split_and!.
  - done.
  - intros name Hname. apply Hn. set_solver.
  - intros g Hg. cbn [fbyte]. destruct (Z.ltb_spec g (f_Len fi)); [lia|].
    rewrite Hin by lia. f_equal. lia.
  - intros g b Hg0 Hg Hb. cbn [fbyte] in *. rewrite (same_meta_fname _ _ _ Hm), Hn by done.
    destruct (Z.ltb_spec g (f_Len fi)); [done|]. apply Hout; [lia|lia|done].
Qed.

(** *** Writes that may fail leave the rest alone *)

Definition leaves s s' files (off n : Z) : Prop :=
  same_meta s s' /\
  (forall name, name ∉ (fname s <$> files) -> st_fs s' !! name = st_fs s !! name) /\
  (forall g b, 0 <= g -> ~ (off <= g < off + n) -> fbyte s files g = Some b -> fbyte s' files g = Some b).

Lemma leaves_refl s files off n : leaves s s files off n.
Proof. by split_and!. Qed.

Lemma leaves_trans s s1 s2 files off1 n1 off2 n2 off n :
  off <= off1 -> off1 + n1 <= off + n -> off <= off2 -> off2 + n2 <= off + n ->
  leaves s s1 files off1 n1 -> leaves s1 s2 files off2 n2 -> leaves s s2 files off n.
Proof.
  intros ? ? ? ? (Hm1 & Hn1 & Hout1) (Hm2 & Hn2 & Hout2).
  assert (En : fname s1 <$> files = fname s <$> files)
    by (apply list_fmap_ext; intros i fi _; by apply same_meta_fname). rewrite En in Hn2. split_and!.
  - destruct Hm1 as (? & ? & ?), Hm2 as (? & ? & ?). unfold same_meta. split_and!; congruence.
  - intros name Hname. by rewrite Hn2, Hn1.
  - intros g b Hg0 Hg Hb. apply Hout2; [done|lia|]. apply Hout1; [done|lia|done].
Qed.

Lemma leaves_later s s' fi files off n :
  0 <= f_Len fi -> fname s fi ∉ (fname s <$> files) ->
  leaves s s' files off n -> leaves s s' (fi :: files) (f_Len fi + off) n.
Proof.
  intros Hl Hnew (Hm & Hn & Hout). split_and!; [done|intros name Hname; apply Hn; set_solver|].
  intros g b Hg0 Hg Hb. cbn [fbyte] in *. rewrite (same_meta_fname _ _ _ Hm), Hn by done.
  destruct (Z.ltb_spec g (f_Len fi)); [done|]. apply Hout; [lia|lia|done].
Qed.

Lemma file_WriteAt_err fs name off p fs' : file_WriteAt io fs name off p = (fs', false) -> io_fails io.
Proof. unfold file_WriteAt. destruct (write_err _ _ _ _ _) eqn:E; [|done]. right. by eexists _, _, _, _, _. Qed.

Lemma file_WriteAt_frame fs name off p fs' ok :
  0 <= off -> file_WriteAt io fs name off p = (fs', ok) ->
  (forall name', name' <> name -> fs' !! name' = fs !! name') /\
  forall c j b, fs !! name = Some c -> c !! j = Some b -> ~ (off <= Z.of_nat j < off + lenZ p) -> exists c', fs' !! name = Some c' /\ c' !! j = Some b.
Proof.
  intros Ho. unfold file_WriteAt. destruct (write_err _ _ _ _ _) as [[|k]|]; intros [= <- _].
  all: split; [intros name' Hne; by rewrite lookup_insert_ne|]; intros c j b Hc Hj Hout; rewrite lookup_insert_eq, Hc.
  all: eexists; split; [done|]; cbn [default id]; try done.
  all: apply pwrite_lookup_out; [rewrite ?length_take; lia|done].
Qed.

(** One file: [n1] bytes at [off] of it, or fewer. *)
Lemma leaves_here s fi files p off fs' ok :
  files_ok s (fi :: files) -> 0 <= off -> off + lenZ p <= f_Len fi -> file_WriteAt io (st_fs s) (fname s fi) off p = (fs', ok) ->
  leaves s (with_fs s fs') (fi :: files) off (lenZ p).
Proof.
  intros Hok Hoff Hfit E. apply files_ok_cons in Hok as (Hl & Hnew & _ & _).
  destruct (file_WriteAt_frame _ _ _ _ _ _ Hoff E) as [Hother Hsame]. split_and!; [done|..].
  - intros name Hname. apply Hother. intros ->. apply Hname. rewrite fmap_cons. left.
  - intros g b Hg0 Hg. cbn [fbyte]. change (fname (with_fs s fs') fi) with (fname s fi). destruct (Z.ltb_spec g (f_Len fi)).
    + cbn [st_fs with_fs]. destruct (st_fs s !! fname s fi) as [c|] eqn:Ec; [|done]. cbn [mbind option_bind]. intros Hb.
      destruct (Hsame c (Z.to_nat g) b eq_refl Hb ltac:(lia)) as (c' & -> & Hc'). done.
    + intros <-. apply fbyte_frame; [done|]. intros fi' Hfi'. apply Hother. intros E'. apply Hnew. rewrite <- E'. by apply list_elem_of_fmap_2.
Qed.

Lemma WriteAt_files_frame s files p off n s' n' e :
  files_ok s files -> 0 <= off -> WriteAt_files filepath_Join io s files p off n = (s', n', e) -> leaves s s' files off (lenZ p).
Proof.
  revert s p off n. induction files as [|fi files IH]; intros s p off n Hok Hoff; cbn [WriteAt_files]; [intros [= <- _ _]; apply leaves_refl|].
  pose proof (files_ok_cons _ _ _ Hok) as (Hl & Hnew & _ & Hoks). destruct (Z.leb_spec (f_Len fi) off).
  { intros E. replace off with (f_Len fi + (off - f_Len fi)) by lia. apply leaves_later; [done|done|]. eapply IH; [done|lia|exact E]. }
  destruct (negb _); [intros [= <- _ _]; apply leaves_refl|]. destruct (off <? 0); [intros [= <- _ _]; apply leaves_refl|].
  set (n1 := Z.min (lenZ p) (f_Len fi - off)). destruct (file_WriteAt _ _ _ _ _) as [fs ok] eqn:Ef.
  assert (Hlen : lenZ (take (Z.to_nat n1) p) = n1) by (rewrite length_take; lia).
  pose proof (leaves_here s fi files _ off fs ok Hok Hoff ltac:(rewrite Hlen; lia) Ef) as Hh. rewrite Hlen in Hh.
  assert (Hhere : leaves s (with_fs s fs) (fi :: files) off (lenZ p)).
  { destruct Hh as (? & ? & Hout). split_and!; [done..|]. intros g b ? ?. apply Hout; [done|lia]. }
  destruct (negb ok); [by intros [= <- _ _]|]. case_bool_decide as Hrest; [by intros [= <- _ _]|]. intros E.
  assert (n1 = f_Len fi - off).
  { destruct (Z.le_gt_cases (lenZ p) (f_Len fi - off)); [|lia]. exfalso. apply Hrest, drop_ge. lia. }
  eapply (leaves_trans s (with_fs s fs) s' (fi :: files) off n1 (f_Len fi + 0) (lenZ (drop (Z.to_nat n1) p))); [lia|lia|lia|rewrite length_drop; lia|exact Hh|].
  apply leaves_later; [done|done|]. eapply IH; [by apply (same_meta_files_ok s)|lia|exact E].
Qed.

(** *** Writes that do not fail *)

Definition writes_succeed : Prop := forall fs name off p, write_err io fs name off p = None.

Lemma WriteAt_files_spec s files p off n :
  writes_succeed -> files_ok s files -> p <> [] -> 0 <= off -> off + lenZ p <= total_len files ->
  exists s', WriteAt_files filepath_Join io s files p off n = (s', n + lenZ p, None) /\
    writes s s' files p off.
Proof.
  intros Hio. revert s p off n. induction files as [|fi files IH]; intros s p off n Hok Hp Hoff Hfit.
  { cbn in Hfit. destruct p; [done|cbn in Hfit; lia]. }
  assert (0 < lenZ p) by (destruct p; [done|cbn; lia]).
  pose proof (files_ok_cons _ _ _ Hok) as (Hl & Hnew & Hopen & Hoks). cbn [WriteAt_files total_len foldr] in *.
  fold (total_len files) in Hfit. destruct (Z.leb_spec (f_Len fi) off).
  - destruct (IH s p (off - f_Len fi) n Hoks Hp) as (s' & -> & Hw); [lia|lia|]. exists s'. split; [done|].
    replace off with (f_Len fi + (off - f_Len fi)) by lia. apply writes_later; [done|done|lia|done].
  - rewrite Hopen. cbn [negb]. destruct (Z.ltb_spec off 0); [lia|].
    set (n1 := Z.min (lenZ p) (f_Len fi - off)). unfold file_WriteAt. rewrite Hio. cbn [negb].
    pose proof (writes_here s fi files p off n1 Hok ltac:(lia) ltac:(lia) ltac:(lia)) as Hw1. cbn zeta in Hw1.
    set (s1 := with_fs s _) in *.
    assert (Hlen : lenZ (take (Z.to_nat n1) p) = n1) by (rewrite length_take; lia).
    case_bool_decide as Hrest.
    + exists s1. pose proof (length_drop p (Z.to_nat n1)) as Hd. rewrite Hrest in Hd. cbn in Hd.
      assert (n1 = lenZ p) as E by lia. split; [by rewrite E|]. rewrite take_ge in Hw1 by lia. done.
    + assert (n1 = f_Len fi - off).
      { destruct (Z.le_gt_cases (lenZ p) (f_Len fi - off)); [|lia]. exfalso. apply Hrest, drop_ge. lia. }
      destruct (IH s1 (drop (Z.to_nat n1) p) 0 (n + n1)) as (s' & -> & Hw2).
      { by apply (same_meta_files_ok s). }
      { done. }
      { lia. }
      { rewrite length_drop. lia. }
      exists s'. split; [f_equal; f_equal; rewrite length_drop; lia|].
      rewrite <- (take_drop (Z.to_nat n1) p). apply (writes_app s s1); [lia|done|].
      replace (off + lenZ (take (Z.to_nat n1) p)) with (f_Len fi + 0) by lia.
      apply writes_later; [done|done|lia|done].
Qed.

(** *** Reading *)

Lemma readFileAt_available s fi content n off :
  st_fs s !! fname s fi = Some content -> 0 <= off < f_Len fi -> 0 < n ->
  off + Z.min n (f_Len fi - off) <= lenZ content ->
  readFileAt filepath_Join s fi n off = (pread content (Z.to_nat off) (Z.to_nat (Z.min n (f_Len fi - off))), None) /\
  lenZ (pread content (Z.to_nat off) (Z.to_nat (Z.min n (f_Len fi - off)))) = Z.min n (f_Len fi - off).
Proof.
  intros Hc Hoff Hn Hav. unfold readFileAt. rewrite Hc. set (n1 := Z.min n (f_Len fi - off)) in *.
  assert (Hl : lenZ (pread content (Z.to_nat off) (Z.to_nat n1)) = n1).
  { unfold pread. rewrite length_take, length_drop. lia. }
  split; [|done]. cbn [readFileAt_loop].
  destruct (Z.ltb_spec off (f_Len fi)); [|lia]. destruct (Z.eqb_spec n1 0); [lia|]. cbn [negb andb].
  rewrite Hl. destruct (Z.eqb_spec n1 0); [lia|]. rewrite Z.sub_diag.
  destruct (Z.to_nat n1) eqn:E; [lia|]. cbn [readFileAt_loop]. rewrite andb_false_r. done.
Qed.

Lemma fbyte_bound s fi files g :
  0 <= g < f_Len fi -> is_Some (fbyte s (fi :: files) g) ->
  exists content, st_fs s !! fname s fi = Some content /\ g < lenZ content.
Proof.
  intros Hg [b Hb]. cbn [fbyte] in Hb. destruct (Z.ltb_spec g (f_Len fi)); [|lia].
  destruct (st_fs s !! fname s fi) as [content|]; [|done]. exists content. split; [done|].
  cbn in Hb. apply lookup_lt_Some in Hb. lia.
Qed.

Lemma ReadAt_files_spec s files n off acc :
  Forall (fun fi => 0 <= f_Len fi) files -> 0 <= off -> 0 < n ->
  (forall g, off <= g < off + n -> is_Some (fbyte s files g)) ->
  exists d, ReadAt_files filepath_Join s files n off acc = (acc ++ d, None) /\ lenZ d = n /\
    forall k, (k < length d)%nat -> d !! k = fbyte s files (off + Z.of_nat k).
Proof.
  intros Hl. revert n off acc. induction Hl as [|fi files Hfi _ IH]; intros n off acc Hoff Hn Hav.
  { destruct (Hav off ltac:(lia)) as [? ?]. done. }
  cbn [ReadAt_files]. destruct (Z.lt_ge_cases off (f_Len fi)) as [Hin|Hout].
  2:{ cbn [ReadAt_file]. destruct (Z.ltb_spec off (f_Len fi)); [lia|].
      destruct (IH n (off - f_Len fi) acc) as (d & -> & Hd & Hk); [lia|done|..].
      - intros g Hg. specialize (Hav (g + f_Len fi) ltac:(lia)). cbn [fbyte] in Hav.
        destruct (Z.ltb_spec (g + f_Len fi) (f_Len fi)); [lia|]. by rewrite Z.add_simpl_r in Hav.
      - exists d. split_and!; [done|done|]. intros k Hk'. rewrite Hk by done. cbn [fbyte].
        destruct (Z.ltb_spec (off + Z.of_nat k) (f_Len fi)); [lia|]. f_equal. lia. }
  set (n1 := Z.min n (f_Len fi - off)).
  destruct (fbyte_bound s fi files (off + n1 - 1)) as (content & Hc & Hcl); [lia|apply Hav; lia|].
  destruct (readFileAt_available s fi content n off Hc ltac:(lia) Hn ltac:(lia)) as [Hread Hlen].
  fold n1 in Hread, Hlen. set (d1 := pread content (Z.to_nat off) (Z.to_nat n1)) in *.
  assert (Hd1 : forall k, (k < length d1)%nat -> d1 !! k = fbyte s (fi :: files) (off + Z.of_nat k)).
  { intros k Hk. cbn [fbyte]. destruct (Z.ltb_spec (off + Z.of_nat k) (f_Len fi)); [|lia]. rewrite Hc.
    cbn [mbind option_bind]. unfold d1, pread. rewrite lookup_take_lt by lia. rewrite lookup_drop. f_equal. lia. }
  cbn [ReadAt_file]. destruct (Z.ltb_spec off (f_Len fi)); [|lia]. rewrite Hread, Hlen.
  destruct (Z.eqb_spec (n - n1) 0).
  { exists d1. split_and!; [done|lia|done]. }
  destruct (Z.eqb_spec n1 0); [lia|]. cbn [negb].
  destruct (Z.to_nat n) as [|fuel] eqn:Ef; [lia|]. cbn [ReadAt_file].
  destruct (Z.ltb_spec (off + n1) (f_Len fi)); [lia|].
  destruct (IH (n - n1) (off + n1 - f_Len fi) (acc ++ d1)) as (d2 & -> & Hd2 & Hk2); [lia|lia|..].
  - intros g Hg. specialize (Hav (g + f_Len fi) ltac:(lia)). cbn [fbyte] in Hav.
    destruct (Z.ltb_spec (g + f_Len fi) (f_Len fi)); [lia|]. by rewrite Z.add_simpl_r in Hav.
  - exists (d1 ++ d2). rewrite app_assoc. split_and!; [done|rewrite length_app; lia|].
    intros k Hk. rewrite length_app in Hk. destruct (decide (k < length d1)%nat).
    + rewrite lookup_app_l by done. by apply Hd1.
    + rewrite lookup_app_r by lia. rewrite Hk2 by lia. cbn [fbyte].
      destruct (Z.ltb_spec (off + Z.of_nat k) (f_Len fi)); [lia|]. f_equal. lia.
Qed.

End storage_lemmas.

(** ** Theorems *)

Section storage_theorems.
Variable filepath_Join : list bytes -> bytes.
Variable sha1_Sum : bytes -> bytes.
Variable io : fileio.
Implicit Types s : FileStorage.

Abbreviation content s := (fbyte filepath_Join s (FilesInfo (st_info s))).
Abbreviation content_len s := (total_len (FilesInfo (st_info s))).
Abbreviation storage_ok s := (files_ok filepath_Join io s (FilesInfo (st_info s))).

(** Every byte of a range is there. *)
Definition available s (off n : Z) : Prop := forall g, off <= g < off + n -> is_Some (content s g).

(** The bytes of an available range. *)
Definition region s (off n : Z) : bytes :=
  omap (fun g => content s g) (seqZ off n).

Lemma region_length s off n : 0 <= n -> available s off n -> lenZ (region s off n) = n.
Proof.
  intros Hn Hav. unfold region.
  enough (length (omap (fun g => content s g) (seqZ off n)) = length (seqZ off n)) as ->
    by (rewrite length_seqZ; lia).
  assert (Forall (fun g => is_Some (content s g)) (seqZ off n)) as Hall
    by (apply Forall_forall; intros g Hg%elem_of_seqZ; apply Hav; lia).
  induction Hall as [|g l [b Hb] _ IH]; [done|]. cbn. rewrite Hb. cbn. by rewrite IH.
Qed.

Lemma region_lookup s off n k :
  available s off n -> Z.of_nat k < n -> region s off n !! k = content s (off + Z.of_nat k).
Proof.
  intros Hav Hk. unfold region.
  assert (Hall : Forall (fun g => is_Some (content s g)) (seqZ off n))
    by (apply Forall_forall; intros g Hg%elem_of_seqZ; apply Hav; lia).
  transitivity (seqZ off n !! k ≫= content s).
  - clear -Hall. revert k. induction Hall as [|g l [b Hb] _ IH]; intros k; [done|].
    cbn [omap list_omap]. rewrite Hb. destruct k as [|k]; [done|]. apply IH.
  - rewrite (proj2 (lookup_seqZ off n k (off + Z.of_nat k))) by lia. done.
Qed.

Lemma ReadAt_region s n off :
  Forall (fun fi => 0 <= f_Len fi) (FilesInfo (st_info s)) -> 0 <= off -> 0 < n -> available s off n ->
  ReadAt filepath_Join s n off = (region s off n, None).
Proof.
  intros Hl Hoff Hn Hav. unfold ReadAt.
  destruct (ReadAt_files_spec filepath_Join s _ n off [] Hl Hoff Hn Hav) as (d & -> & Hd & Hk).
  cbn [app]. f_equal. pose proof (region_length s off n ltac:(lia) Hav) as Hr.
  apply (list_eq_same_length _ _ (length d)); [lia|done|]. intros i x y Hi Hx Hy.
  rewrite Hk in Hx by done. rewrite region_lookup in Hy by (done || lia). congruence.
Qed.

(** io.Copy reads the whole of an available section. *)
Lemma copy_section_region s fuel off n acc :
  Forall (fun fi => 0 <= f_Len fi) (FilesInfo (st_info s)) -> 0 <= off -> (Z.to_nat n <= fuel)%nat ->
  available s off n -> copy_section filepath_Join fuel s off n acc = acc ++ region s off n.
Proof.
  intros Hl. revert off n acc. induction fuel as [|fuel IH]; intros off n acc Hoff Hf Hav; cbn [copy_section].
  { unfold region. rewrite seqZ_nil by lia. by rewrite app_nil_r. }
  destruct (Z.leb_spec n 0).
  { unfold region. rewrite seqZ_nil by lia. by rewrite app_nil_r. }
  set (m := Z.min n 32768). assert (Hm : available s off m) by (intros g Hg; apply Hav; lia).
  rewrite ReadAt_region by (done || lia).
  pose proof (region_length s off m ltac:(lia) Hm) as Hr. rewrite Hr.
  destruct (Z.eqb_spec m 0); [lia|]. rewrite IH; [|lia|lia|intros g Hg; apply Hav; lia].
  rewrite <- app_assoc. f_equal. unfold region. rewrite <- omap_app, <- seqZ_app by lia. do 2 f_equal. lia.
Qed.

(** Writing touches the file system only. *)
Lemma WriteAt_files_keeps files q o k s0 :
  let '(s1, _, _) := WriteAt_files filepath_Join io s0 files q o k in
  st_info s1 = st_info s0 /\ st_pieces s1 = st_pieces s0.
Proof.
  revert q o k s0. induction files as [|fi files IH]; intros q o k s0; [done|]. cbn [WriteAt_files].
  destruct (_ <=? o); [apply IH|]. destruct (negb _); [done|]. destruct (o <? 0); [done|].
  destruct (file_WriteAt _ _ _ _ _) as [fs ok]. destruct (negb ok); [done|].
  case_bool_decide; [done|]. apply (IH _ _ _ (with_fs s0 _)).
Qed.

(** C26: What is written is read back, at once and across the boundaries of the
    files: when the system writes what it is given, WriteAt stores all of the data without an
    error, ReadAt of that range returns it, and every range that was readable and does not overlap
    still gives the same bytes. *)
Theorem WriteAt_ReadAt s p off :
  writes_succeed io -> storage_ok s -> p <> [] -> 0 <= off -> off + lenZ p <= content_len s ->
  exists s', WriteAt filepath_Join io s p off = (s', lenZ p, None) /\
    st_pieces s' = st_pieces s /\
    ReadAt filepath_Join s' (lenZ p) off = (p, None) /\
    forall n off', 0 <= off' -> 0 < n -> off' + n <= off \/ off + lenZ p <= off' -> available s off' n ->
      ReadAt filepath_Join s' n off' = ReadAt filepath_Join s n off'.
Proof.
  intros Hio Hok Hp Hoff Hfit. unfold WriteAt.
  destruct (WriteAt_files_spec filepath_Join io s _ p off 0 Hio Hok Hp Hoff Hfit) as (s' & -> & Hm & _ & Hin & Hout).
  assert (0 < lenZ p) by (destruct p; [done|cbn; lia]).
  assert (Ei : st_info s' = st_info s) by apply Hm.
  assert (Hl : Forall (fun fi => 0 <= f_Len fi) (FilesInfo (st_info s))) by apply Hok.
  exists s'. split_and!; [done|apply Hm|..].
  - assert (Hav : available s' off (lenZ p)).
    { intros g Hg. rewrite Ei, Hin by done. apply lookup_lt_is_Some_2. lia. }
    rewrite ReadAt_region by (done || lia || by rewrite Ei). f_equal.
    pose proof (region_length s' off (lenZ p) ltac:(lia) Hav) as Hr.
    apply (list_eq_same_length _ _ (length p)); [done|lia|]. intros i x y Hi Hx Hy.
    rewrite region_lookup in Hx by (done || lia). rewrite Ei, Hin in Hx by lia.
    replace (Z.to_nat (off + Z.of_nat i - off)) with i in Hx by lia. congruence.
  - intros n off' Hoff' Hn Hdis Hav.
    assert (Heq : forall g, off' <= g < off' + n -> content s' g = content s g).
    { intros g Hg. destruct (Hav g Hg) as [b Hb]. rewrite Ei, Hb. apply Hout; [lia|lia|done]. }
    assert (Hav' : available s' off' n) by (intros g Hg; rewrite Heq by done; by apply Hav).
    rewrite !ReadAt_region by (done || lia || by rewrite Ei). f_equal.
    unfold region. assert (Forall (fun g => content s' g = content s g) (seqZ off' n)) as Hall
      by (apply Forall_forall; intros g Hg%elem_of_seqZ; apply Heq; lia).
    clear -Hall. induction Hall as [|g l Hg _ IH]; [done|]. cbn. rewrite Hg. destruct (content s g); [by f_equal|done].
Qed.

(** A block is written once: after a write at an offset, every further write at
    the same offset is refused and changes nothing. *)
Theorem WriteBlock_once s p off s' n err p' :
  WriteBlock filepath_Join io s p off = Some (s', n, err) ->
  WriteBlock filepath_Join io s' p' off = Some (s', 0, Some ErrAlreadyWritten).
Proof.
  unfold WriteBlock. intros E.
  destruct (pieceIndex s off) as [i|] eqn:Ei; [|done]. cbn [mbind option_bind] in E.
  destruct (at_index (st_pieces s) i) as [piece|] eqn:Ep; [|done]. cbn [mbind option_bind] in E.
  unfold reserveOffset in E.
  destruct (bool_decide (off ∈ sp_dirty piece) || sp_verified piece) eqn:Er; cbn [negb] in E.
  { injection E as <- <- <-. rewrite Ei. cbn [mbind option_bind]. rewrite Ep. cbn [mbind option_bind].
    unfold reserveOffset. by rewrite Er. }
  destruct (set_index (st_pieces s) i _) as [l|] eqn:Es; [|done]. cbn [mbind option_bind] in E.
  injection E as E. unfold WriteAt in E.
  pose proof WriteAt_files_keeps as Hkeep.
  specialize (Hkeep (FilesInfo (st_info (with_pieces s l))) p off 0 (with_pieces s l)). rewrite E in Hkeep.
  destruct Hkeep as [Hi Hps]. cbn [st_info with_pieces st_pieces] in *.
  unfold pieceIndex in *. rewrite Hi, Hps, Ei. cbn [mbind option_bind].
  rewrite (at_index_set_index _ _ _ i _ Es), Z.eqb_refl. cbn [mbind option_bind]. unfold reserveOffset.
  cbn [sp_dirty]. rewrite bool_decide_true by (apply elem_of_union_r, elem_of_singleton_2; reflexivity). done.
Qed.

(** Hashing a piece whose bytes are all there: the result is whether their
    SHA-1 is the one of the info dictionary, and it decides whether the piece is
    verified; in both cases its written blocks are forgotten. A verified piece
    makes a correct result panic. *)
Theorem hashPiece_correct s i len h piece :
  storage_ok s -> 0 <= pieceOff s i -> 0 <= len -> available s (pieceOff s i) len ->
  PieceHash (st_info s) i = Some h -> at_index (st_pieces s) i = Some piece ->
  let data := region s (pieceOff s i) len in
  hashPiece filepath_Join sha1_Sum s i len =
  if bool_decide (sha1_Sum data = h) then
    if sp_verified piece then None
    else Some (with_pieces s (<[Z.to_nat i := mkSpiece (sp_blocks piece) ∅ true]> (st_pieces s)), true)
  else Some (with_pieces s (<[Z.to_nat i := mkSpiece (sp_blocks piece) ∅ false]> (st_pieces s)), false).
Proof.
  intros Hok Hoff Hlen Hav Hh Hp data. unfold hashPiece.
  rewrite copy_section_region by (done || lia || apply Hok). cbn [app].
  rewrite region_length by done. rewrite Z.eqb_refl, Hh. cbn [mbind option_bind].
  rewrite compareHashes_eq, Hp. cbn [mbind option_bind]. unfold data.
  pose proof (at_index_bound _ _ _ Hp) as Hb. case_bool_decide.
  - unfold markComplete. destruct (sp_verified piece); [done|]. cbn [mbind option_bind].
    by rewrite set_index_Some by done.
  - cbn [mbind option_bind]. by rewrite set_index_Some by done.
Qed.

(** Only verified pieces are given away: ReadBlock returns bytes only when the
    piece of the offset has been verified. *)
Theorem ReadBlock_verified s n off d err :
  ReadBlock filepath_Join s n off = Some (d, err) -> d <> [] ->
  exists i piece, pieceIndex s off = Some i /\ at_index (st_pieces s) i = Some piece /\ sp_verified piece = true.
Proof.
  unfold ReadBlock. destruct (pieceIndex s off) as [i|]; [|done]. cbn [mbind option_bind].
  destruct (at_index (st_pieces s) i) as [piece|] eqn:E; [|done]. cbn [mbind option_bind].
  destruct (sp_verified piece) eqn:Ev; cbn [negb]; [|by intros [= <- <-] ?]. intros _ _. by exists i, piece.
Qed.

(** A verified piece cannot be written any more. *)
Theorem WriteBlock_verified s p off i piece :
  pieceIndex s off = Some i -> at_index (st_pieces s) i = Some piece -> sp_verified piece = true ->
  WriteBlock filepath_Join io s p off = Some (s, 0, Some ErrAlreadyWritten).
Proof.
  intros Hi Hp Hv. unfold WriteBlock. rewrite Hi. cbn [mbind option_bind]. rewrite Hp. cbn [mbind option_bind].
  unfold reserveOffset. by rewrite Hv, orb_true_r.
Qed.

End storage_theorems.

(** Opening over partly complete data: the pieces before the first bad one stay
    verified in the storage although [seed] is false, so that their blocks, which
    the torrent will download, are refused as already written. *)
Theorem reopen_refuses_blocks :
  let join := @concat byte in
  let sha1 d := take 20 (d ++ replicate 20 Byte.x00) in
  let info := mkInfo None 3 None (bs "f") 2 (Some (sha1 (bs "ab") ++ sha1 (bs "c"))) 0 [] in
  match OpenFileStorage join sha1 info [] [1; 1] {[ bs "f" := bs "abX" ]} with
  | Some (s, seed) => seed = false /\
      exists s', WriteBlock join good_io s (bs "ab") 0 = Some (s', 0, Some ErrAlreadyWritten)
  | None => False
  end.
Proof. vm_compute. split; [reflexivity|]. by eexists. Qed.
