(* ===== verification/StorageSafe.v ===== *)
(** * torrent/storage: what is verified stays what it is

    From an opened storage, through writes of blocks and hashing in any order: a verified piece
    has the hash of the info dictionary, and its bytes are the ones that are given away. *)

From S2P Require Import Prelude Strconv GoValue BenDecode BenEncode Metainfo Piece Storage.

Section storage_safe.
Variable filepath_Join : list bytes -> bytes.
Variable io : fileio.
Variable sha1_Sum : bytes -> bytes.
Implicit Types s : FileStorage.

Abbreviation content s := (fbyte filepath_Join s (FilesInfo (st_info s))).
Abbreviation storage_ok s := (files_ok filepath_Join io s (FilesInfo (st_info s))).
Abbreviation avail := (available filepath_Join).
Abbreviation bytes_of := (region filepath_Join).

(** ** Reads give bytes that are there *)

(** [d] is what is at [off]. *)
Definition at_off s files (off : Z) (d : bytes) : Prop :=
  forall k, (k < length d)%nat -> fbyte filepath_Join s files (off + Z.of_nat k) = d !! k.

Lemma at_off_nil s files off : at_off s files off [].
Proof. intros k Hk. cbn in Hk. lia. Qed.

Lemma at_off_app s files off d d' : at_off s files off d -> at_off s files (off + lenZ d) d' -> at_off s files off (d ++ d').
Proof.
  intros H1 H2 k Hk. rewrite length_app in Hk. destruct (decide (k < length d)%nat) as [Hd|Hd].
  - rewrite lookup_app_l by done. by apply H1.
  - rewrite lookup_app_r by lia. rewrite <- H2 by lia. f_equal. lia.
Qed.

Lemma readFileAt_loop_prefix fuel content flen off n acc :
  0 <= off -> 0 <= n -> exists d e, readFileAt_loop fuel content flen off n acc = (acc ++ d, e) /\ lenZ d <= n /\
    d `prefix_of` drop (Z.to_nat off) content.
Proof.
  revert off n acc. induction fuel as [|fuel IH]; intros off n acc Hoff Hn; cbn [readFileAt_loop].
  { exists [], None. rewrite app_nil_r. split_and!; [done|cbn; lia|apply prefix_nil]. }
  destruct (_ && _); [|exists [], None; rewrite app_nil_r; split_and!; [done|cbn; lia|apply prefix_nil]].
  set (d0 := pread content (Z.to_nat off) (Z.to_nat n)).
  assert (Hl : lenZ d0 <= n) by (unfold d0, pread; rewrite length_take; lia).
  destruct (Z.eqb_spec (lenZ d0) 0); [exists [], (Some SEOF); rewrite app_nil_r; split_and!; [done|cbn; lia|apply prefix_nil]|].
  destruct (IH (off + lenZ d0) (n - lenZ d0) (acc ++ d0)) as (d & e & -> & Hd & [r Hr]); [lia|lia|].
  exists (d0 ++ d), e. rewrite app_assoc, length_app. split_and!; [done|lia|]. exists r.
  replace (Z.to_nat (off + lenZ d0)) with (Z.to_nat off + length d0)%nat in Hr by lia. rewrite <- drop_drop in Hr.
  rewrite <- app_assoc, <- Hr. assert (Hd0 : d0 = take (length d0) (drop (Z.to_nat off) content)).
  { unfold d0, pread. rewrite length_take. destruct (decide (Z.to_nat n <= length (drop (Z.to_nat off) content))%nat).
    - by rewrite Nat.min_l.
    - by rewrite Nat.min_r, !take_ge by lia. }
  rewrite Hd0 at 1. symmetry. apply take_drop.
Qed.

Lemma readFileAt_prefix s fi files n off :
  0 <= off < f_Len fi -> 0 <= n -> exists d e, readFileAt filepath_Join s fi n off = (d, e) /\ lenZ d <= n /\ off + lenZ d <= f_Len fi /\
    at_off s (fi :: files) off d.
Proof.
  intros Hoff Hn. unfold readFileAt. destruct (st_fs s !! fileInfoName filepath_Join s fi) as [c|] eqn:Hc.
  2: { exists [], (Some SEOF). split_and!; [done|cbn; lia|cbn; lia|apply at_off_nil]. }
  destruct (readFileAt_loop_prefix (Datatypes.S (Z.to_nat (Z.min n (f_Len fi - off)))) c (f_Len fi) off (Z.min n (f_Len fi - off)) [])
    as (d & e & -> & Hd & [r Hr]); [lia|lia|]. exists d, e. split_and!; [done|lia|lia|].
  intros k Hk. cbn [fbyte]. destruct (Z.ltb_spec (off + Z.of_nat k) (f_Len fi)); [|lia]. rewrite Hc. cbn.
  rewrite <- (lookup_app_l d r) by done. rewrite <- Hr, lookup_drop. f_equal. lia.
Qed.

Lemma ReadAt_file_prefix fuel s fi files n off acc :
  0 <= off -> 0 <= n -> (Z.to_nat n < fuel)%nat ->
  exists d ret, ReadAt_file filepath_Join fuel s fi n off acc = (acc ++ d, n - lenZ d, off + lenZ d, ret) /\ lenZ d <= n /\
    at_off s (fi :: files) off d /\ (ret = None -> f_Len fi <= off + lenZ d) /\ (f_Len fi <= off -> d = []).
Proof.
  revert n off acc. induction fuel as [|fuel IH]; intros n off acc Hoff Hn Hf; [lia|]. cbn [ReadAt_file].
  destruct (Z.ltb_spec off (f_Len fi)) as [Hlt|Hge].
  2: { exists [], None. rewrite app_nil_r. cbn [length]. split_and!; [by rewrite Z.sub_0_r, Z.add_0_r|lia|apply at_off_nil|lia|done]. }
  destruct (readFileAt_prefix s fi files n off ltac:(lia) Hn) as (d0 & e & -> & Hd0 & Hfit & Hat).
  destruct (Z.eqb_spec (n - lenZ d0) 0).
  { exists d0, (Some None). split_and!; [done|lia|done|done|lia]. }
  destruct (Z.eqb_spec (lenZ d0) 0) as [Hz|Hz]; cbn [negb].
  { eexists d0, (Some _). split_and!; [reflexivity|lia|done|done|lia]. }
  destruct (IH (n - lenZ d0) (off + lenZ d0) (acc ++ d0)) as (d & ret & -> & Hd & Hat' & Hret & _); [lia|lia|lia|].
  exists (d0 ++ d), ret. rewrite app_assoc, length_app. split_and!; [repeat first [lia|f_equal]|lia|by apply at_off_app|intros Hx; specialize (Hret Hx); lia|lia].
Qed.

Lemma ReadAt_files_prefix s files n off acc :
  Forall (fun fi => 0 <= f_Len fi) files -> 0 <= off -> 0 <= n ->
  exists d e, ReadAt_files filepath_Join s files n off acc = (acc ++ d, e) /\ lenZ d <= n /\ at_off s files off d.
Proof.
  intros Hl. revert n off acc. induction Hl as [|fi files Hfi _ IH]; intros n off acc Hoff Hn; cbn [ReadAt_files].
  { exists [], (Some SEOF). rewrite app_nil_r. split_and!; [done|cbn; lia|apply at_off_nil]. }
  destruct (ReadAt_file_prefix (Datatypes.S (Z.to_nat n)) s fi files n off acc Hoff Hn ltac:(lia)) as (d & ret & -> & Hd & Hat & Hret & Hnil).
  destruct ret as [err|]; [by exists d, err|]. specialize (Hret eq_refl).
  destruct (IH (n - lenZ d) (off + lenZ d - f_Len fi) (acc ++ d)) as (d' & e & -> & Hd' & Hat'); [lia|lia|].
  exists (d ++ d'), e. rewrite app_assoc, length_app. split_and!; [done|lia|]. apply at_off_app; [done|].
  intros k Hk. cbn [fbyte]. destruct (Z.ltb_spec (off + lenZ d + Z.of_nat k) (f_Len fi)); [lia|]. rewrite <- Hat' by done. f_equal. lia.
Qed.

(** io.Copy of a section gives a prefix of it. *)
Lemma copy_section_prefix s fuel off n acc :
  Forall (fun fi => 0 <= f_Len fi) (FilesInfo (st_info s)) -> 0 <= off -> 0 <= n ->
  exists d, copy_section filepath_Join fuel s off n acc = acc ++ d /\ lenZ d <= n /\ at_off s (FilesInfo (st_info s)) off d.
Proof.
  intros Hl. revert off n acc. induction fuel as [|fuel IH]; intros off n acc Hoff Hn; cbn [copy_section].
  { exists []. rewrite app_nil_r. split_and!; [done|cbn; lia|apply at_off_nil]. }
  destruct (Z.leb_spec n 0); [exists []; rewrite app_nil_r; split_and!; [done|cbn; lia|apply at_off_nil]|].
  destruct (ReadAt_files_prefix s _ (Z.min n 32768) off [] Hl Hoff ltac:(lia)) as (d & e & E & Hd & Hat). unfold ReadAt. rewrite E. cbn [app].
  destruct e; [exists d; split_and!; [done|lia|done]|]. destruct (_ =? 0); [exists d; split_and!; [done|lia|done]|].
  destruct (IH (off + lenZ d) (n - lenZ d) (acc ++ d)) as (d' & -> & Hd' & Hat'); [lia|lia|]. exists (d ++ d').
  rewrite app_assoc, length_app. split_and!; [done|lia|by apply at_off_app].
Qed.

(** Bytes that were read in full are the region. *)
Lemma at_off_region s off n d : at_off s (FilesInfo (st_info s)) off d -> lenZ d = n -> avail s off n /\ bytes_of s off n = d.
Proof.
  intros Hat Hn. assert (Hav : avail s off n).
  { intros g Hg. specialize (Hat (Z.to_nat (g - off)) ltac:(lia)). replace (off + Z.of_nat (Z.to_nat (g - off))) with g in Hat by lia.
    rewrite Hat. apply lookup_lt_is_Some_2. lia. }
  split; [done|]. pose proof (region_length filepath_Join s off n ltac:(lia) Hav).
  apply (list_eq_same_length _ _ (length d)); [lia|lia|]. intros i x y Hi Hx Hy.
  rewrite region_lookup in Hx by (done || lia). rewrite Hat in Hx by done. congruence.
Qed.

(** ** Verified pieces *)

(** The pieces of the info dictionary lie one after the other in the content. *)
Record sized (info : InfoDict) : Prop := mkSized {
  sz_len : 0 < PieceLen info;
  sz_piece i len : 0 <= i -> PieceLength info i = Some len -> i < NumPieces info ->
    0 <= len <= PieceLen info /\ i * PieceLen info + len <= total_len (FilesInfo info);
}.

Lemma pieces_match_sized info : pieces_match info -> total_len (FilesInfo info) = TotalLength info -> sized info.
Proof using.
  intros [Hl Ht Hn] Htot. constructor; [done|]. intros i len Hi E Hb. rewrite Htot. revert E. unfold PieceLength.
  set (t := TotalLength info) in *. set (q := PieceLen info) in *. set (n := NumPieces info) in *.
  assert (H1 : n * q <= t + q - 1) by (rewrite Hn, Z.mul_comm; apply Z.mul_div_le; lia).
  destruct (Z.eqb_spec i (n - 1)) as [->|Hne].
  - destruct (Z.eqb_spec q 0); [done|]. intros [= <-]. rewrite Z.rem_mod_nonneg by lia.
    pose proof (Z.mod_pos_bound t q ltac:(lia)). pose proof (Z.div_mod t q ltac:(lia)). split; [lia|].
    assert (n - 1 <= t / q) by (apply Z.div_le_lower_bound; lia). nia.
  - intros [= <-]. split; [lia|]. nia.
Qed.

(** The bytes of a piece are there and have its hash. *)
Definition good_piece s (i : Z) : Prop :=
  exists len, PieceLength (st_info s) i = Some len /\ 0 <= len /\ avail s (pieceOff s i) len /\
    PieceHash (st_info s) i = Some (sha1_Sum (bytes_of s (pieceOff s i) len)).

Definition intact s : Prop :=
  forall i piece, at_index (st_pieces s) i = Some piece -> sp_verified piece = true -> good_piece s i.

(** Hashing marks a piece only if it is good. *)
Lemma hashPiece_good s i len s' ok :
  storage_ok s -> 0 <= pieceOff s i -> 0 <= len -> PieceLength (st_info s) i = Some len ->
  hashPiece filepath_Join sha1_Sum s i len = Some (s', ok) ->
  exists blocks, at_index (st_pieces s) i = Some blocks /\
    s' = with_pieces s (<[Z.to_nat i := mkSpiece (sp_blocks blocks) ∅ ok]> (st_pieces s)) /\ (ok = true -> good_piece s i).
Proof using io.
  intros Hok Hoff Hlen Hpl. unfold hashPiece.
  destruct (copy_section_prefix s (Z.to_nat len) (pieceOff s i) len [] ltac:(apply Hok) Hoff Hlen) as (d & -> & Hd & Hat). cbn [app].
  assert (Hdone : forall correct : bool, (correct = true -> good_piece s i) ->
    (piece ← at_index (st_pieces s) i; piece' ← (if correct then markComplete piece else Some (markNotComplete piece));
     l ← set_index (st_pieces s) i piece'; Some (with_pieces s l, correct)) = Some (s', ok) ->
    exists blocks, at_index (st_pieces s) i = Some blocks /\
      s' = with_pieces s (<[Z.to_nat i := mkSpiece (sp_blocks blocks) ∅ ok]> (st_pieces s)) /\ (ok = true -> good_piece s i)).
  { intros correct Hc E. destruct (at_index (st_pieces s) i) as [piece|] eqn:Hp; [|done]. cbn [mbind option_bind] in E.
    exists piece. split; [done|]. pose proof (at_index_bound _ _ _ Hp) as Hb. destruct correct.
    - unfold markComplete in E. destruct (sp_verified piece); [done|]. cbn [mbind option_bind] in E.
      rewrite set_index_Some in E by done. injection E as <- <-. by split.
    - cbn [mbind option_bind] in E. rewrite set_index_Some in E by done. injection E as <- <-. by split. }
  destruct (Z.eqb_spec (lenZ d) len) as [Hl|Hl]; cbn [mbind option_bind].
  - destruct (PieceHash (st_info s) i) as [h|] eqn:Hh; [|done]. cbn [mbind option_bind]. rewrite compareHashes_eq. apply Hdone.
    intros He%bool_decide_eq_true. destruct (at_off_region s _ _ _ Hat Hl) as [Hav Hr]. exists len. rewrite Hr, Hh, He. by split_and!.
  - by apply (Hdone false).
Qed.

(** The content changes outside of the verified pieces. *)
Lemma good_piece_frame s s' i :
  st_info s' = st_info s -> (forall len g b, PieceLength (st_info s) i = Some len -> pieceOff s i <= g < pieceOff s i + len ->
    content s g = Some b -> content s' g = Some b) -> good_piece s i -> good_piece s' i.
Proof using.
  intros Hi Hc (len & Hl & Hn & Hav & Hh). assert (Ho : pieceOff s' i = pieceOff s i) by (unfold pieceOff; by rewrite Hi).
  assert (Hat : at_off s' (FilesInfo (st_info s')) (pieceOff s i) (bytes_of s (pieceOff s i) len)).
  { intros k Hk. pose proof (region_length filepath_Join s _ _ Hn Hav). rewrite region_lookup by (done || lia).
    destruct (Hav (pieceOff s i + Z.of_nat k)) as [b Hb]; [lia|]. rewrite Hb. apply (Hc len); [done|lia|done]. }
  destruct (at_off_region s' _ len _ Hat) as [Hav' Hr]; [by apply region_length|]. exists len. rewrite Ho, Hi, Hr. by split_and!.
Qed.

Lemma fbyte_pieces s l files g : fbyte filepath_Join (with_pieces s l) files g = fbyte filepath_Join s files g.
Proof using. revert g. induction files as [|fi files IH]; intros g; [done|]. cbn [fbyte]. by rewrite IH. Qed.

Lemma files_ok_pieces s l files : files_ok filepath_Join io s files -> files_ok filepath_Join io (with_pieces s l) files.
Proof using. by intros [? ? ?]. Qed.

Lemma good_piece_pieces s l i : good_piece s i -> good_piece (with_pieces s l) i.
Proof using. apply good_piece_frame; [done|]. intros len g b _ _. by rewrite fbyte_pieces. Qed.

(** Only the bookkeeping changes, for one piece. *)
Lemma intact_mark s i piece :
  intact s -> is_Some (at_index (st_pieces s) i) -> (sp_verified piece = true -> good_piece s i) ->
  intact (with_pieces s (<[Z.to_nat i := piece]> (st_pieces s))).
Proof using.
  intros Hi [old Hp] Hg j pc. pose proof (at_index_bound _ _ _ Hp) as Hb. cbn [st_pieces with_pieces].
  rewrite (at_index_set_index (st_pieces s) _ i j piece (set_index_Some _ _ _ Hb)).
  destruct (Z.eqb_spec j i) as [->|Hne]; [intros [= <-] Hv; by apply good_piece_pieces, Hg|].
  intros Hj Hv. by eapply good_piece_pieces, Hi.
Qed.

(** The data of a piece and whether there is an error (torrent/piece.go); a buffer that is not
    filled keeps its zeros. *)
Definition Data s (index len : Z) : option (bytes * bool) :=
  '(d, err) ← ReadBlock filepath_Join s len (int64 (index * PieceLen (st_info s) + 0));
  Some (d ++ replicate (Z.to_nat len - length d) Byte.x00, bool_decide (is_Some err)).

(** ** The storage in use *)

(** A connection writes a block of a piece; the hasher hashes one. *)
Inductive st_step s : FileStorage -> Prop :=
| ss_write p i o len s' n err :
    0 <= i < NumPieces (st_info s) -> PieceLength (st_info s) i = Some len -> p <> [] -> 0 <= o -> o + lenZ p <= len ->
    WriteBlock filepath_Join io s p (pieceOff s i + o) = Some (s', n, err) -> st_step s s'
| ss_hash i len s' ok :
    0 <= i < NumPieces (st_info s) -> PieceLength (st_info s) i = Some len ->
    HashPiece filepath_Join sha1_Sum s i len = Some (s', ok) -> st_step s s'.

Definition st_inv s : Prop := sized (st_info s) /\ storage_ok s /\ intact s.

Lemma quot_piece s i o len : sized (st_info s) -> 0 <= i -> 0 <= o < len -> len <= PieceLen (st_info s) ->
  pieceIndex s (pieceOff s i + o) = Some i.
Proof using.
  intros [Hl _] Hi Ho Hlen. unfold pieceIndex, pieceOff. destruct (Z.eqb_spec (PieceLen (st_info s)) 0); [lia|]. f_equal.
  rewrite Z.quot_div_nonneg by nia. symmetry. apply (Z.div_unique _ _ _ o); lia.
Qed.

Lemma PieceLength_le info i len : 0 < PieceLen info -> PieceLength info i = Some len -> len <= PieceLen info.
Proof using.
  intros Hp. unfold PieceLength. case_match; [|by intros [= <-]]. case_match; [done|]. intros [= <-].
  pose proof (Z.rem_bound_abs (TotalLength info) (PieceLen info) ltac:(lia)). lia.
Qed.

Lemma write_inv s p i o len s' n err :
  st_inv s -> 0 <= i < NumPieces (st_info s) -> PieceLength (st_info s) i = Some len -> p <> [] -> 0 <= o -> o + lenZ p <= len ->
  WriteBlock filepath_Join io s p (pieceOff s i + o) = Some (s', n, err) -> st_inv s'.
Proof using.
  intros (Hs & Hok & Hint) Hi Hl Hp Ho Hfit. assert (0 < lenZ p) by (destruct p; [done|cbn; lia]).
  destruct (sz_piece _ Hs i len ltac:(lia) Hl ltac:(lia)) as [Hlen Htot]. pose proof (sz_len _ Hs) as Hpl. unfold WriteBlock.
  rewrite (quot_piece s i o len) by (done || lia). cbn [mbind option_bind].
  destruct (at_index (st_pieces s) i) as [piece|] eqn:Hpc; [|done]. cbn [mbind option_bind]. unfold reserveOffset.
  destruct (bool_decide _ || sp_verified piece) eqn:Hr; cbn [negb]; [by intros [= <- _ _]|].
  apply orb_false_iff in Hr as [_ Hv]. rewrite set_index_Some by by eapply at_index_bound. cbn [mbind option_bind]. intros [= E].
  set (s1 := with_pieces s _) in E.
  assert (Hi1 : intact s1) by (apply intact_mark; [done|by eexists|cbn; congruence]).
  unfold WriteAt in E. change (st_info s1) with (st_info s) in E.
  apply WriteAt_files_frame in E as (Hm & _ & Hout); [|by apply files_ok_pieces|unfold pieceOff; nia].
  destruct Hm as (Hd & Hinfo & Hps). change (st_info s1) with (st_info s) in Hinfo.
  split_and!; [by rewrite Hinfo|rewrite Hinfo; apply (same_meta_files_ok filepath_Join io s1); [done|by apply files_ok_pieces]|].
  intros j pc Hj Hvj. rewrite Hps in Hj. apply (good_piece_frame s1); [done| |by apply (Hi1 j pc)].
  intros lenj g b Hlj Hg Hb. change (st_info s1) with (st_info s) in *. change (pieceOff s1 j) with (pieceOff s j) in Hg.
  rewrite Hinfo. destruct (decide (j = i)) as [->|Hne].
  { exfalso. pose proof (at_index_bound _ _ _ Hpc). cbn [s1 st_pieces with_pieces] in Hj.
    rewrite (at_index_set_index (st_pieces s) _ i i _ (set_index_Some _ _ _ ltac:(done))), Z.eqb_refl in Hj. injection Hj as <-. cbn in Hvj. congruence. }
  pose proof (at_index_bound _ _ _ Hj) as Hjb. pose proof (PieceLength_le _ j lenj Hpl Hlj) as Hlj'.
  unfold pieceOff in *. change (st_info s1) with (st_info s) in Hb. apply Hout; [nia| |done]. assert (j + 1 <= i \/ i + 1 <= j) as [?|?] by lia; nia.
Qed.

Lemma hash_inv s i len s' ok :
  st_inv s -> 0 <= i < NumPieces (st_info s) -> PieceLength (st_info s) i = Some len ->
  hashPiece filepath_Join sha1_Sum s i len = Some (s', ok) -> st_inv s' /\ st_info s' = st_info s.
Proof using.
  intros (Hs & Hok & Hint) Hi Hl E. destruct (sz_piece _ Hs i len ltac:(lia) Hl ltac:(lia)) as [Hlen _]. pose proof (sz_len _ Hs).
  destruct (hashPiece_good s i len s' ok Hok ltac:(unfold pieceOff; nia) ltac:(lia) Hl E) as (piece & Hp & -> & Hg).
  split; [|done]. split_and!; [done|by apply files_ok_pieces|]. by apply intact_mark; [|eexists|].
Qed.

Lemma st_step_inv s s' : st_inv s -> st_step s s' -> st_inv s'.
Proof using.
  intros Hi [p i o len s1 n err Hb Hl Hp Ho Hfit E|i len s1 ok Hb Hl E]; [by eapply write_inv|].
  unfold HashPiece in E. destruct (at_index (st_pieces s) i); [|done]. cbn [mbind option_bind] in E.
  destruct (sp_verified _); [done|]. destruct (negb _); [done|]. by eapply hash_inv.
Qed.

Lemma dataVerified_inv s ixs s' ok :
  st_inv s -> Forall (fun i => 0 <= i < NumPieces (st_info s)) ixs -> dataVerified_loop filepath_Join sha1_Sum s ixs = Some (s', ok) -> st_inv s'.
Proof using.
  intros Hi Hall. revert s Hi Hall. induction ixs as [|i ixs IH]; intros s Hi Hall; cbn [dataVerified_loop]; [by intros [= <- _]|].
  apply Forall_cons in Hall as [Hb Hall]. destruct (PieceLength (st_info s) i) as [len|] eqn:Hl; [|done]. cbn [mbind option_bind].
  destruct (hashPiece _ _ s i len) as [[s1 correct]|] eqn:E; [|done]. cbn [mbind option_bind].
  destruct (hash_inv s i len s1 correct Hi Hb Hl E) as [Hi1 Hinfo]. destruct correct; cbn [negb]; [|by intros [= <- _]].
  apply IH; [done|]. by rewrite Hinfo.
Qed.

Lemma opened_inv info dir blocks fs s seed :
  sized info -> files_ok filepath_Join io (mkStorage dir info [] fs) (FilesInfo info) ->
  OpenFileStorage filepath_Join sha1_Sum info dir blocks fs = Some (s, seed) -> st_inv s.
Proof using.
  intros Hs Hok. unfold OpenFileStorage. destruct (mapM _ _) as [pieces|] eqn:Hm; [|done]. cbn [mbind option_bind].
  assert (Hnew : st_inv (mkStorage dir info pieces fs)).
  { split_and!; [done|exact (files_ok_pieces _ pieces _ Hok)|]. intros i piece Hp Hv. cbn [st_pieces] in Hp. exfalso. apply mapM_Some_1 in Hm.
    assert (Hx : exists j, at_index blocks j = Some (sp_blocks piece) /\ sp_verified piece = false); [|destruct Hx as (_ & _ & ?); congruence].
    pose proof (at_index_bound _ _ _ Hp). unfold at_index in Hp. case_match; [|done].
    destruct (Forall2_lookup_r _ _ _ _ _ Hm Hp) as (j & _ & Hj). destruct (at_index blocks j) eqn:Hb; [|done]. cbn in Hj. injection Hj as <-. by exists j. }
  destruct (dataComplete _ _); [|by intros [= <- _]]. unfold dataVerified. intros E. eapply dataVerified_inv; [exact Hnew| |exact E].
  apply Forall_forall. intros i Hi%elem_of_seqZ. cbn [st_info st_pieces] in *. apply mapM_Some_1, Forall2_length in Hm. rewrite length_seqZ in Hm.
  unfold NumPieces in *. cbn in *. lia.
Qed.

(** ** Verified pieces stay verified *)

Definition verified_at s i : Prop := exists piece, at_index (st_pieces s) i = Some piece /\ sp_verified piece = true.

Lemma verified_set s i j piece :
  is_Some (at_index (st_pieces s) i) -> (sp_verified piece = true \/ i <> j) -> verified_at s j ->
  verified_at (with_pieces s (<[Z.to_nat i := piece]> (st_pieces s))) j.
Proof using.
  intros [old Hi] Hp (pc & Hj & Hv). pose proof (at_index_bound _ _ _ Hi). unfold verified_at. cbn [st_pieces with_pieces].
  rewrite (at_index_set_index (st_pieces s) _ i j piece (set_index_Some _ _ _ ltac:(done))).
  destruct (Z.eqb_spec j i) as [->|Hne]; [|by exists pc]. exists piece. split; [done|]. by destruct Hp.
Qed.

Lemma WriteBlock_monotone s p off s' n err :
  WriteBlock filepath_Join io s p off = Some (s', n, err) ->
  st_info s' = st_info s /\ forall j, verified_at s j -> verified_at s' j.
Proof using.
  unfold WriteBlock. destruct (pieceIndex s off) as [i|]; [|done]. cbn [mbind option_bind].
  destruct (at_index (st_pieces s) i) as [piece|] eqn:Hp; [|done]. cbn [mbind option_bind]. unfold reserveOffset.
  destruct (bool_decide _ || sp_verified piece) eqn:Hr; cbn [negb]; [by intros [= <- _ _]|]. apply orb_false_iff in Hr as [_ Hv].
  rewrite set_index_Some by by eapply at_index_bound. cbn [mbind option_bind]. intros [= E]. unfold WriteAt in E.
  pose proof (WriteAt_files_keeps filepath_Join io) as Hk.
  match type of E with WriteAt_files _ _ ?s1 ?l ?q ?o ?k = _ => specialize (Hk l q o k s1); rewrite E in Hk end.
  destruct Hk as [Hi Hps]. split; [done|]. intros j Hj. unfold verified_at. rewrite Hps.
  apply verified_set; [by eexists| |done]. right. intros ->. destruct Hj as (pc & Hj & ?). congruence.
Qed.

(** What hashing does to the bookkeeping. *)
Lemma hashPiece_marks s i len s' ok :
  hashPiece filepath_Join sha1_Sum s i len = Some (s', ok) ->
  exists b, is_Some (at_index (st_pieces s) i) /\ s' = with_pieces s (<[Z.to_nat i := mkSpiece b ∅ ok]> (st_pieces s)).
Proof using.
  unfold hashPiece. match goal with |- (?x ≫= _) = _ -> _ => destruct x as [correct|]; [|done] end. cbn [mbind option_bind].
  destruct (at_index (st_pieces s) i) as [piece|] eqn:Hp; [|done]. cbn [mbind option_bind]. intros E. exists (sp_blocks piece). split; [by eexists|].
  destruct correct; unfold markComplete in E; [destruct (sp_verified piece); [done|]|];
    cbn [mbind option_bind] in E; rewrite set_index_Some in E by (by eapply at_index_bound); by injection E as <- <-.
Qed.

Lemma hashPiece_verified s i len s' :
  hashPiece filepath_Join sha1_Sum s i len = Some (s', true) ->
  st_info s' = st_info s /\ verified_at s' i /\ forall j, verified_at s j -> verified_at s' j.
Proof using.
  intros (b & Hp & ->)%hashPiece_marks. split_and!; [done| |intros j Hj; apply verified_set; auto].
  destruct Hp as [old Hp]. pose proof (at_index_bound _ _ _ Hp). exists (mkSpiece b ∅ true). split; [|done]. cbn [st_pieces with_pieces].
  by rewrite (at_index_set_index (st_pieces s) _ i i _ (set_index_Some _ _ _ ltac:(done))), Z.eqb_refl.
Qed.

Lemma HashPiece_monotone s i len s' ok :
  HashPiece filepath_Join sha1_Sum s i len = Some (s', ok) ->
  st_info s' = st_info s /\ (forall j, verified_at s j -> verified_at s' j) /\ (ok = true -> verified_at s' i).
Proof using.
  unfold HashPiece. destruct (at_index (st_pieces s) i) as [piece|] eqn:Hp; [|done]. cbn [mbind option_bind].
  destruct (sp_verified piece) eqn:Hv; [done|]. destruct (negb _); [done|]. intros E.
  destruct ok; [destruct (hashPiece_verified _ _ _ _ E) as (? & ? & ?); by split_and!|].
  apply hashPiece_marks in E as (b & Hs & ->). split_and!; [done| |done]. intros j Hj. apply verified_set; [done| |done].
  right. intros ->. destruct Hj as (pc & Hj & ?). congruence.
Qed.

(** Opening over complete data verifies every piece. *)
Lemma dataVerified_all s ixs s' ok :
  dataVerified_loop filepath_Join sha1_Sum s ixs = Some (s', ok) ->
  st_info s' = st_info s /\ (ok = true -> (forall j, verified_at s j -> verified_at s' j) /\ forall i, i ∈ ixs -> verified_at s' i).
Proof using.
  revert s. induction ixs as [|i ixs IH]; intros s; cbn [dataVerified_loop].
  { intros [= <- <-]. split; [done|]. intros _. split; [done|]. by intros i ?%elem_of_nil. }
  destruct (PieceLength (st_info s) i) as [len|]; [|done]. cbn [mbind option_bind].
  destruct (hashPiece _ _ s i len) as [[s1 correct]|] eqn:E; [|done]. cbn [mbind option_bind]. destruct correct; cbn [negb].
  - destruct (hashPiece_verified _ _ _ _ E) as (Hi & Hv & Hk). intros E1. destruct (IH s1 E1) as (Hi1 & Hok). split; [by rewrite Hi1|].
    intros Ho. destruct (Hok Ho) as [Hk1 Hv1]. split; [by auto|]. intros j [->|Hj]%elem_of_cons; auto.
  - intros [= <- <-]. apply hashPiece_marks in E as (b & _ & ->). by split.
Qed.

Lemma opened_verified info dir blocks fs s seed :
  OpenFileStorage filepath_Join sha1_Sum info dir blocks fs = Some (s, seed) ->
  st_info s = info /\ (seed = true -> forall i, 0 <= i < NumPieces info -> verified_at s i).
Proof using.
  unfold OpenFileStorage. destruct (mapM _ _) as [pieces|] eqn:Hm; [|done]. cbn [mbind option_bind].
  apply mapM_Some_1, Forall2_length in Hm. rewrite length_seqZ in Hm.
  destruct (dataComplete _ _); [|by intros [= <- <-]]. unfold dataVerified. cbn [st_pieces]. intros E.
  apply dataVerified_all in E as (Hi & Hv). split; [done|]. intros Hs i Hb. apply (Hv Hs), elem_of_seqZ. lia.
Qed.

Lemma ReadBlock_length s n off d err :
  storage_ok s -> 0 <= off -> 0 <= n -> ReadBlock filepath_Join s n off = Some (d, err) -> lenZ d <= n.
Proof using.
  intros Hok Ho Hn. unfold ReadBlock. destruct (pieceIndex s off); [|done]. cbn [mbind option_bind].
  destruct (at_index _ _) as [piece|]; [|done]. cbn [mbind option_bind]. destruct (negb _); [intros [= <- _]; cbn; lia|]. unfold ReadAt.
  destruct (ReadAt_files_prefix s (FilesInfo (st_info s)) n off [] ltac:(apply Hok) Ho Hn) as (d' & e & -> & Hd & _).
  intros [= <- _]. exact Hd.
Qed.

(** Reading a good piece that is verified. *)
Lemma ReadBlock_good s i piece len o n :
  st_inv s -> at_index (st_pieces s) i = Some piece -> sp_verified piece = true -> PieceLength (st_info s) i = Some len ->
  avail s (pieceOff s i) len -> 0 <= o -> 0 < n -> o + n <= len ->
  ReadBlock filepath_Join s n (pieceOff s i + o) = Some (take (Z.to_nat n) (drop (Z.to_nat o) (bytes_of s (pieceOff s i) len)), None).
Proof using.
  intros (Hs & Hok & _) Hp Hv Hl Hav Ho Hn Hfit. pose proof (at_index_bound _ _ _ Hp) as Hb. pose proof (sz_len _ Hs).
  pose proof (region_length filepath_Join s _ len ltac:(lia) Hav) as Hlr.
  unfold ReadBlock. rewrite (quot_piece s i o len) by (done || lia || by eapply PieceLength_le). cbn [mbind option_bind].
  rewrite Hp. cbn [mbind option_bind]. rewrite Hv. cbn [negb].
  f_equal. assert (Hsub : avail s (pieceOff s i + o) n) by (intros g Hg; apply Hav; lia).
  rewrite ReadAt_region by (done || (unfold pieceOff; nia) || apply Hok). f_equal.
  pose proof (region_length filepath_Join s (pieceOff s i + o) n ltac:(lia) Hsub) as Hl2.
  apply (list_eq_same_length _ _ (Z.to_nat n)); [rewrite length_take, length_drop; lia|lia|]. intros k x y Hk Hx Hy.
  rewrite region_lookup in Hx by (done || lia). rewrite lookup_take_lt, lookup_drop, region_lookup in Hy by (done || lia).
  replace (pieceOff s i + o + Z.of_nat k) with (pieceOff s i + Z.of_nat (Z.to_nat o + k)) in Hx by lia. congruence.
Qed.

Lemma Data_good s i piece len :
  st_inv s -> at_index (st_pieces s) i = Some piece -> sp_verified piece = true -> PieceLength (st_info s) i = Some len ->
  avail s (pieceOff s i) len -> 0 < len -> in_s 64 (pieceOff s i) -> Data s i len = Some (bytes_of s (pieceOff s i) len, false).
Proof using.
  intros Hi Hp Hv Hl Hav Hn Hin. unfold Data. fold (pieceOff s i). rewrite Z.add_0_r, wrapS_id by done.
  pose proof (ReadBlock_good s i piece len 0 len Hi Hp Hv Hl Hav ltac:(lia) Hn ltac:(lia)) as E. rewrite Z.add_0_r in E.
  rewrite E. cbn [mbind option_bind]. pose proof (region_length filepath_Join s _ len ltac:(lia) Hav) as Hlr.
  rewrite drop_0, take_ge by lia. replace (Z.to_nat len - length (bytes_of s (pieceOff s i) len))%nat with 0%nat by lia. by rewrite app_nil_r.
Qed.

(** ** Theorems *)

(** C20: From any files, through any writes of blocks and any hashing: the bytes of a verified piece
    in the files have the SHA-1 of the info dictionary, and every read within the piece succeeds
    and gives exactly these bytes, and so does the method Data of the piece. *)
Theorem verified_data info dir blocks fs s0 seed s i piece :
  pieces_match info -> total_len (FilesInfo info) = TotalLength info -> files_ok filepath_Join io (mkStorage dir info [] fs) (FilesInfo info) ->
  OpenFileStorage filepath_Join sha1_Sum info dir blocks fs = Some (s0, seed) -> rtc st_step s0 s ->
  at_index (st_pieces s) i = Some piece -> sp_verified piece = true ->
  exists len data, PieceLength (st_info s) i = Some len /\ lenZ data = len /\ PieceHash (st_info s) i = Some (sha1_Sum data) /\
    (forall o n, 0 <= o -> 0 < n -> o + n <= len ->
       ReadBlock filepath_Join s n (pieceOff s i + o) = Some (take (Z.to_nat n) (drop (Z.to_nat o) data), None)) /\
    (0 < len -> in_s 64 (pieceOff s i) -> Data s i len = Some (data, false)).
Proof.
  intros Hm Htot Hok E Hr Hp Hv. pose proof (pieces_match_sized info Hm Htot) as Hs. assert (Hi : st_inv s).
  { pose proof (opened_inv _ _ _ _ _ _ Hs Hok E) as Hi. clear -Hr Hi. induction Hr as [|x y z Hxy _ IH]; [done|]. apply IH. by eapply st_step_inv. }
  pose proof Hi as (_ & _ & Hint). destruct (Hint i piece Hp Hv) as (len & Hl & Hn & Hav & Hh).
  exists len, (bytes_of s (pieceOff s i) len). split_and!; [done|by apply region_length|done|..].
  - intros o n Ho Hn' Hfit. by apply (ReadBlock_good s i piece).
  - intros Hn' Hin. by apply (Data_good s i piece).
Qed.

End storage_safe.
