(* ===== verification/Metadata.v ===== *)
(** * torrent/metadata.go

    Downloading the info dictionary from peers (BEP 9): one buffer per advertised
    size, filled in pieces of 16 KiB. [None] is a panic. rand.Shuffle is a parameter
    of which only that it permutes is known. *)

From S2P Require Import Prelude.

Definition metadataPieceSz : Z := Z.shiftl 1 14.

(** ** One buffer *)

Record utMetadata := mkUt {
  infoBytes : bytes;
  ownedInfoBlocks : list bool;
  contributors : list bytes;
  numPieces : Z;
  lastPieceLen : Z;
}.

Definition size (ut : utMetadata) : Z := lenZ (infoBytes ut).

(** For a size that is not negative, as [add] makes sure. *)
Definition newUtMetadata (infoSize : Z) : utMetadata :=
  let last := Z.rem infoSize metadataPieceSz in
  let '(n, lastLen) := if negb (last =? 0) then (Z.quot infoSize metadataPieceSz + 1, last)
                       else (Z.quot infoSize metadataPieceSz, metadataPieceSz) in
  mkUt (replicate (Z.to_nat infoSize) Byte.x00) (replicate (Z.to_nat n) false) [] n lastLen.

Definition ut_reset (ut : utMetadata) : utMetadata :=
  mkUt (infoBytes ut) (replicate (Z.to_nat (numPieces ut)) false) [] (numPieces ut) (lastPieceLen ut).

Definition contains (l : list Z) (v : Z) : bool := existsb (fun num => num =? v) l.

Fixpoint incomplete_loop (owned : list bool) (i : Z) (exclude : list Z) : list Z :=
  match owned with
  | [] => []
  | v :: owned =>
      (if negb v && negb (contains exclude i) then [i] else []) ++ incomplete_loop owned (i + 1) exclude
  end.

Definition ut_fillRequest (Shuffle : list Z -> list Z) (ut : utMetadata) (n : Z) (exclude : list Z) : list Z :=
  let incompleteIndices := Shuffle (incomplete_loop (ownedInfoBlocks ut) 0 exclude) in
  if n <? lenZ incompleteIndices then take (Z.to_nat n) incompleteIndices else incompleteIndices.

Definition ut_complete (ut : utMetadata) : bool := forallb (fun v => v) (ownedInfoBlocks ut).

Definition metadataPieceLength (ut : utMetadata) (i : Z) : Z :=
  if i =? numPieces ut - 1 then lastPieceLen ut else metadataPieceSz.

(** copy(dst[off:], src) for an offset within the slice. *)
Definition copy_at (dst : bytes) (off : Z) (src : bytes) : option bytes :=
  if (0 <=? off) && (off <=? lenZ dst) then
    let n := Nat.min (length dst - Z.to_nat off) (length src) in
    Some (take (Z.to_nat off) dst ++ take n src ++ drop (Z.to_nat off + n) dst)
  else None.

Inductive uterror := ErrOutOfRange | ErrWrongLength.

(** The buffer, and whether it is complete or an error. *)
Definition ut_writeBlock (ut : utMetadata) (b : bytes) (i totalSize : Z) (peerIP : bytes)
    : option (utMetadata * result uterror bool) :=
  owned ← at_index (ownedInfoBlocks ut) i;
  if owned : bool then Some (ut, Ok false)
  else if negb (totalSize =? lenZ (infoBytes ut)) then None
  else if lenZ (ownedInfoBlocks ut) <=? i then Some (ut, Err ErrOutOfRange)
  else if negb (lenZ b =? metadataPieceLength ut i) then Some (ut, Err ErrWrongLength)
  else
    info ← copy_at (infoBytes ut) (i * metadataPieceSz) b;
    l ← set_index (ownedInfoBlocks ut) i true;
    let ut := mkUt info l (contributors ut ++ [peerIP]) (numPieces ut) (lastPieceLen ut) in
    Some (ut, Ok (ut_complete ut)).

(** The bytes copied into a buffer of [n] bytes. *)
Definition ut_readBlock (ut : utMetadata) (n i : Z) : option (result uterror bytes) :=
  if numPieces ut <=? i then Some (Err ErrOutOfRange)
  else
    let lo := i * metadataPieceSz in
    let hi := if i <? numPieces ut - 1 then (i + 1) * metadataPieceSz else lenZ (infoBytes ut) in
    if (0 <=? lo) && (lo <=? hi) && (hi <=? lenZ (infoBytes ut))
    then Some (Ok (take (Z.to_nat n) (take (Z.to_nat (hi - lo)) (drop (Z.to_nat lo) (infoBytes ut)))))
    else None.

(** ** All buffers, by size *)

Record utMetadatas := mkUts {
  uts_m : gmap Z utMetadata;
  correctSize : Z;
}.

Definition uts_reset (uts : utMetadatas) (infoSize : Z) : option utMetadatas :=
  ut ← uts_m uts !! infoSize;
  Some (mkUts (<[infoSize := ut_reset ut]> (uts_m uts)) (correctSize uts)).

Definition uts_metadata (uts : utMetadatas) (infoSize : Z) : option utMetadata := uts_m uts !! infoSize.

(** [None] is nil. *)
Definition uts_correct (uts : utMetadatas) : option utMetadata :=
  if correctSize uts =? 0 then None else uts_m uts !! correctSize uts.

Definition uts_setCorrect (uts : utMetadatas) (infoSize : Z) : utMetadatas := mkUts (uts_m uts) infoSize.

Definition uts_add (uts : utMetadatas) (msize : Z) : utMetadatas * bool :=
  if (msize <? 0) || (10000000 <? msize) then (uts, false)
  else match uts_m uts !! msize with
       | Some _ => (uts, true)
       | None => (mkUts (<[msize := newUtMetadata msize]> (uts_m uts)) (correctSize uts), true)
       end.

Definition uts_writeBlock (uts : utMetadatas) (b : bytes) (i infoSize : Z) (peerIP : bytes)
    : option (utMetadatas * result uterror bool) :=
  ut ← uts_m uts !! infoSize;
  '(ut', r) ← ut_writeBlock ut b i infoSize peerIP;
  Some (mkUts (<[infoSize := ut']> (uts_m uts)) (correctSize uts), r).

(** The map must have one entry. *)
Definition uts_readBlock (uts : utMetadatas) (n i : Z) : option (result uterror bytes) :=
  match map_to_list (uts_m uts) with
  | [(_, ut)] => ut_readBlock ut n i
  | _ => None
  end.

Definition uts_fillRequest (Shuffle : list Z -> list Z) (uts : utMetadatas) (infoSize n : Z)
    (exclude : list Z) : option (list Z) :=
  ut ← uts_m uts !! infoSize; Some (ut_fillRequest Shuffle ut n exclude).

(** ** Invariant *)

Abbreviation sz := metadataPieceSz.

Record ut_ok (n : Z) (ut : utMetadata) : Prop := mkUtOk {
  uo_size : lenZ (infoBytes ut) = n;
  uo_num : lenZ (ownedInfoBlocks ut) = numPieces ut;
  uo_last : n = sz * (numPieces ut - 1) + lastPieceLen ut;
  uo_range : 0 < lastPieceLen ut <= sz;
}.

(** The [i]th piece of an info dictionary. *)
Definition piece_of (info : bytes) (i : Z) : bytes := take (Z.to_nat sz) (drop (Z.to_nat (i * sz)) info).

(** Every owned piece is the one of [info]. *)
Definition agrees (info : bytes) (ut : utMetadata) : Prop :=
  forall i, at_index (ownedInfoBlocks ut) i = Some true -> piece_of (infoBytes ut) i = piece_of info i.

Lemma sz_val : sz = 16384.
Proof. reflexivity. Qed.

#[local] Opaque metadataPieceSz.

Lemma newUtMetadata_ok n : 0 <= n -> ut_ok n (newUtMetadata n).
Proof.
  intros Hn. unfold newUtMetadata. rewrite sz_val. rewrite Z.rem_mod_nonneg, Z.quot_div_nonneg by lia.
  pose proof (Z.div_mod n 16384 ltac:(lia)). pose proof (Z.mod_pos_bound n 16384 ltac:(lia)).
  pose proof (Z.div_pos n 16384 Hn ltac:(lia)).
  destruct (Z.eqb_spec (n mod 16384) 0); cbn [negb]; constructor;
    cbn [infoBytes ownedInfoBlocks numPieces lastPieceLen]; rewrite ?length_replicate, ?sz_val; lia.
Qed.

Lemma newUtMetadata_agrees n info : agrees info (newUtMetadata n).
Proof.
  intros i. unfold newUtMetadata. destruct (if negb _ then _ else _) as [k l]. cbn [ownedInfoBlocks].
  unfold at_index. destruct (0 <=? i); [|discriminate]. rewrite lookup_replicate. intros [E _]. discriminate E.
Qed.

(** ** Pieces of a byte string *)

Lemma piece_of_lookup info i k :
  0 <= i -> piece_of info i !! k = if bool_decide (Z.of_nat k < sz) then info !! (Z.to_nat (i * sz) + k)%nat else None.
Proof.
  intros Hi. unfold piece_of. case_bool_decide.
  - rewrite lookup_take_lt by lia. by rewrite lookup_drop.
  - rewrite lookup_ge_None_2; [done|]. rewrite length_take. lia.
Qed.

Lemma pieces_determine info info' n :
  lenZ info = lenZ info' -> lenZ info <= n * sz ->
  (forall i, 0 <= i < n -> piece_of info i = piece_of info' i) -> info = info'.
Proof.
  intros Hl Hn Hp. pose proof sz_val as Hsz.
  apply (list_eq_same_length _ _ (length info')); [done|lia|]. intros k x y Hk Hx Hy.
  set (i := Z.of_nat k / sz). pose proof (Z.div_mod (Z.of_nat k) sz ltac:(lia)) as Hdm. fold i in Hdm.
  pose proof (Z.mod_pos_bound (Z.of_nat k) sz ltac:(lia)) as Hm.
  assert (0 <= i < n) by (split; [apply Z.div_pos; lia|apply Z.div_lt_upper_bound; lia]).
  specialize (Hp i ltac:(lia)). apply (f_equal (lookup (Z.to_nat (Z.of_nat k mod sz)))) in Hp.
  rewrite !piece_of_lookup in Hp by lia. rewrite !bool_decide_true in Hp by lia.
  replace (Z.to_nat (i * sz) + Z.to_nat (Z.of_nat k mod sz))%nat with k in Hp by lia. congruence.
Qed.

Lemma copy_at_spec dst off src :
  0 <= off -> off + lenZ src <= lenZ dst ->
  exists d, copy_at dst off src = Some d /\ length d = length dst /\
    forall k, d !! k = if bool_decide (off <= Z.of_nat k < off + lenZ src) then src !! (k - Z.to_nat off)%nat
                       else dst !! k.
Proof.
  intros Hoff Hfit. unfold copy_at. rewrite (proj2 (andb_true_iff _ _)) by (rewrite !Z.leb_le; lia).
  rewrite Nat.min_r by lia. rewrite (take_ge src) by lia. eexists. split; [done|].
  assert (Hl : length (take (Z.to_nat off) dst) = Z.to_nat off) by (rewrite length_take; lia). split.
  - rewrite !length_app, Hl, length_drop. lia.
  - intros k. case_bool_decide.
    + rewrite lookup_app_r by lia. rewrite Hl. by rewrite lookup_app_l by lia.
    + destruct (Z.lt_ge_cases (Z.of_nat k) off).
      * rewrite lookup_app_l by lia. by rewrite lookup_take_lt by lia.
      * rewrite lookup_app_r by lia. rewrite Hl. rewrite lookup_app_r by lia. rewrite lookup_drop. f_equal. lia.
Qed.

(** ** Writing a piece *)

Lemma piece_fits n ut i :
  ut_ok n ut -> 0 <= i < numPieces ut -> i * sz + metadataPieceLength ut i <= n /\ 0 < metadataPieceLength ut i <= sz.
Proof.
  intros [_ _ Hlast Hr] Hi. unfold metadataPieceLength. pose proof sz_val as Hsz.
  destruct (Z.eqb_spec i (numPieces ut - 1)) as [->|]; nia.
Qed.

Lemma piece_of_length n ut i :
  ut_ok n ut -> 0 <= i < numPieces ut -> lenZ (piece_of (infoBytes ut) i) = metadataPieceLength ut i.
Proof.
  intros [Hs _ Hlast Hr] Hi. unfold metadataPieceLength, piece_of. pose proof sz_val as Hsz.
  rewrite length_take, length_drop. destruct (Z.eqb_spec i (numPieces ut - 1)) as [->|]; nia.
Qed.

Lemma ut_writeBlock_spec n ut b i ip :
  ut_ok n ut -> at_index (ownedInfoBlocks ut) i = Some false -> lenZ b = metadataPieceLength ut i ->
  exists ut', ut_writeBlock ut b i n ip = Some (ut', Ok (ut_complete ut')) /\ ut_ok n ut' /\
    numPieces ut' = numPieces ut /\ lastPieceLen ut' = lastPieceLen ut /\
    contributors ut' = contributors ut ++ [ip] /\
    (forall j, at_index (ownedInfoBlocks ut') j = if j =? i then Some true else at_index (ownedInfoBlocks ut) j) /\
    piece_of (infoBytes ut') i = b /\
    forall j, 0 <= j -> j <> i -> piece_of (infoBytes ut') j = piece_of (infoBytes ut) j.
Proof.
  intros Hok Hown Hb. pose proof (at_index_bound _ _ _ Hown) as Hi. rewrite (uo_num _ _ Hok) in Hi.
  destruct (piece_fits n ut i Hok Hi) as [Hfit Hpos]. pose proof sz_val as Hsz.
  unfold ut_writeBlock. rewrite Hown. cbn [mbind option_bind]. rewrite (uo_size _ _ Hok), Z.eqb_refl. cbn [negb].
  destruct (Z.leb_spec (lenZ (ownedInfoBlocks ut)) i); [rewrite (uo_num _ _ Hok) in *; lia|].
  rewrite Hb, Z.eqb_refl. cbn [negb].
  destruct (copy_at_spec (infoBytes ut) (i * sz) b) as (d & -> & Hd & Hl); [nia|rewrite (uo_size _ _ Hok); lia|].
  cbn [mbind option_bind]. rewrite set_index_Some by lia. cbn [mbind option_bind].
  eexists. split; [reflexivity|]. cbn [infoBytes ownedInfoBlocks numPieces lastPieceLen contributors].
  split_and!; [|reflexivity|reflexivity|reflexivity| | |].
  - destruct Hok. constructor; cbn [infoBytes ownedInfoBlocks numPieces lastPieceLen];
      rewrite ?length_insert; first [lia|assumption].
  - intros j. eapply at_index_set_index, set_index_Some. lia.
  - apply list_eq. intros k. rewrite piece_of_lookup by lia. case_bool_decide as Hk.
    + rewrite Hl. case_bool_decide as Hin.
      * f_equal. lia.
      * rewrite (lookup_ge_None_2 b) by lia. apply lookup_ge_None_2.
        unfold metadataPieceLength in Hb. destruct Hok as [Hs _ Hla _]. destruct (Z.eqb_spec i (numPieces ut - 1)); nia.
    + rewrite lookup_ge_None_2; [reflexivity|]. lia.
  - intros j Hj Hne. apply list_eq. intros k. rewrite !piece_of_lookup by lia. case_bool_decide; [|reflexivity].
    rewrite Hl. case_bool_decide as Hin; [|reflexivity]. exfalso. nia.
Qed.

(** ** Sequences of writes *)

(** Pieces of [info] written in some order, with repetitions. *)
Fixpoint ut_writes (info : bytes) (l : list (Z * bytes)) (ut : utMetadata) : option utMetadata :=
  match l with
  | [] => Some ut
  | (i, ip) :: l => '(ut', _) ← ut_writeBlock ut (piece_of info i) i (lenZ info) ip; ut_writes info l ut'
  end.

Lemma piece_of_length_info info ut i :
  ut_ok (lenZ info) ut -> 0 <= i < numPieces ut -> lenZ (piece_of info i) = metadataPieceLength ut i.
Proof.
  intros [_ _ Hlast Hr] Hi. unfold metadataPieceLength, piece_of. pose proof sz_val as Hsz.
  rewrite length_take, length_drop. destruct (Z.eqb_spec i (numPieces ut - 1)) as [->|]; nia.
Qed.

Lemma ut_writes_spec info l ut :
  ut_ok (lenZ info) ut -> agrees info ut -> Forall (fun e => 0 <= e.1 < numPieces ut) l ->
  exists ut', ut_writes info l ut = Some ut' /\ ut_ok (lenZ info) ut' /\ agrees info ut' /\
    numPieces ut' = numPieces ut /\
    forall i, at_index (ownedInfoBlocks ut') i = Some true <->
      at_index (ownedInfoBlocks ut) i = Some true \/ i ∈ l.*1.
Proof.
  intros Hok Hag Hl. revert ut Hok Hag Hl. induction l as [|[i ip] l IH]; intros ut Hok Hag Hl; cbn [ut_writes].
  { exists ut. split_and!; try done. intros i. set_solver. }
  inversion Hl as [|? ? Hi Hl']; subst. cbn [fst] in Hi.
  destruct (at_index_Some (ownedInfoBlocks ut) i) as [o Ho]; [rewrite (uo_num _ _ Hok); lia|].
  destruct o.
  - unfold ut_writeBlock. rewrite Ho. cbn [mbind option_bind].
    destruct (IH ut Hok Hag Hl') as (ut' & E & Hok' & Hag' & Hn & Hiff).
    exists ut'. split_and!; try done. intros j. rewrite Hiff. set_solver.
  - destruct (ut_writeBlock_spec _ ut (piece_of info i) i ip Hok Ho) as (ut1 & -> & Hok1 & Hn1 & _ & _ & Hown1 & Hp1 & Ho1);
      [by apply piece_of_length_info|]. cbn [mbind option_bind].
    destruct (IH ut1 Hok1) as (ut' & E & Hok' & Hag' & Hn & Hiff).
    + intros j Hj. rewrite Hown1 in Hj. destruct (Z.eqb_spec j i) as [E1|Hne]; [rewrite E1; exact Hp1|].
      rewrite Ho1; [by apply Hag| |exact Hne]. apply at_index_bound in Hj. lia.
    + by rewrite Hn1.
    + exists ut'. split_and!; [exact E|done|done|congruence|]. intros j. rewrite Hiff, Hown1, fmap_cons, elem_of_cons.
      cbn [fst]. destruct (Z.eqb_spec j i) as [->|]; [tauto|]. tauto.
Qed.

Lemma ut_complete_spec ut :
  ut_complete ut = true <-> forall i, 0 <= i < lenZ (ownedInfoBlocks ut) -> at_index (ownedInfoBlocks ut) i = Some true.
Proof.
  unfold ut_complete. rewrite forallb_forall. split.
  - intros Hall i Hi. destruct (at_index_Some _ _ Hi) as [o Ho]. rewrite Ho. f_equal. apply Hall.
    unfold at_index in Ho. destruct (0 <=? i); [|discriminate]. apply list_elem_of_In. by eapply list_elem_of_lookup_2.
  - intros Hall x Hx. apply list_elem_of_In, list_elem_of_lookup in Hx as [k Hk].
    specialize (Hall (Z.of_nat k)). unfold at_index in Hall.
    rewrite (proj2 (Z.leb_le 0 (Z.of_nat k))), Nat2Z.id, Hk in Hall by lia.
    apply lookup_lt_Some in Hk. specialize (Hall ltac:(lia)). by injection Hall.
Qed.

Lemma complete_agrees info ut :
  ut_ok (lenZ info) ut -> agrees info ut -> ut_complete ut = true -> infoBytes ut = info.
Proof.
  intros Hok Hag Hc. rewrite ut_complete_spec, (uo_num _ _ Hok) in Hc. pose proof sz_val as Hsz.
  apply (pieces_determine _ _ (numPieces ut)).
  - apply Hok.
  - rewrite (uo_size _ _ Hok). destruct Hok as [_ _ Hl Hr]. lia.
  - intros i Hi. apply Hag, Hc, Hi.
Qed.

Lemma incomplete_loop_elem owned i exclude x :
  x ∈ incomplete_loop owned i exclude <->
  i <= x < i + lenZ owned /\ owned !! Z.to_nat (x - i) = Some false /\ x ∉ exclude.
Proof.
  assert (Hc : forall l v, contains l v = true <-> v ∈ l).
  { intros l v. unfold contains. rewrite existsb_exists. split.
    - intros (y & Hy & E). apply Z.eqb_eq in E as ->. by apply list_elem_of_In.
    - intros Hv. exists v. split; [by apply list_elem_of_In|apply Z.eqb_refl]. }
  revert i. induction owned as [|v owned IH]; intros i; cbn [incomplete_loop length].
  { split; [by intros ?%elem_of_nil|intros [? _]; lia]. }
  rewrite elem_of_app, IH. destruct (decide (x = i)) as [->|Hne].
  - rewrite Z.sub_diag. change (Z.to_nat 0) with O. cbn [lookup list_lookup].
    destruct v, (contains exclude i) eqn:E; cbn [negb andb].
    all: try apply Hc in E. all: try (assert (i ∉ exclude) by (rewrite <- Hc; congruence)).
    + split; [intros [?%elem_of_nil|[? _]]; [done|lia]|naive_solver].
    + split; [intros [?%elem_of_nil|[? _]]; [done|lia]|naive_solver].
    + split; [intros [?%elem_of_nil|[? _]]; [done|lia]|naive_solver].
    + split; [intros _; split_and!; try done; lia|intros _; left; by apply list_elem_of_singleton].
  - assert (x ∈ (if negb v && negb (contains exclude i) then [i] else []) -> False) as Hno.
    { destruct (_ && _); [by intros ?%list_elem_of_singleton|by intros ?%elem_of_nil]. }
    split.
    + intros [?|(Hr & Hl & He)]; [done|]. split_and!; try done; try lia.
      replace (Z.to_nat (x - i)) with (Datatypes.S (Z.to_nat (x - (i + 1)))) by lia. done.
    + intros (Hr & Hl & He). right. split_and!; try done; try lia.
      replace (Z.to_nat (x - i)) with (Datatypes.S (Z.to_nat (x - (i + 1)))) in Hl by lia. done.
Qed.

(** ** Theorems *)

(** C33: Downloading the info dictionary assembles it: whatever the order of the
    pieces, and however often they come, no write panics; the buffer is complete
    exactly when every piece has come, and then it is the info dictionary. *)
Theorem metadata_assembled info l :
  Forall (fun e => 0 <= e.1 < numPieces (newUtMetadata (lenZ info))) l ->
  exists ut, ut_writes info l (newUtMetadata (lenZ info)) = Some ut /\
    (ut_complete ut = true <-> forall i, 0 <= i < numPieces (newUtMetadata (lenZ info)) -> i ∈ l.*1) /\
    (ut_complete ut = true -> infoBytes ut = info).
Proof.
  intros Hl. pose proof (newUtMetadata_ok (lenZ info) ltac:(lia)) as Hok0.
  destruct (ut_writes_spec info l _ Hok0 (newUtMetadata_agrees (lenZ info) info) Hl)
    as (ut & E & Hok & Hag & Hn & Hiff).
  exists ut. split_and!; [exact E| |by apply complete_agrees].
  rewrite ut_complete_spec, (uo_num _ _ Hok), Hn.
  assert (Hnone : forall i, at_index (ownedInfoBlocks (newUtMetadata (lenZ info))) i <> Some true).
  { intros i. unfold newUtMetadata. destruct (if negb _ then _ else _) as [k m]. cbn [ownedInfoBlocks].
    unfold at_index. destruct (0 <=? i); [|discriminate]. rewrite lookup_replicate. intros [E' _]. discriminate E'. }
  split; intros H i Hi.
  - destruct (proj1 (Hiff i) (H i Hi)) as [H'|H']; [by apply Hnone in H'|exact H'].
  - apply Hiff. right. by apply H.
Qed.

(** A write panics exactly when the piece index, which comes from the peer, is
    out of range, or when the piece is missing and the size is not the buffer's. *)
Theorem writeBlock_panic n ut b i totalSize ip :
  ut_ok n ut ->
  ut_writeBlock ut b i totalSize ip = None <->
  ~ (0 <= i < numPieces ut) \/ (at_index (ownedInfoBlocks ut) i = Some false /\ totalSize <> n).
Proof.
  intros Hok. unfold ut_writeBlock. destruct (at_index (ownedInfoBlocks ut) i) as [o|] eqn:Ho; cbn [mbind option_bind].
  - pose proof (at_index_bound _ _ _ Ho) as Hi. rewrite (uo_num _ _ Hok) in Hi.
    destruct o; [split; [discriminate|intros [?|[[=] _]]; lia]|].
    rewrite (uo_size _ _ Hok), (uo_num _ _ Hok).
    destruct (Z.eqb_spec totalSize n) as [->|]; cbn [negb]; [|split; [intros _; by right|reflexivity]].
    split; [|intros [?|[_ ?]]; lia || done].
    destruct (Z.leb_spec (numPieces ut) i); [discriminate|].
    destruct (Z.eqb_spec (lenZ b) (metadataPieceLength ut i)) as [Hb|]; cbn [negb]; [|discriminate].
    destruct (piece_fits n ut i Hok Hi) as [Hfit _]. pose proof sz_val.
    destruct (copy_at_spec (infoBytes ut) (i * sz) b) as (d & -> & _); [nia|rewrite (uo_size _ _ Hok); lia|].
    cbn [mbind option_bind]. rewrite set_index_Some by (rewrite (uo_num _ _ Hok); lia). discriminate.
  - split; [intros _; left|reflexivity]. intros Hi.
    destruct (at_index_Some (ownedInfoBlocks ut) i) as [o Ho']; [rewrite (uo_num _ _ Hok); lia|]. congruence.
Qed.

(** Serving the info dictionary: reading a piece within range returns exactly
    that piece of the buffer; a negative index panics. *)
Theorem readBlock_piece n ut i :
  ut_ok n ut -> i < numPieces ut -> 0 < numPieces ut ->
  ut_readBlock ut (metadataPieceLength ut i) i =
  if i <? 0 then None else Some (Ok (piece_of (infoBytes ut) i)).
Proof.
  intros Hok Hlt Hpos. pose proof sz_val as Hsz. unfold ut_readBlock.
  destruct (Z.leb_spec (numPieces ut) i); [lia|].
  destruct (Z.ltb_spec i 0) as [Hneg|Hi].
  { assert ((0 <=? i * sz) = false) as -> by (apply Z.leb_gt; lia). reflexivity. }
  pose proof (piece_of_length n ut i Hok ltac:(lia)) as Hlen. destruct (piece_fits n ut i Hok ltac:(lia)) as [Hfit Hp].
  rewrite (uo_size _ _ Hok). destruct Hok as [Hs Hnum Hlast Hr].
  set (hi := if i <? numPieces ut - 1 then (i + 1) * sz else n).
  assert (Hhi : hi = i * sz + metadataPieceLength ut i).
  { unfold hi, metadataPieceLength. destruct (Z.ltb_spec i (numPieces ut - 1)), (Z.eqb_spec i (numPieces ut - 1)); nia. }
  rewrite (proj2 (andb_true_iff _ _)) by (rewrite andb_true_iff, !Z.leb_le; lia).
  do 2 f_equal. replace (hi - i * sz) with (metadataPieceLength ut i) by lia.
  rewrite take_take, Nat.min_id. unfold piece_of in *.
  rewrite <- (firstn_all (take (Z.to_nat sz) _)). rewrite take_take. f_equal. rewrite length_take in *. lia.
Qed.

(** Requests for metadata: distinct pieces that are missing and not excluded, at
    most [n] of them, and as many as there are when fewer exist. *)
Theorem fillRequest_correct Shuffle ut n exclude :
  (forall l, Shuffle l ≡ₚ l) -> 0 <= n ->
  let r := ut_fillRequest Shuffle ut n exclude in
  NoDup r /\ lenZ r <= n /\
  (forall i, i ∈ r -> at_index (ownedInfoBlocks ut) i = Some false /\ i ∉ exclude) /\
  (lenZ r < n -> forall i, at_index (ownedInfoBlocks ut) i = Some false -> i ∉ exclude -> i ∈ r).
Proof.
  intros Hsh Hn r. set (l := incomplete_loop (ownedInfoBlocks ut) 0 exclude).
  assert (Hl : forall i, i ∈ l <-> at_index (ownedInfoBlocks ut) i = Some false /\ i ∉ exclude).
  { intros i. unfold l. rewrite incomplete_loop_elem, Z.sub_0_r, Z.add_0_l. unfold at_index.
    destruct (Z.leb_spec 0 i); [|split; [intros [? _]; lia|intros [[=] _]]].
    split; [tauto|]. intros [Hx He]. split_and!; try done. apply lookup_lt_Some in Hx. lia. }
  assert (Hnd : NoDup l).
  { unfold l. generalize 0. clear. induction (ownedInfoBlocks ut) as [|v o IH]; intros i; cbn [incomplete_loop].
    { constructor. }
    apply NoDup_app. split; [destruct (_ && _); [apply NoDup_singleton|constructor]|]. split; [|apply IH].
    intros x Hx (Hr & _)%incomplete_loop_elem. destruct (_ && _); [apply list_elem_of_singleton in Hx; lia|by apply elem_of_nil in Hx]. }
  assert (Hr : r = take (Z.to_nat n) (Shuffle l)).
  { unfold r, ut_fillRequest. fold l. destruct (Z.ltb_spec n (lenZ (Shuffle l))); [done|]. by rewrite take_ge by lia. }
  rewrite Hr. split_and!.
  - eapply sublist_NoDup; [|apply sublist_take]. by rewrite Hsh.
  - rewrite length_take. lia.
  - intros i Hi. apply Hl. rewrite <- (Hsh l). apply list_elem_of_lookup in Hi as [k Hk].
    apply lookup_take_Some in Hk as [Hk _]. by eapply list_elem_of_lookup_2.
  - intros Hlt i Ho He. rewrite take_ge by (rewrite length_take in Hlt; lia). rewrite Hsh. by apply Hl.
Qed.
