(* ===== verification/ConnInfo.v ===== *)
(** * torrent/conn_state.go, conn_stats.go, torrent_stats.go, peer.go and the data of conn_info.go

    What the main goroutine of a torrent keeps for each connection: the choke and
    interest state, the counters and times, and the record [connInfo] with the
    messages that have been handed to the connection. The time is an argument of
    the operations that read the clock. *)

From S2P Require Import Prelude Strconv Bitfield Wire Bitmap.
From Stdlib Require Import SpecFloat.

(** ** Time *)

(** time.Time in nanoseconds; [None] is the zero Time. *)
Definition Time : Type := option Z.

(** time.Since, which saturates; the zero Time lies further back than the longest
    duration. *)
Definition Since (now : Z) (t : Time) : Z :=
  match t with
  | None => MaxInt64
  | Some x => Z.max (- 2 ^ 63) (Z.min MaxInt64 (now - x))
  end.

Definition Second : Z := 10 ^ 9.
Definition Minute : Z := 60 * Second.

Definition IsZero (t : Time) : bool := match t with None => true | Some _ => false end.

(** ** float64 *)

Definition f64 : Type := spec_float.
Definition f64_of (z : Z) : f64 := binary_normalize 53 1024 z 0 false.
Definition f64_div : f64 -> f64 -> f64 := SFdiv 53 1024.
Definition f64_gtb (x y : f64) : bool := SFltb y x.

(** ** Addresses and peers *)

Definition v4InV6Prefix : bytes := replicate 10 Byte.x00 ++ [Byte.xff; Byte.xff].

(** net.IP.Equal: an IPv4 address equals its IPv6 form. *)
Definition IP_Equal (a b : bytes) : bool :=
  if (length a =? length b)%nat then bool_decide (a = b)
  else if ((length a =? 4) && (length b =? 16))%nat then bool_decide (b = v4InV6Prefix ++ a)
  else if ((length a =? 16) && (length b =? 4))%nat then bool_decide (a = v4InV6Prefix ++ b)
  else false.

Inductive PeerSource := SourceUser | SourceIncoming | SourceDHT | SourceTracker.

(** tracker.Peer with its source. *)
Record Peer := mkPeer {
  p_ID : option bytes;
  p_IP : bytes;
  p_Port : Z;
  p_Source : PeerSource;
}.

(** ** Choke and interest *)

Record connState := mkConnState {
  amInterested : bool;
  amChoking : bool;
  isInterested : bool;
  isChoking : bool;
}.

Definition newConnState : connState := mkConnState false true false true.
Definition canUpload (cs : connState) : bool := negb (amChoking cs) && isInterested cs.
Definition canDownload (cs : connState) : bool := negb (isChoking cs) && amInterested cs.

Definition flip_amInterested (cs : connState) : connState :=
  mkConnState (negb (amInterested cs)) (amChoking cs) (isInterested cs) (isChoking cs).
Definition flip_amChoking (cs : connState) : connState :=
  mkConnState (amInterested cs) (negb (amChoking cs)) (isInterested cs) (isChoking cs).
Definition flip_isInterested (cs : connState) : connState :=
  mkConnState (amInterested cs) (amChoking cs) (negb (isInterested cs)) (isChoking cs).
Definition flip_isChoking (cs : connState) : connState :=
  mkConnState (amInterested cs) (amChoking cs) (isInterested cs) (negb (isChoking cs)).

(** ** Statistics of a connection *)

Record connStats := mkConnStats {
  uploadUsefulBytes : Z;
  downloadUsefulBytes : Z;
  blocksDownloaded : Z;
  blocksUploaded : Z;
  verifications : Z;
  lastReceivedPieceMsg : Time;
  lastStartedDownloading : Time;
  lastStartedUploading : Time;
  sumDownloading : Z;
  sumUploading : Z;
  snubbed : bool;
  badPiecesContributions : Z;
  goodPiecesContributions : Z;
}.

Definition newConnStats : connStats := mkConnStats 0 0 0 0 0 None None None 0 0 false 0 0.

Definition with_bytes (cs : connStats) (up down bd bu : Z) (last : Time) : connStats :=
  mkConnStats up down bd bu (verifications cs) last (lastStartedDownloading cs) (lastStartedUploading cs)
    (sumDownloading cs) (sumUploading cs) (snubbed cs) (badPiecesContributions cs) (goodPiecesContributions cs).

Definition with_times (cs : connStats) (last sd su : Time) (sumd sumu : Z) : connStats :=
  mkConnStats (uploadUsefulBytes cs) (downloadUsefulBytes cs) (blocksDownloaded cs) (blocksUploaded cs)
    (verifications cs) last sd su sumd sumu (snubbed cs) (badPiecesContributions cs) (goodPiecesContributions cs).

Definition with_marks (cs : connStats) (v : Z) (s : bool) (bad good : Z) : connStats :=
  mkConnStats (uploadUsefulBytes cs) (downloadUsefulBytes cs) (blocksDownloaded cs) (blocksUploaded cs)
    v (lastReceivedPieceMsg cs) (lastStartedDownloading cs) (lastStartedUploading cs)
    (sumDownloading cs) (sumUploading cs) s bad good.

Definition stopDownloading (now : Z) (cs : connStats) : connStats :=
  with_times cs (lastReceivedPieceMsg cs) (lastStartedDownloading cs) (lastStartedUploading cs)
    (int64 (sumDownloading cs + Since now (lastStartedDownloading cs))) (sumUploading cs).

Definition stopUploading (now : Z) (cs : connStats) : connStats :=
  with_times cs (lastReceivedPieceMsg cs) (lastStartedDownloading cs) (lastStartedUploading cs)
    (sumDownloading cs) (int64 (sumUploading cs + Since now (lastStartedUploading cs))).

Definition onBlockDownload (now len : Z) (cs : connStats) : connStats :=
  with_bytes cs (uploadUsefulBytes cs) (int64 (downloadUsefulBytes cs + len))
    (int64 (blocksDownloaded cs + 1)) (blocksUploaded cs) (Some now).

Definition onBlockUpload (len : Z) (cs : connStats) : connStats :=
  with_bytes cs (int64 (uploadUsefulBytes cs + len)) (downloadUsefulBytes cs) (blocksDownloaded cs)
    (int64 (blocksUploaded cs + 1)) (lastReceivedPieceMsg cs).

Definition onPieceHashed (cs : connStats) : connStats :=
  with_marks cs (int64 (verifications cs + 1)) (snubbed cs) (badPiecesContributions cs) (goodPiecesContributions cs).

Definition uploadLimitsReached (cs : connStats) : bool :=
  Z.shiftl 1 10 * 200 <? int64 (uploadUsefulBytes cs - downloadUsefulBytes cs).

(** The flag is kept once it is set. *)
Definition stats_isSnubbed (now : Z) (cs : connStats) : connStats * bool :=
  if snubbed cs then (cs, true)
  else
    let s := negb (IsZero (lastReceivedPieceMsg cs)) && (Minute <=? Since now (lastReceivedPieceMsg cs)) in
    (with_marks cs (verifications cs) s (badPiecesContributions cs) (goodPiecesContributions cs), s).

Definition malliciousness (cs : connStats) : Z :=
  int64 (badPiecesContributions cs - goodPiecesContributions cs).

(** One contribution to a piece that failed, or passed, its check. *)
Definition badContribution (cs : connStats) : connStats :=
  with_marks cs (verifications cs) (snubbed cs) (int64 (badPiecesContributions cs + 1)) (goodPiecesContributions cs).
Definition goodContribution (cs : connStats) : connStats :=
  with_marks cs (verifications cs) (snubbed cs) (badPiecesContributions cs) (int64 (goodPiecesContributions cs + 1)).

(** ** Statistics of a torrent *)

Record Stats := mkStats {
  BlocksDownloaded : Z;
  BlocksUploaded : Z;
  BytesLeft : Z;
  BytesDownloaded : Z;
  BytesUploaded : Z;
}.

Definition blockDownloaded_stats (bytes : Z) (s : Stats) : Stats :=
  mkStats (int64 (BlocksDownloaded s + 1)) (BlocksUploaded s) (BytesLeft s) (BytesDownloaded s) (BytesUploaded s).
Definition blockUploaded_stats (bytes : Z) (s : Stats) : Stats :=
  mkStats (BlocksDownloaded s) (int64 (BlocksUploaded s + 1)) (BytesLeft s) (BytesDownloaded s)
          (int64 (BytesUploaded s + bytes)).
Definition onPieceDownload_stats (bytes : Z) (s : Stats) : Stats :=
  mkStats (BlocksDownloaded s) (BlocksUploaded s) (int64 (BytesLeft s - bytes))
          (int64 (BytesDownloaded s + bytes)) (BytesUploaded s).

(** ** The torrent's side of a connection *)

(** The messages a torrent hands to a connection (msg.go). *)
Inductive cmsg (B : Type) :=
| CWire (m : Msg)
| CBitmap (b : B)
| CRequestsAvailable
| CHaveInfo
| CDrop.
Arguments CWire {B} m.
Arguments CBitmap {B} b.
Arguments CRequestsAvailable {B}.
Arguments CHaveInfo {B}.
Arguments CDrop {B}.

Record connInfo (B : Type) := mkCI {
  ci_peer : Peer;
  ci_reserved : Reserved;
  peerBf : B;
  numWant : Z;
  ci_state : connState;
  ci_stats : connStats;
  (* what went into the channel to the connection, in order *)
  ci_sent : list (cmsg B);
}.
Arguments mkCI {B} ci_peer ci_reserved peerBf numWant ci_state ci_stats ci_sent.
Arguments ci_peer {B} c.
Arguments ci_reserved {B} c.
Arguments peerBf {B} c.
Arguments numWant {B} c.
Arguments ci_state {B} c.
Arguments ci_stats {B} c.
Arguments ci_sent {B} c.

Section conn_info.
Context {B : Type} `{BitmapOps B}.

Definition ci_with_state (f : connState -> connState) (ci : connInfo B) : connInfo B :=
  mkCI (ci_peer ci) (ci_reserved ci) (peerBf ci) (numWant ci) (f (ci_state ci)) (ci_stats ci) (ci_sent ci).
Definition ci_with_stats (f : connStats -> connStats) (ci : connInfo B) : connInfo B :=
  mkCI (ci_peer ci) (ci_reserved ci) (peerBf ci) (numWant ci) (ci_state ci) (f (ci_stats ci)) (ci_sent ci).
Definition ci_with_want (n : Z) (ci : connInfo B) : connInfo B :=
  mkCI (ci_peer ci) (ci_reserved ci) (peerBf ci) n (ci_state ci) (ci_stats ci) (ci_sent ci).
Definition ci_with_bf (b : B) (ci : connInfo B) : connInfo B :=
  mkCI (ci_peer ci) (ci_reserved ci) b (numWant ci) (ci_state ci) (ci_stats ci) (ci_sent ci).
Definition ci_push (m : cmsg B) (ci : connInfo B) : connInfo B :=
  mkCI (ci_peer ci) (ci_reserved ci) (peerBf ci) (numWant ci) (ci_state ci) (ci_stats ci) (ci_sent ci ++ [m]).

Definition startedDownloading (now : Z) (ci : connInfo B) : connInfo B :=
  if canDownload (ci_state ci) then
    ci_with_stats (fun cs =>
      with_times cs (if IsZero (lastReceivedPieceMsg cs) then Some now else lastReceivedPieceMsg cs)
        (Some now) (lastStartedUploading cs) (sumDownloading cs) (sumUploading cs)) ci
  else ci.

Definition startedUploading (now : Z) (ci : connInfo B) : connInfo B :=
  if canUpload (ci_state ci) then
    ci_with_stats (fun cs => with_times cs (lastReceivedPieceMsg cs) (lastStartedDownloading cs) (Some now)
                               (sumDownloading cs) (sumUploading cs)) ci
  else ci.

Definition stoppedDownloading (now : Z) : connInfo B -> connInfo B := ci_with_stats (stopDownloading now).
Definition stoppedUploading (now : Z) : connInfo B -> connInfo B := ci_with_stats (stopUploading now).

Definition durationDownloading (now : Z) (ci : connInfo B) : Z :=
  if canDownload (ci_state ci)
  then int64 (sumDownloading (ci_stats ci) + Since now (lastStartedDownloading (ci_stats ci)))
  else sumDownloading (ci_stats ci).

Definition durationUploading (now : Z) (ci : connInfo B) : Z :=
  if canUpload (ci_state ci)
  then int64 (sumUploading (ci_stats ci) + Since now (lastStartedUploading (ci_stats ci)))
  else sumUploading (ci_stats ci).

Definition safeDiv (bytes dur : Z) : f64 :=
  if dur =? 0 then f64_of 0 else f64_div (f64_of bytes) (f64_of dur).

Definition rate (haveAll : bool) (now : Z) (ci : connInfo B) : f64 :=
  if haveAll then safeDiv (uploadUsefulBytes (ci_stats ci)) (durationUploading now ci)
  else safeDiv (downloadUsefulBytes (ci_stats ci)) (durationDownloading now ci).

End conn_info.

(** What the connection knows after the messages handed to it, in order: its own
    copy of our choke and interest flags (the assignments of conn.onTorrentMsg). *)
Definition conn_apply {B} (m : cmsg B) (cs : connState) : connState :=
  match m with
  | CWire m =>
      if Kind m =? Interested then mkConnState true (amChoking cs) (isInterested cs) (isChoking cs)
      else if Kind m =? NotInterested then mkConnState false (amChoking cs) (isInterested cs) (isChoking cs)
      else if Kind m =? Choke then mkConnState (amInterested cs) true (isInterested cs) (isChoking cs)
      else if Kind m =? Unchoke then mkConnState (amInterested cs) false (isInterested cs) (isChoking cs)
      else cs
  | _ => cs
  end.

Definition conn_replay {B} (sent : list (cmsg B)) : connState := foldl (fun cs m => conn_apply m cs) newConnState sent.
