(* ===== verification/Swarm.v ===== *)
(** * torrent/choker.go, conn_info.go and the connections of torrent.go

    The main goroutine of a torrent and its connections. A connection is known by
    an identity (the pointer to its connInfo) and its record is looked up in a store,
    so that several slices can hold the same connection. The slice [t.conns] is its
    backing array and its length: removing a connection shifts the array in place,
    which a loop over the slice that is under way sees. Whether a message reaches a
    connection, the connection turns out to be closed or the send waits for ever, the other
    waits, the answers of the DHT server, the clock and the random numbers come from an
    environment; what the goroutine causes elsewhere (dials, announces, work for the piece
    hasher) is recorded as a list of events. *)

From S2P Require Import Prelude Strconv Bitfield GoValue Wire Metainfo Bitmap Piece Pieces Metadata ConnInfo.

(** ** State *)

Record choker := mkChoker {
  currRound : Z;
  optimistic : option Z;
  enableOptimistic : bool;
  maxUploadSlots : Z;
}.

Definition defaultMaxUploadSlots : Z := 4.
Definition newChoker : choker := mkChoker 0 None true defaultMaxUploadSlots.

(** The limits of the torrent and what its client provides. *)
Record config := mkConfig {
  maxEstablishedConnections : Z;
  maxHalfOpenConns : Z;
  wantPeersThreshold : Z;
  DisableTrackers : bool;
  DisableDHT : bool;
  has_trackerAnnouncer : bool;
  has_dhtServer : bool;
  cl_reserved : Reserved;
  dhtPort : Z;
}.

(** Peers to dial, and the announces that find them. *)
Record dialing := mkDialing {
  peers : list Peer;
  halfOpen : gmap bytes Peer;
  blackList : list bytes;
  canAnnounceTracker : bool;
  canAnnounceDht : bool;
  dhtAnnounceResp : option bool;   (* [None] is nil; else whether its Peers is not nil *)
}.

(** What the torrent knows of its data. *)
Record tdata (B S : Type) := mkData {
  uploadEnabled : bool;
  downloadEnabled : bool;
  isClosed : bool;
  pieces_ : option (pieces B S);
  mi_Info : InfoDict;
  mi_Announce : bytes;
  mi_InfoBytes : option bytes;
  utmetadata : utMetadatas;
  length_ : Z;
  blockRequestSize : Z;
  stats : Stats;
  queuedForVerification : gset Z;
  pieceQueuedHashingC : list Z;      (* what waits for the piece hasher *)
  DownloadedDataC_closed : bool;
  InfoC_closed : bool;
}.
Arguments mkData {B S}.
Arguments uploadEnabled {B S} t.
Arguments downloadEnabled {B S} t.
Arguments isClosed {B S} t.
Arguments pieces_ {B S} t.
Arguments mi_Info {B S} t.
Arguments mi_Announce {B S} t.
Arguments mi_InfoBytes {B S} t.
Arguments utmetadata {B S} t.
Arguments length_ {B S} t.
Arguments blockRequestSize {B S} t.
Arguments stats {B S} t.
Arguments queuedForVerification {B S} t.
Arguments pieceQueuedHashingC {B S} t.
Arguments DownloadedDataC_closed {B S} t.
Arguments InfoC_closed {B S} t.

(** The events of tracker announces (tracker.Event). *)
Inductive tracker_event := EvNone | EvCompleted | EvStarted | EvStopped.

Inductive tevent :=
| EDial (p : Peer)
| EAnnounceTracker (e : tracker_event) (s : Stats)
| EAnnounceDht
| EResetTrackerTimer (seconds : Z)
| EResetDhtTimer
| ECloseDhtAnnounce
| EQueueHash (i : Z)
| EDownloadedAll
| EGotInfo
| EClosed
| EBanned (ip : bytes).

Record torrent (B S : Type) := mkTorrent {
  t_cfg : config;
  t_data : tdata B S;
  t_arr : list Z;                  (* the backing array of t.conns *)
  t_len : nat;                     (* len(t.conns) *)
  t_infos : gmap Z (connInfo B);   (* the connInfo records *)
  t_choker : choker;
  t_dial : dialing;
  t_events : list tevent;
  t_tick : nat;                    (* what has been drawn from the environment *)
}.
Arguments mkTorrent {B S}.
Arguments t_cfg {B S} t.
Arguments t_data {B S} t.
Arguments t_arr {B S} t.
Arguments t_len {B S} t.
Arguments t_infos {B S} t.
Arguments t_choker {B S} t.
Arguments t_dial {B S} t.
Arguments t_events {B S} t.
Arguments t_tick {B S} t.

(** The select of a send to a connection: the channel takes the message, the connection
    is closed, or neither ever happens. *)
Inductive sending := Sent | Dropped | Stuck.

(** The n-th reading of the clock, random number, select or wait. *)
Record Env := mkEnv {
  env_now : nat -> Z;
  env_Intn : nat -> Z -> Z;               (* rand.Intn *)
  env_Perm : nat -> nat -> list nat;      (* rand.Perm *)
  env_send : nat -> sending;
  env_room : nat -> bool;                 (* the channel of the tracker announcer gets room *)
  env_gone : nat -> bool;                 (* a connection that is told to drop closes *)
  env_dht : nat -> bool;                  (* the DHT server takes the announce *)
}.

(** What the main goroutine relies on: the library's random numbers; that the goroutines it
    waits for go on, which is what [Sent], [Dropped] and the two waits say; and a DHT server
    that takes announces. *)
Class EnvLaws (env : Env) : Prop := mkEnvLaws {
  Intn_range k n : 0 < n -> 0 <= env_Intn env k n < n;
  Perm_perm k n : env_Perm env k n ≡ₚ seq 0 n;
  send_ends k : env_send env k <> Stuck;
  room_ends k : env_room env k = true;
  gone_ends k : env_gone env k = true;
  dht_takes k : env_dht env k = true;
}.

(** ** The state monad, with panics; running out of fuel and a wait that never ends are kept
    apart *)

Inductive terror := OutOfFuel | Waits.

Definition M (B S A : Type) : Type := torrent B S -> result terror (A * torrent B S).

#[global] Instance M_ret {B S} : MRet (M B S) := fun _ a t => Ok (a, t).
#[global] Instance M_bind {B S} : MBind (M B S) := fun _ _ f m t =>
  match m t with Ok (a, t') => f a t' | Err e => Err e | Panic => Panic end.

Section swarm.
Context {B : Type} `{BitmapOps B} {S : Type} `{SortSlice Z}.
Variable env : Env.
(** The text of an address that is not IPv4. *)
Variable ip6_String : bytes -> bytes.
(** The conversion of +Inf to int, which the language leaves open. *)
Variable int_of_Inf : Z.

Abbreviation torrent := (torrent B S).
Abbreviation M := (M B S).
Abbreviation connInfo := (connInfo B).

Definition gets {A} (f : torrent -> A) : M A := fun t => Ok (f t, t).
Definition modify (f : torrent -> torrent) : M unit := fun t => Ok ((), f t).
Definition tpanic {A} : M A := fun _ => Panic.
Definition tfuel {A} : M A := fun _ => Err OutOfFuel.
Definition twaits {A} : M A := fun _ => Err Waits.
Definition when (b : bool) (m : M unit) : M unit := if b then m else mret ().

Fixpoint for_each {A} (f : A -> M unit) (l : list A) : M unit :=
  match l with [] => mret () | a :: l => f a;; for_each f l end.

Definition set_conns (arr : list Z) (len : nat) (t : torrent) : torrent :=
  mkTorrent (t_cfg t) (t_data t) arr len (t_infos t) (t_choker t) (t_dial t) (t_events t) (t_tick t).
Definition set_infos (m : gmap Z connInfo) (t : torrent) : torrent :=
  mkTorrent (t_cfg t) (t_data t) (t_arr t) (t_len t) m (t_choker t) (t_dial t) (t_events t) (t_tick t).
Definition set_choker (c : choker) (t : torrent) : torrent :=
  mkTorrent (t_cfg t) (t_data t) (t_arr t) (t_len t) (t_infos t) c (t_dial t) (t_events t) (t_tick t).
Definition set_dial (d : dialing) (t : torrent) : torrent :=
  mkTorrent (t_cfg t) (t_data t) (t_arr t) (t_len t) (t_infos t) (t_choker t) d (t_events t) (t_tick t).
Definition set_data (d : tdata B S) (t : torrent) : torrent :=
  mkTorrent (t_cfg t) d (t_arr t) (t_len t) (t_infos t) (t_choker t) (t_dial t) (t_events t) (t_tick t).
Definition add_event (e : tevent) (t : torrent) : torrent :=
  mkTorrent (t_cfg t) (t_data t) (t_arr t) (t_len t) (t_infos t) (t_choker t) (t_dial t) (t_events t ++ [e]) (t_tick t).
Definition bump (t : torrent) : torrent :=
  mkTorrent (t_cfg t) (t_data t) (t_arr t) (t_len t) (t_infos t) (t_choker t) (t_dial t) (t_events t)
            (Datatypes.S (t_tick t)).

(** Read from the environment. *)
Definition draw {A} (f : nat -> A) : M A := fun t => Ok (f (t_tick t), bump t).

(** Wait for another goroutine. *)
Definition await (ends : nat -> bool) : M unit := ok ← draw ends; if ok : bool then mret () else twaits.

(** Dereference a connInfo pointer. *)
Definition getInfo (id : Z) : M connInfo := fun t =>
  match t_infos t !! id with Some ci => Ok (ci, t) | None => Panic end.
Definition modInfo (id : Z) (f : connInfo -> connInfo) : M unit := fun t =>
  match t_infos t !! id with Some ci => Ok ((), set_infos (<[id := f ci]> (t_infos t)) t) | None => Panic end.
(** The same with the time. *)
Definition modInfo_now (id : Z) (f : Z -> connInfo -> connInfo) : M unit :=
  now ← draw (env_now env); modInfo id (f now).

(** ** Queries of the torrent *)

Definition conns (t : torrent) : list Z := take (t_len t) (t_arr t).

Definition haveInfo (t : torrent) : bool := negb (correctSize (utmetadata (t_data t)) =? 0).

Definition numPieces (t : torrent) : Z := NumPieces (mi_Info (t_data t)).

Definition tparams_of (d : tdata B S) : tparams :=
  mkT (length_ d) (PieceLen (mi_Info d)) (NumPieces (mi_Info d)) (blockRequestSize d).

(** t.pieces, dereferenced. *)
Definition get_pieces : M (pieces B S) := fun t =>
  match pieces_ (t_data t) with Some p => Ok (p, t) | None => Panic end.

Definition t_haveAll : M bool :=
  hi ← gets haveInfo;
  if negb hi then mret false
  else p ← get_pieces; d ← gets t_data; mret (haveAll (tparams_of d) p).

Definition dataTransferAllowed (t : torrent) : bool :=
  negb (haveInfo t) || uploadEnabled (t_data t) || downloadEnabled (t_data t).

Definition infoWasDownloaded (t : torrent) : bool :=
  match mi_InfoBytes (t_data t) with None => true | Some _ => false end.

Definition wantConns (t : torrent) : bool :=
  (Z.of_nat (t_len t) <? maxEstablishedConnections (t_cfg t)) && dataTransferAllowed t.

(** The ratio is an integer division, and the constant 10/9 is 1. *)
Definition wantPeers (t : torrent) : bool :=
  let threshold := wantPeersThreshold (t_cfg t) in
  let threshold :=
    if (0 <? t_len t)%nat then
      let ratio := Z.quot (maxEstablishedConnections (t_cfg t)) (Z.of_nat (t_len t)) in
      if ratio <? 1 then
        if ratio =? 0 then int_of_Inf else Z.quot (threshold * ratio + 10) ratio
      else threshold
    else threshold in
  (lenZ (peers (t_dial t)) <? threshold) && dataTransferAllowed t.

Definition containsInBlackList (t : torrent) (ip : bytes) : bool :=
  existsb (fun addr => IP_Equal addr ip) (blackList (t_dial t)).

(** Whether an active connection has the address of the peer. *)
Definition peerInActiveConns (t : torrent) (peer : Peer) : bool :=
  existsb (fun id => match t_infos t !! id with
                     | Some ci => IP_Equal (p_IP (ci_peer ci)) (p_IP peer) && (p_Port (ci_peer ci) =? p_Port peer)
                     | None => false
                     end) (conns t).

Definition IP_String (ip : bytes) : bytes :=
  let dotted l := match l with
                  | [a; b; c; d] => Some (FormatUint (b2z a) ++ bs "." ++ FormatUint (b2z b) ++ bs "." ++
                                          FormatUint (b2z c) ++ bs "." ++ FormatUint (b2z d))
                  | _ => None
                  end in
  match dotted ip with
  | Some s => s
  | None => if bool_decide (take 12 ip = v4InV6Prefix)
            then default (ip6_String ip) (dotted (drop 12 ip)) else ip6_String ip
  end.

Definition peer_String (p : Peer) : bytes := IP_String (p_IP p) ++ bs ":" ++ FormatUint (p_Port p).

(** ** Announces and dials *)

Definition set_announce (tr dht : bool) (t : torrent) : torrent :=
  set_dial (mkDialing (peers (t_dial t)) (halfOpen (t_dial t)) (blackList (t_dial t)) tr dht (dhtAnnounceResp (t_dial t))) t.
Definition set_dht (b : option bool) (t : torrent) : torrent :=
  set_dial (mkDialing (peers (t_dial t)) (halfOpen (t_dial t)) (blackList (t_dial t))
                      (canAnnounceTracker (t_dial t)) (canAnnounceDht (t_dial t)) b) t.
Definition set_peers (l : list Peer) (t : torrent) : torrent :=
  set_dial (mkDialing l (halfOpen (t_dial t)) (blackList (t_dial t))
                      (canAnnounceTracker (t_dial t)) (canAnnounceDht (t_dial t)) (dhtAnnounceResp (t_dial t))) t.
Definition set_halfOpen (m : gmap bytes Peer) (t : torrent) : torrent :=
  set_dial (mkDialing (peers (t_dial t)) m (blackList (t_dial t))
                      (canAnnounceTracker (t_dial t)) (canAnnounceDht (t_dial t)) (dhtAnnounceResp (t_dial t))) t.
Definition set_blackList (l : list bytes) (t : torrent) : torrent :=
  set_dial (mkDialing (peers (t_dial t)) (halfOpen (t_dial t)) l
                      (canAnnounceTracker (t_dial t)) (canAnnounceDht (t_dial t)) (dhtAnnounceResp (t_dial t))) t.

(** The send waits for room in the channel; only then is the flag cleared. *)
Definition sendAnnounceToTracker (e : tracker_event) : M unit :=
  skip ← gets (fun t => DisableTrackers (t_cfg t) || negb (has_trackerAnnouncer (t_cfg t)) ||
                        bool_decide (mi_Announce (t_data t) = []));
  if skip : bool then mret ()
  else
    await (env_room env);;
    modify (fun t => set_announce false (canAnnounceDht (t_dial t)) (add_event (EAnnounceTracker e (stats (t_data t))) t)).

Definition resetNextTrackerAnnounce (interval : Z) : M unit := modify (add_event (EResetTrackerTimer interval)).

(** An error of the server is logged, and its nil response stored. *)
Definition announceDht : M unit :=
  skip ← gets (fun t => DisableDHT (t_cfg t) || negb (has_dhtServer (t_cfg t)));
  if skip : bool then mret ()
  else
    taken ← draw (env_dht env);
    modify (fun t => set_dht (if taken : bool then Some true else None) (add_event EAnnounceDht t));;
    modify (fun t => set_announce (canAnnounceTracker (t_dial t)) false (add_event EResetDhtTimer t)).

Definition closeDhtAnnounce : M unit :=
  server ← gets (fun t => has_dhtServer (t_cfg t));
  resp ← gets (fun t => dhtAnnounceResp (t_dial t));
  if negb server then mret ()
  else match resp with
       | None => tpanic
       | Some false => mret ()
       | Some true => modify (fun t => set_dht (Some false) (add_event ECloseDhtAnnounce t))
       end.

Definition tryAnnounceAll : M unit :=
  w ← gets wantPeers;
  when w (
    tr ← gets (fun t => canAnnounceTracker (t_dial t));
    when tr (sendAnnounceToTracker EvNone);;
    dht ← gets (fun t => canAnnounceDht (t_dial t));
    when dht announceDht).

Definition popPeer : M Peer :=
  l ← gets (fun t => peers (t_dial t));
  i ← draw (fun k => env_Intn env k (lenZ l));
  match at_index l i with
  | Some p => modify (set_peers (take (Z.to_nat i) l ++ drop (Datatypes.S (Z.to_nat i)) l));; mret p
  | None => tpanic
  end.

Fixpoint dial_loop (fuel : nat) : M unit :=
  more ← gets (fun t => (0 <? lenZ (peers (t_dial t))) &&
                        (Z.of_nat (base.size (halfOpen (t_dial t))) <? maxHalfOpenConns (t_cfg t)));
  if negb more then mret ()
  else match fuel with
       | O => tfuel
       | Datatypes.S fuel =>
           peer ← popPeer;
           skip ← gets (fun t => peerInActiveConns t peer || containsInBlackList t (p_IP peer));
           when (negb skip)
             (modify (fun t => add_event (EDial peer)
                (set_halfOpen (<[peer_String peer := peer]> (halfOpen (t_dial t))) t)));;
           dial_loop fuel
       end.

Definition dialConns : M unit :=
  w ← gets wantConns;
  when w (n ← gets (fun t => length (peers (t_dial t))); dial_loop n;; tryAnnounceAll).

Definition removeHalfOpen (addr : bytes) : M unit :=
  modify (fun t => set_halfOpen (delete addr (halfOpen (t_dial t))) t);; dialConns.

Definition gotPeers (l : list Peer) : M unit :=
  modify (fun t => set_peers (peers (t_dial t) ++
                     filter (fun p => containsInBlackList t (p_IP p) = false) l) t);;
  dialConns.

(** ** Messages to a connection

    [onDrop] is what to do when the connection turns out to be closed: it stands for
    droppedConn, which is defined below with these operations. *)

Section ops.
Variable onDrop : Z -> M bool.

Definition sendMsgToConn (id : Z) (msg : cmsg B) : M unit :=
  s ← draw (env_send env);
  match s with
  | Sent => modInfo id (ci_push msg)
  | Dropped => onDrop id;; mret ()
  | Stuck => twaits
  end.

Definition choke (id : Z) : M unit :=
  ci ← getInfo id;
  when (negb (amChoking (ci_state ci)))
    (sendMsgToConn id (CWire (simple_msg Choke));;
     modInfo id (ci_with_state flip_amChoking);;
     ci ← getInfo id;
     when (isInterested (ci_state ci)) (modInfo_now id stoppedUploading)).

Definition unchoke (id : Z) : M unit :=
  ci ← getInfo id;
  up ← gets (fun t => uploadEnabled (t_data t));
  when (amChoking (ci_state ci) && up)
    (sendMsgToConn id (CWire (simple_msg Unchoke));;
     modInfo id (ci_with_state flip_amChoking);;
     modInfo_now id startedUploading).

Definition interested (id : Z) : M unit :=
  ci ← getInfo id;
  down ← gets (fun t => downloadEnabled (t_data t));
  if numWant ci <=? 0 then mret ()
  else when (negb (amInterested (ci_state ci)) && down)
    (sendMsgToConn id (CWire (simple_msg Interested));;
     modInfo id (ci_with_state flip_amInterested);;
     modInfo_now id startedDownloading).

Definition notInterested (id : Z) : M unit :=
  ci ← getInfo id;
  when (amInterested (ci_state ci))
    (sendMsgToConn id (CWire (simple_msg NotInterested));;
     modInfo id (ci_with_state flip_amInterested);;
     ci ← getInfo id;
     when (negb (isChoking (ci_state ci))) (modInfo_now id stoppedDownloading)).

Definition have (id i : Z) : M unit :=
  sendMsgToConn id (CWire (mkMsg Have (uint32 i) 0 0 [] [] 0 0 ExtNil)).

Definition sendBitfield (id : Z) : M unit :=
  p ← get_pieces; sendMsgToConn id (CBitmap (ownedPieces p)).

Definition sendPort (id : Z) : M unit :=
  port ← gets (fun t => dhtPort (t_cfg t));
  sendMsgToConn id (CWire (mkMsg Port 0 0 0 [] [] port 0 ExtNil)).

(** ** Loops over the connections

    [range] fixes the slice header when the loop starts; the array is read at each
    turn. *)

Definition arr_at (k : nat) : M Z := fun t =>
  match t_arr t !! k with Some id => Ok (id, t) | None => Panic end.

Definition range_conns (f : Z -> M unit) : M unit :=
  n ← gets t_len; for_each (fun k => id ← arr_at k; f id) (seq 0 n).

(** ** The choker *)

Definition candidate_entries (n k : nat) (id : Z) (ci : connInfo) : list Z :=
  if amChoking (ci_state ci) && isInterested (ci_state ci)
  then id :: (if Z.of_nat n - 3 <=? Z.of_nat k then [id; id] else [])
  else [].

Fixpoint candidates (n : nat) (ks : list nat) (acc : list Z) : M (list Z) :=
  match ks with
  | [] => mret acc
  | k :: ks => id ← arr_at k; ci ← getInfo id; candidates n ks (acc ++ candidate_entries n k id ci)
  end.

Definition set_optimistic (o : option Z) : M unit :=
  modify (fun t => set_choker (mkChoker (currRound (t_choker t)) o (enableOptimistic (t_choker t))
                                        (maxUploadSlots (t_choker t))) t).

Definition pickOptimisticUnchoke : M unit :=
  n ← gets t_len;
  cands ← candidates n (seq 0 n) [];
  if (length cands =? 0)%nat then set_optimistic None
  else i ← draw (fun k => env_Intn env k (lenZ cands));
       match at_index cands i with Some id => set_optimistic (Some id) | None => tpanic end.

Definition peerSeeding (id : Z) : M bool :=
  hi ← gets haveInfo;
  if negb hi then mret false
  else ci ← getInfo id; n ← gets numPieces; mret (bm_Len (peerBf ci) =? n).

Definition isSnubbed (id : Z) : M bool :=
  all ← t_haveAll;
  if all : bool then mret false
  else now ← draw (env_now env); ci ← getInfo id;
       let '(cs, s) := stats_isSnubbed now (ci_stats ci) in
       modInfo id (ci_with_stats (fun _ => cs));; mret s.

(** The connections that are neither seeding nor, in the second list, snubbed or
    uninterested; seeding ones are choked. *)
Fixpoint classify (ks : list nat) (opt best : list Z) : M (list Z * list Z) :=
  match ks with
  | [] => mret (opt, best)
  | k :: ks =>
      id ← arr_at k;
      seeding ← peerSeeding id;
      if seeding : bool then choke id;; classify ks opt best
      else snub ← isSnubbed id; ci ← getInfo id;
           if (snub : bool) || negb (isInterested (ci_state ci))
           then classify ks (opt ++ [id]) best else classify ks opt (best ++ [id])
  end.

(** byRate, at one reading of the clock. *)
Definition sort_byRate (l : list Z) : M (list Z) :=
  all ← (if (length l <=? 1)%nat then mret false else t_haveAll);
  now ← draw (env_now env);
  infos ← gets t_infos;
  let r id := from_option (rate all now) (f64_of 0) (infos !! id) in
  mret (sort_Slice (fun i j => f64_gtb (r i) (r j)) l).

Fixpoint unchoke_best (l : list Z) (toUnchoke : Z) : M Z :=
  match l with
  | [] => mret toUnchoke
  | id :: l =>
      o ← gets (fun t => optimistic (t_choker t));
      if bool_decide (o = Some id) then unchoke_best l toUnchoke
      else unchoke id;; unchoke_best l (toUnchoke - 1)
  end.

Fixpoint unchoke_rest (cands : list Z) (order : list nat) (toUnchoke : Z) : M unit :=
  match order with
  | [] => mret ()
  | k :: order =>
      match cands !! k with
      | None => tpanic
      | Some id =>
          o ← gets (fun t => optimistic (t_choker t));
          if bool_decide (o = Some id) then unchoke_rest cands order toUnchoke
          else if toUnchoke <=? 0 then choke id;; unchoke_rest cands order toUnchoke
          else unchoke id;; ci ← getInfo id;
               unchoke_rest cands order (if isInterested (ci_state ci) then toUnchoke - 1 else toUnchoke)
      end
  end.

Definition next_round : M unit :=
  modify (fun t => set_choker (mkChoker (int64 (currRound (t_choker t) + 1)) (optimistic (t_choker t))
                                 (enableOptimistic (t_choker t)) (maxUploadSlots (t_choker t))) t).

Definition review : M unit :=
  c ← gets t_choker;
  when (enableOptimistic c && (Z.rem (currRound c) 5 =? 0)) pickOptimisticUnchoke;;
  o ← gets (fun t => optimistic (t_choker t));
  match o with Some id => unchoke id | None => mret () end;;
  n ← gets t_len;
  '(opt, best) ← classify (seq 0 n) [] [];
  best ← sort_byRate best;
  slots ← gets (fun t => maxUploadSlots (t_choker t));
  left ← unchoke_best (take (Z.to_nat slots) best) slots;
  let cands := opt ++ drop (Z.to_nat slots) best in
  order ← draw (fun k => env_Perm env k (length cands));
  unchoke_rest cands order left.

Definition reviewUnchokedPeers : M unit :=
  n ← gets t_len;
  when (negb (n =? 0)%nat) review;; next_round.

End ops.

(** ** Dropped connections *)

(** The first index of a connection in t.conns. *)
Fixpoint index_of (id : Z) (l : list Z) : option nat :=
  match l with
  | [] => None
  | x :: l => if x =? id then Some 0%nat else Datatypes.S <$> index_of id l
  end.

Definition connIndex (t : torrent) (id : Z) : option nat := index_of id (conns t).

(** append(t.conns[:index], t.conns[index+1:]...) in place. *)
Definition removeConn (index : nat) (t : torrent) : torrent :=
  set_conns (take index (t_arr t) ++ drop (Datatypes.S index) (take (t_len t) (t_arr t)) ++
             drop (t_len t - 1) (t_arr t)) (t_len t - 1) t.

Fixpoint droppedConn_fuel (fuel : nat) (id : Z) : M bool :=
  match fuel with
  | O => tfuel
  | Datatypes.S fuel =>
      i ← gets (fun t => connIndex t id);
      match i with
      | None => mret false
      | Some i =>
          modify (removeConn i);;
          ci ← getInfo id;
          modify (fun t => if infoWasDownloaded t && negb (dataTransferAllowed t)
                           then set_peers (peers (t_dial t) ++ [ci_peer ci]) t else t);;
          dialConns;;
          reviewUnchokedPeers (droppedConn_fuel fuel);;
          mret true
      end
  end.

(** Every nested drop has one connection less, so the number of connections bounds
    the depth of the calls. *)
Definition droppedConn (id : Z) : M bool := fun t => droppedConn_fuel (Datatypes.S (t_len t)) id t.

End swarm.
