(* ===== verification/SwarmInv.v ===== *)
(** * The connections of a torrent: invariant and termination

    Every operation on the connections of a torrent returns, however many of the
    connections turn out to be closed while it runs, and keeps the invariant [wf]: the
    slice has no duplicates, every pointer is valid, and what the torrent believes of
    its choke and interest flags towards a connection is what the messages handed to
    that connection say. *)

From S2P Require Import Prelude Wire Bitmap Piece Pieces Metadata ConnInfo Swarm.

(** The flags of a connection after its messages are the torrent's. *)
Definition synced {B} (ci : connInfo B) : Prop :=
  amInterested (conn_replay (ci_sent ci)) = amInterested (ci_state ci) /\
  amChoking (conn_replay (ci_sent ci)) = amChoking (ci_state ci).

Lemma conn_replay_push {B} (l : list (cmsg B)) m : conn_replay (l ++ [m]) = conn_apply m (conn_replay l).
Proof. unfold conn_replay. by rewrite foldl_app. Qed.

(** A message of another kind says nothing of the flags. *)
Definition neutral {B} (m : cmsg B) : Prop := forall cs, conn_apply m cs = cs.

Lemma synced_push {B} (m : cmsg B) ci : neutral m -> synced ci -> synced (ci_push m ci).
Proof. intros Hm. unfold synced, ci_push. cbn [ci_sent ci_state]. by rewrite conn_replay_push, Hm. Qed.

Lemma synced_stats {B} f (ci : connInfo B) : synced ci -> synced (ci_with_stats f ci).
Proof. done. Qed.

Lemma synced_startedUploading {B} now (ci : connInfo B) : synced ci -> synced (startedUploading now ci).
Proof. unfold startedUploading. by destruct (canUpload _). Qed.

Lemma synced_startedDownloading {B} now (ci : connInfo B) : synced ci -> synced (startedDownloading now ci).
Proof. unfold startedDownloading. by destruct (canDownload _). Qed.

(** The four changes of a flag. *)
Lemma synced_choke {B} (ci : connInfo B) :
  amChoking (ci_state ci) = false -> synced ci ->
  synced (ci_with_state flip_amChoking (ci_push (CWire (simple_msg Choke)) ci)).
Proof.
  intros E [H1 H2]. unfold synced, ci_with_state, ci_push. cbn [ci_sent ci_state]. rewrite conn_replay_push.
  unfold flip_amChoking. cbn [amInterested amChoking]. by rewrite E.
Qed.

Lemma synced_unchoke {B} (ci : connInfo B) :
  amChoking (ci_state ci) = true -> synced ci ->
  synced (ci_with_state flip_amChoking (ci_push (CWire (simple_msg Unchoke)) ci)).
Proof.
  intros E [H1 H2]. unfold synced, ci_with_state, ci_push. cbn [ci_sent ci_state]. rewrite conn_replay_push.
  unfold flip_amChoking. cbn [amInterested amChoking]. by rewrite E.
Qed.

Lemma synced_interested {B} (ci : connInfo B) :
  amInterested (ci_state ci) = false -> synced ci ->
  synced (ci_with_state flip_amInterested (ci_push (CWire (simple_msg Interested)) ci)).
Proof.
  intros E [H1 H2]. unfold synced, ci_with_state, ci_push. cbn [ci_sent ci_state]. rewrite conn_replay_push.
  unfold flip_amInterested. cbn [amInterested amChoking]. by rewrite E.
Qed.

Lemma synced_notInterested {B} (ci : connInfo B) :
  amInterested (ci_state ci) = true -> synced ci ->
  synced (ci_with_state flip_amInterested (ci_push (CWire (simple_msg NotInterested)) ci)).
Proof.
  intros E [H1 H2]. unfold synced, ci_with_state, ci_push. cbn [ci_sent ci_state]. rewrite conn_replay_push.
  unfold flip_amInterested. cbn [amInterested amChoking]. by rewrite E.
Qed.

Section inv.
Context {B S : Type}.

Abbreviation torrent := (torrent B S).
Abbreviation M := (M B S).
Implicit Types (t : torrent) (id : Z).

Record wf t : Prop := mkWf {
  wf_len : (t_len t <= length (t_arr t))%nat;
  wf_arr : Forall (fun id => id ∈ dom (t_infos t)) (t_arr t);
  wf_nodup : NoDup (conns t);
  wf_opt : forall id, optimistic (t_choker t) = Some id -> id ∈ dom (t_infos t);
  wf_pieces : haveInfo t = true -> is_Some (pieces_ (t_data t));
  wf_sync : forall id ci, id ∈ conns t -> t_infos t !! id = Some ci -> synced ci;
  wf_dht : dhtAnnounceResp (t_dial t) <> None;
}.

(** What the operations leave: connections only go away, and the data of the
    torrent and its limits are not touched. *)
Record ext t t' : Prop := mkExt {
  ext_cfg : t_cfg t' = t_cfg t;
  ext_data : t_data t' = t_data t;
  ext_dom : dom (t_infos t') = dom (t_infos t);
  ext_len : (t_len t' <= t_len t)%nat;
  ext_cap : length (t_arr t') = length (t_arr t);
  ext_conns : conns t' ⊆ conns t;
}.

Lemma ext_refl t : ext t t.
Proof. by constructor. Qed.

Lemma ext_trans t1 t2 t3 : ext t1 t2 -> ext t2 t3 -> ext t1 t3.
Proof. intros [] []. constructor; (lia || congruence || set_solver). Qed.

(** [m] returns, within the invariant, a result that satisfies [Q]. *)
Definition runs {A} (m : M A) t (Q : A -> torrent -> Prop) : Prop :=
  exists a t', m t = Ok (a, t') /\ ext t t' /\ wf t' /\ Q a t'.

Lemma runs_ret {A} (a : A) t (Q : A -> torrent -> Prop) : wf t -> Q a t -> runs (mret a) t Q.
Proof. intros Hw Hq. exists a, t. by split_and!; [|apply ext_refl|..]. Qed.

Lemma runs_bind {A C} (m : M A) (f : A -> M C) t Q (R : C -> torrent -> Prop) :
  runs m t Q -> (forall a t', ext t t' -> wf t' -> Q a t' -> runs (f a) t' R) -> runs (m ≫= f) t R.
Proof.
  intros (a & t1 & E1 & X1 & W1 & Q1) Hf. destruct (Hf a t1 X1 W1 Q1) as (c & t2 & E2 & X2 & W2 & Q2).
  exists c, t2. split_and!; [|by eapply ext_trans|done|done].
  unfold mbind, M_bind. by rewrite E1.
Qed.

Lemma bind_assoc {A C E} (m : M A) (f : A -> M C) (g : C -> M E) t :
  ((m ≫= f) ≫= g) t = (m ≫= (fun a => f a ≫= g)) t.
Proof. unfold mbind, M_bind. by destruct (m t) as [[]| |]. Qed.

(** ** Primitive operations *)

Lemma runs_gets {A} (f : torrent -> A) t : wf t -> runs (gets f) t (fun a t' => a = f t /\ t' = t).
Proof. intros. exists (f t), t. by split_and!; [|apply ext_refl|..]. Qed.

Lemma runs_draw {A} (f : nat -> A) t : wf t -> runs (draw f) t (fun a t' => a = f (t_tick t) /\ t' = bump t).
Proof. intros [? ? ? ? ? ?]. exists (f (t_tick t)), (bump t). by split_and!. Qed.

Lemma runs_modify f t : wf (f t) -> ext t (f t) -> runs (modify f) t (fun _ t' => t' = f t).
Proof. intros. by exists (), (f t). Qed.

Lemma getInfo_Some id t : id ∈ dom (t_infos t) -> exists ci, t_infos t !! id = Some ci.
Proof. by rewrite elem_of_dom. Qed.

Lemma runs_getInfo id t : wf t -> id ∈ dom (t_infos t) ->
  runs (getInfo id) t (fun ci t' => t_infos t !! id = Some ci /\ t' = t).
Proof.
  intros Hw [ci Hci]%getInfo_Some. exists ci, t. unfold getInfo. rewrite Hci.
  by split_and!; [|apply ext_refl|..].
Qed.

Lemma conns_set_infos m t : conns (set_infos m t) = conns t.
Proof. done. Qed.

(** An update of a record that keeps the flags in step, or of a record that is no
    connection any more. *)
Lemma runs_modInfo id f t :
  wf t -> id ∈ dom (t_infos t) -> (id ∈ conns t -> forall ci, synced ci -> synced (f ci)) ->
  runs (modInfo id f) t (fun _ t' => exists ci, t_infos t !! id = Some ci /\
                                      t' = set_infos (<[id := f ci]> (t_infos t)) t).
Proof.
  intros Hw Hid Hf. destruct (getInfo_Some _ _ Hid) as [ci Hci]. unfold modInfo.
  eexists _, _. rewrite Hci. split_and!; [done| | |by eexists].
  - constructor; cbn; try done. rewrite dom_insert_L. set_solver.
  - destruct Hw as [? Ha ? Ho ? Hs]. constructor; cbn; try done.
    + eapply Forall_impl; [exact Ha|]. cbn. intros x. rewrite dom_insert_L. set_solver.
    + intros x Hx. rewrite dom_insert_L. specialize (Ho x Hx). set_solver.
    + intros x cx Hx. destruct (decide (x = id)) as [->|Hne].
      * rewrite lookup_insert_eq. intros [= <-]. apply Hf; [done|]. by eapply Hs.
      * rewrite lookup_insert_ne by done. by apply Hs.
Qed.

Context `{BitmapOps B}.

Lemma runs_get_pieces t : wf t -> haveInfo t = true ->
  runs get_pieces t (fun p t' => pieces_ (t_data t) = Some p /\ t' = t).
Proof.
  intros Hw Hi. destruct (wf_pieces _ Hw Hi) as [p Hp]. exists p, t. unfold get_pieces. rewrite Hp.
  by split_and!; [|apply ext_refl|..].
Qed.

Lemma runs_haveAll t : wf t -> runs t_haveAll t (fun _ t' => t' = t).
Proof.
  intros Hw. unfold t_haveAll. eapply runs_bind; [by apply runs_gets|]. intros b t' X W [-> ->].
  destruct (haveInfo t) eqn:Hi; cbn [negb]; [|by apply runs_ret].
  eapply runs_bind; [by apply runs_get_pieces|]. intros p t' _ _ [_ ->].
  eapply runs_bind; [by apply runs_gets|]. intros d t' _ _ [-> ->]. by apply runs_ret.
Qed.

Lemma runs_weaken {A} (m : M A) t (Q R : A -> torrent -> Prop) :
  runs m t Q -> (forall a t', ext t t' -> wf t' -> Q a t' -> R a t') -> runs m t R.
Proof. intros (a & t' & E & X & W & Hq) Hr. exists a, t'. split_and!; try done. by apply Hr. Qed.

Lemma runs_when_post b (m : M ()) t (Q : () -> torrent -> Prop) :
  wf t -> (b = true -> runs m t Q) -> (b = false -> Q () t) -> runs (when b m) t Q.
Proof. intros Hw Hm Hq. destruct b; cbn; [by apply Hm|]. apply runs_ret; [done|by apply Hq]. Qed.

Lemma runs_when b (m : M ()) t : wf t -> (b = true -> runs m t (fun _ _ => True)) -> runs (when b m) t (fun _ _ => True).
Proof. intros. by apply runs_when_post. Qed.

(** An update of the choker's record or of the dialing part. *)
Lemma wf_same t t' :
  wf t -> t_data t' = t_data t -> t_arr t' = t_arr t -> t_len t' = t_len t -> t_infos t' = t_infos t ->
  (forall id, optimistic (t_choker t') = Some id -> id ∈ dom (t_infos t)) ->
  (dhtAnnounceResp (t_dial t) <> None -> dhtAnnounceResp (t_dial t') <> None) -> wf t'.
Proof.
  intros [H1' H2' H3' H4' H5' H6' H7'] Ed Ea El Ei Ho Hd. constructor; unfold conns, haveInfo in *; rewrite ?Ed, ?Ea, ?El, ?Ei; try done. by apply Hd.
Qed.

Lemma ext_same t t' :
  t_cfg t' = t_cfg t -> t_data t' = t_data t -> t_arr t' = t_arr t -> t_len t' = t_len t -> t_infos t' = t_infos t -> ext t t'.
Proof. intros Ec Ed Ea El Ei. constructor; unfold conns; rewrite ?Ed, ?Ea, ?El, ?Ei; done. Qed.

Lemma runs_modify_same f t :
  wf t -> t_cfg (f t) = t_cfg t -> t_data (f t) = t_data t -> t_arr (f t) = t_arr t -> t_len (f t) = t_len t ->
  t_infos (f t) = t_infos t -> (forall id, optimistic (t_choker (f t)) = Some id -> id ∈ dom (t_infos t)) ->
  (dhtAnnounceResp (t_dial t) <> None -> dhtAnnounceResp (t_dial (f t)) <> None) ->
  runs (modify f) t (fun _ t' => t' = f t).
Proof. intros. apply runs_modify; [by eapply wf_same|by apply ext_same]. Qed.

Context `{SortSliceLaws Z}.
Variable env : Env.
Context `{EnvLaws env}.
Variable ip6_String : bytes -> bytes.
Variable int_of_Inf : Z.

Lemma runs_modInfo_now id f t :
  wf t -> id ∈ dom (t_infos t) -> (forall now, id ∈ conns t -> forall ci, synced ci -> synced (f now ci)) ->
  runs (modInfo_now env id f) t (fun _ _ => True).
Proof.
  intros Hw Hid Hf. eapply runs_bind; [by apply runs_draw|]. intros now t' X W [-> ->].
  destruct (runs_modInfo id (f (env_now env (t_tick t))) (bump t) W) as (a & t2 & E & X2 & W2 & _);
    [done|by apply Hf|]. by exists a, t2.
Qed.

(** ** Announces and dials *)

Abbreviation True2 := (fun _ _ => True).

Ltac run_gets := eapply runs_bind; [by apply runs_gets|]; cbn beta; intros ? ? _ _ [-> ->].

Lemma runs_modify_if f t :
  wf t -> (f t = t \/ wf (f t) /\ ext t (f t)) -> runs (modify f) t True2.
Proof.
  intros Hw [E|[? ?]]; (eapply runs_weaken; [apply runs_modify|done]); rewrite ?E; try done; apply ext_refl.
Qed.

(** A wait for another goroutine ends. *)
Lemma runs_await ends t : wf t -> (forall k, ends k = true) -> runs (await ends) t (fun _ t' => t' = bump t).
Proof.
  intros Hw He. eapply runs_bind; [by apply runs_draw|]. intros ok t1 _ W1 [-> ->]. rewrite He. by apply runs_ret.
Qed.

(** The announce that is handed over once the channel has room. *)
Definition announced (e : tracker_event) t : torrent :=
  set_announce false (canAnnounceDht (t_dial t)) (add_event (EAnnounceTracker e (stats (t_data t))) t).

Lemma sendAnnounce_Ok e t a t' :
  sendAnnounceToTracker env e t = Ok (a, t') -> t' = t \/ t' = announced e (bump t).
Proof.
  unfold sendAnnounceToTracker, mbind, M_bind, gets. destruct (_ || _ || _); [intros [= _ <-]; by left|].
  unfold await, draw, mbind, M_bind. destruct (env_room env (t_tick t)); [|done]. intros [= _ <-]. by right.
Qed.

Lemma runs_sendAnnounce e t : wf t -> runs (sendAnnounceToTracker env e) t True2.
Proof.
  intros Hw. unfold sendAnnounceToTracker. run_gets. destruct (_ || _ || _); [by apply runs_ret|].
  eapply runs_bind; [apply runs_await, room_ends; done|]. intros _ t1 _ W1 _.
  eapply runs_weaken; [apply runs_modify_same; try done; apply W1|done].
Qed.

Lemma runs_announceDht t : wf t -> runs (announceDht env) t True2.
Proof.
  intros Hw. unfold announceDht. run_gets. destruct (_ || _); [by apply runs_ret|].
  eapply runs_bind; [by apply runs_draw|]. intros ok t1 _ W1 [-> ->]. rewrite dht_takes.
  eapply runs_bind; [apply runs_modify_same; try done; apply W1|]. intros _ t2 _ W2 _.
  eapply runs_weaken; [apply runs_modify_same; try done; apply W2|done].
Qed.

Lemma runs_tryAnnounceAll t : wf t -> runs (tryAnnounceAll env int_of_Inf) t True2.
Proof.
  intros Hw. unfold tryAnnounceAll. run_gets. apply runs_when; [done|]. intros _. run_gets.
  eapply runs_bind; [apply runs_when; [done|]; intros _; by apply runs_sendAnnounce|]. intros _ t1 _ W1 _.
  run_gets. apply runs_when; [done|]. intros _. by apply runs_announceDht.
Qed.

Lemma runs_popPeer t : wf t -> peers (t_dial t) <> [] ->
  runs (popPeer env) t (fun _ t' => Datatypes.S (length (peers (t_dial t'))) = length (peers (t_dial t))).
Proof.
  intros Hw Hp. unfold popPeer. run_gets. eapply runs_bind; [by apply runs_draw|]. intros i t1 _ W1 [-> ->].
  assert (Hr : 0 < lenZ (peers (t_dial t))) by (destruct (peers (t_dial t)); [done|cbn; lia]).
  pose proof (Intn_range (t_tick t) _ Hr) as Hi. set (i := env_Intn env _ _) in *.
  destruct (at_index_Some (peers (t_dial t)) i Hi) as [p ->].
  eapply runs_bind; [apply runs_modify_same; try done; apply W1|]. intros _ t2 _ W2 ->.
  apply runs_ret; [done|]. cbn. rewrite length_app, length_take, length_drop. lia.
Qed.

Lemma runs_dial_loop fuel t : wf t -> (length (peers (t_dial t)) <= fuel)%nat ->
  runs (dial_loop env ip6_String fuel) t True2.
Proof.
  revert t. induction fuel as [|fuel IH]; intros t Hw Hf; cbn [dial_loop]; run_gets.
  - assert (peers (t_dial t) = []) as -> by (destruct (peers (t_dial t)); [done|cbn in Hf; lia]). by apply runs_ret.
  - destruct (_ && _) eqn:E; cbn [negb]; [|by apply runs_ret]. apply andb_true_iff in E as [E _].
    apply Z.ltb_lt in E. eapply runs_bind; [apply runs_popPeer; [done|]|].
    { intros E'. rewrite E' in E. cbn in E. lia. }
    intros p t1 _ W1 Hl. run_gets.
    eapply (runs_bind _ _ _ (fun _ t' => peers (t_dial t') = peers (t_dial t1))).
    { apply runs_when_post; [done| |done]. intros _.
      eapply runs_weaken; [apply runs_modify_same; try done; apply W1|]. by intros _ t2 _ _ ->. }
    intros _ t2 _ W2 E2. apply IH; [done|]. cbn beta in Hl, E2. rewrite E2. lia.
Qed.

Lemma runs_dialConns t : wf t -> runs (dialConns env ip6_String int_of_Inf) t True2.
Proof.
  intros Hw. unfold dialConns. run_gets. apply runs_when; [done|]. intros _. run_gets.
  eapply runs_bind; [by apply runs_dial_loop|]. intros _ t1 _ W1 _. by apply runs_tryAnnounceAll.
Qed.

(** ** Messages *)

Section ops.
Variable onDrop : Z -> M bool.
(** Dropping works while there are fewer than [n] connections. *)
Variable n : nat.
Hypothesis onDrop_runs : forall id t, wf t -> id ∈ dom (t_infos t) -> (t_len t < n)%nat ->
  runs (onDrop id) t (fun _ t' => id ∉ conns t').

Lemma runs_send id m t :
  neutral m -> wf t -> id ∈ dom (t_infos t) -> (t_len t < n)%nat -> runs (sendMsgToConn env onDrop id m) t True2.
Proof.
  intros Hm Hw Hid Hn. unfold sendMsgToConn. eapply runs_bind; [by apply runs_draw|]. intros d t1 _ W1 [-> ->].
  destruct (env_send env (t_tick t)) eqn:Es.
  - eapply runs_weaken; [apply runs_modInfo; [done|done|]|done]. intros _ ci. by apply synced_push.
  - eapply runs_bind; [by apply onDrop_runs|]. intros _ t2 _ W2 _. by apply runs_ret.
  - by apply send_ends in Es.
Qed.

(** A message that announces a new flag, and the change of that flag. *)
Lemma runs_send_flip id m f t ci :
  wf t -> t_infos t !! id = Some ci -> (t_len t < n)%nat ->
  (synced ci -> synced (ci_with_state f (ci_push m ci))) ->
  runs (sendMsgToConn env onDrop id m ≫= fun _ => modInfo id (ci_with_state f)) t True2.
Proof.
  intros Hw Hci Hn Hf. assert (Hid : id ∈ dom (t_infos t)) by (apply elem_of_dom; eauto).
  assert (Wb : wf (bump t)) by (by destruct Hw). assert (Xb : ext t (bump t)) by (by apply ext_same).
  unfold runs, sendMsgToConn, draw, mbind, M_bind. destruct (env_send env (t_tick t)) eqn:Es; [| |by apply send_ends in Es].
  2:{ destruct (onDrop_runs id (bump t) Wb Hid Hn) as (b & t1 & -> & X1 & W1 & Hout). unfold mret, M_ret.
    destruct (runs_modInfo id (ci_with_state f) t1 W1) as (a & t2 & -> & X2 & W2 & _); [|done|].
    { by rewrite (ext_dom _ _ X1). }
    exists a, t2. split_and!; try done. eapply ext_trans; [exact Xb|]. by eapply ext_trans. }
  - unfold modInfo. cbn [bump t_infos]. rewrite Hci. cbn [set_infos t_infos]. rewrite lookup_insert_eq, insert_insert_eq.
    assert (Hx : id ∈ conns (bump t) -> synced ci) by (intros Hc; by apply (wf_sync _ Hw id)).
    destruct (runs_modInfo id (fun _ => ci_with_state f (ci_push m ci)) (bump t) Wb Hid) as (a & t2 & E & X2 & W2 & _).
    { intros Hc c _. by apply Hf, Hx. }
    exists a, t2. split_and!; [|by eapply ext_trans|done|done]. rewrite <- E. unfold modInfo. cbn [bump t_infos].
    by rewrite Hci.
Qed.

Lemma runs_assoc {A C E} (m : M A) (f : A -> M C) (g : C -> M E) t Q :
  runs ((m ≫= f) ≫= g) t Q -> runs (m ≫= (fun a => f a ≫= g)) t Q.
Proof. unfold runs. by rewrite bind_assoc. Qed.

(** The common shape of the four operations. *)
Lemma runs_flag id m f (rest : M ()) t ci :
  wf t -> t_infos t !! id = Some ci -> (t_len t < n)%nat ->
  (synced ci -> synced (ci_with_state f (ci_push m ci))) ->
  (forall t', ext t t' -> wf t' -> runs rest t' True2) ->
  runs (sendMsgToConn env onDrop id m ≫= fun _ => modInfo id (ci_with_state f) ≫= fun _ => rest) t True2.
Proof.
  intros Hw Hci Hn Hf Hrest. apply runs_assoc. eapply runs_bind; [by eapply runs_send_flip|].
  intros _ t1 X1 W1 _. by apply Hrest.
Qed.

Lemma dom_ext id t t' : ext t t' -> id ∈ dom (t_infos t) -> id ∈ dom (t_infos t').
Proof. intros X. by rewrite (ext_dom _ _ X). Qed.

Lemma runs_choke id t :
  wf t -> id ∈ dom (t_infos t) -> (t_len t < n)%nat -> runs (choke env onDrop id) t True2.
Proof.
  intros Hw Hid Hn. unfold choke. eapply runs_bind; [by apply runs_getInfo|]. intros ci t0 _ _ [Hci ->].
  apply runs_when; [done|]. intros Hc%negb_true_iff. eapply runs_flag; [done|done|done|by apply synced_choke|].
  intros t1 X1 W1. eapply runs_bind; [by eapply runs_getInfo, dom_ext|]. intros ci1 t2 _ _ [_ ->].
  apply runs_when; [done|]. intros _. apply runs_modInfo_now; [done|by eapply dom_ext|done].
Qed.

Lemma runs_unchoke id t :
  wf t -> id ∈ dom (t_infos t) -> (t_len t < n)%nat -> runs (unchoke env onDrop id) t True2.
Proof.
  intros Hw Hid Hn. unfold unchoke. eapply runs_bind; [by apply runs_getInfo|]. intros ci t0 _ _ [Hci ->].
  run_gets. apply runs_when; [done|]. intros [Hc _]%andb_true_iff.
  eapply runs_flag; [done|done|done|by apply synced_unchoke|]. intros t1 X1 W1.
  apply runs_modInfo_now; [done|by eapply dom_ext|]. intros. by apply synced_startedUploading.
Qed.

Lemma runs_interested id t :
  wf t -> id ∈ dom (t_infos t) -> (t_len t < n)%nat -> runs (interested env onDrop id) t True2.
Proof.
  intros Hw Hid Hn. unfold interested. eapply runs_bind; [by apply runs_getInfo|]. intros ci t0 _ _ [Hci ->].
  run_gets. destruct (_ <=? 0); [by apply runs_ret|]. apply runs_when; [done|]. intros [Hc%negb_true_iff _]%andb_true_iff.
  eapply runs_flag; [done|done|done|by apply synced_interested|]. intros t1 X1 W1.
  apply runs_modInfo_now; [done|by eapply dom_ext|]. intros. by apply synced_startedDownloading.
Qed.

Lemma runs_notInterested id t :
  wf t -> id ∈ dom (t_infos t) -> (t_len t < n)%nat -> runs (notInterested env onDrop id) t True2.
Proof.
  intros Hw Hid Hn. unfold notInterested. eapply runs_bind; [by apply runs_getInfo|]. intros ci t0 _ _ [Hci ->].
  apply runs_when; [done|]. intros Hc. eapply runs_flag; [done|done|done|by apply synced_notInterested|].
  intros t1 X1 W1. eapply runs_bind; [by eapply runs_getInfo, dom_ext|]. intros ci1 t2 _ _ [_ ->].
  apply runs_when; [done|]. intros _. apply runs_modInfo_now; [done|by eapply dom_ext|done].
Qed.

(** ** Loops over the connections *)

Lemma runs_arr_at k t : wf t -> (k < length (t_arr t))%nat ->
  runs (arr_at k) t (fun id t' => id ∈ dom (t_infos t) /\ t' = t).
Proof.
  intros Hw Hk. destruct (lookup_lt_is_Some_2 _ _ Hk) as [id Hid]. exists id, t. unfold arr_at. rewrite Hid.
  split_and!; [done|apply ext_refl|done| |done]. apply (proj1 (Forall_lookup _ _) (wf_arr _ Hw) k id Hid).
Qed.

Lemma runs_for_each {A} (f : A -> M ()) (P : A -> torrent -> Prop) l t :
  wf t -> (t_len t < n)%nat -> Forall (fun a => P a t) l -> (forall a t1 t2, P a t1 -> ext t1 t2 -> P a t2) ->
  (forall a t', wf t' -> (t_len t' < n)%nat -> P a t' -> runs (f a) t' True2) -> runs (for_each f l) t True2.
Proof.
  intros Hw Hn Hl HP Hf. revert t Hw Hn Hl. induction l as [|a l IH]; intros t Hw Hn Hl; cbn [for_each].
  { by apply runs_ret. }
  inversion Hl; subst. eapply runs_bind; [by apply Hf|]. intros _ t1 X1 W1 _. pose proof (ext_len _ _ X1).
  apply IH; [done|lia|]. eapply Forall_impl; [eassumption|]. intros b Hb. eapply HP; [exact Hb|exact X1].
Qed.

Lemma runs_range_conns f t :
  wf t -> (t_len t < n)%nat ->
  (forall id t', wf t' -> (t_len t' < n)%nat -> id ∈ dom (t_infos t') -> runs (f id) t' True2) ->
  runs (range_conns f) t True2.
Proof.
  intros Hw Hn Hf. unfold range_conns. run_gets.
  apply (runs_for_each _ (fun k t' => (k < length (t_arr t'))%nat)); [done|done| | |].
  - apply Forall_forall. intros k Hk%elem_of_seq. pose proof (wf_len _ Hw). lia.
  - intros k t1 t2 Hk X. by rewrite (ext_cap _ _ X).
  - intros k t' W' Hn' Hk. eapply runs_bind; [by apply runs_arr_at|]. intros id t1 _ _ [Hid ->]. by apply Hf.
Qed.

(** ** The choker *)

Lemma runs_candidates m ks acc t :
  wf t -> Forall (fun k => k < length (t_arr t))%nat ks -> Forall (fun id => id ∈ dom (t_infos t)) acc ->
  runs (candidates m ks acc) t (fun l t' => Forall (fun id => id ∈ dom (t_infos t)) l /\ t' = t).
Proof.
  revert acc. induction ks as [|k ks IH]; intros acc Hw Hks Hacc; cbn [candidates]; [by apply runs_ret|].
  inversion Hks; subst. eapply runs_bind; [by apply runs_arr_at|]. intros id t1 _ _ [Hid ->].
  eapply runs_bind; [by apply runs_getInfo|]. intros ci t1 _ _ [Hci ->]. apply IH; [done|done|].
  apply Forall_app. split; [done|]. unfold candidate_entries. destruct (_ && _); [|constructor].
  destruct (_ <=? _); repeat constructor; done.
Qed.

Lemma runs_set_optimistic o t :
  wf t -> (forall id, o = Some id -> id ∈ dom (t_infos t)) -> runs (set_optimistic o) t True2.
Proof. intros Hw Ho. eapply runs_weaken; [by apply runs_modify_same|done]. Qed.

Lemma seq_lt_arr t : wf t -> Forall (fun k => k < length (t_arr t))%nat (seq 0 (t_len t)).
Proof. intros Hw. apply Forall_forall. intros k Hk%elem_of_seq. pose proof (wf_len _ Hw). lia. Qed.

Lemma runs_pickOptimistic t : wf t -> runs (pickOptimisticUnchoke env) t True2.
Proof.
  intros Hw. unfold pickOptimisticUnchoke. run_gets.
  eapply runs_bind; [apply runs_candidates; [done|by apply seq_lt_arr|constructor]|].
  intros l t1 _ _ [Hl ->]. destruct (Nat.eqb_spec (length l) 0); [by apply runs_set_optimistic|].
  eapply runs_bind; [by apply runs_draw|]. intros i t1 _ W1 [-> ->].
  destruct (at_index_Some l (env_Intn env (t_tick t) (lenZ l))) as [id Hid]; [apply Intn_range; lia|].
  rewrite Hid. apply runs_set_optimistic; [done|]. intros x [= <-].
  apply at_index_lookup in Hid as [Hid _]. apply (proj1 (Forall_lookup _ _) Hl _ _ Hid).
Qed.

Lemma runs_peerSeeding id t : wf t -> id ∈ dom (t_infos t) -> runs (peerSeeding id) t (fun _ t' => t' = t).
Proof.
  intros Hw Hid. unfold peerSeeding. run_gets. destruct (negb _); [by apply runs_ret|].
  eapply runs_bind; [by apply runs_getInfo|]. intros ci t1 _ _ [_ ->]. run_gets. by apply runs_ret.
Qed.

Lemma runs_isSnubbed id t : wf t -> id ∈ dom (t_infos t) -> runs (isSnubbed env id) t True2.
Proof.
  intros Hw Hid. unfold isSnubbed. eapply runs_bind; [by apply runs_haveAll|]. intros all t1 _ _ ->.
  destruct all; [by apply runs_ret|]. eapply runs_bind; [by apply runs_draw|]. intros now t1 _ W1 [-> ->].
  eapply runs_bind; [by apply runs_getInfo|]. intros ci t1 _ _ [_ ->].
  destruct (stats_isSnubbed _ _) as [cs s]. eapply runs_bind; [by apply runs_modInfo|]. intros _ t1 _ W2 _.
  by apply runs_ret.
Qed.

Lemma Forall_dom_ext l t t' :
  ext t t' -> Forall (fun id => id ∈ dom (t_infos t)) l -> Forall (fun id => id ∈ dom (t_infos t')) l.
Proof. intros X. by rewrite (ext_dom _ _ X). Qed.

Lemma runs_classify ks opt best t :
  wf t -> (t_len t < n)%nat -> Forall (fun k => k < length (t_arr t))%nat ks ->
  Forall (fun id => id ∈ dom (t_infos t)) (opt ++ best) ->
  runs (classify env onDrop ks opt best) t (fun r t' => Forall (fun id => id ∈ dom (t_infos t')) (r.1 ++ r.2)).
Proof.
  revert opt best t. induction ks as [|k ks IH]; intros opt best t Hw Hn Hks Hl; cbn [classify]; [by apply runs_ret|].
  inversion Hks; subst. eapply runs_bind; [by apply runs_arr_at|]. intros id t0 _ _ [Hid ->].
  eapply runs_bind; [by apply runs_peerSeeding|]. intros sd t0 _ _ ->. destruct sd.
  - eapply runs_bind; [by apply runs_choke|]. intros _ t1 X1 W1 _. pose proof (ext_len _ _ X1).
    apply IH; [done|lia|by rewrite (ext_cap _ _ X1)|by eapply Forall_dom_ext].
  - eapply runs_bind; [by apply runs_isSnubbed|]. intros sn t1 X1 W1 _. pose proof (ext_len _ _ X1).
    eapply runs_bind; [by eapply runs_getInfo, dom_ext|]. intros ci t2 _ _ [_ ->].
    assert (id ∈ dom (t_infos t1)) by (by eapply dom_ext). apply (Forall_dom_ext _ _ _ X1), Forall_app in Hl as [? ?].
    destruct (_ || _); (apply IH; [done|lia|by rewrite (ext_cap _ _ X1)|]); rewrite !Forall_app, ?Forall_singleton; tauto.
Qed.

Lemma runs_sort_byRate l t : wf t -> runs (sort_byRate env l) t (fun l' t' => l' ≡ₚ l).
Proof.
  intros Hw. unfold sort_byRate. eapply (runs_bind _ _ _ (fun _ t' => t' = t)).
  { destruct (_ <=? _)%nat; [by apply runs_ret|by apply runs_haveAll]. }
  intros all t1 _ _ ->. eapply runs_bind; [by apply runs_draw|]. intros now t1 _ W1 [-> ->].
  run_gets. apply runs_ret; [done|]. apply sort_Slice_perm.
Qed.

Lemma runs_unchoke_best l k t :
  wf t -> (t_len t < n)%nat -> Forall (fun id => id ∈ dom (t_infos t)) l -> runs (unchoke_best env onDrop l k) t True2.
Proof.
  revert k t. induction l as [|id l IH]; intros k t Hw Hn Hl; cbn [unchoke_best]; [by apply runs_ret|].
  inversion Hl; subst. run_gets. case_bool_decide; [by apply IH|].
  eapply runs_bind; [by apply runs_unchoke|]. intros _ t1 X1 W1 _. pose proof (ext_len _ _ X1).
  apply IH; [done|lia|by eapply Forall_dom_ext].
Qed.

Lemma runs_unchoke_rest cands order k t :
  wf t -> (t_len t < n)%nat -> Forall (fun id => id ∈ dom (t_infos t)) cands ->
  Forall (fun i => i < length cands)%nat order -> runs (unchoke_rest env onDrop cands order k) t True2.
Proof.
  revert k t. induction order as [|i order IH]; intros k t Hw Hn Hc Ho; cbn [unchoke_rest]; [by apply runs_ret|].
  inversion Ho; subst. destruct (lookup_lt_is_Some_2 cands i) as [id Hid]; [done|]. rewrite Hid.
  assert (Hd : id ∈ dom (t_infos t)) by apply (proj1 (Forall_lookup _ _) Hc i id Hid).
  run_gets. case_bool_decide; [by apply IH|]. destruct (_ <=? 0).
  - eapply runs_bind; [by apply runs_choke|]. intros _ t1 X1 W1 _. pose proof (ext_len _ _ X1).
    apply IH; [done|lia|by eapply Forall_dom_ext|done].
  - eapply runs_bind; [by apply runs_unchoke|]. intros _ t1 X1 W1 _. pose proof (ext_len _ _ X1).
    eapply runs_bind; [by eapply runs_getInfo, dom_ext|]. intros ci t2 _ _ [_ ->].
    apply IH; [done|lia|by eapply Forall_dom_ext|done].
Qed.

Lemma runs_review t : wf t -> (t_len t < n)%nat -> runs (review env onDrop) t True2.
Proof.
  intros Hw Hn. unfold review. run_gets.
  eapply runs_bind; [apply runs_when; [done|]; intros _; by apply runs_pickOptimistic|]. intros _ t1 X1 W1 _.
  pose proof (ext_len _ _ X1). run_gets.
  eapply (runs_bind _ _ _ True2).
  { destruct (optimistic (t_choker t1)) as [id|] eqn:Ho; [|by apply runs_ret].
    apply runs_unchoke; [done|by apply (wf_opt _ W1)|lia]. }
  intros _ t2 X2 W2 _. pose proof (ext_len _ _ X2). run_gets.
  eapply runs_bind; [apply runs_classify; [done|lia|by apply seq_lt_arr|constructor]|].
  intros [opt best] t3 X3 W3 Hl. pose proof (ext_len _ _ X3). cbn [fst snd] in Hl. apply Forall_app in Hl as [Hopt Hbest].
  eapply runs_bind; [by apply runs_sort_byRate|]. intros best' t4 X4 W4 Hp. pose proof (ext_len _ _ X4).
  apply (Forall_dom_ext _ _ _ X4) in Hbest, Hopt. rewrite <- Hp in Hbest. run_gets.
  eapply runs_bind; [apply runs_unchoke_best; [done|lia|by apply Forall_take]|]. intros k t5 X5 W5 _.
  pose proof (ext_len _ _ X5). apply (Forall_dom_ext _ _ _ X5) in Hbest, Hopt.
  eapply runs_bind; [by apply runs_draw|]. intros order t6 _ W6 [-> ->].
  apply runs_unchoke_rest; [done|cbn; lia|by apply Forall_app; split; [|apply Forall_drop]|].
  rewrite (Perm_perm (EnvLaws := _)). apply Forall_forall. intros i Hi%elem_of_seq. lia.
Qed.

Lemma runs_reviewUnchokedPeers t : wf t -> (t_len t < n)%nat -> runs (reviewUnchokedPeers env onDrop) t True2.
Proof.
  intros Hw Hn. unfold reviewUnchokedPeers. run_gets.
  eapply runs_bind; [apply runs_when; [done|]; intros _; by apply runs_review|]. intros _ t1 _ W1 _.
  eapply runs_weaken; [apply runs_modify_same; try done; apply W1|done].
Qed.

End ops.

(** ** Dropped connections *)

Lemma index_of_Some id l i : index_of id l = Some i -> l !! i = Some id.
Proof.
  revert i. induction l as [|x l IH]; intros i; cbn [index_of]; [done|].
  destruct (Z.eqb_spec x id) as [->|]; [intros [= <-]; done|].
  destruct (index_of id l) as [j|]; [|done]. intros [= <-]. by apply IH.
Qed.

Lemma index_of_None id l : index_of id l = None -> id ∉ l.
Proof.
  induction l as [|x l IH]; cbn [index_of]; [intros _; apply not_elem_of_nil|].
  destruct (Z.eqb_spec x id) as [->|]; [done|]. destruct (index_of id l); [done|]. intros _.
  apply not_elem_of_cons. split; [done|by apply IH].
Qed.

Lemma conns_removeConn i t :
  wf t -> (i < t_len t)%nat -> conns (removeConn i t) = take i (conns t) ++ drop (Datatypes.S i) (conns t).
Proof.
  intros Hw Hi. pose proof (wf_len _ Hw). unfold conns, removeConn. cbn [set_conns t_arr t_len].
  rewrite take_take, Nat.min_l by lia. rewrite app_assoc, take_app_le.
  - rewrite take_ge; [done|]. rewrite length_app, length_take, length_drop, length_take. lia.
  - rewrite length_app, length_take, length_drop, length_take. lia.
Qed.

Lemma removeConn_ok i id t :
  wf t -> conns t !! i = Some id ->
  wf (removeConn i t) /\ ext t (removeConn i t) /\ id ∉ conns (removeConn i t) /\
  Datatypes.S (t_len (removeConn i t)) = t_len t.
Proof.
  intros Hw Hi. pose proof (wf_len _ Hw) as Hlen. pose proof (lookup_lt_Some _ _ _ Hi) as Hlt.
  unfold conns in Hlt. rewrite length_take in Hlt. pose proof (conns_removeConn i t Hw ltac:(lia)) as Ec.
  pose proof (wf_nodup _ Hw) as Hn. rewrite <- (take_drop_middle _ _ _ Hi) in Hn.
  apply NoDup_app in Hn as (Hn1 & Hd & [Hnot Hn2]%NoDup_cons).
  assert (Hsub : conns (removeConn i t) ⊆ conns t).
  { rewrite Ec. intros x Hx%elem_of_app. rewrite <- (take_drop_middle _ _ _ Hi). apply elem_of_app. set_solver. }
  assert (Hcap : length (t_arr (removeConn i t)) = length (t_arr t)).
  { unfold removeConn. cbn [set_conns t_arr]. rewrite !length_app, !length_drop, !length_take. lia. }
  split_and!.
  - destruct Hw as [? Ha ? Ho Hp Hs]. constructor; try done.
    + rewrite Hcap. cbn. lia.
    + unfold removeConn. cbn [set_conns t_arr t_infos]. repeat apply Forall_app_2;
        repeat first [apply Forall_drop|apply Forall_take]; done.
    + rewrite Ec. apply NoDup_app. split_and!; [done| |done]. intros x Hx Hx'. by apply (Hd x Hx), list_elem_of_further.
    + intros x cx Hx. by apply Hs, Hsub.
  - constructor; try done. cbn. lia.
  - rewrite Ec. intros [Hx|Hx]%elem_of_app; [|done]. apply (Hd id Hx). left.
  - cbn. lia.
Qed.

Lemma runs_droppedConn_fuel fuel id t :
  wf t -> id ∈ dom (t_infos t) -> (t_len t < fuel)%nat ->
  runs (droppedConn_fuel env ip6_String int_of_Inf fuel id) t (fun _ t' => id ∉ conns t').
Proof.
  revert id t. induction fuel as [|fuel IH]; intros id t Hw Hid Hn; [lia|]. cbn [droppedConn_fuel]. run_gets.
  unfold connIndex. destruct (index_of id (conns t)) as [i|] eqn:Ei.
  2:{ apply runs_ret; [done|]. by apply index_of_None. }
  apply index_of_Some in Ei. destruct (removeConn_ok i id t Hw Ei) as (W1 & X1 & Hout & Hl).
  eapply runs_bind; [by apply runs_modify|]. intros _ t1 _ _ ->.
  eapply runs_bind; [by apply runs_getInfo|]. intros ci t1 _ _ [_ ->].
  eapply runs_bind.
  { apply runs_modify_if; [done|]. destruct (_ && _); [right|by left].
    split; [apply (wf_same _ _ W1); try done; apply W1|by apply ext_same]. }
  intros _ t2 X2 W2 _. eapply runs_bind; [by apply runs_dialConns|]. intros _ t3 X3 W3 _.
  pose proof (ext_len _ _ X2). pose proof (ext_len _ _ X3).
  eapply runs_bind.
  { apply (runs_reviewUnchokedPeers _ fuel); [apply IH|done|]. lia. }
  intros _ t4 X4 W4 _. apply runs_ret; [done|]. intros Hin. apply Hout.
  by apply (ext_conns _ _ X2), (ext_conns _ _ X3), (ext_conns _ _ X4).
Qed.

Lemma runs_droppedConn id t :
  wf t -> id ∈ dom (t_infos t) ->
  runs (droppedConn env ip6_String int_of_Inf id) t (fun _ t' => id ∉ conns t').
Proof. intros Hw Hid. apply runs_droppedConn_fuel; [done|done|lia]. Qed.

(** ** Theorems *)


(** The review of the unchoked peers returns and keeps the invariant, whatever
    connections are lost in the meantime. Afterwards, for every connection that is
    left, the torrent's flags are those the connection learns from its messages. *)
Theorem review_returns t :
  wf t ->
  exists t', reviewUnchokedPeers env (droppedConn env ip6_String int_of_Inf) t = Ok ((), t') /\ wf t' /\ ext t t' /\
    forall id ci, id ∈ conns t' -> t_infos t' !! id = Some ci ->
      amChoking (conn_replay (ci_sent ci)) = amChoking (ci_state ci) /\
      amInterested (conn_replay (ci_sent ci)) = amInterested (ci_state ci).
Proof.
  intros Hw. destruct (runs_reviewUnchokedPeers _ (Datatypes.S (t_len t))
    (fun id t' W D _ => runs_droppedConn id t' W D) t Hw ltac:(lia)) as ([] & t' & E & X & W & _).
  exists t'. split_and!; [done|done|done|]. intros id ci Hid Hci. by destruct (wf_sync _ W id ci Hid Hci).
Qed.

End inv.
