(* ===== verification/Choker.v ===== *)
(** * torrent/choker.go: who is unchoked

    The effect of a review of the unchoked peers when no connection is lost in the
    meantime: how many peers are uploaded to, and that seeds are choked. Termination
    and the invariant, with connections that are lost, are in SwarmInv. *)

From S2P Require Import Prelude Wire Bitmap Piece Pieces Metadata ConnInfo Swarm SwarmInv.

Section choker.
Context {B : Type} `{BitmapOps B} {S : Type} `{SortSliceLaws Z}.
Variable env : Env.
Context `{EnvLaws env}.
Variable onDrop : Z -> M B S bool.
Hypothesis no_drop : forall k, env_send env k = Sent.

Abbreviation torrent := (torrent B S).
Abbreviation M := (M B S).
Implicit Types (t : torrent) (id : Z).

(** ** Observations of a connection *)

Definition flag (f : connState -> bool) t id : bool := from_option (fun ci => f (ci_state ci)) false (t_infos t !! id).
Abbreviation uploading t id := (flag canUpload t id).

(** The peer has every piece. *)
Definition seeding t id : bool :=
  haveInfo t && from_option (fun ci => bm_Len (peerBf ci) =? numPieces t) false (t_infos t !! id).

(** Only our choke flags towards connections in [l] change. *)
Record touches (l : list Z) t t' : Prop := mkTouches {
  to_data : t_data t' = t_data t;
  to_arr : t_arr t' = t_arr t;
  to_len : t_len t' = t_len t;
  to_choker : t_choker t' = t_choker t;
  to_int : forall id, flag isInterested t' id = flag isInterested t id;
  to_bf : forall id, peerBf <$> t_infos t' !! id = peerBf <$> t_infos t !! id;
  to_other : forall id, id ∉ l -> ci_state <$> t_infos t' !! id = ci_state <$> t_infos t !! id;
}.

Lemma touches_refl l t : touches l t t.
Proof. by constructor. Qed.

Lemma touches_trans l1 l2 t1 t2 t3 : touches l1 t1 t2 -> touches l2 t2 t3 -> touches (l1 ++ l2) t1 t3.
Proof.
  intros [] []. constructor; try congruence. intros id Hid. apply not_elem_of_app in Hid as [? ?].
  by transitivity (ci_state <$> t_infos t2 !! id); auto.
Qed.

Lemma touches_weaken l l' t t' : touches l t t' -> l ⊆ l' -> touches l' t t'.
Proof. intros [? ? ? ? ? ? Ho] Hl. constructor; try done. intros id Hid. apply Ho. set_solver. Qed.

Lemma touches_flag l t t' f id : touches l t t' -> id ∉ l -> flag f t' id = flag f t id.
Proof.
  intros X Hid. pose proof (to_other _ _ _ X id Hid) as E. unfold flag.
  destruct (t_infos t' !! id), (t_infos t !! id); cbn in *; simplify_eq; congruence.
Qed.

Lemma touches_seeding l t t' id : touches l t t' -> seeding t' id = seeding t id.
Proof.
  intros X. pose proof (to_bf _ _ _ X id) as E. unfold seeding, haveInfo, numPieces. rewrite (to_data _ _ _ X).
  destruct (t_infos t' !! id), (t_infos t !! id); cbn in *; simplify_eq; congruence.
Qed.

(** ** Inversion *)

Lemma bind_Ok {A C} (m : M A) (f : A -> M C) t r t2 :
  (m ≫= f) t = Ok (r, t2) -> exists a t1, m t = Ok (a, t1) /\ f a t1 = Ok (r, t2).
Proof. unfold mbind, M_bind. destruct (m t) as [[a t1]| |]; [|done..]. by exists a, t1. Qed.

Lemma getInfo_Ok id t ci t' : getInfo id t = Ok (ci, t') -> t' = t /\ t_infos t !! id = Some ci.
Proof. unfold getInfo. destruct (t_infos t !! id); [|done]. intros. by simplify_eq. Qed.

(** An update of one record that keeps the peer's side of it. *)
Definition mild (f : connInfo B -> connInfo B) : Prop :=
  forall ci, isInterested (ci_state (f ci)) = isInterested (ci_state ci) /\ peerBf (f ci) = peerBf ci.

Lemma modInfo_Ok id f t r t' :
  mild f -> modInfo id f t = Ok (r, t') ->
  touches [id] t t' /\ exists ci, t_infos t !! id = Some ci /\ t_infos t' !! id = Some (f ci).
Proof.
  intros Hf. unfold modInfo. destruct (t_infos t !! id) as [ci|] eqn:Hci; [|done]. intros [= <- <-].
  split; [|exists ci; cbn; by rewrite lookup_insert_eq].
  constructor; try done; cbn [set_infos t_infos]; unfold flag; cbn [set_infos t_infos]; intros x.
  - destruct (decide (x = id)) as [->|]; [rewrite lookup_insert_eq, Hci; apply (Hf ci)|by rewrite lookup_insert_ne].
  - destruct (decide (x = id)) as [->|]; [rewrite lookup_insert_eq, Hci; cbn; f_equal; apply (Hf ci)|by rewrite lookup_insert_ne].
  - intros Hx. rewrite lookup_insert_ne; [done|]. set_solver.
Qed.

Lemma bump_touches t : touches [] t (bump t).
Proof. by constructor. Qed.

Lemma modInfo_now_Ok id f t r t' :
  (forall now, mild (f now)) -> modInfo_now env id f t = Ok (r, t') ->
  touches [id] t t' /\ exists now ci, t_infos t !! id = Some ci /\ t_infos t' !! id = Some (f now ci).
Proof.
  intros Hf (now & t1 & E1 & E2)%bind_Ok. unfold draw in E1. simplify_eq.
  destruct (modInfo_Ok _ _ _ _ _ (Hf _) E2) as [X (ci & Hci & Hci')].
  split; [|by eexists _, ci]. exact (touches_trans _ _ _ _ _ (bump_touches t) X).
Qed.

Lemma send_Ok id m t r t' :
  sendMsgToConn env onDrop id m t = Ok (r, t') ->
  touches [id] t t' /\ exists ci, t_infos t !! id = Some ci /\ t_infos t' !! id = Some (ci_push m ci).
Proof.
  intros (d & t1 & E1 & E2)%bind_Ok. unfold draw in E1. simplify_eq. rewrite no_drop in E2.
  destruct (modInfo_Ok _ (ci_push m) _ _ _ ltac:(done) E2) as [X Hci].
  split; [|exact Hci]. exact (touches_trans _ _ _ _ _ (bump_touches t) X).
Qed.

Lemma touches_trans_same l t1 t2 t3 : touches l t1 t2 -> touches l t2 t3 -> touches l t1 t3.
Proof. intros X1 X2. eapply touches_weaken; [by eapply touches_trans|]. set_solver. Qed.

(** ** Operations *)

Lemma when_Ok b (m : M ()) t r t' : when b m t = Ok (r, t') -> b = true /\ m t = Ok (r, t') \/ b = false /\ t' = t.
Proof. destruct b; cbn; [by left|]. intros [= _ <-]. by right. Qed.

Lemma choke_Ok id t r t' :
  choke env onDrop id t = Ok (r, t') -> touches [id] t t' /\ flag amChoking t' id = true.
Proof.
  intros (ci & t0 & [-> Hci]%getInfo_Ok & [[Hc%negb_true_iff E]|[Hc%negb_false_iff ->]]%when_Ok)%bind_Ok.
  2:{ split; [apply touches_refl|]. unfold flag. by rewrite Hci. }
  apply bind_Ok in E as (a1 & t1 & [X1 (c1 & Hc1 & Hc1')]%send_Ok & E).
  apply bind_Ok in E as (a2 & t2 & [X2 (c2 & Hc2 & Hc2')]%modInfo_Ok & E); [|done].
  apply bind_Ok in E as (c3 & t3 & [-> Hc3]%getInfo_Ok & E).
  assert (X12 : touches [id] t t2) by (by eapply touches_trans_same).
  assert (F2 : flag amChoking t2 id = true).
  { unfold flag. rewrite Hc2'. cbn. rewrite Hc1' in Hc2. simplify_eq. cbn. by rewrite Hc. }
  apply when_Ok in E as [[_ E]|[_ ->]]; [|done].
  apply modInfo_now_Ok in E as [X3 (now & c4 & Hc4 & Hc4')]; [|done].
  split; [by eapply touches_trans_same|]. unfold flag in *. rewrite Hc4 in F2. by rewrite Hc4'.
Qed.

Lemma mild_startedUploading now : mild (startedUploading now).
Proof. intros ci. unfold startedUploading. by destruct (canUpload _). Qed.

Lemma unchoke_Ok id t r t' : unchoke env onDrop id t = Ok (r, t') -> touches [id] t t'.
Proof.
  intros (ci & t0 & [-> Hci]%getInfo_Ok & E)%bind_Ok. apply bind_Ok in E as (up & t0 & E0 & E).
  unfold gets in E0. simplify_eq. apply when_Ok in E as [[_ E]|[_ ->]]; [|apply touches_refl].
  apply bind_Ok in E as (a1 & t1 & [X1 _]%send_Ok & E).
  apply bind_Ok in E as (a2 & t2 & [X2 _]%modInfo_Ok & E); [|done].
  apply modInfo_now_Ok in E as [X3 _]; [|apply mild_startedUploading].
  eapply touches_trans_same; [exact X1|]. by eapply touches_trans_same.
Qed.

(** A peer that is not interested is not uploaded to. *)
Lemma uploading_interested t id : uploading t id = true -> flag isInterested t id = true.
Proof. unfold flag. destruct (t_infos t !! id); [|done]. cbn. unfold canUpload. by intros [_ ?]%andb_true_iff. Qed.

Lemma choked_not_uploading t id : flag amChoking t id = true -> uploading t id = false.
Proof. unfold flag. destruct (t_infos t !! id); [|done]. cbn. unfold canUpload. by intros ->. Qed.

(** ** The loops *)

(** Connections uploaded to, the optimistic one aside. *)
Definition regular t (o : option Z) (l : list Z) : list Z :=
  filter (fun id => uploading t id = true /\ o <> Some id) l.

Lemma unchoke_best_Ok l k t k' t' :
  unchoke_best env onDrop l k t = Ok (k', t') ->
  touches l t t' /\ k' = k - lenZ (filter (fun id => optimistic (t_choker t) <> Some id) l).
Proof.
  revert k t. induction l as [|id l IH]; intros k t; cbn [unchoke_best].
  { intros [= <- <-]. split; [apply touches_refl|cbn; lia]. }
  intros (o & t0 & E0 & E)%bind_Ok. unfold gets in E0. injection E0 as <- <-. rewrite filter_cons.
  case_bool_decide as Ho.
  - apply IH in E as [X ->]. rewrite decide_False by (intros Hc; by apply Hc).
    split; [|done]. eapply touches_weaken; [exact X|]. set_solver.
  - apply bind_Ok in E as (a & t1 & X1%unchoke_Ok & E). apply IH in E as [X2 ->].
    rewrite decide_True by done. rewrite (to_choker _ _ _ X1). split; [|cbn [length]; lia].
    eapply touches_weaken; [by eapply touches_trans|]. set_solver.
Qed.

Lemma regular_skip t o l id : uploading t id = false \/ o = Some id -> regular t o (id :: l) = regular t o l.
Proof. intros Hid. unfold regular. rewrite filter_cons_False; [done|]. intros [Hu Ho]. destruct Hid; congruence. Qed.

Lemma unchoke_rest_Ok cands order L k t r t' :
  0 <= k -> Forall2 (fun i id => cands !! i = Some id) order L -> NoDup L ->
  unchoke_rest env onDrop cands order k t = Ok (r, t') ->
  touches L t t' /\ lenZ (regular t' (optimistic (t_choker t)) L) <= k.
Proof.
  revert L k t. induction order as [|i order IH]; intros L k t Hk HL Hnd; cbn [unchoke_rest].
  { inversion HL; subst. intros [= _ <-]. split; [apply touches_refl|cbn; lia]. }
  inversion HL as [|? id ? L' Hi HL']; subst. rewrite Hi. apply NoDup_cons in Hnd as [Hnin Hnd].
  intros (o & t0 & E0 & E)%bind_Ok. unfold gets in E0. injection E0 as <- <-.
  case_bool_decide as Ho.
  { apply IH with (L := L') in E as [X Hle]; [|done..]. rewrite regular_skip by (by right).
    split; [|done]. eapply touches_weaken; [exact X|]. set_solver. }
  destruct (Z.leb_spec k 0).
  - apply bind_Ok in E as (a & t1 & [X1 F1]%choke_Ok & E).
    apply IH with (L := L') in E as [X2 Hle]; [|done..]. rewrite <- (to_choker _ _ _ X1).
    rewrite regular_skip; [split; [|done]; exact (touches_trans _ _ _ _ _ X1 X2)|].
    left. apply choked_not_uploading. by rewrite (touches_flag _ _ _ _ _ X2 Hnin).
  - apply bind_Ok in E as (a & t1 & X1%unchoke_Ok & E). apply bind_Ok in E as (ci & t2 & [-> Hci]%getInfo_Ok & E).
    apply IH with (L := L') in E as [X2 Hle]; [|destruct (isInterested _); lia|done..].
    rewrite <- (to_choker _ _ _ X1). split; [exact (touches_trans _ _ _ _ _ X1 X2)|].
    destruct (isInterested (ci_state ci)) eqn:Hint.
    + unfold regular in *. rewrite filter_cons. destruct (decide _); cbn [length]; lia.
    + rewrite regular_skip; [done|]. left. apply not_true_is_false. intros Hu%uploading_interested.
      rewrite (to_int _ _ _ X2) in Hu. unfold flag in Hu. rewrite Hci in Hu. cbn in Hu. congruence.
Qed.

Lemma peerSeeding_Ok id t b t' : peerSeeding id t = Ok (b, t') -> t' = t /\ b = seeding t id.
Proof.
  intros (hi & t0 & E0 & E)%bind_Ok. unfold gets in E0. injection E0 as <- <-. unfold seeding.
  destruct (haveInfo t); cbn [negb andb] in *; [|by injection E as <- <-].
  apply bind_Ok in E as (ci & t1 & [-> Hci]%getInfo_Ok & E). rewrite Hci. by injection E as <- <-.
Qed.

Lemma haveAll_Ok t b t' : t_haveAll t = Ok (b, t') -> t' = t.
Proof.
  intros (hi & t0 & E0 & E)%bind_Ok. injection E0 as <- <-. destruct (negb _); [by injection E as <- <-|].
  apply bind_Ok in E as (p & t1 & E1 & E). unfold get_pieces in E1. destruct (pieces_ _); [|done].
  injection E1 as <- <-. by injection E as <- <-.
Qed.

Lemma isSnubbed_Ok id t b t' : isSnubbed env id t = Ok (b, t') -> touches [] t t'.
Proof.
  intros (all & t0 & ->%haveAll_Ok & E)%bind_Ok. destruct all; [injection E as <- <-; apply touches_refl|].
  apply bind_Ok in E as (now & t1 & E1 & E). injection E1 as <- <-.
  apply bind_Ok in E as (ci & t1 & [-> Hci]%getInfo_Ok & E).
  destruct (stats_isSnubbed _ _) as [cs s]. apply bind_Ok in E as (a & t2 & E2 & E3). injection E3 as <- <-.
  unfold modInfo in E2. rewrite Hci in E2. injection E2 as <- <-.
  constructor; try done; cbn [set_infos bump t_infos] in *; unfold flag; cbn [set_infos bump t_infos]; intros x;
    (destruct (decide (x = id)) as [->|]; [rewrite lookup_insert_eq, Hci|rewrite lookup_insert_ne by done]; done).
Qed.

Lemma arr_at_Ok k t id t' : arr_at k t = Ok (id, t') -> t' = t /\ t_arr t !! k = Some id.
Proof. unfold arr_at. destruct (t_arr t !! k); [|done]. intros. by simplify_eq. Qed.

(** The loop sorts the connections into seeds, which are choked, candidates for an
    optimistic unchoke, and the best. *)
Lemma classify_Ok ks L opt best t r t' :
  Forall2 (fun k id => t_arr t !! k = Some id) ks L -> NoDup L ->
  classify env onDrop ks opt best t = Ok (r, t') ->
  exists seeds opt' best', r = (opt ++ opt', best ++ best') /\ L ≡ₚ seeds ++ opt' ++ best' /\ touches seeds t t' /\
    Forall (fun id => flag amChoking t' id = true) seeds /\ Forall (fun id => seeding t id = false) (opt' ++ best').
Proof.
  revert L opt best t. induction ks as [|k ks IH]; intros L opt best t HL Hnd; cbn [classify].
  { inversion HL; subst. intros [= <- <-]. exists [], [], []. rewrite !app_nil_r.
    split_and!; [done|done|apply touches_refl|constructor|constructor]. }
  inversion HL as [|? id ? L' Hi HL']; subst. apply NoDup_cons in Hnd as [Hnin Hnd].
  intros (id' & t0 & [-> Hk]%arr_at_Ok & E)%bind_Ok. simplify_eq.
  apply bind_Ok in E as (sd & t0 & [-> ->]%peerSeeding_Ok & E). destruct (seeding t id) eqn:Hsd.
  - apply bind_Ok in E as (a & t1 & [X1 F1]%choke_Ok & E).
    destruct (IH L' opt best t1) as (seeds & opt' & best' & -> & HP & X2 & F2 & F3); [|done|done|].
    { by rewrite (to_arr _ _ _ X1). }
    exists (id :: seeds), opt', best'. split_and!; [done|by rewrite HP|exact (touches_trans _ _ _ _ _ X1 X2)| |].
    + constructor; [|done]. rewrite (touches_flag _ _ _ _ _ X2); [done|]. intros Hin. apply Hnin. rewrite HP. set_solver.
    + eapply Forall_impl; [exact F3|]. cbn. intros x. by rewrite (touches_seeding _ _ _ _ X1).
  - apply bind_Ok in E as (sn & t1 & X1%isSnubbed_Ok & E). apply bind_Ok in E as (ci & t2 & [-> Hci]%getInfo_Ok & E).
    assert (HL1 : Forall2 (fun k id => t_arr t1 !! k = Some id) ks L') by (by rewrite (to_arr _ _ _ X1)).
    destruct (_ || _).
    + destruct (IH L' (opt ++ [id]) best t1 HL1 Hnd E) as (seeds & opt' & best' & -> & HP & X2 & F2 & F3).
      exists seeds, (id :: opt'), best'. rewrite <- app_assoc. split_and!; [done| |exact (touches_trans _ _ _ _ _ X1 X2)|done|].
      * rewrite HP. cbn. by rewrite Permutation_middle.
      * constructor; [done|]. eapply Forall_impl; [exact F3|]. cbn. intros x. by rewrite (touches_seeding _ _ _ _ X1).
    + destruct (IH L' opt (best ++ [id]) t1 HL1 Hnd E) as (seeds & opt' & best' & -> & HP & X2 & F2 & F3).
      exists seeds, opt', (id :: best'). rewrite <- app_assoc. split_and!; [done| |exact (touches_trans _ _ _ _ _ X1 X2)|done|].
      * rewrite HP, !app_assoc. by rewrite Permutation_middle.
      * apply Forall_app in F3 as [? ?]. apply Forall_app. split; [|constructor; [done|]];
          (eapply Forall_impl; [eassumption|]; cbn; intros x; by rewrite (touches_seeding _ _ _ _ X1)).
Qed.

Lemma sort_byRate_Ok l t l' t' : sort_byRate env l t = Ok (l', t') -> l' ≡ₚ l /\ touches [] t t'.
Proof.
  intros (all & t0 & E0 & E)%bind_Ok.
  assert (t0 = t) as -> by (destruct (_ <=? _)%nat; [by injection E0|by apply haveAll_Ok in E0]).
  apply bind_Ok in E as (now & t1 & E1 & E). injection E1 as <- <-. injection E as <- <-.
  split; [apply sort_Slice_perm|apply bump_touches].
Qed.

Lemma candidates_Ok m ks acc t l t' : candidates m ks acc t = Ok (l, t') -> t' = t.
Proof.
  revert acc. induction ks as [|k ks IH]; intros acc; cbn [candidates]; [by intros [= _ <-]|].
  intros (id & t0 & [-> _]%arr_at_Ok & E)%bind_Ok. apply bind_Ok in E as (ci & t0 & [-> _]%getInfo_Ok & E).
  by eapply IH.
Qed.

(** Picking the optimistic unchoke changes that choice only. *)
Lemma pickOptimistic_Ok t r t' : pickOptimisticUnchoke env t = Ok (r, t') ->
  t_data t' = t_data t /\ t_arr t' = t_arr t /\ t_len t' = t_len t /\ t_infos t' = t_infos t /\
  maxUploadSlots (t_choker t') = maxUploadSlots (t_choker t).
Proof.
  intros (n & t0 & E0 & E)%bind_Ok. injection E0 as <- <-.
  apply bind_Ok in E as (l & t0 & ->%candidates_Ok & E). destruct (_ =? _)%nat; [by injection E as <- <-|].
  apply bind_Ok in E as (i & t1 & E1 & E). injection E1 as <- <-. destruct (at_index l _); [|done].
  by injection E as <- <-.
Qed.

(** ** The review *)

Lemma range_Forall2 (arr : list Z) n : (n <= length arr)%nat -> Forall2 (fun k id => arr !! k = Some id) (seq 0 n) (take n arr).
Proof.
  intros Hn. apply Forall2_same_length_lookup_2; [rewrite length_seq, length_take; lia|].
  intros i k id [-> Hi]%lookup_seq Hid. apply lookup_take_Some in Hid as [Hid _]. done.
Qed.

Lemma omap_lookup_seq (pre l : list Z) : omap (fun i => (pre ++ l) !! i) (seq (length pre) (length l)) = l.
Proof.
  revert pre. induction l as [|x l IH]; intros pre; [done|]. cbn [length seq omap list_omap].
  rewrite list_lookup_middle by done. f_equal. specialize (IH (pre ++ [x])).
  rewrite length_app, Nat.add_1_r, <- app_assoc in IH. exact IH.
Qed.

Lemma perm_lookups (cands : list Z) order : order ≡ₚ seq 0 (length cands) ->
  exists L, Forall2 (fun i id => cands !! i = Some id) order L /\ L ≡ₚ cands.
Proof.
  intros HP. exists (omap (fun i => cands !! i) order). split.
  - assert (Hb : Forall (fun i => i < length cands)%nat order).
    { rewrite HP. apply Forall_forall. intros i Hi%elem_of_seq. lia. }
    clear HP. induction Hb as [|i order Hi _ IH]; [constructor|].
    destruct (lookup_lt_is_Some_2 _ _ Hi) as [id Hid]. cbn. rewrite Hid. by constructor.
  - rewrite HP. pose proof (omap_lookup_seq [] cands) as E. cbn [app length] in E. by rewrite E.
Qed.

Lemma regular_perm t o l l' : l ≡ₚ l' -> length (regular t o l) = length (regular t o l').
Proof. intros HP. unfold regular. by rewrite HP. Qed.

Lemma regular_app t o l l' : regular t o (l ++ l') = regular t o l ++ regular t o l'.
Proof. apply filter_app. Qed.

Lemma regular_none t o l : Forall (fun id => uploading t id = false) l -> regular t o l = [].
Proof. induction 1 as [|id l Hid _ IH]; [done|]. by rewrite regular_skip by (by left). Qed.

Lemma regular_le t o l : (length (regular t o l) <= length (filter (fun id => o <> Some id) l))%nat.
Proof.
  unfold regular. induction l as [|id l IH]; [done|]. rewrite !filter_cons.
  destruct (decide (uploading t id = true /\ o <> Some id)) as [[_ Ho]|]; [rewrite decide_True by done; cbn; lia|].
  destruct (decide _); cbn; lia.
Qed.

(** What picking the optimistic peer leaves alone. *)
Definition same_conns t t' : Prop :=
  t_data t' = t_data t /\ t_arr t' = t_arr t /\ t_len t' = t_len t /\
  maxUploadSlots (t_choker t') = maxUploadSlots (t_choker t).

Lemma same_conns_touches l t t' t'' : same_conns t t' -> touches l t' t'' -> same_conns t t''.
Proof.
  intros (Ed & Ea & El & Es) X. unfold same_conns.
  by rewrite (to_data _ _ _ X), (to_arr _ _ _ X), (to_len _ _ _ X), (to_choker _ _ _ X).
Qed.

Lemma same_conns_conns t t' : same_conns t t' -> conns t' = conns t.
Proof. intros (_ & Ea & El & _). unfold conns. by rewrite Ea, El. Qed.

(** How a review divides the connections: seeds that it chokes, the best uploaders, and
    the others in random order. *)
Record divided t t' (seeds best L : list Z) (o : option Z) : Prop := mkDivided {
  dv_perm : conns t ≡ₚ seeds ++ best ++ L;
  dv_same : same_conns t t';
  dv_choked : Forall (fun id => flag amChoking t' id = true) seeds;
  dv_leech : Forall (fun id => seeding t' id = false) (best ++ L);
  dv_opt : optimistic (t_choker t') = o;
  dv_regular : lenZ (regular t' o L) <=
    maxUploadSlots (t_choker t) - lenZ (filter (fun id => o <> Some id) best);
}.

(** The loops over the best uploaders and the others, once the peers are classified. *)
Lemma review_unchokes t t3 t4 opt best best' seeds r t' :
  same_conns t t3 -> conns t ≡ₚ seeds ++ opt ++ best -> NoDup (conns t) -> 0 <= maxUploadSlots (t_choker t) ->
  Forall (fun id => flag amChoking t3 id = true) seeds -> Forall (fun id => seeding t3 id = false) (opt ++ best) ->
  best ≡ₚ best' -> touches [] t3 t4 ->
  (left ← unchoke_best env onDrop (take (Z.to_nat (maxUploadSlots (t_choker t))) best') (maxUploadSlots (t_choker t));
   order ← draw (fun k => env_Perm env k (length (opt ++ drop (Z.to_nat (maxUploadSlots (t_choker t))) best')));
   unchoke_rest env onDrop (opt ++ drop (Z.to_nat (maxUploadSlots (t_choker t))) best') order left) t4 = Ok (r, t') ->
  exists tk L, divided t t' seeds tk L (optimistic (t_choker t3)).
Proof.
  intros Hsame HP Hnd Hslots Hch Hle HPb X4 E. set (k := maxUploadSlots (t_choker t)) in *. set (o := optimistic _).
  apply bind_Ok in E as (left & t5 & [X5 Hleft]%unchoke_best_Ok & E).
  set (tk := take (Z.to_nat k) best') in *. set (cands := opt ++ drop (Z.to_nat k) best') in *.
  apply bind_Ok in E as (order & t6 & E6 & E). injection E6 as <- <-.
  destruct (perm_lookups cands _ (Perm_perm (t_tick t5) (length cands))) as (L & HL & HPL).
  rewrite (to_choker _ _ _ X4) in Hleft. fold o tk in Hleft.
  assert (Hl0 : 0 <= left).
  { rewrite Hleft. assert (length (filter (fun id => o <> Some id) tk) <= length tk)%nat by apply length_filter.
    unfold tk in *. rewrite length_take in *. lia. }
  assert (HB : opt ++ best ≡ₚ tk ++ L).
  { rewrite HPL. unfold cands, tk. rewrite HPb, <- (take_drop (Z.to_nat k) best') at 1.
    rewrite !app_assoc. apply Permutation_app_tail, Permutation_app_comm. }
  assert (HC : conns t ≡ₚ seeds ++ tk ++ L) by (by rewrite HP, HB).
  rewrite HC in Hnd. apply NoDup_app in Hnd as (_ & Hd1 & (_ & Hd2 & HndL)%NoDup_app).
  apply unchoke_rest_Ok with (L := L) in E as [X7 Hle7]; [|done..]. cbn [bump t_choker] in Hle7.
  rewrite (to_choker _ _ _ X5), (to_choker _ _ _ X4) in Hle7.
  assert (X37 : touches (tk ++ L) t3 t').
  { eapply touches_weaken; [eapply touches_trans; [exact X4|eapply touches_trans; [exact X5|
      eapply touches_trans; [apply bump_touches|exact X7]]]|]. fold tk. set_solver. }
  exists tk, L. constructor; try done.
  - by eapply same_conns_touches.
  - rewrite Forall_forall in Hch |- *. intros id Hid. rewrite (touches_flag _ _ _ _ _ X37); [by apply Hch|]. by apply Hd1.
  - rewrite <- HB. eapply Forall_impl; [exact Hle|]. intros id. by rewrite (touches_seeding _ _ _ _ X37).
  - by rewrite (to_choker _ _ _ X37).
  - fold k. rewrite <- Hleft. exact Hle7.
Qed.

Lemma review_divided t r t' :
  wf t -> 0 <= maxUploadSlots (t_choker t) -> review env onDrop t = Ok (r, t') ->
  exists seeds best L o, divided t t' seeds best L o.
Proof.
  intros Hw Hslots (c & t0 & E0 & E)%bind_Ok. injection E0 as <- <-.
  apply bind_Ok in E as (a1 & t1 & E1 & E). assert (S1 : same_conns t t1).
  { apply when_Ok in E1 as [[_ E1]|[_ ->]]; [|done]. apply pickOptimistic_Ok in E1. unfold same_conns. tauto. }
  apply bind_Ok in E as (o & t0 & E0 & E). injection E0 as <- <-. apply bind_Ok in E as (a2 & t2 & E2 & E).
  assert (S2 : same_conns t t2).
  { destruct (optimistic (t_choker t1)) as [id|]; [apply unchoke_Ok in E2; by eapply same_conns_touches|by injection E2 as <- <-]. }
  pose proof (same_conns_conns _ _ S2) as Ec2. apply bind_Ok in E as (n & t0 & E0 & E). injection E0 as <- <-.
  apply bind_Ok in E as ([opt best] & t3 & E3 & E). destruct S2 as (Ed2 & Ea2 & El2 & Es2).
  destruct (classify_Ok _ (conns t2) _ _ _ _ _ (range_Forall2 (t_arr t2) (t_len t2) ltac:(
    rewrite Ea2, El2; apply Hw)) ltac:(rewrite Ec2; apply Hw) E3)
    as (seeds & opt' & best0 & [= -> ->] & HP & X3 & F3 & N3). cbn [app] in E.
  apply bind_Ok in E as (best' & t4 & [HPb X4]%sort_byRate_Ok & E).
  apply bind_Ok in E as (slots & t0 & E0 & E). injection E0 as <- <-.
  assert (S3 : same_conns t t3) by (eapply same_conns_touches; [|exact X3]; done).
  assert (Es4 : maxUploadSlots (t_choker t4) = maxUploadSlots (t_choker t)) by (rewrite (to_choker _ _ _ X4); apply S3).
  rewrite Es4 in E. destruct (review_unchokes t t3 t4 opt' best0 best' seeds r t') as (tk & L & Hdiv); try done.
  - by rewrite <- Ec2.
  - apply Hw.
  - eapply Forall_impl; [exact N3|]. intros id. by rewrite (touches_seeding _ _ _ _ X3).
  - by eexists _, _, _, _.
Qed.

Lemma review_Ok t r t' :
  wf t -> 0 <= maxUploadSlots (t_choker t) -> review env onDrop t = Ok (r, t') ->
  conns t' = conns t /\ t_data t' = t_data t /\ maxUploadSlots (t_choker t') = maxUploadSlots (t_choker t) /\
  lenZ (regular t' (optimistic (t_choker t')) (conns t)) <= maxUploadSlots (t_choker t) /\
  forall id, id ∈ conns t -> seeding t' id = true -> flag amChoking t' id = true.
Proof.
  intros Hw Hslots (seeds & best & L & o & [HC Hsame Fs Fl Eo Hle])%review_divided; [|done..].
  split_and!; try apply Hsame; [by apply same_conns_conns| |].
  - rewrite Eo, (regular_perm _ _ _ _ HC), !regular_app, regular_none.
    2:{ eapply Forall_impl; [exact Fs|]. intros id. apply choked_not_uploading. }
    rewrite !length_app. cbn [length]. pose proof (regular_le t' o best). lia.
  - intros id Hid Hsd. rewrite HC in Hid. rewrite Forall_forall in Fs, Fl. apply elem_of_app in Hid as [Hid|Hid]; [by apply Fs|].
    specialize (Fl id Hid). congruence.
Qed.

Lemma reviewUnchokedPeers_Ok t r t' :
  wf t -> 0 <= maxUploadSlots (t_choker t) -> reviewUnchokedPeers env onDrop t = Ok (r, t') ->
  conns t' = conns t /\ maxUploadSlots (t_choker t') = maxUploadSlots (t_choker t) /\
  lenZ (regular t' (optimistic (t_choker t')) (conns t')) <= maxUploadSlots (t_choker t) /\
  forall id, id ∈ conns t' -> seeding t' id = true -> flag amChoking t' id = true.
Proof.
  intros Hw Hs (n & t0 & E0 & E)%bind_Ok. injection E0 as <- <-.
  apply bind_Ok in E as (a & t1 & E1 & E). injection E as <- <-.
  apply when_Ok in E1 as [[_ E1]|[En%negb_false_iff%Nat.eqb_eq ->]].
  - destruct (review_Ok t a t1 Hw Hs E1) as (Ec & _ & Em & Hle & Hsd).
    change (conns (set_choker _ t1)) with (conns t1). rewrite Ec. split_and!; [done|done|exact Hle|exact Hsd].
  - assert (Ec : conns t = []) by (unfold conns; by rewrite En).
    change (conns (set_choker _ t)) with (conns t). rewrite Ec. split_and!; [done|done|cbn; lia|].
    by intros id ?%elem_of_nil.
Qed.
End choker.

(** C29: When no connection is lost during a review, it uploads to at most
    [maxUploadSlots] peers besides the optimistic one, it chokes every peer that has all
    pieces, and the connections are the same as before. *)
Theorem choker_slots {B S} `{BitmapOps B} `{SortSliceLaws Z} (env : Env) `{EnvLaws env} ip6 inf (t : torrent B S) :
  (forall k, env_send env k = Sent) -> wf t -> 0 <= maxUploadSlots (t_choker t) ->
  exists t', reviewUnchokedPeers env (droppedConn env ip6 inf) t = Ok ((), t') /\ wf t' /\ conns t' = conns t /\
    lenZ (regular t' (optimistic (t_choker t')) (conns t')) <= maxUploadSlots (t_choker t) /\
    forall id, id ∈ conns t' -> seeding t' id = true -> flag amChoking t' id = true.
Proof.
  intros Hd Hw Hs. destruct (runs_reviewUnchokedPeers env (droppedConn env ip6 inf) (Datatypes.S (t_len t))
    (fun id t' W D _ => runs_droppedConn env ip6 inf id t' W D) t Hw ltac:(lia)) as ([] & t' & E & _ & W & _).
  exists t'. destruct (reviewUnchokedPeers_Ok env _ Hd t () t' Hw Hs E) as (Ec & _ & Hle & Hsd). by split_and!.
Qed.
