(* ===== verification/Torrent.v ===== *)
(** * torrent/torrent.go, torrent_xported.go, conn_info.go: the handlers of the main goroutine

    What the goroutine of a torrent does with each message of a connection, result of
    the piece hasher, new connection, tracker answer and call of a user, on the state of
    [Swarm]. The storage, the hash function and the own address are parameters. *)

From S2P Require Import Prelude Strconv Bitfield GoValue BenDecode BenEncode Wire Metainfo Bitmap Piece Pieces.
From S2P Require Import Metadata ConnInfo Swarm.

(** ** Inputs *)

(** What a connection sends (msg.go). [TNil] is the nil that a connection that closes
    may send as its last message. *)
Inductive tmsg (B : Type) :=
| TWire (m : Msg)
| TDownloadedBlock (b : block)
| TUploadedBlock (b : block)
| TDownloadedMetadata (size : Z)
| TBitmap (b : B)
| TConnDropped
| TDiscardedRequests
| TNil.
Arguments TWire {B} m.
Arguments TDownloadedBlock {B} b.
Arguments TUploadedBlock {B} b.
Arguments TDownloadedMetadata {B} size.
Arguments TBitmap {B} b.
Arguments TConnDropped {B}.
Arguments TDiscardedRequests {B}.
Arguments TNil {B}.

Section handlers.
Context {B : Type} `{BitmapOps B} {S : Type} `{PieceSelector S B} `{SortSlice Z}.
Variable env : Env.
Variable ip6_String : bytes -> bytes.
Variable int_of_Inf : Z.
Variable sha1_Sum : bytes -> bytes.
(** Opening the storage: whether all the data is there. *)
Variable openStorage : InfoDict -> list Z -> bool.
(** A new piece selector. *)
Variable SelectorF : S.
(** getOutboundIP. *)
Variable outboundIP : bytes.

Abbreviation torrent := (torrent B S).
Abbreviation M := (M B S).
Abbreviation connInfo := (connInfo B).
Abbreviation onDrop := (droppedConn env ip6_String int_of_Inf).
Abbreviation sendMsg := (sendMsgToConn env onDrop).
Abbreviation reviewUnchoked := (reviewUnchokedPeers env onDrop).

Definition mod_data (f : tdata B S -> tdata B S) : M unit := modify (fun t => set_data (f (t_data t)) t).

Definition d_flags (up down closed : bool) (d : tdata B S) : tdata B S :=
  mkData up down closed (pieces_ d) (mi_Info d) (mi_Announce d) (mi_InfoBytes d) (utmetadata d) (length_ d)
    (blockRequestSize d) (stats d) (queuedForVerification d) (pieceQueuedHashingC d) (DownloadedDataC_closed d) (InfoC_closed d).
Definition d_pieces (p : option (pieces B S)) (d : tdata B S) : tdata B S :=
  mkData (uploadEnabled d) (downloadEnabled d) (isClosed d) p (mi_Info d) (mi_Announce d) (mi_InfoBytes d) (utmetadata d)
    (length_ d) (blockRequestSize d) (stats d) (queuedForVerification d) (pieceQueuedHashingC d) (DownloadedDataC_closed d)
    (InfoC_closed d).
Definition d_info (i : InfoDict) (u : utMetadatas) (d : tdata B S) : tdata B S :=
  mkData (uploadEnabled d) (downloadEnabled d) (isClosed d) (pieces_ d) i (mi_Announce d) (mi_InfoBytes d) u
    (length_ d) (blockRequestSize d) (stats d) (queuedForVerification d) (pieceQueuedHashingC d) (DownloadedDataC_closed d)
    (InfoC_closed d).
Definition d_sizes (len brs : Z) (d : tdata B S) : tdata B S :=
  mkData (uploadEnabled d) (downloadEnabled d) (isClosed d) (pieces_ d) (mi_Info d) (mi_Announce d) (mi_InfoBytes d)
    (utmetadata d) len brs (stats d) (queuedForVerification d) (pieceQueuedHashingC d) (DownloadedDataC_closed d)
    (InfoC_closed d).
Definition d_stats (s : Stats) (d : tdata B S) : tdata B S :=
  mkData (uploadEnabled d) (downloadEnabled d) (isClosed d) (pieces_ d) (mi_Info d) (mi_Announce d) (mi_InfoBytes d)
    (utmetadata d) (length_ d) (blockRequestSize d) s (queuedForVerification d) (pieceQueuedHashingC d)
    (DownloadedDataC_closed d) (InfoC_closed d).
Definition d_queue (q : gset Z) (c : list Z) (d : tdata B S) : tdata B S :=
  mkData (uploadEnabled d) (downloadEnabled d) (isClosed d) (pieces_ d) (mi_Info d) (mi_Announce d) (mi_InfoBytes d)
    (utmetadata d) (length_ d) (blockRequestSize d) (stats d) q c (DownloadedDataC_closed d) (InfoC_closed d).
Definition d_chans (dl inf : bool) (d : tdata B S) : tdata B S :=
  mkData (uploadEnabled d) (downloadEnabled d) (isClosed d) (pieces_ d) (mi_Info d) (mi_Announce d) (mi_InfoBytes d)
    (utmetadata d) (length_ d) (blockRequestSize d) (stats d) (queuedForVerification d) (pieceQueuedHashingC d) dl inf.

(** A value of the pieces component or a panic. *)
Definition lift_option {A} (o : option A) : M A := match o with Some a => mret a | None => tpanic end.

(** ** Broadcasts *)

Definition broadcastToConns (m : cmsg B) : M unit := range_conns (fun id => sendMsg id m).

Definition cancelMsg (b : block) : Msg :=
  mkMsg Cancel (uint32 (b_pc b)) (uint32 (b_off b)) (uint32 (b_len b)) [] [] 0 0 ExtNil.
Definition sendCancels (b : block) : M unit := broadcastToConns (CWire (cancelMsg b)).

Definition sendHaves (i : Z) : M unit := range_conns (fun id => have env onDrop id i).

(** ** What a peer changes (conn_info.go) *)

Definition peerInterestChanged (id : Z) : M unit :=
  modInfo id (ci_with_state flip_isInterested);;
  ci ← getInfo id;
  if isInterested (ci_state ci) then
    when (negb (amChoking (ci_state ci))) reviewUnchoked;;
    modInfo_now env id startedUploading
  else
    when (negb (amChoking (ci_state ci)))
      (reviewUnchoked;; modInfo_now env id stoppedUploading).

Definition peerChokeChanged (id : Z) : M unit :=
  modInfo id (ci_with_state flip_isChoking);;
  ci ← getInfo id;
  if isChoking (ci_state ci) then
    when (amInterested (ci_state ci)) (modInfo_now env id stoppedDownloading)
  else modInfo_now env id startedDownloading.

(** The pieces of the peer that we do not have. *)
Definition wanted (owned peer : B) (n : Z) : Z :=
  lenZ (filter (fun i => negb (bm_Get owned i) && bm_Get peer i = true) (seqZ 0 n)).

Definition reviewInterestsOnBitfield (id : Z) : M unit :=
  hi ← gets haveInfo;
  all ← t_haveAll;
  if negb hi || all then mret ()
  else
    p ← get_pieces; n ← gets numPieces; ci ← getInfo id;
    modInfo id (fun ci => ci_with_want (numWant ci + wanted (ownedPieces p) (peerBf ci) n) ci);;
    ci ← getInfo id;
    when (0 <? numWant ci) (interested env onDrop id).

Definition reviewInterestsOnHave (id i : Z) : M unit :=
  hi ← gets haveInfo;
  all ← t_haveAll;
  if negb hi || all then mret ()
  else
    p ← get_pieces;
    when (negb (bm_Get (ownedPieces p) i))
      (ci ← getInfo id;
       when (numWant ci <=? 0) (interested env onDrop id);;
       modInfo id (fun ci => ci_with_want (numWant ci + 1) ci)).

(** ** Blocks and pieces *)

Definition queuePieceForHashing (i : Z) : M unit :=
  d ← gets t_data;
  p ← get_pieces;
  pc ← lift_option (at_index (pcs p) i);
  when (negb (bool_decide (i ∈ queuedForVerification d) || verified pc))
    (if lenZ (pieceQueuedHashingC d) <? NumPieces (mi_Info d)
     then mod_data (d_queue (queuedForVerification d ∪ {[ i ]}) (pieceQueuedHashingC d ++ [i]))
     else tpanic).

(** What the pieces component asks for after it has released its lock. *)
Definition pieces_event (e : pevent) : M unit :=
  match e with
  | QueueForHashing i => queuePieceForHashing i
  | RequestsAvailable => broadcastToConns CRequestsAvailable
  | SendCancels b => sendCancels b
  end.

Definition blockDownloaded (id : Z) (b : block) : M unit :=
  modInfo_now env id (fun now => ci_with_stats (onBlockDownload now (b_len b)));;
  mod_data (fun d => d_stats (blockDownloaded_stats (b_len b) (stats d)) d);;
  p ← get_pieces; d ← gets t_data;
  '(p, evs) ← lift_option (Pieces.setBlockComplete (tparams_of d) p (b_pc b) (b_off b) id);
  mod_data (d_pieces (Some p));;
  for_each pieces_event evs.

Definition blockUploaded (id : Z) (b : block) : M unit :=
  modInfo id (ci_with_stats (onBlockUpload (b_len b)));;
  mod_data (fun d => d_stats (blockUploaded_stats (b_len b) (stats d)) d).

Definition downloadedAll : M unit :=
  closed ← gets (fun t => DownloadedDataC_closed (t_data t));
  if closed : bool then tpanic
  else mod_data (fun d => d_chans true (InfoC_closed d) d);;
       range_conns (fun id => notInterested env onDrop id).

Definition reviewInterestsOnPieceDownload (i : Z) : M unit :=
  all ← t_haveAll;
  when (negb all)
    (range_conns (fun id =>
       ci ← getInfo id;
       when (bm_Get (peerBf ci) i)
         (modInfo id (fun ci => ci_with_want (numWant ci - 1) ci);;
          ci ← getInfo id;
          when (numWant ci <=? 0) (notInterested env onDrop id)))).

Definition onPieceDownload (i : Z) : M unit :=
  d ← gets t_data;
  len ← lift_option (pieceLen (tparams_of d) (uint32 i));
  mod_data (fun d => d_stats (onPieceDownload_stats len (stats d)) d);;
  reviewInterestsOnPieceDownload i;;
  sendHaves i.

(** The first connection with the greatest malliciousness above MinInt32. *)
Fixpoint worst (infos : gmap Z connInfo) (l : list Z) (max : Z) (toBan : option Z) : option Z :=
  match l with
  | [] => toBan
  | id :: l =>
      let m := from_option (fun ci => malliciousness (ci_stats ci)) max (infos !! id) in
      if max <? m then worst infos l m (Some id) else worst infos l max toBan
  end.

Definition banIP (ip : bytes) : M unit :=
  if IP_Equal ip outboundIP || IP_Equal ip (v4InV6Prefix ++ [z2b 127; z2b 0; z2b 0; z2b 1]) then mret ()
  else
    modify (fun t => add_event (EBanned ip) (set_blackList (blackList (t_dial t) ++ [ip]) t));;
    range_conns (fun id => ci ← getInfo id; when (IP_Equal (p_IP (ci_peer ci)) ip) (sendMsg id CDrop)).

Definition banPeer : M unit :=
  o ← gets (fun t => worst (t_infos t) (conns t) (- 2 ^ 31) None);
  match o with
  | None => mret ()
  | Some id => ci ← getInfo id; banIP (p_IP (ci_peer ci))
  end.

Definition pieceHashed (i : Z) (correct : bool) : M unit :=
  mod_data (fun d => d_queue (queuedForVerification d ∖ {[ i ]}) (pieceQueuedHashingC d) d);;
  p ← get_pieces;
  '(p, contributors) ← lift_option (Pieces.pieceHashed p i correct);
  mod_data (d_pieces (Some p));;
  for_each (fun id => modInfo id (ci_with_stats (if correct then goodContribution else badContribution))) contributors;;
  if correct then onPieceDownload i else banPeer.

(** The main loop's case for a result of the hasher. *)
Definition onPieceHashed (i : Z) (ok : bool) : M unit :=
  pieceHashed i ok;;
  p ← get_pieces; d ← gets t_data;
  when (haveAll (tparams_of d) p) (sendAnnounceToTracker env EvCompleted;; downloadedAll).

(** ** The info dictionary *)

(** Both sides of the assignment are read first. *)
Definition swap_bitmaps (pc : Piece B) : Piece B := with_bitmaps pc (completeBlocks pc) (unrequestedBlocks pc).

Definition complete_piece (i : Z) : M unit :=
  p ← get_pieces;
  p ← lift_option (update_piece p i swap_bitmaps);
  mod_data (d_pieces (Some p));;
  pieceHashed i true.

Definition gotInfo_ut (d : tdata B S) : option utMetadatas :=
  match mi_InfoBytes d with
  | None => Some (utmetadata d)
  | Some ib =>
      if (0 <? base.size (uts_m (utmetadata d)))%nat then None
      else
        let ut := newUtMetadata (lenZ ib) in
        Some (mkUts (<[lenZ ib := mkUt ib (ownedInfoBlocks ut) (contributors ut) (Metadata.numPieces ut) (lastPieceLen ut)]>
                       (uts_m (utmetadata d))) (lenZ ib))
  end.

Definition gotInfo : M unit :=
  d ← gets t_data;
  ut ← lift_option (gotInfo_ut d);
  mod_data (fun d => d_info (mi_Info d) ut d);;
  mod_data (fun d => d_sizes (TotalLength (mi_Info d)) (blockSize (PieceLen (mi_Info d))) d);;
  mod_data (fun d => d_stats (mkStats (BlocksDownloaded (stats d)) (BlocksUploaded (stats d)) (length_ d)
                                      (BytesDownloaded (stats d)) (BytesUploaded (stats d))) d);;
  d ← gets t_data;
  p ← lift_option (newPieces (tparams_of d) SelectorF);
  mod_data (fun d => d_queue (queuedForVerification d) [] (d_pieces (Some p) d));;
  broadcastToConns CHaveInfo;;
  when (openStorage (mi_Info d) (pieces_blocks p))
    (for_each complete_piece (seqZ 0 (lenZ (pcs p)));; downloadedAll);;
  closed ← gets (fun t => InfoC_closed (t_data t));
  if closed : bool then tpanic
  else mod_data (fun d => d_chans (DownloadedDataC_closed d) true d);; modify (add_event EGotInfo).

(** ** Closing *)

(** Every connection is signalled to drop, and waited for. *)
Definition dropAllConns : M unit :=
  closeDhtAnnounce;;
  l ← gets conns;
  for_each (fun _ => await (env_gone env)) l;;
  modify (set_conns [] 0).

Definition close : M unit :=
  closed ← gets (fun t => isClosed (t_data t));
  if closed : bool then tpanic
  else
    dropAllConns;;
    mod_data (d_pieces None);;
    modify (set_peers []);;
    mod_data (fun d => d_flags (uploadEnabled d) (downloadEnabled d) true d);;
    modify (add_event EClosed).

(** What the decoder has written into the dictionary before an error is not kept. *)
Definition metadataCompleted (infoSize : Z) : M unit :=
  d ← gets t_data;
  ut ← lift_option (uts_metadata (utmetadata d) infoSize);
  if negb (bool_decide (sha1_Sum (infoBytes ut) = Hash (mi_Info d))) then
    i ← draw (fun k => env_Intn env k (lenZ (contributors ut)));
    ip ← lift_option (at_index (contributors ut) i);
    banIP ip;;
    broadcastToConns CRequestsAvailable;;
    d ← gets t_data;
    u ← lift_option (uts_reset (utmetadata d) infoSize);
    mod_data (fun d => d_info (mi_Info d) u d)
  else
    match BenDecode.Decode (infoBytes ut) InfoDict_type (Info_val (mi_Info d)) with
    | Ok (v, None) =>
        info ← lift_option (Info_of v);
        mod_data (fun d => d_info info (uts_setCorrect (utmetadata d) infoSize) d);;
        gotInfo
    | Ok (v, Some _) =>
        info ← lift_option (Info_of v);
        mod_data (fun d => d_info info (utmetadata d) d);;
        close
    | Err _ => close
    | Panic => tpanic
    end.

(** ** Connections *)

Definition append_conn (id : Z) : M unit :=
  modify (fun t => set_conns (take (t_len t) (t_arr t) ++ [id]) (Datatypes.S (t_len t)) t).

(** [ci] is what [conn.connInfo] makes: a new record behind a new pointer. *)
Definition new_connInfo (peer : Peer) (r : Reserved) : connInfo :=
  mkCI peer r bm_empty 0 newConnState newConnStats [].

Definition establishedConnection (id : Z) : M bool :=
  ci ← getInfo id;
  reject ← gets (fun t => negb (wantConns t) || containsInBlackList t (p_IP (ci_peer ci)));
  if reject : bool then sendMsg id CDrop;; closeDhtAnnounce;; mret false
  else
    append_conn id;;
    hi ← gets haveInfo;
    when hi (sendMsg id CHaveInfo);;
    p ← gets (fun t => pieces_ (t_data t));
    when (match p with Some p => 0 <? bm_Len (ownedPieces p) | None => false end) (sendBitfield env onDrop id);;
    cfg ← gets t_cfg;
    dht ← lift_option (SupportDHT (ci_reserved ci));
    cl_dht ← lift_option (SupportDHT (cl_reserved cfg));
    when (dht && cl_dht && has_dhtServer cfg) (sendPort env onDrop id);;
    reviewUnchoked;;
    mret true.

(** ** The main loop *)

Definition onConnMsg (id : Z) (m : tmsg B) : M unit :=
  match m with
  | TWire m =>
      if (Kind m =? Interested) || (Kind m =? NotInterested) then peerInterestChanged id
      else if (Kind m =? Choke) || (Kind m =? Unchoke) then peerChokeChanged id
      else if Kind m =? Have then
        modInfo id (fun ci => ci_with_bf (bm_Set (peerBf ci) (Index m) true) ci);;
        reviewInterestsOnHave id (Index m)
      else mret ()
  | TDownloadedBlock b => blockDownloaded id b
  | TUploadedBlock b => blockUploaded id b
  | TDownloadedMetadata n => metadataCompleted n
  | TBitmap b => modInfo id (ci_with_bf b);; reviewInterestsOnBitfield id
  | TConnDropped => onDrop id;; mret ()
  | TDiscardedRequests => broadcastToConns CRequestsAvailable
  | TNil => mret ()
  end.

(** A response of the tracker: the interval and the peers. *)
Definition trackerAnnounced (resp : option (Z * list Peer)) : M unit :=
  match resp with
  | None => resetNextTrackerAnnounce 60
  | Some (interval, l) =>
      resetNextTrackerAnnounce interval;;
      gotPeers env ip6_String int_of_Inf ((fun p => mkPeer (p_ID p) (p_IP p) (p_Port p) SourceTracker) <$> l)
  end.

Definition dhtAnnounced (l : list Peer) : M unit :=
  gotPeers env ip6_String int_of_Inf
    ((fun p => mkPeer None (p_IP p) (uint16 (p_Port p)) SourceDHT) <$> filter (fun p => p_Port p <> 0) l).

Inductive uerror := errNoInfo | errAlreadyStarted.

Definition StartDataTransfer : M (option uerror) :=
  hi ← gets haveInfo;
  d ← gets t_data;
  if negb hi then mret (Some errNoInfo)
  else if uploadEnabled d || downloadEnabled d then mret (Some errAlreadyStarted)
  else
    mod_data (fun d => d_flags true true (isClosed d) d);;
    stray ← gets (fun t => negb (infoWasDownloaded t) && (0 <? t_len t)%nat);
    if stray : bool then tpanic
    else
      all ← t_haveAll;
      when (negb all)
        (p ← get_pieces;
         mod_data (d_pieces (Some (setDownloadEnabled p true)));;
         range_conns reviewInterestsOnBitfield;;
         broadcastToConns CRequestsAvailable);;
      tryAnnounceAll env int_of_Inf;;
      dialConns env ip6_String int_of_Inf;;
      mret None.

Inductive tinput :=
| InConnMsg (id : Z) (m : tmsg B)
| InPieceHashed (i : Z) (ok : bool)
| InNewConn (id : Z) (peer : Peer) (r : Reserved)
| InChokerTick
| InTracker (resp : option (Z * list Peer))
| InTrackerTimer
| InDhtPeers (ok : bool) (l : list Peer)
| InDhtTimer
| InAddPeers (l : list Peer)
| InStartDataTransfer
| InHasherTake                       (* the piece hasher receives its next piece *)
| InClose.

Definition handle (inp : tinput) : M unit :=
  match inp with
  | InConnMsg id m => onConnMsg id m
  | InPieceHashed i ok => onPieceHashed i ok
  | InNewConn id peer r =>
      modify (fun t => set_infos (<[id := new_connInfo peer r]> (t_infos t)) t);; establishedConnection id;; mret ()
  | InChokerTick => reviewUnchoked
  | InTracker resp => trackerAnnounced resp
  | InTrackerTimer =>
      modify (fun t => set_announce true (canAnnounceDht (t_dial t)) t);; tryAnnounceAll env int_of_Inf
  | InDhtPeers ok l => when (negb ok) (modify (set_dht (Some false)));; dhtAnnounced l
  | InDhtTimer =>
      modify (fun t => set_announce (canAnnounceTracker (t_dial t)) true t);;
      closeDhtAnnounce;; tryAnnounceAll env int_of_Inf
  | InAddPeers l => gotPeers env ip6_String int_of_Inf l
  | InStartDataTransfer => StartDataTransfer;; mret ()
  | InHasherTake => mod_data (fun d => d_queue (queuedForVerification d) (tail (pieceQueuedHashingC d)) d)
  | InClose => close
  end.

(** ** A new torrent *)

(** The state when the metainfo has been parsed. *)
Definition newTorrent (cfg : config) (info : InfoDict) (announce : bytes) (ib : option bytes) : torrent :=
  mkTorrent cfg
    (mkData false false false None info announce ib (mkUts ∅ 0) 0 0 (mkStats 0 0 0 0 0) ∅ [] false false)
    [] 0 ∅ newChoker (mkDialing [] ∅ [] true true (Some false)) [] 0.

(** What AddFromParser and the first lines of mainLoop do with it. *)
Definition start : M unit :=
  down ← gets infoWasDownloaded;
  when (negb down) gotInfo;;
  tryAnnounceAll env int_of_Inf.

(** One turn of mainLoop. The select reads [t.choker.ticker], which is a nil pointer
    once the torrent is closed (only a close by the user leaves the loop), and
    [t.dhtAnnounceResp.Peers]. *)
Definition mainLoop_turn (inp : tinput) : M unit :=
  closed ← gets (fun t => isClosed (t_data t));
  resp ← gets (fun t => dhtAnnounceResp (t_dial t));
  if closed : bool then tpanic
  else match resp with None => tpanic | Some _ => handle inp end.

End handlers.
Arguments tinput : clear implicits.

(** What the select of the main loop receives besides the users' calls. *)
Definition internal {X} (inp : tinput X) : bool :=
  match inp with InAddPeers _ | InStartDataTransfer | InClose => false | _ => true end.
