(* ===== verification/TorrentInv.v ===== *)
(** * The main goroutine of a torrent does not panic

    The invariant of the torrent's state, and that every turn of the main loop, for
    every input that the connections, the piece hasher, the trackers and the user can
    produce, returns and keeps it. *)

From S2P Require Import Prelude Strconv Bitfield GoValue BenDecode BenEncode Wire Metainfo Bitmap Piece Pieces.
From S2P Require Import Metadata ConnInfo Swarm SwarmInv Torrent.

(** ** Pieces: who contributed, and what completion keeps *)

Section contributors.
Context {B : Type} `{BitmapOps B} {S : Type} `{PieceSelector S B} `{SortSlice (Piece B)}.
Implicit Types (p : pieces B S) (pc : Piece B).

(** The contributors of every piece are in [D]. *)
Definition contrib_in (D : gset Z) p : Prop := Forall (fun pc => Forall (fun c => c ∈ D) (Piece.contributors pc)) (pcs p).

Lemma update_piece_contrib D p i f p' :
  contrib_in D p -> (forall pc, Forall (fun c => c ∈ D) (Piece.contributors pc) -> Forall (fun c => c ∈ D) (Piece.contributors (f pc))) ->
  update_piece p i f = Some p' -> contrib_in D p'.
Proof.
  intros Hc Hf E. destruct (update_piece_inv _ _ _ _ E) as (pc & Hi & ->). apply at_index_lookup in Hi as [Hi _].
  apply Forall_insert; [exact Hc|]. apply Hf. apply (proj1 (Forall_lookup _ _) Hc _ _ Hi).
Qed.

Lemma setBlockUnrequsted_contributors pc off : Piece.contributors (setBlockUnrequsted pc off) = Piece.contributors pc.
Proof. unfold setBlockUnrequsted. by destruct (negb _). Qed.

Lemma setAllUnrequested_contributors t pc : Piece.contributors (setAllUnrequested t pc) = Piece.contributors pc.
Proof.
  unfold setAllUnrequested. generalize (seqZ 0 (blocks pc)). intros l. revert pc.
  induction l as [|i l IH]; intros pc; [done|]. cbn. by rewrite IH, setBlockUnrequsted_contributors.
Qed.

Lemma foldM_inv {A X} (P : X -> Prop) (f : X -> A -> option X) l x x' :
  P x -> (forall y a y', P y -> f y a = Some y' -> P y') -> foldM f x l = Some x' -> P x'.
Proof.
  intros Hx Hf. revert x Hx. induction l as [|a l IH]; intros x Hx; cbn; [by intros [= <-]|].
  destruct (f x a) as [y|] eqn:E; [|done]. cbn. apply IH. by eapply Hf.
Qed.

Lemma setBlockComplete_contrib t D p i off ci p' evs :
  contrib_in D p -> ci ∈ D -> Pieces.setBlockComplete t p i off ci = Some (p', evs) -> contrib_in D p'.
Proof.
  intros Hc Hci. unfold Pieces.setBlockComplete. destruct (update_piece p i _) as [p1|] eqn:E1; [|done]. cbn.
  assert (Hc1 : contrib_in D p1).
  { eapply update_piece_contrib; [exact Hc| |exact E1]. cbn. intros pc Hpc. apply Forall_app. by rewrite Forall_singleton. }
  destruct (maybeStartEndgame t p1) as [[p2 b]|] eqn:E2; [|done]. cbn.
  assert (Hc2 : contrib_in D p2).
  { unfold maybeStartEndgame in E2. destruct (_ || _); [by simplify_eq|].
    destruct (foldM _ _ _) as [q|] eqn:Ef; [|done]. cbn in E2. simplify_eq.
    eapply (foldM_inv (contrib_in D)); [| |exact Ef]; [exact Hc1|]. intros y a y' Hy Ey.
    eapply update_piece_contrib; [exact Hy| |exact Ey]. intros pc. by rewrite setAllUnrequested_contributors. }
  destruct (at_index (pcs p2) i); [|done]. cbn. by intros [= <- _].
Qed.

Lemma pieceHashed_contrib D p i ok p' cs :
  contrib_in D p -> Pieces.pieceHashed p i ok = Some (p', cs) -> contrib_in D p' /\ Forall (fun c => c ∈ D) cs.
Proof.
  intros Hc. unfold Pieces.pieceHashed. destruct (at_index (pcs p) i) as [pc|] eqn:Ei; [|done]. cbn.
  pose proof (at_index_bound _ _ _ Ei) as Hb. apply at_index_lookup in Ei as [Ei _].
  pose proof (proj1 (Forall_lookup _ _) Hc _ _ Ei) as Hpc. cbn in Hpc. destruct ok.
  - unfold verificationSuccess. destruct (verified pc); [done|]. cbn. rewrite set_index_Some by done. cbn.
    intros [= <- <-]. split; [|done]. apply Forall_insert; [done|constructor].
  - unfold verificationFailed. destruct (negb _); [done|]. cbn. rewrite set_index_Some by done. cbn.
    intros [= <- <-]. split; [|done]. apply Forall_insert; [done|constructor].
Qed.

Lemma pending_contributors pc (bl : list block) :
  Piece.contributors (foldl (fun pc b => setBlockPending pc (b_off b)) pc bl) = Piece.contributors pc.
Proof.
  revert pc. induction bl as [|b bl IH]; intros pc; [done|]. cbn. rewrite IH. unfold setBlockPending. by destruct (negb _).
Qed.

Lemma fill_loop_contrib t D total order n acc p p' new :
  contrib_in D p -> fill_loop t total order n acc p = Some (p', new) -> contrib_in D p'.
Proof.
  revert n acc p. induction order as [|i order IH]; intros n acc p Hc; cbn [fill_loop]; [by intros [= <- _]|].
  destruct (at_index (pcs p) i) as [pc|]; [|done]. cbn [mbind option_bind].
  destruct (if endGame p then Some p else _) as [p1|] eqn:E; [|done]. cbn [mbind option_bind].
  assert (contrib_in D p1).
  { destruct (endGame p); [by simplify_eq|]. eapply update_piece_contrib; [exact Hc| |exact E].
    intros pc'. cbn beta. by rewrite pending_contributors. }
  destruct (_ <? _); [done|]. destruct (_ =? _); [by intros [= <- _]|]. by apply IH.
Qed.

Lemma fillRequests_contrib t coin peer limit D p p' new :
  contrib_in D p -> fillRequests t coin peer limit p = Some (p', new) -> contrib_in D p'.
Proof.
  intros Hc. unfold fillRequests. destruct (negb _); [by intros [= <- _]|].
  destruct (filterPieces _ _); [by intros [= <- _]|]. by apply fill_loop_contrib.
Qed.

Lemma discardRequests_contrib D p reqs p' : contrib_in D p -> discardRequests p reqs = Some p' -> contrib_in D p'.
Proof.
  intros Hc. apply (foldM_inv (contrib_in D)); [done|]. intros y b y' Hy. apply update_piece_contrib; [done|].
  intros pc. cbn beta. by rewrite setBlockUnrequsted_contributors.
Qed.

(** The only piece a downloaded block can queue is its own. *)
Lemma setBlockComplete_queue t p i off ci p' evs j :
  Pieces.setBlockComplete t p i off ci = Some (p', evs) -> QueueForHashing j ∈ evs -> j = i.
Proof.
  unfold Pieces.setBlockComplete. destruct (update_piece p i _) as [p1|]; [|done]. cbn.
  destruct (maybeStartEndgame t p1) as [[p2 b]|]; [|done]. cbn. destruct (at_index (pcs p2) i) as [pc|]; [|done]. cbn.
  intros [= <- <-] Hin. destruct (complete pc), b, (endGame p2); cbn in Hin; set_solver.
Qed.

End contributors.

(** ** Pieces waiting for the hasher *)

Section waiting.
Context {B : Type} `{BitmapLaws B} {S : Type} `{PieceSelector S B} `{SortSliceLaws (Piece B)}.
Implicit Types (p : pieces B S) (pc : Piece B) (t : tparams) (i : Z).

(** The piece has all its blocks and is not verified. *)
Definition waits t p i : Prop :=
  exists pc, at_index (pcs p) i = Some pc /\ (forall o, o ∈ offsets t pc -> state_of p i o = Complete) /\
    bm_Get (ownedPieces p) i = false.

Lemma waits_pieces t p i : pieces_ok t p -> waits t p i ->
  exists pc, at_index (pcs p) i = Some pc /\ complete pc = true /\ verified pc = false.
Proof.
  intros Hp (pc & Hi & Hc & Ho). exists pc. destruct (pieces_entry _ _ _ _ Hp Hi) as (_ & Hok & Hv & _).
  split_and!; [done| |congruence]. apply (complete_spec t pc Hok). intros o Hin.
  rewrite <- (state_of_at _ _ _ Hi). by apply Hc.
Qed.

(** Waiting survives a step that keeps complete blocks and the owned pieces. *)
Lemma waits_step t p p' i :
  same_shapes p p' -> bm_Get (ownedPieces p') i = bm_Get (ownedPieces p) i ->
  (forall pc o, at_index (pcs p) i = Some pc -> o ∈ offsets t pc -> state_of p i o = Complete -> state_of p' i o = Complete) ->
  waits t p i -> waits t p' i.
Proof.
  intros Hs Ho Hst (pc & Hi & Hc & Hn). destruct (same_shapes_lookup _ _ _ _ Hs Hi) as (pc' & Hi' & Hsh).
  exists pc'. split_and!; [done| |congruence]. intros o. rewrite (same_shape_offsets _ _ _ Hsh). intros Hin.
  by eapply Hst; [done|done|apply Hc].
Qed.

(** ** What connections do to the pieces, next to the main goroutine *)

Inductive conn_op t : pieces B S -> pieces B S -> Prop :=
| co_have p i p' : onHave p i = Some p' -> conn_op t p p'
| co_fill p coin peer limit p' new :
    0 <= limit -> fillRequests t coin peer limit p = Some (p', new) -> conn_op t p p'
| co_discard p reqs p' :
    Forall (block_in t p) reqs -> discardRequests p reqs = Some p' -> conn_op t p p'.

Lemma conn_op_keeps t D p p' :
  pieces_ok t p -> contrib_in D p -> conn_op t p p' ->
  pieces_ok t p' /\ contrib_in D p' /\ same_shapes p p' /\ ownedPieces p' = ownedPieces p /\
  forall j pc o, at_index (pcs p) j = Some pc -> o ∈ offsets t pc -> state_of p j o = Complete -> state_of p' j o = Complete.
Proof.
  intros Hp Hc Hop. destruct Hop as [p i p' E|p coin peer limit p' new Hl E|p reqs p' Hr E].
  - destruct (update_piece_inv _ _ _ _ E) as (pc & Hi & _). destruct (pieces_entry _ _ _ _ Hp Hi) as (_ & Hok & _).
    destruct (update_changes t p i pc (fun pc => with_rarity pc (rarity pc + 1)) (fun _ s => s) Hp Hi) as (q & E' & Hq & Hs & Hrest & Hst).
    { apply (rarity_changes t pc (rarity pc + 1) Hok). }
    unfold onHave in E. rewrite E in E'. injection E' as <-. split_and!; [done| |done|apply Hrest|].
    + eapply update_piece_contrib; [exact Hc| |exact E]. done.
    + intros j pcj o Hj Ho. rewrite (Hst j pcj o Hj Ho). by destruct (j =? i).
  - pose proof (fillRequests_contrib _ _ _ _ _ _ _ _ Hc E) as Hc'. destruct (Pieces.downloadEnabled p) eqn:Ed.
    + destruct (fillRequests_filled t coin peer limit p Hp Hl Ed) as (order & q & new' & E' & [F1 F2 F3 _ _ F6 F7 _] & _).
      rewrite E in E'. injection E' as <- <-. split_and!; [done|done|done|apply F3|].
      intros j pcj o Hj Ho Hs. rewrite F7. case_bool_decide as Hk; [|by rewrite andb_false_r].
      unfold keys in Hk. apply list_elem_of_fmap in Hk as (b & [= -> ->] & Hin). rewrite Forall_forall in F6.
      destruct (F6 b Hin) as (_ & _ & Hu). congruence.
    + unfold fillRequests in E. rewrite Ed in E. injection E as <- <-. split_and!; try done.
      unfold same_shapes. apply Forall2_same_length_lookup_2; [done|]. intros k x y Hx Hy. by simplify_eq.
  - destruct (discardRequests_spec t p reqs Hp Hr) as (q & E' & Hq & Hs & Hrest & Hst).
    rewrite E in E'. injection E' as <-. split_and!; [done|by eapply discardRequests_contrib|done|apply Hrest|].
    intros j pcj o Hj Ho Hcomp. rewrite (Hst j pcj o Hj Ho), Hcomp. by case_bool_decide.
Qed.

End waiting.

(** ** The invariant *)

Section tinv.
Context {B : Type} `{BitmapLaws B} {S : Type} `{PieceSelector S B} `{SortSliceLaws (Piece B)} `{SortSliceLaws Z}.
Variable env : Env.
Context `{EnvLaws env}.
Variable ip6_String : bytes -> bytes.
Variable int_of_Inf : Z.
Variable sha1_Sum : bytes -> bytes.
Variable openStorage : InfoDict -> list Z -> bool.
Variable SelectorF : S.
Variable outboundIP : bytes.

Abbreviation torrent := (torrent B S).
Abbreviation M := (M B S).
Abbreviation onDrop := (droppedConn env ip6_String int_of_Inf).
Abbreviation reviewUnchoked := (reviewUnchokedPeers env onDrop).
Implicit Types (t : torrent) (id i : Z) (p : pieces B S) (d : tdata B S).

Abbreviation True2 := (fun _ _ => True).
Ltac run_gets := eapply runs_bind; [by apply runs_gets|]; cbn beta; intros ? ? _ _ [-> ->].

(** Which channels have been closed, and the queue for the hasher. *)
Definition obs d : bool * bool * gset Z * list Z :=
  (DownloadedDataC_closed d, InfoC_closed d, queuedForVerification d, pieceQueuedHashingC d).

(** The data of a torrent without its info dictionary. *)
Definition no_info d : Prop := pieces_ d = None /\ obs d = (false, false, ∅, []) /\ mi_InfoBytes d = None.

(** The data of a torrent that has its info dictionary; [D] are the connections
    there have been. *)
Record data_ok (D : gset Z) d p : Prop := mkDataOk {
  do_params : params_ok (tparams_of d);
  do_pieces : pieces_ok (tparams_of d) p;
  do_contrib : contrib_in D p;
  do_queue : forall i, i ∈ queuedForVerification d -> waits (tparams_of d) p i;
  do_chan : NoDup (pieceQueuedHashingC d);
  do_chan_queued : Forall (fun i => i ∈ queuedForVerification d) (pieceQueuedHashingC d);
  do_done : DownloadedDataC_closed d = true -> haveAll (tparams_of d) p = true;
  do_length : length_ d = TotalLength (mi_Info d);
}.

Record tor_ok t : Prop := mkTorOk {
  tk_wf : wf t;
  tk_open : isClosed (t_data t) = false;
  tk_max : Z.of_nat (t_len t) <= Z.max 0 (maxEstablishedConnections (t_cfg t));
  tk_reserved : length (cl_reserved (t_cfg t)) = 8%nat;
  tk_idle : infoWasDownloaded t = false -> dataTransferAllowed t = false -> t_len t = 0%nat;
  tk_before : haveInfo t = false -> no_info (t_data t);
  tk_data : forall p, pieces_ (t_data t) = Some p -> haveInfo t = true /\ data_ok (dom (t_infos t)) (t_data t) p;
}.

Lemma tor_ok_ext t t' : tor_ok t -> ext t t' -> wf t' -> tor_ok t'.
Proof.
  intros [Hw Ho Hm Hr Hi Hb Hd] [Xc Xd Xdom Xl Xcap Xcs] Hw'. constructor; try done.
  - by rewrite Xd.
  - rewrite Xc. lia.
  - by rewrite Xc.
  - unfold infoWasDownloaded, dataTransferAllowed, haveInfo in *. rewrite Xd. intros Hx Hy. specialize (Hi Hx Hy). lia.
  - unfold haveInfo in *. by rewrite Xd.
  - intros p. unfold haveInfo in *. rewrite Xd, Xdom. apply Hd.
Qed.

(** [m] returns a result that satisfies [Q]. *)
Definition okay {A} (m : M A) t (Q : A -> torrent -> Prop) : Prop := exists a t', m t = Ok (a, t') /\ Q a t'.

Lemma okay_ret {A} (a : A) t (Q : A -> torrent -> Prop) : Q a t -> okay (mret a) t Q.
Proof. intros. by exists a, t. Qed.

Lemma okay_bind {A C} (m : M A) (f : A -> M C) t Q (R : C -> torrent -> Prop) :
  okay m t Q -> (forall a t', Q a t' -> okay (f a) t' R) -> okay (m ≫= f) t R.
Proof.
  intros (a & t1 & E & Hq) Hf. destruct (Hf a t1 Hq) as (c & t2 & E2 & Hr). exists c, t2.
  split; [|done]. unfold mbind, M_bind. by rewrite E.
Qed.

Lemma okay_weaken {A} (m : M A) t (Q R : A -> torrent -> Prop) : okay m t Q -> (forall a t', Q a t' -> R a t') -> okay m t R.
Proof. intros (a & t' & E & Hq) Hr. exists a, t'. split; [done|by apply Hr]. Qed.

(** An operation of the connections, in a state that satisfies the invariant. *)
Lemma okay_runs {A} (m : M A) t Q :
  tor_ok t -> runs m t Q -> okay m t (fun a t' => ext t t' /\ tor_ok t' /\ Q a t').
Proof. intros Ht (a & t' & E & X & W & Hq). exists a, t'. split_and!; try done. by eapply tor_ok_ext. Qed.

Lemma okay_runs_True {A} (m : M A) t Q : tor_ok t -> runs m t Q -> okay m t (fun _ => tor_ok).
Proof. intros Ht Hm. destruct (okay_runs m t Q Ht Hm) as (a & t' & E & _ & Ht' & _). by exists a, t'. Qed.

Lemma okay_mod_data (f : tdata B S -> tdata B S) t : okay (mod_data f) t (fun _ t' => t' = set_data (f (t_data t)) t).
Proof. by exists (), (set_data (f (t_data t)) t). Qed.

Lemma okay_gets {A} (f : torrent -> A) t : okay (gets f) t (fun a t' => a = f t /\ t' = t).
Proof. by exists (f t), t. Qed.

Lemma okay_lift {A} (o : option A) a t : o = Some a -> okay (lift_option o) t (fun x t' => x = a /\ t' = t).
Proof. intros ->. by exists a, t. Qed.

Lemma okay_get_pieces p t : pieces_ (t_data t) = Some p -> okay get_pieces t (fun x t' => x = p /\ t' = t).
Proof. intros E. exists p, t. unfold get_pieces. by rewrite E. Qed.

(** New data: the connections do not change. *)
Lemma tor_ok_data t d :
  tor_ok t -> isClosed d = false ->
  (negb (correctSize (utmetadata d) =? 0) = true -> is_Some (pieces_ d)) ->
  (infoWasDownloaded (set_data d t) = false -> dataTransferAllowed (set_data d t) = false -> t_len t = 0%nat) ->
  (haveInfo (set_data d t) = false -> no_info d) ->
  (forall p, pieces_ d = Some p -> negb (correctSize (utmetadata d) =? 0) = true /\ data_ok (dom (t_infos t)) d p) ->
  tor_ok (set_data d t).
Proof.
  intros [Hw Ho Hm Hr Hi Hb Hd] Hc Hp Hidle Hbef Hok. constructor; try done. by destruct Hw.
Qed.

(** With pieces, nothing has to be shown for the time before. *)
Lemma with_info t p d (P : Prop) :
  tor_ok t -> pieces_ (t_data t) = Some p -> correctSize (utmetadata d) = correctSize (utmetadata (t_data t)) ->
  haveInfo (set_data d t) = false -> P.
Proof. intros Ht Hp Hu. unfold haveInfo. cbn. rewrite Hu. intros Hf. destruct (tk_data _ Ht p Hp) as [Hi _]. unfold haveInfo in Hi. congruence. Qed.

(** Dropping works for any number of connections. *)
Lemma drop_runs n id t : wf t -> id ∈ dom (t_infos t) -> (t_len t < n)%nat -> runs (onDrop id) t (fun _ t' => id ∉ conns t').
Proof. intros Hw Hid _. by apply runs_droppedConn. Qed.

Lemma run_send id m t : neutral m -> wf t -> id ∈ dom (t_infos t) ->
  runs (sendMsgToConn env onDrop id m) t True2.
Proof. intros. eapply (runs_send env onDrop (Datatypes.S (t_len t))); try done; [apply drop_runs|lia]. Qed.

Lemma run_review t : wf t -> runs reviewUnchoked t True2.
Proof. intros. eapply (runs_reviewUnchokedPeers env onDrop (Datatypes.S (t_len t))); [apply drop_runs|done|lia]. Qed.

Lemma run_interested id t : wf t -> id ∈ dom (t_infos t) -> runs (interested env onDrop id) t True2.
Proof. intros. eapply (runs_interested env onDrop (Datatypes.S (t_len t))); [apply drop_runs|done|done|lia]. Qed.

Lemma run_notInterested id t : wf t -> id ∈ dom (t_infos t) -> runs (notInterested env onDrop id) t True2.
Proof. intros. eapply (runs_notInterested env onDrop (Datatypes.S (t_len t))); [apply drop_runs|done|done|lia]. Qed.

Lemma run_range f t :
  wf t -> (forall id t', wf t' -> id ∈ dom (t_infos t') -> runs (f id) t' True2) -> runs (range_conns f) t True2.
Proof. intros Hw Hf. apply (runs_range_conns (Datatypes.S (t_len t))); [done|lia|]. intros. by apply Hf. Qed.

Lemma run_broadcast m t : neutral m -> wf t -> runs (broadcastToConns env ip6_String int_of_Inf m) t True2.
Proof. intros Hm Hw. apply run_range; [done|]. intros. by apply run_send. Qed.

(** ** Handlers that leave the data alone *)

Lemma synced_isInterested {X} (ci : connInfo X) : synced ci -> synced (ci_with_state flip_isInterested ci).
Proof. done. Qed.

Lemma run_peerInterestChanged id t :
  wf t -> id ∈ dom (t_infos t) -> runs (peerInterestChanged env ip6_String int_of_Inf id) t True2.
Proof.
  intros Hw Hid. unfold peerInterestChanged. eapply runs_bind; [by apply runs_modInfo|]. intros _ t1 X1 W1 _.
  eapply runs_bind; [by eapply runs_getInfo, dom_ext|]. intros ci t2 _ _ [_ ->].
  assert (Hid1 : id ∈ dom (t_infos t1)) by (by eapply dom_ext). destruct (isInterested _).
  - eapply runs_bind; [apply runs_when; [done|]; intros _; by apply run_review|]. intros _ t2 X2 W2 _.
    apply runs_modInfo_now; [done|by eapply dom_ext|]. intros. by apply synced_startedUploading.
  - apply runs_when; [done|]. intros _. eapply runs_bind; [by apply run_review|]. intros _ t2 X2 W2 _.
    apply runs_modInfo_now; [done|by eapply dom_ext|done].
Qed.

Lemma run_peerChokeChanged id t : wf t -> id ∈ dom (t_infos t) -> runs (peerChokeChanged env id) t True2.
Proof.
  intros Hw Hid. unfold peerChokeChanged. eapply runs_bind; [by apply runs_modInfo|]. intros _ t1 X1 W1 _.
  eapply runs_bind; [by eapply runs_getInfo, dom_ext|]. intros ci t2 _ _ [_ ->].
  assert (Hid1 : id ∈ dom (t_infos t1)) by (by eapply dom_ext). destruct (isChoking _).
  - apply runs_when; [done|]. intros _. by apply runs_modInfo_now.
  - apply runs_modInfo_now; [done|done|]. intros. by apply synced_startedDownloading.
Qed.

Lemma run_reviewInterestsOnBitfield id t :
  wf t -> id ∈ dom (t_infos t) -> runs (reviewInterestsOnBitfield env ip6_String int_of_Inf id) t True2.
Proof.
  intros Hw Hid. unfold reviewInterestsOnBitfield. run_gets.
  eapply runs_bind; [by apply runs_haveAll|]. intros all t1 _ _ ->. destruct (haveInfo t) eqn:Hi; cbn [negb orb].
  2:{ by apply runs_ret. }
  destruct all; [by apply runs_ret|]. eapply runs_bind; [by apply runs_get_pieces|]. intros p t1 _ _ [_ ->]. run_gets.
  eapply runs_bind; [by apply runs_getInfo|]. intros ci t1 _ _ [_ ->].
  eapply runs_bind; [by apply runs_modInfo|]. intros _ t1 X1 W1 _.
  eapply runs_bind; [by eapply runs_getInfo, dom_ext|]. intros ci1 t2 _ _ [_ ->].
  apply runs_when; [done|]. intros _. apply run_interested; [done|by eapply dom_ext].
Qed.

Lemma run_reviewInterestsOnHave id i t :
  wf t -> id ∈ dom (t_infos t) -> runs (reviewInterestsOnHave env ip6_String int_of_Inf id i) t True2.
Proof.
  intros Hw Hid. unfold reviewInterestsOnHave. run_gets.
  eapply runs_bind; [by apply runs_haveAll|]. intros all t1 _ _ ->. destruct (haveInfo t) eqn:Hi; cbn [negb orb].
  2:{ by apply runs_ret. }
  destruct all; [by apply runs_ret|]. eapply runs_bind; [by apply runs_get_pieces|]. intros p t1 _ _ [_ ->].
  apply runs_when; [done|]. intros _. eapply runs_bind; [by apply runs_getInfo|]. intros ci t1 _ _ [_ ->].
  eapply runs_bind; [apply runs_when; [done|]; intros _; by apply run_interested|]. intros _ t1 X1 W1 _.
  eapply runs_weaken; [apply runs_modInfo; [done|by eapply dom_ext|done]|done].
Qed.

(** ** Handlers that change the data *)

(** The invariant, with the pieces and these. *)
Definition at_pieces tp p (c : bool * bool * gset Z * list Z) t : Prop :=
  tor_ok t /\ pieces_ (t_data t) = Some p /\ obs (t_data t) = c /\ tparams_of (t_data t) = tp.

Lemma at_pieces_ext tp p c t t' : at_pieces tp p c t -> ext t t' -> wf t' -> at_pieces tp p c t'.
Proof. intros (Ht & Hp & Hc & Htp) X W. split_and!; [by eapply tor_ok_ext|by rewrite (ext_data _ _ X)..]. Qed.

Lemma okay_at {A} (m : M A) tp p c t Q : at_pieces tp p c t -> runs m t Q -> okay m t (fun _ => at_pieces tp p c).
Proof. intros Ht (a & t' & E & X & W & _). exists a, t'. split; [done|by eapply at_pieces_ext]. Qed.

(** Data that differs only in what the invariant does not read. *)
Lemma tor_ok_stats s t : tor_ok t -> tor_ok (set_data (d_stats s (t_data t)) t).
Proof.
  intros Ht. apply tor_ok_data; try apply Ht.
  intros p Hp. destruct (tk_data _ Ht p Hp) as [? []]. split; [done|]. by constructor.
Qed.

Lemma at_pieces_stats tp p c s t : at_pieces tp p c t -> at_pieces tp p c (set_data (d_stats s (t_data t)) t).
Proof. intros (Ht & Hp & Hc & Htp). split_and!; [by apply tor_ok_stats|done|done|done]. Qed.

(** New pieces with the same numbers. *)
Lemma tor_ok_pieces t p : tor_ok t -> is_Some (pieces_ (t_data t)) ->
  data_ok (dom (t_infos t)) (d_pieces (Some p) (t_data t)) p -> tor_ok (set_data (d_pieces (Some p) (t_data t)) t).
Proof.
  intros Ht [q Hq] Hd. apply tor_ok_data; try apply Ht.
  - intros _. by eexists.
  - by apply (with_info t q).
  - intros p' [= <-]. split; [|done]. apply (tk_data _ Ht q Hq).
Qed.

Lemma tor_ok_queue t q c p :
  tor_ok t -> pieces_ (t_data t) = Some p ->
  (forall i, i ∈ q -> waits (tparams_of (t_data t)) p i) -> NoDup c -> Forall (fun i => i ∈ q) c ->
  tor_ok (set_data (d_queue q c (t_data t)) t).
Proof.
  intros Ht Hp Hq Hn Hc. apply tor_ok_data; try apply Ht; [by apply (with_info t p)|]. intros p' Hp'. change (pieces_ (t_data t) = Some p') in Hp'.
  rewrite Hp in Hp'. injection Hp' as <-. destruct (tk_data _ Ht p Hp) as [? []]. split; [done|]. by constructor.
Qed.

Lemma waits_range tp p i : pieces_ok tp p -> waits tp p i -> 0 <= i < t_numPieces tp.
Proof. intros Hp (pc & Hi & _). by destruct (pieces_entry _ _ _ _ Hp Hi) as (_ & _ & _ & _ & ?). Qed.

(** A list of different piece numbers is no longer than the number of pieces. *)
Lemma NoDup_range_length (l : list Z) n : 0 <= n -> NoDup l -> Forall (fun i => 0 <= i < n) l -> lenZ l <= n.
Proof.
  intros Hn Hl Hr. assert (l ⊆+ seqZ 0 n) as Hs.
  { apply NoDup_submseteq; [done|]. intros i Hi. rewrite Forall_forall in Hr. apply elem_of_seqZ. specialize (Hr i Hi). lia. }
  apply submseteq_length in Hs. rewrite length_seqZ in Hs. lia.
Qed.

Lemma okay_queuePiece i tp p c t pc :
  at_pieces tp p c t -> at_index (pcs p) i = Some pc ->
  (forall o, o ∈ offsets tp pc -> state_of p i o = Complete) ->
  okay (queuePieceForHashing i) t (fun _ t' => exists c', at_pieces tp p c' t').
Proof.
  intros (Ht & Hp & Hc & <-) Hi Hcomp. destruct (tk_data _ Ht p Hp) as [Hinfo Hd].
  unfold queuePieceForHashing. eapply okay_bind; [apply okay_gets|]. cbn beta. intros d t1 [-> ->].
  eapply okay_bind; [by apply okay_get_pieces|]. cbn beta. intros p' t1 [-> ->].
  eapply okay_bind; [by eapply okay_lift|]. cbn beta. intros pc' t1 [-> ->].
  destruct (bool_decide _ || verified pc) eqn:E; cbn [negb when].
  { apply okay_ret. by exists (obs (t_data t)). }
  apply orb_false_iff in E as [Eq%bool_decide_eq_false Ev].
  destruct (pieces_entry _ _ _ _ (do_pieces _ _ _ Hd) Hi) as (_ & _ & Hvo & _ & Hr).
  assert (Hw : waits (tparams_of (t_data t)) p i) by (exists pc; split_and!; [done|done|congruence]).
  assert (Hall : forall j, j ∈ queuedForVerification (t_data t) ∪ {[ i ]} -> waits (tparams_of (t_data t)) p j).
  { intros j [Hj|Hj%elem_of_singleton]%elem_of_union; [by apply (do_queue _ _ _ Hd)|by subst]. }
  assert (Hnd : NoDup (pieceQueuedHashingC (t_data t) ++ [i])).
  { apply NoDup_app. split_and!; [apply Hd| |apply NoDup_singleton]. intros j Hj Hj'%list_elem_of_singleton. subst.
    apply Eq. pose proof (do_chan_queued _ _ _ Hd) as Hq. rewrite Forall_forall in Hq. by apply Hq. }
  assert (Hsub : Forall (fun j => j ∈ queuedForVerification (t_data t) ∪ {[ i ]}) (pieceQueuedHashingC (t_data t) ++ [i])).
  { apply Forall_app. split; [|apply Forall_singleton; set_solver].
    eapply Forall_impl; [apply (do_chan_queued _ _ _ Hd)|]. set_solver. }
  assert (Hlen : lenZ (pieceQueuedHashingC (t_data t) ++ [i]) <= NumPieces (mi_Info (t_data t))).
  { apply NoDup_range_length; [cbn in Hr; lia|done|]. eapply Forall_impl; [exact Hsub|]. cbn. intros j Hj.
    exact (waits_range _ _ _ (do_pieces _ _ _ Hd) (Hall j Hj)). }
  rewrite length_app in Hlen. cbn [length] in Hlen. destruct (Z.ltb_spec (lenZ (pieceQueuedHashingC (t_data t)))
    (NumPieces (mi_Info (t_data t)))); [|lia].
  eexists _, _. split; [reflexivity|]. eexists. split_and!; [|done|reflexivity|done]. by eapply tor_ok_queue.
Qed.

Lemma okay_for_each {A} (f : A -> M ()) (I : torrent -> Prop) l t :
  I t -> (forall a t', a ∈ l -> I t' -> okay (f a) t' (fun _ => I)) -> okay (for_each f l) t (fun _ => I).
Proof.
  revert t. induction l as [|a l IH]; intros t Ht Hf; cbn [for_each]; [by apply okay_ret|].
  eapply okay_bind; [apply Hf; [left|done]|]. cbn beta. intros _ t1 I1. apply IH; [done|]. intros b t2 Hb. apply Hf. by right.
Qed.

(** Whether everything is there depends on the owned pieces only. *)
Lemma haveAll_owned tp p p' : ownedPieces p' = ownedPieces p -> haveAll tp p' = haveAll tp p.
Proof. unfold haveAll. by intros ->. Qed.

Lemma okay_pieces_event tp q c evs t :
  at_pieces tp q c t ->
  (forall i, QueueForHashing i ∈ evs -> exists pc, at_index (pcs q) i = Some pc /\
     forall o, o ∈ offsets tp pc -> state_of q i o = Complete) ->
  okay (for_each (pieces_event env ip6_String int_of_Inf) evs) t (fun _ => tor_ok).
Proof.
  intros Ht Hq. destruct (okay_for_each (pieces_event env ip6_String int_of_Inf) (fun t' => exists c', at_pieces tp q c' t') evs t)
    as (a & t' & E & c' & Hat).
  - by exists c.
  - intros e t' He [c' Hat]. assert (Hb : forall m, neutral m -> okay (broadcastToConns env ip6_String int_of_Inf m) t'
      (fun _ t2 => exists c2, at_pieces tp q c2 t2)).
    { intros m Hm. destruct (okay_at _ tp q c' t' _ Hat (run_broadcast m t' Hm (tk_wf _ (proj1 Hat)))) as (a & t2 & E & H2').
      exists a, t2. split; [done|by exists c']. }
    destruct e as [i| |b]; cbn [pieces_event]; [|by apply Hb..].
    destruct (Hq i He) as (pc & Hi & Hc). by eapply okay_queuePiece.
  - exists a, t'. split; [done|apply Hat].
Qed.

(** The pieces after a block has come. *)
Lemma data_ok_block D d p id i off pc q evs :
  data_ok D d p -> id ∈ D -> at_index (pcs p) i = Some pc -> off ∈ offsets (tparams_of d) pc ->
  Pieces.setBlockComplete (tparams_of d) p i off id = Some (q, evs) ->
  data_ok D (d_pieces (Some q) d) q /\
  forall j, QueueForHashing j ∈ evs -> exists pc', at_index (pcs q) j = Some pc' /\
    forall o, o ∈ offsets (tparams_of d) pc' -> state_of q j o = Complete.
Proof.
  intros [H1' H2' H3' H4' H5' H6' H7'] Hid Hi Ho E.
  destruct (setBlockComplete_spec (tparams_of d) p i off id pc H2' Hi Ho)
    as (q' & evs' & start & E' & Hq & Hsh & Hown & _ & _ & Hst & Hqueue & _ & _).
  rewrite E in E'. injection E' as <- <-. split.
  - constructor; try done.
    + by eapply setBlockComplete_contrib.
    + intros j Hj. eapply waits_step; [exact Hsh|by rewrite Hown| |by apply H4'].
      intros pcj o Hj' Ho' Hs. change (tparams_of _) with (tparams_of d) in *. rewrite (Hst j pcj o Hj' Ho'), Hs.
      destruct (_ && _); cbn; by destruct (start && _).
    + intros Hcl. rewrite (haveAll_owned _ p) by done. by apply H7'.
  - intros j Hj. pose proof (setBlockComplete_queue _ _ _ _ _ _ _ _ E Hj) as ->.
    destruct (same_shapes_lookup _ _ _ _ Hsh Hi) as (pcq & Hiq & Hshq). exists pcq. split; [done|].
    rewrite (same_shape_offsets _ _ _ Hshq). by apply Hqueue.
Qed.

Lemma okay_blockDownloaded id b tp p c t pc :
  at_pieces tp p c t -> id ∈ dom (t_infos t) -> at_index (pcs p) (b_pc b) = Some pc -> b_off b ∈ offsets tp pc ->
  okay (blockDownloaded env ip6_String int_of_Inf id b) t (fun _ => tor_ok).
Proof.
  intros Hat Hid Hi Ho. unfold blockDownloaded.
  eapply (okay_bind _ _ _ (fun _ t' => at_pieces tp p c t' /\ id ∈ dom (t_infos t'))).
  { destruct (runs_modInfo_now env id (fun now => ci_with_stats (onBlockDownload now (b_len b))) t) as (a & t' & E & X & W & _);
      [apply Hat|done|done|]. exists a, t'. split_and!; [done|by eapply at_pieces_ext|by eapply dom_ext]. }
  intros _ t1 [H1' Hid1]. eapply okay_bind; [apply okay_mod_data|]. cbn beta. intros _ t2 ->.
  apply (at_pieces_stats _ _ _ (blockDownloaded_stats (b_len b) (stats (t_data t1)))) in H1'.
  set (t2 := set_data _ t1) in *. destruct H1' as (Ht & Hp & Hc & Htp). destruct (tk_data _ Ht p Hp) as [Hinfo Hd].
  eapply okay_bind; [by apply okay_get_pieces|]. cbn beta. intros p' t3 [-> ->].
  eapply okay_bind; [apply okay_gets|]. cbn beta. intros d t3 [-> ->]. subst tp.
  destruct (setBlockComplete_spec (tparams_of (t_data t2)) p (b_pc b) (b_off b) id pc (do_pieces _ _ _ Hd) Hi Ho)
    as (q & evs & start & E & _).
  eapply okay_bind; [by eapply okay_lift|]. cbn beta. intros [p1 evs1] t3 [[= -> ->] ->].
  eapply okay_bind; [apply okay_mod_data|]. cbn beta. intros _ t3 ->.
  destruct (data_ok_block _ _ _ id _ _ _ _ _ Hd Hid1 Hi Ho E) as [Hd' Hq].
  destruct (okay_pieces_event (tparams_of (t_data t2)) q c evs (set_data (d_pieces (Some q) (t_data t2)) t2))
    as (a & t4 & E4 & H4'); [|done|].
  - split_and!; [|done|done|done]. apply tor_ok_pieces; [done|by eexists|done].
  - by exists a, t4.
Qed.

Lemma haveAll_missing tp p i : pieces_ok tp p -> 0 <= i < t_numPieces tp -> bm_Get (ownedPieces p) i = false -> haveAll tp p = false.
Proof.
  intros Hp Hi Ho. unfold haveAll. apply Z.eqb_neq. rewrite bm_Len_Iter.
  assert (lenZ (i :: bm_Iter (ownedPieces p)) <= t_numPieces tp); [|cbn [length] in *; lia].
  apply NoDup_range_length; [lia| |].
  - apply NoDup_cons. split; [|apply bm_Iter_NoDup]. rewrite bm_Iter_Get. congruence.
  - constructor; [done|]. apply Forall_forall. intros j Hj%bm_Iter_Get. by apply (pso_owned _ _ Hp).
Qed.

(** The pieces after the result of a hash check. *)
Lemma data_ok_hashed D d p i ok q cs :
  data_ok D d p -> waits (tparams_of d) p i -> i ∉ queuedForVerification d -> Pieces.pieceHashed p i ok = Some (q, cs) ->
  data_ok D (d_pieces (Some q) d) q /\ Forall (fun c => c ∈ D) cs /\ DownloadedDataC_closed d = false.
Proof.
  intros [K1 K2 K3 K4 K5 K6 K7] Hw Hnq E. destruct (waits_pieces _ _ _ K2 Hw) as (pc & Hi & Hc & Hv).
  destruct (pieceHashed_spec _ _ _ ok _ K2 Hi Hc Hv) as (q' & E' & Hq & Hsh & _ & Hown & Hst).
  rewrite E in E'. injection E' as <- ->. destruct (pieceHashed_contrib _ _ _ _ _ _ K3 E) as [Hcq Hcs].
  assert (Hcl : DownloadedDataC_closed d = false).
  { apply not_true_is_false. intros Hcl%K7. destruct Hw as (_ & _ & _ & Ho).
    destruct (pieces_entry _ _ _ _ K2 Hi) as (_ & _ & _ & _ & Hr). rewrite (haveAll_missing _ p i) in Hcl; done. }
  split_and!; [|done|done]. constructor; try done; [|cbn; congruence].
  intros j Hj. change (j ∈ queuedForVerification d) in Hj. assert (j <> i) as Hne by set_solver.
  eapply waits_step; [exact Hsh| | |by apply K4].
  - rewrite Hown. apply Z.eqb_neq in Hne. by rewrite Hne, andb_false_r.
  - intros pcj o Hpcj Ho Hs. rewrite (Hst j pcj o Hpcj Ho). apply Z.eqb_neq in Hne. by rewrite Hne, andb_false_r.
Qed.

Lemma run_sendHaves i t : wf t -> runs (sendHaves env ip6_String int_of_Inf i) t True2.
Proof. intros Hw. apply run_range; [done|]. intros. by apply run_send. Qed.

Lemma run_reviewInterestsOnPieceDownload i t :
  wf t -> runs (reviewInterestsOnPieceDownload env ip6_String int_of_Inf i) t True2.
Proof.
  intros Hw. unfold reviewInterestsOnPieceDownload. eapply runs_bind; [by apply runs_haveAll|]. intros all t1 _ _ ->.
  apply runs_when; [done|]. intros _. apply run_range; [done|]. intros id t' Hw' Hid.
  eapply runs_bind; [by apply runs_getInfo|]. intros ci t1 _ _ [_ ->]. apply runs_when; [done|]. intros _.
  eapply runs_bind; [by apply runs_modInfo|]. intros _ t1 X1 W1 _.
  eapply runs_bind; [by eapply runs_getInfo, dom_ext|]. intros ci1 t2 _ _ [_ ->].
  apply runs_when; [done|]. intros _. apply run_notInterested; [done|by eapply dom_ext].
Qed.

Lemma worst_elem (infos : gmap Z (connInfo B)) l max o id : worst infos l max o = Some id -> id ∈ l \/ o = Some id.
Proof.
  revert max o. induction l as [|x l IH]; intros max o; cbn [worst]; [by right|].
  destruct (max <? _); intros [Hin|Ho]%IH; try (left; by right); [|by right]. injection Ho as ->. left. left.
Qed.

Lemma conns_dom id t : wf t -> id ∈ conns t -> id ∈ dom (t_infos t).
Proof.
  intros Hw Hid. unfold conns in Hid. apply list_elem_of_lookup in Hid as [k Hk]. apply lookup_take_Some in Hk as [Hk _].
  apply (proj1 (Forall_lookup _ _) (wf_arr _ Hw) _ _ Hk).
Qed.

Lemma run_banIP ip t : wf t -> runs (banIP env ip6_String int_of_Inf outboundIP ip) t True2.
Proof.
  intros Hw. unfold banIP. destruct (_ || _); [by apply runs_ret|].
  eapply runs_bind; [apply runs_modify_same; try done; apply Hw|]. intros _ t1 _ W1 _.
  apply run_range; [done|]. intros id t' Hw' Hid. eapply runs_bind; [by apply runs_getInfo|]. intros ci t2 _ _ [_ ->].
  apply runs_when; [done|]. intros _. by apply run_send.
Qed.

Lemma run_banPeer t : wf t -> runs (banPeer env ip6_String int_of_Inf outboundIP) t True2.
Proof.
  intros Hw. unfold banPeer. run_gets. destruct (worst _ _ _ _) as [id|] eqn:E; [|by apply runs_ret].
  apply worst_elem in E as [E|[=]]. eapply runs_bind; [by apply runs_getInfo, conns_dom|]. intros ci t1 _ _ [_ ->].
  by apply run_banIP.
Qed.

Lemma pieceLen_Some tp i : params_ok tp -> exists len, pieceLen tp i = Some len.
Proof.
  intros Hp. unfold pieceLen. destruct (i =? _); [|by eexists]. pose proof (pa_brs _ Hp).
  destruct (Z.eqb_spec (t_PieceLen tp) 0); [lia|by eexists].
Qed.

Lemma okay_onPieceDownload i tp p c t :
  at_pieces tp p c t -> okay (onPieceDownload env ip6_String int_of_Inf i) t (fun _ => at_pieces tp p c).
Proof.
  intros Hat. pose proof Hat as (Ht & Hp & Hc & Htp). destruct (tk_data _ Ht p Hp) as [_ Hd].
  unfold onPieceDownload. eapply okay_bind; [apply okay_gets|]. cbn beta. intros d t1 [-> ->].
  destruct (pieceLen_Some _ (uint32 i) (do_params _ _ _ Hd)) as [len Hl].
  eapply okay_bind; [by eapply okay_lift|]. cbn beta. intros x t1 [-> ->].
  eapply okay_bind; [apply okay_mod_data|]. cbn beta. intros _ t1 ->.
  eapply okay_bind; [eapply okay_at; [by apply at_pieces_stats|]; apply run_reviewInterestsOnPieceDownload; apply tor_ok_stats, Ht|].
  cbn beta. intros _ t2 Hat2. eapply okay_at; [done|]. apply run_sendHaves, Hat2.
Qed.

Lemma okay_pieceHashed i ok tp p c t :
  at_pieces tp p c t -> waits tp p i -> i ∉ c.2 ->
  okay (pieceHashed env ip6_String int_of_Inf outboundIP i ok) t (fun _ t' => exists q cs,
    Pieces.pieceHashed p i ok = Some (q, cs) /\ at_pieces tp q (false, c.1.1.2, c.1.2 ∖ {[ i ]}, c.2) t').
Proof.
  intros (Ht & Hp & <- & <-) Hw Hic. destruct (tk_data _ Ht p Hp) as [_ Hd]. cbn [obs fst snd] in *.
  unfold pieceHashed. eapply okay_bind; [apply okay_mod_data|]. cbn beta. intros _ t1 ->.
  assert (Ht1 : tor_ok (set_data (d_queue (queuedForVerification (t_data t) ∖ {[ i ]}) (pieceQueuedHashingC (t_data t)) (t_data t)) t)).
  { eapply tor_ok_queue; [done|done| |apply Hd|].
    - intros j [Hj _]%elem_of_difference. by apply (do_queue _ _ _ Hd).
    - apply Forall_forall. intros j Hj. pose proof (do_chan_queued _ _ _ Hd) as Hq. rewrite Forall_forall in Hq.
      apply elem_of_difference. split; [by apply Hq|]. intros ->%elem_of_singleton. done. }
  set (t1 := set_data _ t) in *. destruct (tk_data _ Ht1 p Hp) as [_ Hd1].
  eapply okay_bind; [by apply okay_get_pieces|]. cbn beta. intros p' t2 [-> ->].
  destruct (waits_pieces _ _ _ (do_pieces _ _ _ Hd) Hw) as (pc & Hi & Hcp & Hv).
  destruct (pieceHashed_spec _ _ _ ok _ (do_pieces _ _ _ Hd) Hi Hcp Hv) as (q & E & _).
  eapply okay_bind; [by eapply okay_lift|]. cbn beta. intros [q' cs'] t2 [[= -> ->] ->].
  eapply okay_bind; [apply okay_mod_data|]. cbn beta. intros _ t2 ->.
  destruct (data_ok_hashed _ _ _ i ok q (Piece.contributors pc) Hd1 Hw) as (Hd2 & Hcs & Hcl); [cbn; set_solver|exact E|].
  set (c' := (false, InfoC_closed (t_data t), queuedForVerification (t_data t) ∖ {[ i ]}, pieceQueuedHashingC (t_data t))).
  assert (Hat2 : at_pieces (tparams_of (t_data t)) q c' (set_data (d_pieces (Some q) (t_data t1)) t1)).
  { split_and!; [by apply tor_ok_pieces; [|by eexists|]|done| |done]. unfold obs, c'. cbn. by rewrite <- Hcl. }
  eapply okay_bind.
  { eapply okay_at; [exact Hat2|]. apply (runs_for_each (Datatypes.S (t_len t)) _ (fun id t' => id ∈ dom (t_infos t')));
      [apply Hat2|cbn; lia|exact Hcs| |].
    - intros id ta tb Hid X. by eapply dom_ext.
    - intros id t' W' _ Hid. eapply runs_weaken; [apply runs_modInfo; [done|done|]|done]. by destruct ok. }
  cbn beta. intros _ t3 Hat3. destruct ok.
  - destruct (okay_onPieceDownload i _ q c' t3 Hat3) as (a & t4 & E4 & H4'). exists a, t4. split; [done|by eexists q, _].
  - destruct (okay_at _ _ q c' t3 _ Hat3 (run_banPeer t3 (tk_wf _ (proj1 Hat3)))) as (a & t4 & E4 & H4').
    exists a, t4. split; [done|by eexists q, _].
Qed.

Lemma run_downloadedAll_conns t : wf t -> runs (range_conns (fun id => notInterested env onDrop id)) t True2.
Proof. intros Hw. apply run_range; [done|]. intros. by apply run_notInterested. Qed.

Lemma okay_downloadedAll tp p c t :
  at_pieces tp p c t -> c.1.1.1 = false -> haveAll tp p = true ->
  okay (downloadedAll env ip6_String int_of_Inf) t (fun _ => at_pieces tp p (true, c.1.1.2, c.1.2, c.2)).
Proof.
  intros (Ht & Hp & <- & <-) Hc Hall. cbn [obs fst snd] in *.
  unfold downloadedAll. eapply okay_bind; [apply okay_gets|]. cbn beta. intros b t3 [-> ->]. rewrite Hc.
  eapply okay_bind; [apply okay_mod_data|]. cbn beta. intros _ t3 ->.
  assert (Ht3 : tor_ok (set_data (d_chans true (InfoC_closed (t_data t)) (t_data t)) t)).
  { apply tor_ok_data; try apply Ht; [by apply (with_info t p)|]. intros p' Hp'. change (pieces_ (t_data t) = Some p') in Hp'.
    rewrite Hp in Hp'. injection Hp' as <-. destruct (tk_data _ Ht p Hp) as [? []]. split; [done|]. by constructor. }
  eapply okay_at; [|apply run_downloadedAll_conns, Ht3]. by split_and!.
Qed.

Lemma okay_onPieceHashed i ok tp p c t :
  at_pieces tp p c t -> i ∈ c.1.2 -> i ∉ c.2 ->
  okay (onPieceHashed env ip6_String int_of_Inf outboundIP i ok) t (fun _ t' => tor_ok t' /\
    exists q cs closed, Pieces.pieceHashed p i ok = Some (q, cs) /\ at_pieces tp q (closed, c.1.1.2, c.1.2 ∖ {[ i ]}, c.2) t').
Proof.
  intros Hat Hiq Hic. unfold onPieceHashed. 
  assert (Hw : waits tp p i).
  { destruct Hat as (Ht & Hp & <- & <-). destruct (tk_data _ Ht p Hp) as [_ Hd]. by apply (do_queue _ _ _ Hd). }
  eapply okay_bind; [by eapply okay_pieceHashed|]. cbn beta. intros _ t1 (q & cs & Eq & Hat1). pose proof Hat1 as (Ht1 & Hp1 & Hc1 & Htp1).
  eapply okay_bind; [by apply okay_get_pieces|]. cbn beta. intros p' t2 [-> ->].
  eapply okay_bind; [apply okay_gets|]. cbn beta. intros d t2 [-> ->].
  destruct (haveAll _ q) eqn:Hall; cbn [when]; [|apply okay_ret; split; [done|by eexists _, _, _]].
  eapply okay_bind; [eapply okay_at; [exact Hat1|apply runs_sendAnnounce; [apply _|apply Ht1]]|]. cbn beta. intros _ t2 (Ht2 & Hp2 & Hc2 & Htp2).
  destruct (okay_downloadedAll tp q _ t2 (conj Ht2 (conj Hp2 (conj Hc2 Htp2)))) as (a & t3 & E3 & Hat3);
    [done|by rewrite <- Htp1|]. exists a, t3. split_and!; [done|apply Hat3|]. by eexists _, _, _.
Qed.

(** ** New connections *)

Lemma contrib_in_mono (D D' : gset Z) p : D ⊆ D' -> contrib_in D p -> contrib_in D' p.
Proof.
  intros Hs Hc. eapply Forall_impl; [exact Hc|]. cbn. intros pc Hpc. eapply Forall_impl; [exact Hpc|]. set_solver.
Qed.

Lemma tor_ok_new id ci t : tor_ok t -> id ∉ dom (t_infos t) -> tor_ok (set_infos (<[id := ci]> (t_infos t)) t).
Proof.
  intros [[W1 W2 W3 W4 W5 W6 W7] K2 K3 K4 K5 Kb K6] Hid.
  assert (Hd : dom (t_infos t) ⊆ dom (<[id := ci]> (t_infos t))) by (rewrite dom_insert_L; set_solver).
  constructor; try done.
  - constructor; try done; cbn [set_infos t_infos t_arr t_choker].
    + eapply Forall_impl; [exact W2|]. cbn. set_solver.
    + intros x Hx. by apply Hd, W4.
    + intros x cx Hx. rewrite lookup_insert_ne; [by apply W6|]. intros <-. apply Hid.
      apply (conns_dom id t); [by constructor|exact Hx].
  - intros p Hp. destruct (K6 p Hp) as [? []]. split; [done|]. constructor; try done.
    by eapply contrib_in_mono.
Qed.

Lemma runs_lift {A} (o : option A) a t : wf t -> o = Some a -> runs (lift_option o) t (fun x t' => x = a /\ t' = t).
Proof. intros Hw ->. by apply runs_ret. Qed.

Lemma SupportDHT_Some r : length r = 8%nat -> exists b, SupportDHT r = Some b.
Proof.
  intros Hr. unfold SupportDHT. destruct (at_index_Some r 7) as [x Hx]; [lia|]. rewrite Hx. by eexists.
Qed.

Lemma run_closeDhtAnnounce t : wf t -> runs closeDhtAnnounce t True2.
Proof.
  intros Hw. unfold closeDhtAnnounce. run_gets. run_gets. destruct (negb _); [by apply runs_ret|].
  destruct (dhtAnnounceResp (t_dial t)) as [[]|] eqn:E; [|by apply runs_ret|by destruct (wf_dht _ Hw)].
  eapply runs_weaken; [apply runs_modify_same; try done; apply Hw|done].
Qed.

(** A new connection at the end of the slice. *)
Lemma append_ok id ci t :
  tor_ok t -> wantConns t = true -> t_infos t !! id = Some ci -> synced ci -> id ∉ conns t ->
  tor_ok (set_conns (take (t_len t) (t_arr t) ++ [id]) (Datatypes.S (t_len t)) t).
Proof.
  intros Ht [Hlt%Z.ltb_lt Hall]%andb_true_iff Hci Hs Hnin. pose proof (tk_wf _ Ht) as [W1 W2 W3 W4 W5 W6 W7].
  assert (Hid : id ∈ dom (t_infos t)) by (apply elem_of_dom; eauto).
  assert (Ec : conns (set_conns (take (t_len t) (t_arr t) ++ [id]) (Datatypes.S (t_len t)) t) = conns t ++ [id]).
  { unfold conns. cbn [set_conns t_arr t_len]. rewrite take_ge; [done|]. rewrite length_app, length_take. cbn. lia. }
  destruct Ht as [_ K2 K3 K4 K5 Kb K6]. constructor; try done.
  - constructor; rewrite ?Ec; try done.
    + cbn. rewrite length_app, length_take. cbn. lia.
    + cbn. apply Forall_app. split; [by apply Forall_take|by apply Forall_singleton].
    + apply NoDup_app. split_and!; [done| |apply NoDup_singleton]. by intros x Hx ->%list_elem_of_singleton.
    + intros x cx [Hx| ->%list_elem_of_singleton]%elem_of_app; [by apply W6|]. cbn. rewrite Hci. by intros [= <-].
  - cbn [set_conns t_len t_cfg]. lia.
  - intros _ Hd. change (dataTransferAllowed t = false) in Hd. congruence.
Qed.

Lemma run_greet id (ci : connInfo B) t :
  wf t -> id ∈ dom (t_infos t) -> length (ci_reserved ci) = 8%nat -> length (cl_reserved (t_cfg t)) = 8%nat ->
  runs (hi ← gets haveInfo;
        when hi (sendMsgToConn env onDrop id CHaveInfo);;
        p ← gets (fun t => pieces_ (t_data t));
        when (match p with Some p => 0 <? bm_Len (ownedPieces p) | None => false end) (sendBitfield env onDrop id);;
        cfg ← gets t_cfg;
        dht ← lift_option (SupportDHT (ci_reserved ci));
        cl_dht ← lift_option (SupportDHT (cl_reserved cfg));
        when (dht && cl_dht && has_dhtServer cfg) (sendPort env onDrop id);;
        reviewUnchoked;; mret true) t True2.
Proof.
  intros Hw Hid Hr Hcr. run_gets.
  eapply runs_bind; [apply runs_when; [done|]; intros _; by apply run_send|]. intros _ t1 X1 W1 _.
  assert (Hid1 : id ∈ dom (t_infos t1)) by (by eapply dom_ext). run_gets.
  eapply (runs_bind _ _ _ True2).
  { apply runs_when; [done|]. intros Hp. destruct (pieces_ (t_data t1)) as [p|] eqn:Ep; [|done].
    unfold sendBitfield. eapply (runs_bind _ _ _ (fun _ t' => t' = t1)).
    - exists p, t1. unfold get_pieces. rewrite Ep. by split_and!; [|apply ext_refl|..].
    - intros p' t2 _ _ ->. by apply run_send. }
  intros _ t2 X2 W2 _. assert (Hid2 : id ∈ dom (t_infos t2)) by (by eapply dom_ext). run_gets.
  destruct (SupportDHT_Some _ Hr) as [b Hb]. eapply runs_bind; [by eapply runs_lift|]. intros x t3 _ _ [-> ->].
  assert (Hcr2 : length (cl_reserved (t_cfg t2)) = 8%nat) by (by rewrite (ext_cfg _ _ X2), (ext_cfg _ _ X1)).
  destruct (SupportDHT_Some _ Hcr2) as [b' Hb']. eapply runs_bind; [by eapply runs_lift|]. intros x t3 _ _ [-> ->].
  eapply (runs_bind _ _ _ True2).
  { apply runs_when; [done|]. intros _. unfold sendPort. run_gets. by apply run_send. }
  intros _ t3 X3 W3 _. eapply runs_bind; [by apply run_review|]. intros _ t4 _ W4 _. by apply runs_ret.
Qed.

Lemma okay_newConn id peer r t :
  tor_ok t -> id ∉ dom (t_infos t) -> length r = 8%nat ->
  okay (handle env ip6_String int_of_Inf sha1_Sum openStorage SelectorF outboundIP (InNewConn id peer r)) t (fun _ => tor_ok).
Proof.
  intros Ht Hid Hr. cbn [handle]. set (ci := new_connInfo peer r).
  eapply (okay_bind _ _ _ (fun _ t' => t' = set_infos (<[id := ci]> (t_infos t)) t)); [by eexists _, _|].
  cbn beta. intros _ t1 ->. pose proof (tor_ok_new id ci t Ht Hid) as Ht1. set (t1 := set_infos _ t) in *.
  assert (Hci : t_infos t1 !! id = Some ci) by (cbn; by rewrite lookup_insert_eq).
  assert (Hid1 : id ∈ dom (t_infos t1)) by (apply elem_of_dom; eauto).
  eapply (okay_bind _ _ _ (fun _ => tor_ok)); [|cbn beta; intros; by apply okay_ret].
  unfold establishedConnection. eapply (okay_bind _ _ _ (fun c t' => c = ci /\ t' = t1)).
  { exists ci, t1. unfold getInfo. by rewrite Hci. }
  cbn beta. intros c t2 [-> ->]. eapply okay_bind; [apply okay_gets|]. cbn beta. intros rej t2 [-> ->].
  destruct (negb (wantConns t1) || _) eqn:Hrej.
  - eapply okay_bind; [eapply okay_runs_True; [exact Ht1|apply run_send; [done|apply Ht1|done]]|]. cbn beta. intros _ t2 Ht2.
    eapply okay_bind; [eapply okay_runs_True; [exact Ht2|apply run_closeDhtAnnounce, Ht2]|]. cbn beta. intros _ t3 Ht3.
    by apply okay_ret.
  - apply orb_false_iff in Hrej as [Hwant%negb_false_iff _].
    eapply (okay_bind _ _ _ (fun _ t' => t' = set_conns (take (t_len t1) (t_arr t1) ++ [id]) (Datatypes.S (t_len t1)) t1)).
    { by eexists _, _. }
    cbn beta. intros _ t2 ->. assert (Hnin : id ∉ conns t1).
    { intros Hin. apply Hid. apply (conns_dom id t); [apply Ht|exact Hin]. }
    pose proof (append_ok id ci t1 Ht1 Hwant Hci ltac:(done) Hnin) as Ht2.
    eapply okay_runs_True; [exact Ht2|]. apply run_greet; [apply Ht2|done|done|apply Ht2].
Qed.

(** ** Starting *)

Lemma run_gotPeers l t : wf t -> runs (gotPeers env ip6_String int_of_Inf l) t True2.
Proof.
  intros Hw. unfold gotPeers. eapply runs_bind; [apply runs_modify_same; try done; apply Hw|]. intros _ t1 _ W1 _.
  by apply runs_dialConns.
Qed.

Lemma okay_start t : tor_ok t -> okay (StartDataTransfer env ip6_String int_of_Inf) t (fun _ => tor_ok).
Proof.
  intros Ht. unfold StartDataTransfer. eapply okay_bind; [apply okay_gets|]. cbn beta. intros hi t1 [-> ->].
  eapply okay_bind; [apply okay_gets|]. cbn beta. intros d t1 [-> ->].
  destruct (haveInfo t) eqn:Hi; cbn [negb]; [|by apply okay_ret].
  destruct (uploadEnabled _ || _) eqn:Hup; [by apply okay_ret|]. eapply okay_bind; [apply okay_mod_data|]. cbn beta. intros _ t1 ->.
  assert (Hidle : infoWasDownloaded t = false -> t_len t = 0%nat).
  { intros Hx. apply (tk_idle _ Ht); [done|]. unfold dataTransferAllowed. by rewrite Hi, <- orb_assoc, Hup. }
  assert (Ht1 : tor_ok (set_data (d_flags true true (isClosed (t_data t)) (t_data t)) t)).
  { apply tor_ok_data; try apply Ht.
    - intros Hx _. by apply Hidle.
    - intros p Hp. destruct (tk_data _ Ht p Hp) as [? []]. split; [done|]. by constructor. }
  set (t1 := set_data _ t) in *. eapply okay_bind; [apply okay_gets|]. cbn beta. intros st t2 [-> ->].
  assert (negb (infoWasDownloaded t1) && (0 <? t_len t1)%nat = false) as ->.
  { change (negb (infoWasDownloaded t) && (0 <? t_len t)%nat = false). destruct (infoWasDownloaded t); [done|].
    by rewrite Hidle. }
  destruct (wf_pieces _ (tk_wf _ Ht1) Hi) as [p Hp]. destruct (tk_data _ Ht1 p Hp) as [_ Hd].
  eapply (okay_bind _ _ _ (fun _ t' => t' = t1)).
  { destruct (runs_haveAll t1 (tk_wf _ Ht1)) as (a & t' & E & _ & _ & ->). by exists a, t1. }
  cbn beta. intros all t2 ->. eapply (okay_bind _ _ _ (fun _ => tor_ok)).
  { destruct all; cbn [negb when]; [by apply okay_ret|]. eapply okay_bind; [by apply okay_get_pieces|]. cbn beta. intros p' t2 [-> ->].
    eapply okay_bind; [apply okay_mod_data|]. cbn beta. intros _ t2 ->.
    assert (Ht2 : tor_ok (set_data (d_pieces (Some (setDownloadEnabled p true)) (t_data t1)) t1)).
    { apply tor_ok_pieces; [done|by eexists|]. destruct Hd. constructor; try done. by apply setDownloadEnabled_ok. }
    eapply okay_bind; [eapply okay_runs_True; [exact Ht2|]; apply run_range; [apply Ht2|]; intros; by apply run_reviewInterestsOnBitfield|].
    cbn beta. intros _ t3 Ht3. eapply okay_runs_True; [exact Ht3|]. apply run_broadcast; [done|apply Ht3]. }
  cbn beta. intros _ t2 Ht2. eapply okay_bind; [eapply okay_runs_True; [exact Ht2|apply runs_tryAnnounceAll; [apply _|apply Ht2]]|].
  cbn beta. intros _ t3 Ht3. eapply okay_bind; [eapply okay_runs_True; [exact Ht3|apply runs_dialConns; [apply _|apply Ht3]]|].
  cbn beta. intros _ t4 Ht4. by apply okay_ret.
Qed.

End tinv.
