(* ===== verification/TorrentSafe.v ===== *)
(** * From a new torrent to every state of its main loop

    Receiving the info dictionary establishes the invariant, a new torrent starts in
    it, and in every state that the main goroutine and the connections can reach the
    next turn of the main loop returns. *)

From S2P Require Import Prelude Strconv Bitfield GoValue BenDecode BenEncode BenTotal Wire Metainfo Bitmap Piece Pieces.
From S2P Require Import Metadata ConnInfo Swarm SwarmInv Torrent TorrentInv.

(** ** Pieces as newPieces makes them *)

Section fresh.
Context {B : Type} `{BitmapLaws B} {S : Type} `{PieceSelector S B} `{SortSliceLaws (Piece B)}.
Implicit Types (p : pieces B S) (pc : Piece B) (t : tparams) (i : Z).

Lemma newPiece_fresh t i pc : params_ok t -> 0 <= i < t_numPieces t -> newPiece (B := B) t i = Some pc ->
  Piece.contributors pc = [] /\ forall o, o ∈ offsets t pc -> blk_state pc o = Unrequested.
Proof.
  intros Ht Hi E. destruct (pieceLen t (uint32 i)) as [plen|] eqn:Hl; [|by unfold newPiece in E; rewrite Hl in E].
  pose proof (pa_brs _ Ht) as Hb. pose proof (pa_bound _ Ht) as Hbd. pose proof (pa_length _ Ht) as Hlen.
  assert (0 <= plen <= t_PieceLen t) as Hplen.
  { unfold pieceLen in Hl. destruct (_ =? _); [|simplify_eq; lia]. destruct (t_PieceLen t =? 0); [done|].
    injection Hl as <-. rewrite Z.rem_mod_nonneg by lia. pose proof (Z.mod_pos_bound (t_length t) (t_PieceLen t)). lia. }
  destruct (newPiece_spec t i plen Hl) as (nb & last & E' & _ & Hlast & Hnb & Hnbd & _); [lia..|].
  rewrite E in E'. injection E' as ->. split; [done|]. apply (fresh_piece_ok t i nb last); lia.
Qed.

(** The piece has only unrequested blocks and is not verified. *)
Definition fresh t p i : Prop :=
  exists pc, at_index (pcs p) i = Some pc /\ (forall o, o ∈ offsets t pc -> state_of p i o = Unrequested) /\
    bm_Get (ownedPieces p) i = false.

Lemma newPieces_fresh t sel p : params_ok t -> newPieces t sel = Some p ->
  contrib_in ∅ p /\ forall i, 0 <= i < t_numPieces t -> fresh t p i.
Proof.
  intros Ht E. destruct (newPieces_ok t sel Ht) as (q & E' & Hq & _ & _ & Hown). rewrite E in E'. injection E' as <-.
  assert (Hat : forall i pc, at_index (pcs p) i = Some pc ->
    Piece.contributors pc = [] /\ forall o, o ∈ offsets t pc -> blk_state pc o = Unrequested).
  { intros i pc Hi. apply (newPiece_fresh t i pc Ht); [|by eapply newPieces_at].
    by destruct (pieces_entry _ _ _ _ Hq Hi) as (_ & _ & _ & _ & ?). }
  split.
  - apply Forall_forall. intros pc [k Hk]%list_elem_of_lookup.
    destruct (Hat (Z.of_nat k) pc) as [-> _]; [by rewrite at_index_nat|constructor].
  - intros i Hi. destruct (at_index_Some (pcs p) i) as [pc Hpc]; [rewrite (pso_len _ _ Hq); lia|].
    exists pc. split_and!; [done| |apply Hown]. intros o Ho. rewrite (state_of_at _ _ _ Hpc). by apply (Hat i pc).
Qed.

(** Exchanging the bitmaps completes a fresh piece. *)
Lemma swap_changes t pc :
  piece_ok t pc -> (forall o, o ∈ offsets t pc -> blk_state pc o = Unrequested) ->
  changes t swap_bitmaps (fun _ _ => Complete) pc.
Proof.
  intros Hok Hun. assert (Hst : forall o, o ∈ offsets t pc -> blk_state (swap_bitmaps pc) o = Complete).
  { intros o Ho. specialize (Hun o Ho). unfold blk_state in *. cbn.
    destruct (bm_Get (completeBlocks pc) o) eqn:Ec; [done|]. by destruct (bm_Get (unrequestedBlocks pc) o). }
  assert (Hok' : piece_ok t (swap_bitmaps pc)).
  { apply (piece_ok_intro t pc); try done; [apply Hok|apply Hok|]. cbn. intros o Hc.
    apply not_true_is_false. intros Hu. apply (po_disj _ _ Hok) in Hu. congruence. }
  split; [|done]. split_and!; [done|done|done|]. intros _. by apply (complete_spec t).
Qed.

Lemma complete_fresh t p i q0 : pieces_ok t p -> fresh t p i -> update_piece p i swap_bitmaps = Some q0 ->
  pieces_ok t q0 /\ waits t q0 i /\ ownedPieces q0 = ownedPieces p /\ same_shapes p q0 /\
  forall j, j <> i -> fresh t p j -> fresh t q0 j.
Proof.
  intros Hp (pc & Hi & Hun & Hown) E. destruct (pieces_entry _ _ _ _ Hp Hi) as (_ & Hok & _).
  destruct (update_changes t p i pc swap_bitmaps (fun _ _ => Complete) Hp Hi) as (q & E' & Hq & Hs & Hr & Hst).
  { apply swap_changes; [done|]. intros o Ho. rewrite <- (state_of_at _ _ _ Hi). by apply Hun. }
  rewrite E in E'. injection E' as <-. destruct (same_shapes_lookup _ _ _ _ Hs Hi) as (pc' & Hi' & Hsh).
  assert (Eo : ownedPieces q0 = ownedPieces p) by apply Hr.
  split_and!; [done| |done|done|].
  - exists pc'. split_and!; [done| |by rewrite Eo]. intros o. rewrite (same_shape_offsets _ _ _ Hsh). intros Ho.
    rewrite (Hst i pc o Hi Ho). by rewrite Z.eqb_refl.
  - intros j Hne (pcj & Hj & Hunj & Hoj). destruct (same_shapes_lookup _ _ _ _ Hs Hj) as (pcj' & Hj' & Hshj).
    exists pcj'. split_and!; [done| |by rewrite Eo]. intros o. rewrite (same_shape_offsets _ _ _ Hshj). intros Ho.
    rewrite (Hst j pcj o Hj Ho). apply Z.eqb_neq in Hne. rewrite Hne. by apply Hunj.
Qed.

Lemma pieceHashed_fresh t p i q cs j :
  pieces_ok t p -> waits t p i -> Pieces.pieceHashed p i true = Some (q, cs) -> j <> i -> fresh t p j -> fresh t q j.
Proof.
  intros Hp Hw E Hne (pcj & Hj & Hun & Ho). destruct (waits_pieces _ _ _ Hp Hw) as (pc & Hi & Hc & Hv).
  destruct (pieceHashed_spec _ _ _ true _ Hp Hi Hc Hv) as (q' & E' & _ & Hs & _ & Hown & Hst).
  rewrite E in E'. injection E' as <- _. destruct (same_shapes_lookup _ _ _ _ Hs Hj) as (pcj' & Hj' & Hsh).
  exists pcj'. split_and!; [done| |].
  - intros o. rewrite (same_shape_offsets _ _ _ Hsh). intros Hin. rewrite (Hst j pcj o Hj Hin). by apply Hun.
  - rewrite Hown, Ho. apply Z.eqb_neq in Hne. by rewrite Hne.
Qed.

End fresh.

(** All pieces owned: everything is there. *)
Lemma haveAll_true {B} `{BitmapLaws B} {S} (tp : tparams) (p : pieces B S) :
  pieces_ok tp p -> 0 <= t_numPieces tp -> (forall i, 0 <= i < t_numPieces tp -> bm_Get (ownedPieces p) i = true) ->
  haveAll tp p = true.
Proof.
  intros Hp Hn Hall. unfold haveAll. apply Z.eqb_eq. rewrite bm_Len_Iter.
  assert (bm_Iter (ownedPieces p) ≡ₚ seqZ 0 (t_numPieces tp)) as ->; [|rewrite length_seqZ; lia].
  apply NoDup_Permutation; [apply bm_Iter_NoDup|apply NoDup_seqZ|]. intros i. rewrite bm_Iter_Get, elem_of_seqZ. split.
  - intros Hi%(pso_owned _ _ Hp). lia.
  - intros Hi. apply Hall. lia.
Qed.

Section tsafe.
Context {B : Type} `{BitmapLaws B} {S : Type} `{PieceSelector S B} `{SortSliceLaws (Piece B)} `{SortSliceLaws Z}.
Variable env : Env.
Context `{EnvLaws env}.
Variable ip6_String : bytes -> bytes.
Variable int_of_Inf : Z.
Variable sha1_Sum : bytes -> bytes.
Variable openStorage : InfoDict -> list Z -> bool.
Variable SelectorF : S.
Variable outboundIP : bytes.

Abbreviation torrent := (torrent B S).
Abbreviation M := (M B S).
Implicit Types (t : torrent) (id i : Z) (p : pieces B S) (d : tdata B S).

(** ** The info dictionary arrives *)

Definition idle_obs : bool * bool * gset Z * list Z := (false, false, ∅, []).

Lemma okay_complete_piece i tp p t :
  at_pieces tp p idle_obs t -> fresh tp p i ->
  okay (complete_piece env ip6_String int_of_Inf outboundIP i) t (fun _ t' => exists q,
    at_pieces tp q idle_obs t' /\ (forall j, j <> i -> fresh tp p j -> fresh tp q j) /\
    forall j, bm_Get (ownedPieces q) j = (j =? i) || bm_Get (ownedPieces p) j).
Proof.
  intros (Ht & Hp & Hobs & <-) Hf. destruct (tk_data _ Ht p Hp) as [_ Hd]. unfold complete_piece.
  eapply okay_bind; [by apply okay_get_pieces|]. cbn beta. intros p' t1 [-> ->].
  destruct (update_piece p i swap_bitmaps) as [q|] eqn:E.
  2:{ destruct Hf as (pc & Hi & _). by rewrite (update_piece_spec _ _ _ _ Hi) in E. }
  destruct (complete_fresh _ _ _ _ (do_pieces _ _ _ Hd) Hf E) as (Hq & Hw & Hown & Hs & Hfr).
  eapply okay_bind; [by apply okay_lift|]. cbn beta. intros p' t1 [-> ->].
  eapply okay_bind; [apply okay_mod_data|]. cbn beta. intros _ t1 ->.
  assert (Hq0 : queuedForVerification (t_data t) = ∅) by (by injection Hobs).
  assert (Hat1 : at_pieces (tparams_of (t_data t)) q idle_obs (set_data (d_pieces (Some q) (t_data t)) t)).
  { split_and!; [|done|done|done]. apply tor_ok_pieces; [done|by eexists|]. destruct Hd. constructor; try done.
    - eapply update_piece_contrib; [eassumption| |exact E]. done.
    - cbn. rewrite Hq0. set_solver.
    - intros Hcl. rewrite (haveAll_owned _ p) by done. auto. }
  destruct (okay_pieceHashed env ip6_String int_of_Inf sha1_Sum outboundIP i true _ q _ _ Hat1 Hw) as (a & t2 & E2 & q' & cs & Eh & Hat2).
  { apply not_elem_of_nil. }
  exists a, t2. split; [done|]. exists q'. cbn [idle_obs fst snd] in Hat2.
  replace (∅ ∖ {[ i ]} : gset Z) with (∅ : gset Z) in Hat2 by set_solver. split_and!; [done| |].
  - intros j Hne Hj. eapply pieceHashed_fresh; [exact Hq|exact Hw|exact Eh|done|]. by apply Hfr.
  - intros j. destruct (waits_pieces _ _ _ Hq Hw) as (pc & Hi & Hc & Hv).
    destruct (pieceHashed_spec _ _ _ true _ Hq Hi Hc Hv) as (q2 & E2' & _ & _ & _ & Ho & _).
    rewrite Eh in E2'. injection E2' as <- _. by rewrite Ho, Hown.
Qed.

Lemma okay_complete_all (l : list Z) tp p t :
  at_pieces tp p idle_obs t -> NoDup l -> (forall i, i ∈ l -> fresh tp p i) ->
  okay (for_each (complete_piece env ip6_String int_of_Inf outboundIP) l) t (fun _ t' => exists q,
    at_pieces tp q idle_obs t' /\ forall j, j ∈ l \/ bm_Get (ownedPieces p) j = true -> bm_Get (ownedPieces q) j = true).
Proof.
  intros Hat Hnd. revert p t Hat. induction Hnd as [|i l Hi _ IH]; intros p t Hat Hf; cbn [for_each].
  { apply okay_ret. exists p. split; [done|]. by intros j [?%elem_of_nil|?]. }
  eapply okay_bind; [apply okay_complete_piece; [done|apply Hf; left]|]. cbn beta. intros _ t1 (q & Hat1 & Hfr & Ho).
  destruct (IH q t1 Hat1) as (a & t2 & E & q2 & Hat2 & Ho2).
  { intros j Hj. apply Hfr; [by intros ->|]. apply Hf. by right. }
  exists a, t2. split; [done|]. exists q2. split; [done|]. intros j Hj. apply Ho2. rewrite Ho.
  destruct Hj as [[->|Hj]%elem_of_cons|Hj]; [right; by rewrite Z.eqb_refl|by left|right]. rewrite Hj. apply orb_true_r.
Qed.

(** The torrent's numbers for an info dictionary. *)
Definition info_params (info : InfoDict) : tparams :=
  mkT (TotalLength info) (PieceLen info) (NumPieces info) (blockSize (PieceLen info)).

(** The data of a torrent just before [gotInfo], which has the dictionary but has not
    made the pieces. *)
Record got_info d (ut : utMetadatas) : Prop := mkGotInfo {
  gi_open : isClosed d = false;
  gi_pieces : pieces_ d = None;
  gi_obs : obs d = idle_obs;
  gi_ut : gotInfo_ut d = Some ut;
  gi_size : correctSize ut <> 0;
  gi_params : params_ok (info_params (mi_Info d));
}.

(** The data with which [gotInfo] tells the connections. *)
Definition info_data d ut p : tdata B S :=
  let d := d_sizes (TotalLength (mi_Info d)) (blockSize (PieceLen (mi_Info d))) (d_info (mi_Info d) ut d) in
  let d := d_stats (mkStats (BlocksDownloaded (stats d)) (BlocksUploaded (stats d)) (length_ d)
                            (BytesDownloaded (stats d)) (BytesUploaded (stats d))) d in
  d_queue (queuedForVerification d) [] (d_pieces (Some p) d).

Lemma at_new_pieces t d ut p :
  tor_ok t -> got_info d ut -> (mi_InfoBytes d <> None -> t_len t = 0%nat) ->
  newPieces (info_params (mi_Info d)) SelectorF = Some p ->
  at_pieces (info_params (mi_Info d)) p idle_obs (set_data (info_data d ut p) t).
Proof.
  intros Ht [Hop Hp Hobs Hut Hne Hpar] Hidle E.
  assert (Hne' : negb (correctSize ut =? 0) = true) by (by apply negb_true_iff, Z.eqb_neq).
  destruct (newPieces_ok (info_params (mi_Info d)) SelectorF Hpar) as (p' & E' & Hpo & _).
  rewrite E in E'. injection E' as <-. destruct (newPieces_fresh _ _ _ Hpar E) as [Hcon _].
  injection Hobs as Hc Hi Hq Hcc. split_and!; [|done| |done]; [|by unfold obs; cbn; rewrite Hc, Hi, Hq].
  apply tor_ok_data; [done|done| | | |].
  - intros _. by eexists.
  - unfold infoWasDownloaded. cbn. destruct (mi_InfoBytes d); [|done]. by intros; apply Hidle.
  - unfold haveInfo. cbn. congruence.
  - intros q [= <-]. split; [done|]. constructor; try done.
    + eapply contrib_in_mono; [|exact Hcon]. apply empty_subseteq.
    + intros i Hi'. change (i ∈ queuedForVerification d) in Hi'. rewrite Hq in Hi'. by apply elem_of_empty in Hi'.
    + apply NoDup_nil_2.
    + intros Hx. change (DownloadedDataC_closed d = true) in Hx. congruence.
Qed.

(** The last step of [gotInfo]. *)
Lemma okay_InfoC tp p c t : at_pieces tp p c t -> c.1.1.2 = false ->
  okay (closed ← gets (fun t => InfoC_closed (t_data t));
        if closed : bool then tpanic
        else mod_data (fun d => d_chans (DownloadedDataC_closed d) true d);; modify (add_event EGotInfo)) t (fun _ => tor_ok).
Proof.
  intros (Ht & Hp & <- & <-) Hc. cbn [obs fst snd] in Hc. eapply okay_bind; [apply okay_gets|]. cbn beta. intros b t1 [-> ->].
  rewrite Hc. eapply okay_bind; [apply okay_mod_data|]. cbn beta. intros _ t1 ->.
  assert (Ht1 : tor_ok (set_data (d_chans (DownloadedDataC_closed (t_data t)) true (t_data t)) t)).
  { apply tor_ok_data; try apply Ht; [by apply (with_info t p)|]. intros p' Hp'. destruct (tk_data _ Ht p' Hp') as [? []].
    split; [done|]. by constructor. }
  set (t1 := set_data _ t) in *. eexists _, _. split; [reflexivity|]. eapply tor_ok_ext; [exact Ht1|by apply ext_same|].
  apply (wf_same t1); try done; apply Ht1.
Qed.

Lemma okay_gotInfo t d ut :
  tor_ok t -> got_info d ut -> (mi_InfoBytes d <> None -> t_len t = 0%nat) ->
  okay (gotInfo env ip6_String int_of_Inf openStorage SelectorF outboundIP) (set_data d t) (fun _ => tor_ok).
Proof.
  intros Ht Hg Hidle. pose proof (gi_params _ _ Hg) as Hpar. unfold gotInfo.
  eapply okay_bind; [apply okay_gets|]. cbn beta. intros d' t1 [-> ->].
  eapply okay_bind; [apply okay_lift, Hg|]. cbn beta. intros u' t1 [-> ->].
  do 3 (eapply okay_bind; [apply okay_mod_data|]; cbn beta; intros _ ? ->).
  eapply okay_bind; [apply okay_gets|]. cbn beta. intros d3 t1 [-> ->].
  destruct (newPieces_ok (info_params (mi_Info d)) SelectorF Hpar) as (p & E & Hpo & _ & _ & _).
  eapply okay_bind; [apply okay_lift; exact E|]. cbn beta. intros p' t1 [-> ->].
  eapply okay_bind; [apply okay_mod_data|]. cbn beta. intros _ t1 ->.
  destruct (newPieces_fresh _ _ _ Hpar E) as [_ Hfr].
  pose proof (at_new_pieces t d ut p Ht Hg Hidle E) as Hat. match goal with |- okay _ ?s _ => change s with (set_data (info_data d ut p) t) end.
  set (t1 := set_data (info_data d ut p) t) in *.
  eapply (okay_bind _ _ _ (fun _ => at_pieces (info_params (mi_Info d)) p idle_obs)).
  { eapply okay_at; [exact Hat|]. apply run_broadcast; [apply _|done|apply Hat]. }
  cbn beta. intros _ t2 Hat2.
  eapply (okay_bind _ _ _ (fun _ t' => exists q c, at_pieces (info_params (mi_Info d)) q c t' /\ c.1.1.2 = false)).
  { destruct (openStorage _ _); cbn [when]; [|apply okay_ret; by eexists _, _].
    eapply okay_bind; [eapply okay_complete_all; [exact Hat2|apply NoDup_seqZ|]|].
    { intros i Hi%elem_of_seqZ. apply Hfr. rewrite (pso_len _ _ Hpo) in Hi. lia. }
    cbn beta. intros _ t3 (q & Hat3 & Ho). pose proof Hat3 as (Ht3 & Hp3 & _ & Htp3). destruct (tk_data _ Ht3 q Hp3) as [_ Hd3].
    destruct (okay_downloadedAll env ip6_String int_of_Inf _ q _ _ Hat3) as (a & t4 & E4 & Hat4); [done| |].
    - rewrite <- Htp3. apply haveAll_true; [apply Hd3|apply (pa_num _ (do_params _ _ _ Hd3))|]. rewrite Htp3. intros i Hi.
      apply Ho. left. apply elem_of_seqZ. rewrite (pso_len _ _ Hpo). lia.
    - exists a, t4. split; [done|]. by eexists _, _. }
  cbn beta. intros _ t3 (q & c & Hat3 & Hc). by eapply okay_InfoC.
Qed.

(** ** The turns of the main loop *)

(** What the connections, the hasher and the client send: blocks that exist, results
    of pieces taken from the queue, new connections behind new pointers, and buffers
    that someone has contributed to; a dictionary with the right hash comes once and
    describes pieces of a usable length. *)
Definition metadata_ok t (n : Z) : Prop :=
  exists ut, uts_m (utmetadata (t_data t)) !! n = Some ut /\ contributors ut <> [] /\
    (sha1_Sum (infoBytes ut) = Hash (mi_Info (t_data t)) ->
     haveInfo t = false /\ n <> 0 /\ wt InfoDict_type (Info_val (mi_Info (t_data t))) /\
     forall v info, BenDecode.Decode (infoBytes ut) InfoDict_type (Info_val (mi_Info (t_data t))) = Ok (v, None) ->
       Info_of v = Some info -> params_ok (info_params info)).

Definition input_ok t (inp : tinput B) : Prop :=
  match inp with
  | InConnMsg id m =>
      id ∈ dom (t_infos t) /\
      match m with
      | TDownloadedBlock b => exists p pc, pieces_ (t_data t) = Some p /\ at_index (pcs p) (b_pc b) = Some pc /\
          b_off b ∈ offsets (tparams_of (t_data t)) pc
      | TDownloadedMetadata n => metadata_ok t n
      | _ => True
      end
  | InPieceHashed i _ =>
      is_Some (pieces_ (t_data t)) /\ i ∈ queuedForVerification (t_data t) /\ i ∉ pieceQueuedHashingC (t_data t)
  | InNewConn id _ r => id ∉ dom (t_infos t) /\ length r = 8%nat
  | _ => True
  end.

Abbreviation turn := (mainLoop_turn env ip6_String int_of_Inf sha1_Sum openStorage SelectorF outboundIP).
Abbreviation handle := (handle env ip6_String int_of_Inf sha1_Sum openStorage SelectorF outboundIP).

(** What closes a torrent: its user, or a dictionary with the right hash that does not decode. *)
Definition undecodable t (n : Z) : Prop :=
  exists ut, uts_m (utmetadata (t_data t)) !! n = Some ut /\ sha1_Sum (infoBytes ut) = Hash (mi_Info (t_data t)) /\
    forall v, BenDecode.Decode (infoBytes ut) InfoDict_type (Info_val (mi_Info (t_data t))) <> Ok (v, None).
Definition closes t (inp : tinput B) : Prop :=
  match inp with InClose => True | InConnMsg _ (TDownloadedMetadata n) => undecodable t n | _ => False end.

(** A closed torrent has neither pieces nor connections. *)
Definition shut t : Prop := isClosed (t_data t) = true /\ pieces_ (t_data t) = None /\ t_len t = 0%nat.

(** Every next turn of the main loop of a closed torrent panics. *)
Lemma shut_panics t inp : isClosed (t_data t) = true -> turn inp t = Panic.
Proof. intros Hc. unfold mainLoop_turn, mbind, M_bind, gets. by rewrite Hc. Qed.

Lemma awaits_end {A} (l : list A) ends t : (forall k, ends k = true) ->
  exists t', for_each (fun _ => await ends) l t = Ok ((), t') /\ t_data t' = t_data t.
Proof.
  intros He. revert t. induction l as [|a l IH]; intros t; [by exists t|]. destruct (IH (bump t)) as (t' & E & Hd). exists t'.
  split; [|done]. cbn [for_each]. unfold await, draw, mbind, M_bind. by rewrite He.
Qed.

Lemma okay_close t :
  isClosed (t_data t) = false -> dhtAnnounceResp (t_dial t) <> None -> okay (close env) t (fun _ => shut).
Proof.
  intros Ho Hd. unfold close. eapply okay_bind; [apply okay_gets|]. cbn beta. intros b t1 [-> ->]. rewrite Ho.
  eapply (okay_bind _ _ _ (fun _ t' => t_data t' = t_data t /\ t_len t' = 0%nat)).
  - unfold dropAllConns. eapply (okay_bind _ _ _ (fun _ t' => t_data t' = t_data t)).
    { unfold closeDhtAnnounce, okay, mbind, M_bind, gets. destruct (negb _); [by eexists _, _|].
      destruct (dhtAnnounceResp (t_dial t)) as [[]|]; [by eexists _, _..|done]. }
    cbn beta. intros _ t1 E1. eapply okay_bind; [apply okay_gets|]. cbn beta. intros l t2 [-> ->].
    eapply (okay_bind _ _ _ (fun _ t' => t_data t' = t_data t)).
    { destruct (awaits_end (conns t1) (env_gone env) t1 gone_ends) as (t2 & E2 & Hd2). exists (), t2. split; [done|congruence]. }
    cbn beta. intros _ t2 E2. by eexists _, _.
  - cbn beta. intros _ t1 [E1 El]. by eexists _, _.
Qed.

Lemma okay_reset t n ut :
  tor_ok t -> uts_m (utmetadata (t_data t)) !! n = Some ut ->
  okay (d ← gets t_data; u ← lift_option (uts_reset (utmetadata d) n); mod_data (fun d => d_info (mi_Info d) u d)) t
    (fun _ => tor_ok).
Proof.
  intros Ht Hut. eapply okay_bind; [apply okay_gets|]. cbn beta. intros d t1 [-> ->].
  eapply okay_bind; [apply okay_lift; unfold uts_reset; by rewrite Hut|]. cbn beta. intros u t1 [-> ->].
  eexists _, _. split; [reflexivity|]. apply tor_ok_data; try apply Ht.
  intros p Hp. destruct (tk_data _ Ht p Hp) as [? []]. split; [done|]. by constructor.
Qed.

(** The dictionary has the right hash. *)
Lemma okay_decoded t n ut :
  tor_ok t -> haveInfo t = false -> n <> 0 -> wt InfoDict_type (Info_val (mi_Info (t_data t))) ->
  (forall v info, BenDecode.Decode (infoBytes ut) InfoDict_type (Info_val (mi_Info (t_data t))) = Ok (v, None) ->
     Info_of v = Some info -> params_ok (info_params info)) ->
  okay (match BenDecode.Decode (infoBytes ut) InfoDict_type (Info_val (mi_Info (t_data t))) with
        | Ok (v, None) =>
            info ← lift_option (Info_of v);
            mod_data (fun d => d_info info (uts_setCorrect (utmetadata d) n) d);;
            gotInfo env ip6_String int_of_Inf openStorage SelectorF outboundIP
        | Ok (v, Some _) =>
            info ← lift_option (Info_of v);
            mod_data (fun d => d_info info (utmetadata d) d);;
            close env
        | Err _ => close env
        | Panic => tpanic
        end) t (fun _ t' => tor_ok t' \/
          shut t' /\ forall v, BenDecode.Decode (infoBytes ut) InfoDict_type (Info_val (mi_Info (t_data t))) <> Ok (v, None)).
Proof.
  intros Ht Hi Hn Hwt Hpar. pose proof (tk_open _ Ht) as Ho. destruct (tk_before _ Ht Hi) as (Hp & Hobs & Hib).
  assert (Hclose : forall t' (P : Prop), P -> isClosed (t_data t') = false -> t_dial t' = t_dial t ->
    okay (close env) t' (fun _ t' => tor_ok t' \/ shut t' /\ P)).
  { intros t' P HP Hop Hdial. destruct (okay_close t' Hop) as (a & t2 & E & Hc); [rewrite Hdial; apply Ht|]. exists a, t2. split; [done|by right]. }
  pose proof (Decode_shape (infoBytes ut) InfoDict_type (Info_val (mi_Info (t_data t))) eq_refl Hwt) as Hsh.
  destruct (BenDecode.Decode _ _ _) as [[v e]|e|] eqn:E; [|by apply Hclose|done].
  destruct (Info_of_wt v Hsh) as [info Hinfo].
  destruct e as [e|]; (eapply okay_bind; [apply okay_lift; exact Hinfo|]; cbn beta; intros x t1 [-> ->]);
    (eapply okay_bind; [apply okay_mod_data|]; cbn beta; intros _ t1 ->).
  - by apply Hclose.
  - destruct (okay_gotInfo t (d_info info (uts_setCorrect (utmetadata (t_data t)) n) (t_data t))
      (uts_setCorrect (utmetadata (t_data t)) n) Ht) as (a & t2 & E2 & Ht2).
    + constructor; try done; [|by apply (Hpar v)]. unfold gotInfo_ut. cbn. by rewrite Hib.
    + intros Hx. by destruct Hx.
    + exists a, t2. split; [done|by left].
Qed.

Lemma okay_metadataCompleted n t :
  tor_ok t -> metadata_ok t n ->
  okay (metadataCompleted env ip6_String int_of_Inf sha1_Sum openStorage SelectorF outboundIP n) t
    (fun _ t' => tor_ok t' \/ shut t' /\ undecodable t n).
Proof.
  intros Ht (ut & Hut & Hcon & Hgood). unfold metadataCompleted.
  eapply okay_bind; [apply okay_gets|]. cbn beta. intros d t1 [-> ->].
  eapply okay_bind; [apply okay_lift; exact Hut|]. cbn beta. intros x t1 [-> ->].
  case_bool_decide as Hsum; cbn [negb].
  { destruct (Hgood Hsum) as (Hi & Hn & Hwt & Hpar). eapply okay_weaken; [by apply okay_decoded|].
    cbn beta. intros _ t' [?|[? Hund]]; [by left|right]. split; [done|]. by exists ut. }
  eapply (okay_bind _ _ _ (fun i t' => 0 <= i < lenZ (contributors ut) /\ t' = bump t)).
  { eexists _, _. split; [reflexivity|]. split; [|done]. apply Intn_range. destruct (contributors ut); cbn; [done|lia]. }
  cbn beta. intros i t1 [Hi ->]. destruct (at_index_Some (contributors ut) i Hi) as [ip Hip].
  eapply okay_bind; [apply okay_lift; exact Hip|]. cbn beta. intros y t1 [-> ->].
  assert (Ht1 : tor_ok (bump t)).
  { eapply tor_ok_ext; [exact Ht|by apply ext_same|]. apply (wf_same t); try done; apply Ht. }
  destruct (okay_runs (banIP env ip6_String int_of_Inf outboundIP ip) _ _ Ht1 (run_banIP env ip6_String int_of_Inf outboundIP ip _ (tk_wf _ Ht1)))
    as ([] & t2 & E2 & X2 & Ht2 & _).
  destruct (okay_runs (broadcastToConns env ip6_String int_of_Inf CRequestsAvailable) t2 _ Ht2 (run_broadcast env ip6_String int_of_Inf CRequestsAvailable t2 (fun _ => eq_refl) (tk_wf _ Ht2)))
    as ([] & t3 & E3 & X3 & Ht3 & _).
  destruct (okay_reset t3 n ut Ht3) as (a & t4 & E4 & Ht4).
  { by rewrite (ext_data _ _ X3), (ext_data _ _ X2). }
  exists a, t4. split; [|by left]. unfold mbind, M_bind. by rewrite E2, E3.
Qed.

Lemma okay_left {A} (m : M A) t P : okay m t (fun _ => tor_ok) -> okay m t (fun _ t' => tor_ok t' \/ P t').
Proof. intros (a & t' & E & Ht'). exists a, t'. split; [done|by left]. Qed.

Lemma okay_onConnMsg id m t :
  tor_ok t -> input_ok t (InConnMsg id m) -> 
  okay (handle (InConnMsg id m)) t (fun _ t' => tor_ok t' \/ shut t' /\ closes t (InConnMsg id m)).
Proof.
  intros Ht [Hid Hm]. pose proof (tk_wf _ Ht) as Hw. cbn [Torrent.handle]. destruct m as [m|b|b|n|b| | |]; cbn [onConnMsg].
  4: by apply okay_metadataCompleted.
  all: apply okay_left.
  - destruct (_ || _); [eapply okay_runs_True, run_peerInterestChanged; done|].
    destruct (_ || _); [eapply okay_runs_True, run_peerChokeChanged; done|].
    destruct (_ =? _); [|by apply okay_ret]. eapply okay_runs_True; [done|].
    eapply runs_bind; [by apply runs_modInfo|]. intros _ t1 X1 W1 _.
    apply run_reviewInterestsOnHave; [apply _|done|by eapply dom_ext].
  - destruct Hm as (p & pc & Hp & Hi & Ho). by eapply okay_blockDownloaded.
  - unfold blockUploaded. eapply okay_bind; [eapply okay_runs_True; [done|apply runs_modInfo; done]|]. cbn beta. intros _ t1 Ht1.
    eexists _, _. split; [reflexivity|]. by apply tor_ok_stats.
  - eapply okay_runs_True; [done|]. eapply runs_bind; [by apply runs_modInfo|]. intros _ t1 X1 W1 _.
    apply run_reviewInterestsOnBitfield; [apply _|done|by eapply dom_ext].
  - eapply okay_runs_True; [done|]. eapply runs_bind; [by apply runs_droppedConn|]. intros _ t1 _ W1 _. by apply (runs_ret () t1 (fun _ _ => True)).
  - eapply okay_runs_True; [done|]. by apply run_broadcast.
  - by apply okay_ret.
Qed.

Lemma okay_handle inp t :
  tor_ok t -> input_ok t inp ->
  okay (handle inp) t (fun _ t' => tor_ok t' \/ shut t' /\ closes t inp).
Proof.
  intros Ht Hin. pose proof (tk_wf _ Ht) as Hw.
  destruct inp as [id m|i ok|id peer r| |resp| |ok l| |l| | |].
  1: by apply okay_onConnMsg.
  11:{ destruct (okay_close t (tk_open _ Ht) (wf_dht _ Hw)) as (a & t' & E & Hc). exists a, t'. split; [done|by right]. }
  all: apply okay_left.
  - destruct Hin as ([p Hp] & Hq & Hc). eapply okay_weaken; [by eapply okay_onPieceHashed|]. by intros _ t' [? _].
  - destruct Hin. by apply okay_newConn.
  - eapply okay_runs_True; [done|by apply run_review].
  - cbn [Torrent.handle]. destruct resp as [[n l]|]; cbn [trackerAnnounced]; (eapply okay_runs_True; [done|]).
    + eapply runs_bind; [apply runs_modify_same; try done; apply Hw|]. intros _ t1 _ W1 _. by apply run_gotPeers.
    + apply runs_modify_same; try done; apply Hw.
  - cbn [Torrent.handle]. eapply okay_runs_True; [done|].
    eapply runs_bind; [apply runs_modify_same; try done; apply Hw|]. intros _ t1 _ W1 _. by apply runs_tryAnnounceAll.
  - cbn [Torrent.handle]. eapply okay_runs_True; [done|]. eapply runs_bind.
    { apply runs_when; [done|]. intros _. eapply runs_weaken; [apply runs_modify_same; try done; apply Hw|done]. }
    intros _ t1 _ W1 _. by apply run_gotPeers.
  - cbn [Torrent.handle]. eapply okay_runs_True; [done|].
    eapply runs_bind; [apply runs_modify_same; try done; apply Hw|]. intros _ t1 _ W1 _.
    eapply runs_bind; [by apply run_closeDhtAnnounce|]. intros _ t2 _ W2 _. by apply runs_tryAnnounceAll.
  - eapply okay_runs_True; [done|by apply run_gotPeers].
  - cbn [Torrent.handle]. eapply okay_bind; [by apply okay_start|]. cbn beta. intros _ t1 Ht1. by apply okay_ret.
  - cbn [Torrent.handle]. eexists _, _. split; [reflexivity|]. destruct (pieces_ (t_data t)) as [p|] eqn:Hp.
    + destruct (tk_data _ Ht p Hp) as [_ Hd]. eapply tor_ok_queue; [done|done|apply Hd| |].
      * pose proof (do_chan _ _ _ Hd) as Hn. destruct (pieceQueuedHashingC _); [done|]. by apply NoDup_cons in Hn as [_ ?].
      * pose proof (do_chan_queued _ _ _ Hd) as Hn. destruct (pieceQueuedHashingC _); [done|]. by inversion Hn.
    + apply tor_ok_data; try apply Ht; [|intros p' Hp'; change (pieces_ (t_data t) = Some p') in Hp'; congruence].
      intros Hi. destruct (tk_before _ Ht Hi) as (K1 & K2 & K3). injection K2 as A1 A2 A3 Hc. split_and!; [done| |done].
      unfold obs. cbn. by rewrite A1, A2, A3, Hc.
Qed.

(** ** From a new torrent to every later state *)

(** What the metainfo and the configuration must be: eight reserved bytes, and an info
    dictionary that is not empty and describes pieces of a usable length. *)
Definition setup_ok (cfg : config) (info : InfoDict) (ib : option bytes) : Prop :=
  length (cl_reserved cfg) = 8%nat /\ (ib = None \/ (exists b, ib = Some b /\ b <> []) /\ params_ok (info_params info)).

Lemma tor_ok_empty cfg info ann :
  length (cl_reserved cfg) = 8%nat -> tor_ok (newTorrent cfg info ann None : torrent).
Proof.
  intros Hr. constructor; try done; [|cbn; lia]. constructor; try done. by apply NoDup_nil_2.
Qed.

Lemma okay_started cfg info ann ib :
  setup_ok cfg info ib ->
  okay (start env ip6_String int_of_Inf openStorage SelectorF outboundIP) (newTorrent cfg info ann ib) (fun _ => tor_ok).
Proof.
  intros [Hr Hib]. pose proof (tor_ok_empty cfg info ann Hr) as Hnew. unfold start.
  eapply okay_bind; [apply okay_gets|]. cbn beta. intros b t1 [-> ->].
  eapply (okay_bind _ _ _ (fun _ => tor_ok)).
  - destruct Hib as [->|[(b & -> & Hb) Hpar]]; cbn [infoWasDownloaded newTorrent t_data mi_InfoBytes negb when]; [by apply okay_ret|].
    set (d := t_data (newTorrent cfg info ann (Some b)) : tdata B S).
    refine (okay_gotInfo (newTorrent cfg info ann None) d _ Hnew _ (fun _ => eq_refl)).
    constructor; [done|done|done|reflexivity| |done]. cbn. by destruct b.
  - cbn beta. intros _ t1 Ht1. eapply okay_runs_True; [exact Ht1|]. apply runs_tryAnnounceAll; [apply _|apply Ht1].
Qed.

(** A step: a turn of the main loop that does not close the torrent, an operation of a
    connection on the pieces, a write of connections to the metadata buffers, an address
    that another goroutine of the client bans, or the end of a dial. These are the runs up to
    the closing of the torrent: the loop ends when its user has closed it, and panics in the
    next turn when it has closed itself ([main_loop_safe]). *)
Inductive tstep : torrent -> torrent -> Prop :=
| ts_turn inp t t' : input_ok t inp -> turn inp t = Ok ((), t') -> isClosed (t_data t') = false -> tstep t t'
| ts_pieces t p p' :
    pieces_ (t_data t) = Some p -> conn_op (tparams_of (t_data t)) p p' ->
    tstep t (set_data (d_pieces (Some p') (t_data t)) t)
| ts_metadata t m :
    tstep t (set_data (d_info (mi_Info (t_data t)) (mkUts m (correctSize (utmetadata (t_data t)))) (t_data t)) t)
| ts_banned t ip : tstep t (set_blackList (blackList (t_dial t) ++ [ip]) t)
| ts_dialed t addr t' : removeHalfOpen env ip6_String int_of_Inf addr t = Ok ((), t') -> tstep t t'.

Definition t_reachable cfg info ann ib t : Prop :=
  exists t0, start env ip6_String int_of_Inf openStorage SelectorF outboundIP (newTorrent cfg info ann ib) = Ok ((), t0) /\
    rtc tstep t0 t.

(** The main loop of an open torrent handles what it receives. *)
Lemma turn_open inp t : tor_ok t -> turn inp t = handle inp t.
Proof.
  intros Ht. unfold mainLoop_turn, mbind, M_bind, gets. rewrite (tk_open _ Ht).
  destruct (dhtAnnounceResp (t_dial t)) eqn:E; [done|by destruct (wf_dht _ (tk_wf _ Ht))].
Qed.

Lemma turn_Ok inp t a t' : turn inp t = Ok (a, t') -> isClosed (t_data t) = false /\ handle inp t = Ok (a, t').
Proof.
  unfold mainLoop_turn, mbind, M_bind, gets. destruct (isClosed (t_data t)); [done|].
  by destruct (dhtAnnounceResp (t_dial t)).
Qed.

Lemma okay_turn inp t :
  tor_ok t -> input_ok t inp -> okay (turn inp) t (fun _ t' => tor_ok t' \/ shut t' /\ closes t inp).
Proof.
  intros Ht Hin. unfold okay. rewrite turn_open by done. by apply okay_handle.
Qed.

Lemma tor_ok_step t t' : tor_ok t -> tstep t t' -> tor_ok t'.
Proof.
  intros Ht. destruct 1 as [inp t t' Hin E Hop|t p p' Hp Hop|t m|t ip|t addr t' E].
  - destruct (okay_turn inp t Ht Hin) as (a & t2 & E2 & Hok). rewrite E in E2. injection E2 as _ <-.
    destruct Hok as [?|[[Hc _] _]]; [done|congruence].
  - destruct (tk_data _ Ht p Hp) as [_ Hd]. apply tor_ok_pieces; [done|by eexists|]. destruct Hd as [K1 K2 K3 K4 K5 K6 K7].
    destruct (conn_op_keeps _ _ _ _ K2 K3 Hop) as (Hp' & Hc' & Hs & Ho & Hst). constructor; try done.
    + intros i Hi. eapply waits_step; [exact Hs|by rewrite Ho| |by apply K4]. intros pc o Hi' Ho' Hc. by eapply Hst.
    + intros Hcl. rewrite (haveAll_owned _ p) by done. by apply K7.
  - apply tor_ok_data; try apply Ht. intros p Hp. destruct (tk_data _ Ht p Hp) as [? []]. split; [done|]. by constructor.
  - eapply tor_ok_ext; [exact Ht|by apply ext_same|]. apply (wf_same t); try done; apply Ht.
  - assert (Hr : runs (removeHalfOpen env ip6_String int_of_Inf addr) t (fun _ _ => True)).
    { eapply runs_bind; [apply runs_modify_same; try done; apply Ht|]. intros _ t1 _ W1 _. by apply runs_dialConns. }
    destruct (okay_runs_True _ _ _ Ht Hr) as ([] & t2 & E2 & Ht2). rewrite E in E2. by injection E2 as <-.
Qed.

Lemma tor_ok_reachable cfg info ann ib t : setup_ok cfg info ib -> t_reachable cfg info ann ib t -> tor_ok t.
Proof.
  intros Hs (t0 & E & Hr). destruct (okay_started cfg info ann ib Hs) as (a & t1 & E1 & Ht1). rewrite E in E1. injection E1 as _ <-.
  clear E Hs. induction Hr as [|x y z Hxy _ IH]; [done|]. by apply IH, (tor_ok_step x).
Qed.

(** ** Theorems *)



(** Progress: the piece at the head of the hasher's queue leaves it, and once the hasher
    reports its hash correct the piece is owned and no longer queued; both turns return. *)
Theorem queued_piece_verified cfg info ann ib t i rest p :
  setup_ok cfg info ib -> t_reachable cfg info ann ib t ->
  pieces_ (t_data t) = Some p -> pieceQueuedHashingC (t_data t) = i :: rest ->
  exists t1 t2 q, turn InHasherTake t = Ok ((), t1) /\ turn (InPieceHashed i true) t1 = Ok ((), t2) /\
    pieces_ (t_data t2) = Some q /\ bm_Get (ownedPieces q) i = true /\
    (forall j, bm_Get (ownedPieces p) j = true -> bm_Get (ownedPieces q) j = true) /\
    pieceQueuedHashingC (t_data t2) = rest /\ queuedForVerification (t_data t2) = queuedForVerification (t_data t) ∖ {[ i ]}.
Proof.
  intros Hs Hr Hp Hc. pose proof (tor_ok_reachable _ _ _ _ _ Hs Hr) as Ht. destruct (tk_data _ Ht p Hp) as [_ Hd].
  pose proof (do_chan _ _ _ Hd) as Hn. pose proof (do_chan_queued _ _ _ Hd) as Hq. rewrite Hc in Hn, Hq.
  apply NoDup_cons in Hn as [Hni Hn]. apply Forall_cons in Hq as [Hqi Hq].
  set (t1 := set_data (d_queue (queuedForVerification (t_data t)) rest (t_data t)) t).
  assert (E1 : turn InHasherTake t = Ok ((), t1)).
  { rewrite turn_open by done. unfold t1. replace rest with (tail (pieceQueuedHashingC (t_data t))); [done|by rewrite Hc]. }
  assert (Ht1 : tor_ok t1) by (eapply tor_ok_queue; [done|done|apply Hd|done|done]).
  destruct (tk_data _ Ht1 p Hp) as [_ Hd1].
  destruct (okay_onPieceHashed env ip6_String int_of_Inf sha1_Sum outboundIP i true _ p _ t1
    (conj Ht1 (conj Hp (conj eq_refl eq_refl))) Hqi Hni) as ([] & t2 & E2 & _ & q & cs & cl & Eh & (_ & Hp2 & Hobs & _)).
  destruct (waits_pieces _ _ _ (do_pieces _ _ _ Hd1) (do_queue _ _ _ Hd1 i Hqi)) as (pc & Hi & Hcp & Hv).
  destruct (pieceHashed_spec _ _ _ true _ (do_pieces _ _ _ Hd1) Hi Hcp Hv) as (q' & Eh' & _ & _ & _ & Hown & _).
  rewrite Eh in Eh'. injection Eh' as <- _. injection Hobs as _ _ Hq2 Hc2.
  exists t1, t2, q. split_and!; try done.
  - by rewrite turn_open.
  - rewrite Hown. by rewrite Z.eqb_refl.
  - intros j Hj. rewrite Hown, Hj. by destruct (_ && _).
Qed.

Lemma interested_early id t ci :
  t_infos t !! id = Some ci -> numWant ci <= 0 ->
  interested env (droppedConn env ip6_String int_of_Inf) id t = Ok ((), t).
Proof.
  intros Hci Hn. unfold interested, mbind, M_bind, getInfo, gets. rewrite Hci.
  destruct (Z.leb_spec (numWant ci) 0); [done|lia].
Qed.

(** What a connection knows of us is unchanged when only its counters change. *)
Lemma told_same (m : gmap Z (connInfo B)) id ci n :
  m !! id = Some ci -> forall j,
  (fun ci => (ci_state ci, ci_sent ci)) <$> <[id := ci_with_want n ci]> m !! j = (fun ci => (ci_state ci, ci_sent ci)) <$> m !! j.
Proof.
  intros Hci j. destruct (decide (j = id)) as [->|Hne]; [by rewrite lookup_insert_eq, Hci|by rewrite lookup_insert_ne].
Qed.

(** What the connection [j] has been told, and the flags the torrent has for it. *)
Definition known t (j : Z) : option (connState * list (cmsg B)) := (fun ci => (ci_state ci, ci_sent ci)) <$> t_infos t !! j.

(** A have message changes neither our interest nor anything else that connections have
    been told: the guard of [interested] reads [numWant] before it is counted up. *)
Theorem have_never_interests t id i :
  wf t -> id ∈ dom (t_infos t) ->
  exists t', reviewInterestsOnHave env ip6_String int_of_Inf id i t = Ok ((), t') /\
    forall j, known t' j = known t j.
Proof.
  intros Hw [ci Hci]%elem_of_dom. destruct (runs_haveAll t Hw) as (all & t' & Eall & _ & _ & ->).
  unfold reviewInterestsOnHave, mbind, M_bind, gets. rewrite Eall. destruct (haveInfo t) eqn:Hi; [|by exists t].
  destruct all; [by exists t|]. destruct (wf_pieces _ Hw Hi) as [p Hp]. cbn [negb orb]. unfold get_pieces, mbind, M_bind. rewrite Hp.
  destruct (bm_Get (ownedPieces p) i); [by exists t|]. cbn [negb when]. unfold mbind, M_bind, getInfo. rewrite Hci.
  assert (E : when (numWant ci <=? 0) (interested env (droppedConn env ip6_String int_of_Inf) id) t = Ok ((), t)).
  { unfold when. destruct (Z.leb_spec (numWant ci) 0); [by apply (interested_early id t ci)|done]. }
  rewrite E. unfold modInfo. rewrite Hci. eexists. split; [reflexivity|]. by apply told_same.
Qed.

End tsafe.

(** The select of the main loop reads the response of the DHT server: when the server refuses an
    announce, that is a nil pointer, and the next turn panics. *)
Theorem refused_announce_panics {B S} `{BitmapOps B} `{PieceSelector S B} `{SortSlice Z} (env : Env)
    ip6 inf sha1 opens (sel : S) out (t t' : torrent B S) inp :
  (forall k, env_dht env k = false) -> DisableDHT (t_cfg t) = false -> has_dhtServer (t_cfg t) = true ->
  announceDht env t = Ok ((), t') -> 
  mainLoop_turn env ip6 inf sha1 opens sel out inp t' = Panic.
Proof.
  intros Hd H1' H2'. unfold announceDht, mbind, M_bind, gets, draw. rewrite H1', H2'. cbn. rewrite Hd. intros [= <-].
  unfold mainLoop_turn, mbind, M_bind, gets. cbn. by destruct (isClosed _).
Qed.

