(* ===== verification/Frames.v ===== *)
(** * What the handlers of a torrent leave alone

    A relation between states that the elementary changes of the main goroutine respect is
    respected by its handlers: by every turn that does not hash a piece, receive the info
    dictionary, close the torrent or let it announce again. *)

From S2P Require Import Prelude Strconv Bitfield GoValue BenDecode BenEncode Wire Metainfo Bitmap Piece Pieces.
From S2P Require Import Metadata ConnInfo Swarm SwarmInv Torrent.

Section frames.
Context {B : Type} `{BitmapOps B} {S : Type} `{PieceSelector S B} `{SortSlice (Piece B)} `{SortSlice Z}.
Variable env : Env.
Variable ip6_String : bytes -> bytes.
Variable int_of_Inf : Z.
Variable sha1_Sum : bytes -> bytes.
Variable openStorage : InfoDict -> list Z -> bool.
Variable SelectorF : S.
Variable outboundIP : bytes.

Abbreviation torrent := (torrent B S).
Abbreviation M := (M B S).
Abbreviation onDrop := (droppedConn env ip6_String int_of_Inf).
Implicit Types (t : torrent) (i id : Z).

Definition is_announce (e : tevent) : bool := match e with EAnnounceTracker _ _ => true | _ => false end.

(** The elementary changes. *)
Class Framing (R : torrent -> torrent -> Prop) : Prop := {
  fm_pre :: PreOrder R;
  fm_infos t m : R t (set_infos m t);
  fm_bump t : R t (bump t);
  fm_conns t a l : R t (set_conns a l t);
  fm_choker t c : R t (set_choker c t);
  fm_dial t d : canAnnounceTracker d = canAnnounceTracker (t_dial t) -> R t (set_dial d t);
  fm_event t e : is_announce e = false -> R t (add_event e t);
  fm_data t d :
    queuedForVerification d = queuedForVerification (t_data t) -> pieceQueuedHashingC d = pieceQueuedHashingC (t_data t) ->
    pieces_ d = pieces_ (t_data t) -> mi_Info d = mi_Info (t_data t) -> isClosed d = isClosed (t_data t) ->
    correctSize (utmetadata d) = correctSize (utmetadata (t_data t)) ->
    uploadEnabled d = uploadEnabled (t_data t) -> downloadEnabled d = downloadEnabled (t_data t) ->
    (DownloadedDataC_closed (t_data t) = true -> DownloadedDataC_closed d = true) -> R t (set_data d t);
  fm_pieces t p p' : pieces_ (t_data t) = Some p -> ownedPieces p' = ownedPieces p -> R t (set_data (d_pieces (Some p') (t_data t)) t);
  fm_announce t : canAnnounceTracker (t_dial t) = true ->
    R t (set_announce false (canAnnounceDht (t_dial t)) (add_event (EAnnounceTracker EvNone (stats (t_data t))) t));
}.

(** A piece is queued for hashing; the result of hashing a piece. *)
Class Queueing (R : torrent -> torrent -> Prop) : Prop :=
  fm_queue t i : is_Some (pieces_ (t_data t)) -> i ∉ queuedForVerification (t_data t) ->
    R t (set_data (d_queue (queuedForVerification (t_data t) ∪ {[ i ]}) (pieceQueuedHashingC (t_data t) ++ [i]) (t_data t)) t).
Class Hashing (R : torrent -> torrent -> Prop) (i : Z) : Prop :=
  fm_hashed t p ok p' cs : pieces_ (t_data t) = Some p -> Pieces.pieceHashed p i ok = Some (p', cs) ->
    R t (set_data (d_pieces (Some p') (t_data t)) t).

(** The transfer of data is started. *)
Class Starting (R : torrent -> torrent -> Prop) : Prop :=
  fm_started t : R t (set_data (d_flags true true (isClosed (t_data t)) (t_data t)) t).

(** The download is complete. *)
Class Completing (R : torrent -> torrent -> Prop) : Prop :=
  fm_completed t a t' : (sendAnnounceToTracker env EvCompleted;; downloadedAll env ip6_String int_of_Inf) t = Ok (a, t') -> R t t'.

(** The info dictionary arrives, or turns out not to be one. *)
Class Unqueueing (R : torrent -> torrent -> Prop) : Prop :=
  fm_unqueued t i :
    R t (set_data (d_queue (queuedForVerification (t_data t) ∖ {[ i ]}) (pieceQueuedHashingC (t_data t)) (t_data t)) t).
Class Receiving (R : torrent -> torrent -> Prop) : Prop := {
  fm_unqueueing :: Unqueueing R;
  fm_received t p : R t (set_data (d_queue (queuedForVerification (t_data t)) [] (d_pieces (Some p) (t_data t))) t);
  fm_shut t d :
    queuedForVerification d = queuedForVerification (t_data t) -> pieceQueuedHashingC d = pieceQueuedHashingC (t_data t) ->
    DownloadedDataC_closed d = DownloadedDataC_closed (t_data t) ->
    uploadEnabled d = uploadEnabled (t_data t) -> downloadEnabled d = downloadEnabled (t_data t) -> R t (set_data d t);
}.

Variable R : torrent -> torrent -> Prop.
Context `{!Framing R}.

Definition frames {A} (m : M A) : Prop := forall t a t', m t = Ok (a, t') -> R t t'.

Lemma frames_ret {A} (a : A) : frames (mret a).
Proof. intros t b t' [= _ <-]. reflexivity. Qed.

Lemma frames_bind {A C} (m : M A) (f : A -> M C) : frames m -> (forall a, frames (f a)) -> frames (m ≫= f).
Proof.
  intros Hm Hf t c t' E. unfold mbind, M_bind in E. destruct (m t) as [[a t1]| |] eqn:E1; [|done..].
  etrans; [by eapply Hm|by eapply Hf].
Qed.

Lemma frames_gets {A} (f : torrent -> A) : frames (gets f).
Proof. intros t a t' [= _ <-]. reflexivity. Qed.

Lemma frames_modify f : (forall t, R t (f t)) -> frames (modify f).
Proof. intros Hf t a t' [= _ <-]. apply Hf. Qed.

Lemma frames_panic {A} : frames (tpanic : M A).
Proof. by intros t a t'. Qed.

Lemma frames_fuel {A} : frames (tfuel : M A).
Proof. by intros t a t'. Qed.

Lemma frames_waits {A} : frames (twaits : M A).
Proof. by intros t a t'. Qed.

Lemma frames_when b (m : M unit) : frames m -> frames (when b m).
Proof. intros Hm. destruct b; [done|apply frames_ret]. Qed.

Lemma frames_draw {A} (f : nat -> A) : frames (draw f).
Proof. intros t a t' [= _ <-]. apply fm_bump. Qed.

Lemma frames_getInfo id : frames (getInfo id : M (connInfo B)).
Proof. unfold getInfo. intros t a t' E. destruct (t_infos t !! id); [|done]. injection E as _ <-. reflexivity. Qed.

Lemma frames_modInfo id f : frames (modInfo id f).
Proof. unfold modInfo. intros t a t' E. destruct (t_infos t !! id); [|done]. injection E as _ <-. apply fm_infos. Qed.

Lemma frames_get_pieces : frames (get_pieces : M (pieces B S)).
Proof. unfold get_pieces. intros t a t' E. destruct (pieces_ (t_data t)); [|done]. injection E as _ <-. reflexivity. Qed.

Lemma frames_arr_at k : frames (arr_at k : M Z).
Proof. unfold arr_at. intros t a t' E. destruct (t_arr t !! k); [|done]. injection E as _ <-. reflexivity. Qed.

Lemma frames_for_each {A} (f : A -> M unit) l : (forall a, frames (f a)) -> frames (for_each f l).
Proof. intros Hf. induction l as [|a l IH]; [apply frames_ret|]. apply frames_bind; [done|by intros []]. Qed.

Lemma frames_mod_data f :
  (forall t, queuedForVerification (f (t_data t)) = queuedForVerification (t_data t) /\
             pieceQueuedHashingC (f (t_data t)) = pieceQueuedHashingC (t_data t) /\
             pieces_ (f (t_data t)) = pieces_ (t_data t) /\ mi_Info (f (t_data t)) = mi_Info (t_data t) /\
             isClosed (f (t_data t)) = isClosed (t_data t) /\
             correctSize (utmetadata (f (t_data t))) = correctSize (utmetadata (t_data t)) /\
             uploadEnabled (f (t_data t)) = uploadEnabled (t_data t) /\ downloadEnabled (f (t_data t)) = downloadEnabled (t_data t) /\
             (DownloadedDataC_closed (t_data t) = true -> DownloadedDataC_closed (f (t_data t)) = true)) ->
  frames (mod_data f).
Proof. intros Hf. apply frames_modify. intros t. destruct (Hf t) as (? & ? & ? & ? & ? & ? & ? & ? & ?). by apply fm_data. Qed.

Lemma frames_lift {A} (o : option A) : frames (lift_option o).
Proof. destruct o; [apply frames_ret|apply frames_panic]. Qed.

Lemma frames_with_pieces {A} (g : pieces B S -> pieces B S) (k : M A) :
  (forall p, ownedPieces (g p) = ownedPieces p) -> frames k -> frames (p ← get_pieces; mod_data (d_pieces (Some (g p)));; k).
Proof.
  intros Hg Hk t u t' E. unfold mbind, M_bind, get_pieces in E. destruct (pieces_ (t_data t)) as [p|] eqn:Hp; [|done].
  etrans; [exact (fm_pieces t p (g p) Hp (Hg p))|]. by eapply Hk.
Qed.

(** Follow the program; what it calls is in the hypotheses or the hints. *)
Create HintDb frames discriminated.
#[local] Hint Resolve frames_ret frames_gets frames_panic frames_fuel frames_waits frames_draw frames_getInfo frames_modInfo frames_get_pieces
  frames_arr_at frames_lift : frames.
Ltac frame :=
  repeat first
    [ solve [auto 2 with frames nocore]
    | apply frames_bind; [|intros ?]
    | apply frames_when
    | apply frames_for_each; intros ?
    | apply frames_mod_data; intros ?; by split_and!
    | apply frames_modify; intros ?; first [apply fm_infos|apply fm_choker|apply fm_conns|by apply fm_dial|by apply fm_event]
    | case_match ].

Lemma frames_modInfo_now id f : frames (modInfo_now env id f).
Proof. unfold modInfo_now. frame. Qed.
#[local] Hint Resolve frames_modInfo_now : frames.

Lemma frames_haveAll : frames (t_haveAll : M bool).
Proof. unfold t_haveAll. frame. Qed.
#[local] Hint Resolve frames_haveAll : frames.

(** ** Announces and dials *)

Lemma frames_await ends : frames (await ends : M unit).
Proof. unfold await. frame. Qed.
#[local] Hint Resolve frames_await : frames.

Lemma frames_sendAnnounce t a t' :
  canAnnounceTracker (t_dial t) = true -> sendAnnounceToTracker env EvNone t = Ok (a, t') -> R t t'.
Proof.
  intros Hc [->| ->]%sendAnnounce_Ok; [reflexivity|]. etrans; [apply fm_bump|]. by apply (fm_announce (bump t)).
Qed.

Lemma frames_announceDht : frames (announceDht env : M unit).
Proof.
  unfold announceDht. frame; apply frames_modify; intros t;
    first [solve [etrans; [by apply (fm_event _ EAnnounceDht)|by apply fm_dial]]
          |etrans; [by apply (fm_event _ EResetDhtTimer)|by apply fm_dial]].
Qed.
#[local] Hint Resolve frames_announceDht : frames.

Lemma frames_closeDhtAnnounce : frames (closeDhtAnnounce : M unit).
Proof.
  unfold closeDhtAnnounce. frame. apply frames_modify. intros t. etrans; [by apply (fm_event t ECloseDhtAnnounce)|by apply fm_dial].
Qed.
#[local] Hint Resolve frames_closeDhtAnnounce : frames.

Lemma frames_tryAnnounceAll : frames (tryAnnounceAll env int_of_Inf : M unit).
Proof.
  apply frames_bind; [frame|]. intros w. apply frames_when. intros t a t' E. unfold mbind at 1, M_bind, gets in E.
  destruct (canAnnounceTracker (t_dial t)) eqn:Hc; cbn [when] in E.
  - unfold mbind at 1, M_bind in E. destruct (sendAnnounceToTracker env EvNone t) as [[u t1]| |] eqn:E1; [|done..].
    etrans; [by eapply frames_sendAnnounce|]. revert E. generalize t1 a t'. fold (@frames unit).
    change (frames (dht ← gets (fun t => canAnnounceDht (t_dial t)); when dht (announceDht env))). frame.
  - revert E. generalize t a t'. change (frames (mret ();; dht ← gets (fun t => canAnnounceDht (t_dial t)); when dht (announceDht env))). frame.
Qed.
#[local] Hint Resolve frames_tryAnnounceAll : frames.

Lemma frames_dial_loop n : frames (dial_loop env ip6_String n).
Proof.
  induction n as [|n IH]; cbn [dial_loop]; unfold popPeer; frame.
  apply frames_modify. intros t. match goal with |- R _ (add_event _ ?x) => transitivity x end; [by apply fm_dial|by apply fm_event].
Qed.
#[local] Hint Resolve frames_dial_loop : frames.

Lemma frames_dialConns : frames (dialConns env ip6_String int_of_Inf).
Proof. unfold dialConns. frame. Qed.
#[local] Hint Resolve frames_dialConns : frames.

Lemma frames_gotPeers l : frames (gotPeers env ip6_String int_of_Inf l).
Proof. unfold gotPeers. frame. Qed.
#[local] Hint Resolve frames_gotPeers : frames.

Lemma frames_removeHalfOpen addr : frames (removeHalfOpen env ip6_String int_of_Inf addr).
Proof. unfold removeHalfOpen. frame. Qed.
#[local] Hint Resolve frames_removeHalfOpen : frames.

(** ** Connections, with a frame of what is done when one turns out to be closed *)

Section ops.
Variable drop : Z -> M bool.
Hypothesis frames_drop : forall id, frames (drop id).
#[local] Hint Resolve frames_drop : frames.

Lemma frames_sendMsg id m : frames (sendMsgToConn env drop id m).
Proof using Framing0 frames_drop. unfold sendMsgToConn. frame. Qed.
#[local] Hint Resolve frames_sendMsg : frames.

Lemma frames_flags id :
  frames (choke env drop id) /\ frames (unchoke env drop id) /\ frames (interested env drop id) /\ frames (notInterested env drop id).
Proof using Framing0 frames_drop. unfold choke, unchoke, interested, notInterested. split_and!; frame. Qed.

Lemma frames_choke id : frames (choke env drop id).
Proof using Framing0 frames_drop. apply frames_flags. Qed.
Lemma frames_unchoke id : frames (unchoke env drop id).
Proof using Framing0 frames_drop. apply frames_flags. Qed.
#[local] Hint Resolve frames_choke frames_unchoke : frames.

Lemma frames_candidates n ks acc : frames (candidates n ks acc : M (list Z)).
Proof using Framing0. revert acc. induction ks as [|k ks IH]; intros acc; cbn [candidates]; [frame|]. frame. Qed.
#[local] Hint Resolve frames_candidates : frames.

Lemma frames_isSnubbed id : frames (isSnubbed env id : M bool).
Proof using Framing0. unfold isSnubbed. frame. Qed.
#[local] Hint Resolve frames_isSnubbed : frames.

Lemma frames_peerSeeding id : frames (peerSeeding id : M bool).
Proof using Framing0. unfold peerSeeding. frame. Qed.
#[local] Hint Resolve frames_peerSeeding : frames.

Lemma frames_classify ks opt best : frames (classify env drop ks opt best).
Proof using Framing0 frames_drop. revert opt best. induction ks as [|k ks IH]; intros opt best; cbn [classify]; frame. Qed.
#[local] Hint Resolve frames_classify : frames.

Lemma frames_unchoke_best l n : frames (unchoke_best env drop l n).
Proof using Framing0 frames_drop. revert n. induction l as [|id l IH]; intros n; cbn [unchoke_best]; frame. Qed.
#[local] Hint Resolve frames_unchoke_best : frames.

Lemma frames_unchoke_rest cands order n : frames (unchoke_rest env drop cands order n).
Proof using Framing0 frames_drop. revert n. induction order as [|k order IH]; intros n; cbn [unchoke_rest]; frame. Qed.
#[local] Hint Resolve frames_unchoke_rest : frames.

Lemma frames_sort_byRate l : frames (sort_byRate env l : M (list Z)).
Proof using Framing0. unfold sort_byRate. frame. Qed.
#[local] Hint Resolve frames_sort_byRate : frames.

Lemma frames_pick : frames (pickOptimisticUnchoke env : M unit).
Proof using Framing0. unfold pickOptimisticUnchoke, set_optimistic. frame. Qed.
#[local] Hint Resolve frames_pick : frames.

Lemma frames_review : frames (reviewUnchokedPeers env drop).
Proof using Framing0 frames_drop. unfold reviewUnchokedPeers, review, next_round. frame. Qed.

End ops.

Lemma frames_droppedConn_fuel fuel id : frames (droppedConn_fuel env ip6_String int_of_Inf fuel id).
Proof.
  revert id. induction fuel as [|fuel IH]; intros id; cbn [droppedConn_fuel]; [frame|].
  pose proof (frames_review _ IH) as Hr. unfold removeConn. frame.
  intros t u t' E. unfold modify in E. injection E as _ <-. case_match; [by apply fm_dial|reflexivity].
Qed.

Lemma frames_onDrop id : frames (onDrop id).
Proof. intros t a t' E. by eapply frames_droppedConn_fuel. Qed.
#[local] Hint Resolve frames_onDrop : frames.

Lemma frames_sendMsg_drop id m : frames (sendMsgToConn env onDrop id m).
Proof. apply frames_sendMsg, frames_onDrop. Qed.
Lemma frames_review_drop : frames (reviewUnchokedPeers env onDrop).
Proof. apply frames_review, frames_onDrop. Qed.
#[local] Hint Resolve frames_sendMsg_drop frames_review_drop : frames.

Lemma frames_interest id : frames (interested env onDrop id) /\ frames (notInterested env onDrop id).
Proof. split; apply (frames_flags onDrop frames_onDrop). Qed.
Lemma frames_interested id : frames (interested env onDrop id).
Proof. apply frames_interest. Qed.
Lemma frames_notInterested id : frames (notInterested env onDrop id).
Proof. apply frames_interest. Qed.
#[local] Hint Resolve frames_interested frames_notInterested : frames.

Lemma frames_range f : (forall id, frames (f id)) -> frames (range_conns f : M unit).
Proof. intros Hf. unfold range_conns. frame. Qed.

Lemma frames_broadcast m : frames (broadcastToConns env ip6_String int_of_Inf m).
Proof. unfold broadcastToConns. apply frames_range. intros id. frame. Qed.
#[local] Hint Resolve frames_broadcast : frames.

(** ** The handlers *)

Lemma frames_reviewInterests id i :
  frames (reviewInterestsOnBitfield env ip6_String int_of_Inf id) /\ frames (reviewInterestsOnHave env ip6_String int_of_Inf id i).
Proof. unfold reviewInterestsOnBitfield, reviewInterestsOnHave. split; frame. Qed.

Lemma frames_onBitfield id : frames (reviewInterestsOnBitfield env ip6_String int_of_Inf id).
Proof. apply (frames_reviewInterests id 0). Qed.
Lemma frames_onHave id i : frames (reviewInterestsOnHave env ip6_String int_of_Inf id i).
Proof. apply (frames_reviewInterests id i). Qed.

Lemma frames_peerChanged id : frames (peerInterestChanged env ip6_String int_of_Inf id) /\ frames (peerChokeChanged env id : M unit).
Proof. unfold peerInterestChanged, peerChokeChanged. split; frame. Qed.

Lemma frames_banIP ip : frames (banIP env ip6_String int_of_Inf outboundIP ip).
Proof.
  unfold banIP. case_match; [frame|]. apply frames_bind; [|intros _; apply frames_range; intros id; frame].
  apply frames_modify. intros t. match goal with |- R _ (add_event _ ?x) => transitivity x end; [by apply fm_dial|by apply fm_event].
Qed.
#[local] Hint Resolve frames_banIP : frames.

Lemma frames_banPeer : frames (banPeer env ip6_String int_of_Inf outboundIP).
Proof. unfold banPeer. frame. Qed.
#[local] Hint Resolve frames_banPeer : frames.

Lemma frames_onPieceDownload i : frames (onPieceDownload env ip6_String int_of_Inf i).
Proof.
  unfold onPieceDownload, reviewInterestsOnPieceDownload, sendHaves, have. frame.
Qed.
#[local] Hint Resolve frames_onPieceDownload : frames.

Lemma frames_downloadedAll : frames (downloadedAll env ip6_String int_of_Inf).
Proof. unfold downloadedAll. frame. Qed.

Lemma frames_establishedConnection id : frames (establishedConnection env ip6_String int_of_Inf id).
Proof. unfold establishedConnection, append_conn, sendBitfield, sendPort. frame. Qed.

Lemma frames_trackerAnnounced r : frames (trackerAnnounced env ip6_String int_of_Inf r).
Proof. unfold trackerAnnounced, resetNextTrackerAnnounce. frame. Qed.

Lemma frames_dhtAnnounced l : frames (dhtAnnounced env ip6_String int_of_Inf l).
Proof. unfold dhtAnnounced. frame. Qed.

Lemma StartDataTransfer_after t r t' :
  StartDataTransfer env ip6_String int_of_Inf t = Ok (r, t') ->
  match r with None => R (set_data (d_flags true true (isClosed (t_data t)) (t_data t)) t) t' | Some _ => t' = t end.
Proof.
  pose proof frames_onBitfield as Hb. set (t0 := set_data _ t). unfold StartDataTransfer. unfold mbind at 1, M_bind, gets. unfold mbind at 1, M_bind.
  destruct (haveInfo t); cbn [negb]; [|by intros [= <- <-]]. destruct (_ || _); [by intros [= <- <-]|].
  unfold mbind at 1, M_bind. unfold mod_data at 1, modify. fold t0.
  match goal with |- ?m t0 = _ -> _ => set (k := m); intros E end.
  assert (Hk : frames k).
  { assert (Hs : frames (p ← get_pieces; mod_data (d_pieces (Some (setDownloadEnabled p true)));;
      range_conns (reviewInterestsOnBitfield env ip6_String int_of_Inf);; broadcastToConns env ip6_String int_of_Inf CRequestsAvailable)).
    { apply (frames_with_pieces (fun p => setDownloadEnabled p true)); [done|]. frame. }
    unfold k. cbn beta. frame. apply (frames_gets (fun t => negb (infoWasDownloaded t) && (0 <? t_len t)%nat)). }
  assert (r = None) as ->; [|by eapply Hk]. revert E. unfold k. clear.
  unfold mbind at 1, M_bind. cbn beta iota. destruct (negb (infoWasDownloaded t0) && _); [done|].
  repeat (unfold mbind at 1, M_bind; match goal with |- match ?m with _ => _ end = _ -> _ => destruct m as [[? ?]| |]; [|done..] end).
  by intros [= <- _].
Qed.

Lemma frames_StartDataTransfer `{!Starting R} : frames (StartDataTransfer env ip6_String int_of_Inf).
Proof.
  intros t r t' E%StartDataTransfer_after. destruct r as [e|]; [by subst|]. etrans; [apply fm_started|exact E].
Qed.

(** *** Changes of the pieces *)

Lemma update_piece_owned (p p' : pieces B S) i f : update_piece p i f = Some p' -> ownedPieces p' = ownedPieces p.
Proof. intros E. apply update_piece_inv in E as (pc & _ & ->). done. Qed.

Lemma foldM_owned tp l (p p' : pieces B S) :
  foldM (fun p i => update_piece p i (setAllUnrequested tp)) p l = Some p' -> ownedPieces p' = ownedPieces p.
Proof.
  revert p. induction l as [|j l IH]; intros p; cbn [foldM]; [by intros [= ->]|].
  destruct (update_piece p j _) as [q|] eqn:E; [|done]. apply update_piece_owned in E. cbn [mbind option_bind]. intros ->%IH. done.
Qed.

Lemma setBlockComplete_owned tp (p p' : pieces B S) i off id evs :
  Pieces.setBlockComplete tp p i off id = Some (p', evs) -> ownedPieces p' = ownedPieces p.
Proof.
  unfold Pieces.setBlockComplete. destruct (update_piece p i _) as [p1|] eqn:E1; [|done]. cbn [mbind option_bind].
  apply update_piece_owned in E1. unfold maybeStartEndgame. case_match; cbn [mbind option_bind].
  - destruct (at_index (pcs p1) i); [|done]. cbn. by intros [= <- _].
  - destruct (foldM _ _ _) as [p2|] eqn:E2; [|done]. apply foldM_owned in E2. cbn [mbind option_bind ownedPieces] in *.
    destruct (at_index (pcs p2) i); [|done]. cbn. intros [= <- _]. congruence.
Qed.

(** *** Turns that queue pieces *)

Section queueing.
Context `{!Queueing R}.

Lemma frames_queuePiece i : frames (queuePieceForHashing i : M unit).
Proof using Framing0 Queueing0.
  intros t a t' E. unfold queuePieceForHashing in E. unfold mbind, M_bind, gets, get_pieces, lift_option in E.
  destruct (pieces_ (t_data t)) as [p|] eqn:Hp; [|done]. destruct (at_index (pcs p) i) as [pc|]; [|done].
  cbn [mret M_ret] in E. case_bool_decide as Hi; cbn [orb negb when] in E; [by injection E as _ <-|].
  destruct (verified pc); cbn [orb negb when] in E; [by injection E as _ <-|]. case_match; [|done].
  injection E as _ <-. apply fm_queue; [by rewrite Hp|done].
Qed.
#[local] Hint Resolve frames_queuePiece : frames.

Lemma frames_pieces_event e : frames (pieces_event env ip6_String int_of_Inf e).
Proof using Framing0 Queueing0. destruct e; cbn [pieces_event]; unfold sendCancels; frame. Qed.
#[local] Hint Resolve frames_pieces_event : frames.

Lemma frames_blockDownloaded id b : frames (blockDownloaded env ip6_String int_of_Inf id b).
Proof using Framing0 Queueing0.
  unfold blockDownloaded. apply frames_bind; [frame|intros _]. apply frames_bind; [frame|intros _].
  intros t u t' E. unfold mbind, M_bind, get_pieces, gets in E. destruct (pieces_ (t_data t)) as [p|] eqn:Hp; [|done].
  destruct (Pieces.setBlockComplete (tparams_of (t_data t)) p (b_pc b) (b_off b) id) as [[p' evs]|] eqn:E1; [|done].
  cbn in E. etrans; [by apply (fm_pieces t p p' Hp), (setBlockComplete_owned _ _ _ _ _ _ _ E1)|].
  revert E. generalize u t'. fold (@frames unit).
  match goal with |- forall u t', ?m ?x = _ -> _ => assert (Hm : frames m) by frame; intros ? ?; apply Hm end.
Qed.


(** The turns whose effects on the queue of the hasher and on the announces are these changes. *)
Definition framed (inp : tinput B) : bool :=
  match inp with
  | InConnMsg _ (TDownloadedMetadata _) | InPieceHashed _ _ | InTrackerTimer | InHasherTake | InClose => false
  | _ => true
  end.

Lemma frames_handle inp : framed inp = true -> (inp = InStartDataTransfer -> Starting R) -> frames (handle env ip6_String int_of_Inf sha1_Sum openStorage SelectorF outboundIP inp).
Proof using Framing0 Queueing0.
  pose proof frames_onBitfield as H1'. pose proof frames_onHave as H2'. pose proof (fun id => proj1 (frames_peerChanged id)) as H3'.
  pose proof (fun id => proj2 (frames_peerChanged id)) as H4'. pose proof frames_blockDownloaded as H5'.
  pose proof frames_establishedConnection as H6'. pose proof frames_trackerAnnounced as H7'. pose proof frames_dhtAnnounced as H8'.
  pose proof frames_gotPeers as H10'.
  destruct inp as [id m|i ok|id peer r| |resp| |ok l| |l| | |]; intros Hf Hst; try discriminate Hf; cbn [handle].
  - unfold onConnMsg. destruct m; try discriminate Hf; unfold blockUploaded; frame.
  - frame.
  - frame.
  - frame.
  - frame.
  - frame.
  - frame.
  - pose proof (frames_StartDataTransfer (Starting0 := Hst eq_refl)) as H9'. frame.
Qed.

End queueing.

(** *** Results of the hasher *)

(** What follows the first change of pieceHashed. *)
Definition pieceHashed_rest (i : Z) (correct : bool) : M unit :=
  p ← get_pieces;
  '(p, contributors) ← lift_option (Pieces.pieceHashed p i correct);
  mod_data (d_pieces (Some p));;
  for_each (fun id => modInfo id (ci_with_stats (if correct then goodContribution else badContribution))) contributors;;
  if correct then onPieceDownload env ip6_String int_of_Inf i else banPeer env ip6_String int_of_Inf outboundIP.

Definition unqueued (i : Z) (t : torrent) : torrent :=
  set_data (d_queue (queuedForVerification (t_data t) ∖ {[ i ]}) (pieceQueuedHashingC (t_data t)) (t_data t)) t.

Lemma pieceHashed_split i ok t :
  pieceHashed env ip6_String int_of_Inf outboundIP i ok t = pieceHashed_rest i ok (unqueued i t).
Proof. done. Qed.

Lemma pieceHashed_after i ok t a t' :
  pieceHashed_rest i ok t = Ok (a, t') ->
  exists p p' cs, pieces_ (t_data t) = Some p /\ Pieces.pieceHashed p i ok = Some (p', cs) /\
    R (set_data (d_pieces (Some p') (t_data t)) t) t'.
Proof.
  intros E. unfold pieceHashed_rest in E. unfold mbind at 1, M_bind, get_pieces in E.
  destruct (pieces_ (t_data t)) as [p|] eqn:Hp; [|done]. destruct (Pieces.pieceHashed p i ok) as [[p' cs]|] eqn:E1; [|done].
  exists p, p', cs. split_and!; [done|done|].
  assert (Hm : frames (for_each (fun id => modInfo id (ci_with_stats (if ok then goodContribution else badContribution))) cs;;
    if ok then onPieceDownload env ip6_String int_of_Inf i else banPeer env ip6_String int_of_Inf outboundIP)) by frame.
  by eapply Hm.
Qed.

Lemma onPieceHashed_after `{!Completing R} i ok t a t' :
  onPieceHashed env ip6_String int_of_Inf outboundIP i ok t = Ok (a, t') ->
  exists p p' cs, pieces_ (t_data t) = Some p /\ Pieces.pieceHashed p i ok = Some (p', cs) /\
    R (set_data (d_pieces (Some p') (t_data (unqueued i t))) (unqueued i t)) t'.
Proof.
  intros E. unfold onPieceHashed in E. unfold mbind at 1, M_bind in E. rewrite pieceHashed_split in E.
  destruct (pieceHashed_rest i ok (unqueued i t)) as [[u t1]| |] eqn:E1; [|done..].
  apply pieceHashed_after in E1 as (p & p' & cs & Hp & Ep & Hr). exists p, p', cs. split_and!; [done|done|].
  etrans; [exact Hr|]. revert E. generalize t1 a t'. fold (@frames unit).
  match goal with |- forall t1 a t', ?m t1 = _ -> _ => assert (Hm : frames m) end; [|intros ? ? ?; apply Hm].
  apply frames_bind; [frame|intros q]. apply frames_bind; [frame|intros d]. apply frames_when. intros ? ? ?. apply fm_completed.
Qed.

(** *** The info dictionary *)

Lemma frames_reset n :
  frames (d ← gets t_data; u ← lift_option (uts_reset (utmetadata d) n); mod_data (fun d => d_info (mi_Info d) u d) : M unit).
Proof.
  intros t a t' E. unfold mbind, M_bind, gets in E. destruct (uts_reset (utmetadata (t_data t)) n) as [u|] eqn:Eu; [|done]. injection E as _ <-.
  apply fm_data; try done. unfold uts_reset in Eu. destruct (uts_m _ !! n); [|done]. by injection Eu as <-.
Qed.
#[local] Hint Resolve frames_reset : frames.

Lemma frames_refused n t a t' ut :
  uts_m (utmetadata (t_data t)) !! n = Some ut -> sha1_Sum (infoBytes ut) <> Hash (mi_Info (t_data t)) ->
  metadataCompleted env ip6_String int_of_Inf sha1_Sum openStorage SelectorF outboundIP n t = Ok (a, t') -> R t t'.
Proof.
  intros Hut Hne. unfold metadataCompleted. unfold mbind at 1, M_bind, gets. unfold mbind at 1, M_bind. unfold uts_metadata. rewrite Hut.
  cbn [lift_option mret M_ret]. rewrite bool_decide_false by done. cbn [negb]. generalize t a t'. fold (@frames unit).
  match goal with |- forall t a t', ?m t = _ -> _ => assert (Hm : frames m) end; [|intros ? ? ?; apply Hm]. frame.
Qed.

Section opening.
Context `{!Unqueueing R}.
Hypothesis hashing : forall i, Hashing R i.

Lemma frames_complete_piece i : frames (complete_piece env ip6_String int_of_Inf outboundIP i).
Proof using Framing0 Unqueueing0 hashing.
  intros t u t' E. unfold complete_piece in E. unfold mbind at 1, M_bind, get_pieces in E.
  destruct (pieces_ (t_data t)) as [p|] eqn:Hp; [|done].
  destruct (update_piece p i swap_bitmaps) as [p'|] eqn:E1; [|done].
  etrans; [apply (fm_pieces t p p' Hp), (update_piece_owned _ _ _ _ E1)|].
  etrans; [by apply (fm_unqueued _ i)|]. apply pieceHashed_after in E as (q & q' & cs & Hq & Eq & Hr). etrans; [by eapply (hashing i)|exact Hr].
Qed.

End opening.

Section receiving.
Context `{!Receiving R}.
Hypothesis hashing : forall i, Hashing R i.

Lemma frames_gotInfo : frames (gotInfo env ip6_String int_of_Inf openStorage SelectorF outboundIP).
Proof using Framing0 Receiving0 hashing.
  pose proof (frames_complete_piece hashing) as Hc. pose proof frames_downloadedAll as Hd. unfold gotInfo.
  apply frames_bind; [frame|intros d]. apply frames_bind; [frame|intros u].
  apply frames_bind; [apply frames_modify; intros t; by apply fm_shut|intros _]. do 3 (apply frames_bind; [frame|intros ?]). apply frames_bind; [apply frames_lift|intros p].
  apply frames_bind; [apply frames_modify; intros t; apply fm_received|intros _]. frame.
Qed.

Lemma frames_close : frames (close env : M unit).
Proof using Framing0 Receiving0.
  unfold close, dropAllConns. frame; apply frames_modify; intros t; by apply fm_shut.
Qed.

Lemma frames_metadataCompleted n : frames (metadataCompleted env ip6_String int_of_Inf sha1_Sum openStorage SelectorF outboundIP n).
Proof using Framing0 Receiving0 hashing.
  pose proof frames_gotInfo as Hg. pose proof frames_close as Hc. unfold metadataCompleted. frame; apply frames_modify; intros t; by apply fm_shut.
Qed.

End receiving.

End frames.
