(* ===== verification/Hasher.v ===== *)
(** * torrent/piece_hasher.go: the goroutine that hashes pieces

    The hasher takes pieces from the queue of its torrent, hashes them in the storage and
    returns the results on a channel. The main goroutine, the hasher, connections and dialers
    run next to each other; the storage is behind its interface. *)

From S2P Require Import Prelude Strconv Bitfield GoValue BenDecode BenEncode Wire Metainfo Bitmap Piece Pieces Storage.
From S2P Require Import Metadata ConnInfo Swarm SwarmInv Torrent TorrentInv TorrentSafe Frames.

(** ** The system *)

(** The goroutine waits in its select, has hashed a piece and sends the result, or has
    returned. *)
Inductive hrun :=
| HIdle (numVerified : Z)
| HSend (numVerified i : Z) (correct : bool)
| HDone.

Record hsys (B S St : Type) := mkHsys {
  h_t : torrent B S;
  h_store : St;
  h_run : hrun;
  h_chan : list (Z * bool);              (* pieceHashedC *)
}.
Arguments mkHsys {B S St}.
Arguments h_t {B S St} h.
Arguments h_store {B S St} h.
Arguments h_run {B S St} h.
Arguments h_chan {B S St} h.

Section quiet.
Context {B : Type} `{BitmapOps B} {S : Type}.
Abbreviation torrent := (torrent B S).
Implicit Types (t : torrent) (i : Z).

Definition t_closed t : bool := isClosed (t_data t).

(** ** Turns that leave the hasher alone *)

Definition owned t i : bool := match pieces_ (t_data t) with Some p => bm_Get (ownedPieces p) i | None => false end.

(** Pieces may be queued; owned pieces and the info dictionary stay. *)
Definition quiet t t' : Prop :=
  (exists l, pieceQueuedHashingC (t_data t') = pieceQueuedHashingC (t_data t) ++ l /\
     queuedForVerification (t_data t') = queuedForVerification (t_data t) ∪ list_to_set l /\
     NoDup l /\ (forall i, i ∈ l -> i ∉ queuedForVerification (t_data t)) /\ (pieces_ (t_data t) = None -> l = [])) /\
  (forall i, owned t' i = owned t i) /\ (pieces_ (t_data t') = None <-> pieces_ (t_data t) = None) /\
  mi_Info (t_data t') = mi_Info (t_data t) /\ haveInfo t' = haveInfo t /\ t_closed t' = t_closed t.

Lemma quiet_data t t' :
  pieceQueuedHashingC (t_data t') = pieceQueuedHashingC (t_data t) -> queuedForVerification (t_data t') = queuedForVerification (t_data t) ->
  ownedPieces <$> pieces_ (t_data t') = ownedPieces <$> pieces_ (t_data t) ->
  mi_Info (t_data t') = mi_Info (t_data t) -> haveInfo t' = haveInfo t -> t_closed t' = t_closed t -> quiet t t'.
Proof.
  intros Hq Hv Ho Hm Hi Hc. split_and!; try done.
  - exists []. rewrite app_nil_r, Hv. split_and!; [done|set_solver|by apply NoDup_nil_2|set_solver|done].
  - intros i. unfold owned. destruct (pieces_ (t_data t')), (pieces_ (t_data t)); try done. cbn in Ho. congruence.
  - by destruct (pieces_ (t_data t')), (pieces_ (t_data t)).
Qed.

#[global] Instance quiet_pre : PreOrder quiet.
Proof.
  split; [intros t; by apply quiet_data|].
  intros t1 t2 t3 ((l & Q1 & V1 & N1 & D1 & E1) & O1 & P1 & M1 & I1 & C1) ((k & Q2 & V2 & N2 & D2 & E2) & O2 & P2 & M2 & I2 & C2).
  split_and!; [|intros i; by rewrite O2|by rewrite P2|congruence|congruence|congruence]. exists (l ++ k). split_and!.
  - by rewrite Q2, Q1, app_assoc.
  - rewrite V2, V1. set_solver.
  - apply NoDup_app. split_and!; [done| |done]. intros i Hl Hk. apply (D2 i Hk). rewrite V1. set_solver.
  - intros i [Hl|Hk]%elem_of_app; [by apply D1|]. specialize (D2 i Hk). rewrite V1 in D2. set_solver.
  - intros Hn. by rewrite (E1 Hn), (E2 (proj2 P1 Hn)).
Qed.

#[global] Instance quiet_framing : Framing quiet.
Proof.
  constructor; try apply _; intros; try by apply quiet_data.
  - apply quiet_data; try done; cbn; [by match goal with E : pieces_ _ = _ |- _ => rewrite E end|unfold haveInfo; cbn; congruence].
  - apply quiet_data; try done. cbn. match goal with E : pieces_ _ = Some _ |- _ => rewrite E end. cbn. congruence.
Qed.

#[global] Instance quiet_starting : Starting quiet.
Proof. intros t. by apply quiet_data. Qed.

#[global] Instance quiet_queueing : Queueing quiet.
Proof.
  intros t i Hp Hi. split_and!; try done. exists [i]. cbn. split_and!; [done|set_solver|apply NoDup_singleton| |].
  - by intros j ->%list_elem_of_singleton.
  - intros Hn. rewrite Hn in Hp. by destruct Hp.
Qed.

End quiet.

Section hasher.
Context {B : Type} `{BitmapLaws B} {S : Type} `{PieceSelector S B} `{SortSliceLaws (Piece B)} `{SortSliceLaws Z}.
Variable env : Env.
Context `{EnvLaws env}.
Variable ip6_String : bytes -> bytes.
Variable int_of_Inf : Z.
Variable sha1_Sum : bytes -> bytes.
Variable openStorage : InfoDict -> list Z -> bool.
Variable SelectorF : S.
Variable outboundIP : bytes.

(** The storage: HashPiece, whose failure ends the process, and what connections do to it. *)
Context {St : Type}.
Variable HashPiece : St -> Z -> Z -> option (St * bool).
Variable store_step : St -> St -> Prop.

Abbreviation torrent := (torrent B S).
Abbreviation hsys := (hsys B S St).
Abbreviation turn := (mainLoop_turn env ip6_String int_of_Inf sha1_Sum openStorage SelectorF outboundIP).
Abbreviation input_ok := (input_ok (B := B) (S := S) sha1_Sum).
Implicit Types (t : torrent) (h : hsys) (i n : Z).

(** Run after a result has been sent. *)
Definition hasher_next t (n : Z) (correct : bool) : hrun :=
  if correct then if n + 1 =? numPieces t then HDone else HIdle (n + 1) else HIdle n.

(** Whether goroutines of the user call the exported methods. *)
Variable users : Prop.

(** What the select of the main loop receives from other goroutines than the hasher. *)
Definition outside_hasher (inp : tinput B) : bool :=
  match inp with InPieceHashed _ _ | InHasherTake => false | _ => true end.

Inductive hstep : hsys -> hsys -> Prop :=
| hs_turn h inp t' :
    t_closed (h_t h) = false -> outside_hasher inp = true -> internal inp = true \/ users -> input_ok (h_t h) inp ->
    turn inp (h_t h) = Ok ((), t') -> hstep h (mkHsys t' (h_store h) (h_run h) (h_chan h))
| hs_result h i ok rest t' :
    t_closed (h_t h) = false -> h_chan h = (i, ok) :: rest -> turn (InPieceHashed i ok) (h_t h) = Ok ((), t') ->
    hstep h (mkHsys t' (h_store h) (h_run h) rest)
| hs_take h n i rest t' len st' ok :
    h_run h = HIdle n -> pieceQueuedHashingC (t_data (h_t h)) = i :: rest ->
    turn InHasherTake (h_t h) = Ok ((), t') -> pieceLen (tparams_of (t_data (h_t h))) (uint32 i) = Some len ->
    HashPiece (h_store h) i len = Some (st', ok) ->
    hstep h (mkHsys t' st' (HSend n i ok) (h_chan h))
| hs_send h n i ok :
    h_run h = HSend n i ok -> lenZ (h_chan h) < numPieces (h_t h) ->
    hstep h (mkHsys (h_t h) (h_store h) (hasher_next (h_t h) n ok) (h_chan h ++ [(i, ok)]))
| hs_closed h n :
    h_run h = HIdle n -> t_closed (h_t h) = true -> hstep h (mkHsys (h_t h) (h_store h) HDone (h_chan h))
| hs_store h st' : store_step (h_store h) st' -> hstep h (mkHsys (h_t h) st' (h_run h) (h_chan h))
| hs_pieces h p p' :
    pieces_ (t_data (h_t h)) = Some p -> conn_op (tparams_of (t_data (h_t h))) p p' ->
    hstep h (mkHsys (set_data (d_pieces (Some p') (t_data (h_t h))) (h_t h)) (h_store h) (h_run h) (h_chan h))
| hs_metadata h m :
    hstep h (mkHsys (set_data (d_info (mi_Info (t_data (h_t h))) (mkUts m (correctSize (utmetadata (t_data (h_t h))))) (t_data (h_t h))) (h_t h))
      (h_store h) (h_run h) (h_chan h))
| hs_banned h ip :
    hstep h (mkHsys (set_blackList (blackList (t_dial (h_t h)) ++ [ip]) (h_t h)) (h_store h) (h_run h) (h_chan h))
| hs_dialed h addr t' :
    t_closed (h_t h) = false -> removeHalfOpen env ip6_String int_of_Inf addr (h_t h) = Ok ((), t') ->
    hstep h (mkHsys t' (h_store h) (h_run h) (h_chan h)).

(** ** The turns of the main loop *)

#[global] Instance quiet_completing : Completing (B := B) (S := S) env ip6_String int_of_Inf quiet.
Proof using.
  intros t a t' E. unfold mbind, M_bind in E. destruct (sendAnnounceToTracker env EvCompleted t) as [[u t1]| |] eqn:E1; [|done..].
  etrans; [|eapply (frames_downloadedAll env ip6_String int_of_Inf quiet); exact E].
  apply sendAnnounce_Ok in E1 as [->| ->]; [done|by apply quiet_data].
Qed.

(** A torrent whose queue is empty, until it has pieces. *)
Definition quiet_empty t t' : Prop :=
  queuedForVerification (t_data t) = ∅ /\ pieceQueuedHashingC (t_data t) = [] ->
  queuedForVerification (t_data t') = ∅ /\ pieceQueuedHashingC (t_data t') = [].

#[local] Instance empty_framing : Framing quiet_empty.
Proof. constructor; [split; [by intros t ?|intros ? ? ? H1' H2' Hx; by apply H2', H1']|..]; intros; unfold quiet_empty; cbn; try done. congruence. Qed.

#[local] Instance empty_receiving : Receiving quiet_empty.
Proof.
  constructor; intros; unfold quiet_empty; cbn; [|by intros [? _]|congruence]. intros t i [-> ->]. split; [set_solver|done].
Qed.

#[local] Instance empty_hashing i : Hashing quiet_empty i.
Proof. by intros t p ok p' cs _ _ ?. Qed.

(** ** The invariant *)

Definition held (r : hrun) : list Z := match r with HSend _ i _ => [i] | _ => [] end.

(** The pieces on their way through the hasher. *)
Definition flight h : list Z := pieceQueuedHashingC (t_data (h_t h)) ++ held (h_run h) ++ (h_chan h).*1.

(** [V]: the pieces whose hash was right. *)
Definition counted (t : torrent) (chan : list (Z * bool)) (r : hrun) (V : list Z) : Prop :=
  NoDup V /\ (forall i, i ∈ V -> (i, true) ∈ chan \/ owned t i = true) /\
  match r with HIdle n | HSend n _ _ => lenZ V = n | HDone => lenZ V = numPieces t /\ V <> [] end.

Record hcore h : Prop := mkHcore {
  hi_nodup : NoDup (flight h);
  hi_queued : forall i, i ∈ flight h <-> i ∈ queuedForVerification (t_data (h_t h));
  hi_none : pieces_ (t_data (h_t h)) = None -> flight h = [];
  hi_counted : exists V, counted (h_t h) (h_chan h) (h_run h) V;
}.

Definition hinv h : Prop := tor_ok (h_t h) /\ hcore h.

Lemma tor_open t : tor_ok t -> t_closed t = false.
Proof. apply tk_open. Qed.

(** The pieces are numbered, and what is queued waits to be hashed. *)
Lemma tor_pieces t : tor_ok t -> (pieces_ (t_data t) = None -> queuedForVerification (t_data t) = ∅) ->
  (forall i, i ∈ queuedForVerification (t_data t) ->
     exists p, pieces_ (t_data t) = Some p /\ waits (tparams_of (t_data t)) p i /\ 0 <= i < numPieces t) /\
  (forall i, owned t i = true -> 0 <= i < numPieces t /\ i ∉ queuedForVerification (t_data t)).
Proof.
  intros Ht Hn. destruct (pieces_ (t_data t)) as [p|] eqn:Hp.
  - destruct (tk_data _ Ht p Hp) as [_ [_ K2 _ K4 _ _ _]]. split.
    + intros i Hi. exists p. pose proof (K4 i Hi) as Hw. split; [done|]. split; [done|].
      destruct Hw as (pc & Hpc & _). apply (pieces_entry _ _ _ _ K2) in Hpc as (_ & _ & _ & _ & Hb). unfold numPieces. cbn in Hb. lia.
    + intros i. unfold owned. rewrite Hp. intros Ho. split; [by apply (pso_owned _ _ K2) in Ho|].
      intros (pc & _ & _ & Hno)%K4. congruence.
  - split; [|intros i; unfold owned; by rewrite Hp]. intros i. rewrite (Hn eq_refl). set_solver.
Qed.

(** ** Steps keep the invariant *)

(** A turn that leaves the torrent open leaves the pieces of the hasher alone, unless it gets
    the info dictionary. *)
Lemma turn_cases inp t t' :
  tor_ok t -> outside_hasher inp = true -> input_ok t inp -> turn inp t = Ok ((), t') -> t_closed t' = false ->
  quiet t t' \/ (haveInfo t = false /\ exists n ut,
    metadataCompleted env ip6_String int_of_Inf sha1_Sum openStorage SelectorF outboundIP n t = Ok ((), t') /\
    uts_m (utmetadata (t_data t)) !! n = Some ut /\ sha1_Sum (infoBytes ut) = Hash (mi_Info (t_data t)) /\ n <> 0).
Proof.
  intros Ht Hout Hin E Hcl. apply turn_Ok in E as [_ E]. destruct (framed inp) eqn:Hf.
  - left. eapply (frames_handle env ip6_String int_of_Inf sha1_Sum openStorage SelectorF outboundIP quiet inp Hf (fun _ => quiet_starting)). exact E.
  - destruct inp as [id m| | | | | | | | | | |]; try discriminate Hf; try discriminate Hout.
    + destruct m as [| | |n| | | |]; try discriminate Hf. destruct Hin as (_ & ut & Hut & _ & Hsha). cbn in E.
      destruct (decide (sha1_Sum (infoBytes ut) = Hash (mi_Info (t_data t)))) as [Heq|Hne].
      * right. destruct (Hsha Heq) as (Hi & Hn & _). split; [done|]. by exists n, ut.
      * left. eapply (frames_refused env ip6_String int_of_Inf sha1_Sum openStorage SelectorF outboundIP quiet); [exact Hut|exact Hne|exact E].
    + left. cbn in E. unfold mbind, M_bind, modify in E. etrans; [|eapply (frames_tryAnnounceAll env int_of_Inf quiet); exact E].
      by apply quiet_data.
    + exfalso. destruct (okay_close env t (tor_open t Ht) (wf_dht _ (tk_wf _ Ht))) as (u & t1 & E1 & Hs & _). cbn in E. rewrite E in E1. injection E1 as _ <-.
      unfold t_closed in Hcl. congruence.
Qed.

Lemma turn_quiet inp t t' :
  tor_ok t -> outside_hasher inp = true -> input_ok t inp -> turn inp t = Ok ((), t') -> t_closed t' = false ->
  quiet t t' \/ (haveInfo t = false /\ quiet_empty t t').
Proof.
  intros Ht Hout Hin E Hcl. destruct (turn_cases inp t t' Ht Hout Hin E Hcl) as [?|(Hi & n & ut & E1 & _)]; [by left|]. right. split; [done|].
  eapply (frames_metadataCompleted env ip6_String int_of_Inf sha1_Sum openStorage SelectorF outboundIP quiet_empty); [apply _|exact E1].
Qed.

Lemma turn_tor_ok inp t t' : tor_ok t -> input_ok t inp -> turn inp t = Ok ((), t') -> t_closed t' = false -> tor_ok t'.
Proof.
  intros Ht Hin E Hc. destruct (okay_turn env ip6_String int_of_Inf sha1_Sum openStorage SelectorF outboundIP inp t Ht Hin) as ([] & t2 & E2 & Hok).
  rewrite E in E2. injection E2 as <-. destruct Hok as [?|[[Hs _] _]]; [done|unfold t_closed in Hc; congruence].
Qed.

Lemma quiet_counted t t' chan r V : quiet t t' -> counted t chan r V -> counted t' chan r V.
Proof.
  intros (_ & Ho & _ & Hm & _ & _) (Hn & Hv & Hr). split_and!; [done|intros i Hi; rewrite Ho; by apply Hv|].
  destruct r; [done|done|]. unfold numPieces. by rewrite Hm.
Qed.

Lemma quiet_core h t' : hcore h -> quiet (h_t h) t' -> hcore (mkHsys t' (h_store h) (h_run h) (h_chan h)).
Proof.
  intros [H2' H3' H4' (V & HV)] Hq. pose proof Hq as ((l & Q & Vq & N & D & E) & _ & Hp & _). constructor; cbn [h_t h_store h_run h_chan].
  - unfold flight in *. cbn [h_t h_run h_chan] in *. rewrite Q, <- app_assoc. assert (Hperm : pieceQueuedHashingC (t_data (h_t h)) ++ l ++ held (h_run h) ++ (h_chan h).*1
      ≡ₚ l ++ pieceQueuedHashingC (t_data (h_t h)) ++ held (h_run h) ++ (h_chan h).*1) by (by rewrite !(assoc_L (++)), (Permutation_app_comm _ l)).
    rewrite Hperm. apply NoDup_app. split_and!; [done| |done]. intros i Hl Hi%H3'. by apply (D i Hl).
  - intros i. unfold flight in *. cbn [h_t h_run h_chan] in *. rewrite Q, Vq, <- app_assoc, elem_of_union, elem_of_list_to_set, <- H3'.
    rewrite !elem_of_app. naive_solver.
  - intros Hn. apply Hp in Hn. unfold flight in *. cbn [h_t h_run h_chan]. rewrite Q, (E Hn), app_nil_r. by apply H4'.
  - exists V. by apply (quiet_counted (h_t h)).
Qed.

Lemma empty_core h t' :
  hinv h -> haveInfo (h_t h) = false -> quiet_empty (h_t h) t' -> hcore (mkHsys t' (h_store h) (h_run h) (h_chan h)).
Proof.
  intros [Ht [H2' H3' H4' (V & HN & HV & Hr)]] Hi Hq. destruct (tk_before _ Ht Hi) as (Hp & Hobs & _). injection Hobs as _ _ Hv Hc.
  pose proof (H4' Hp) as Hf. destruct (Hq (conj Hv Hc)) as [Hv' Hc']. unfold flight in *. cbn in Hf. rewrite Hc in Hf. cbn in Hf.
  apply app_eq_nil in Hf as [Hheld Hchan].
  assert (V = []) as ->.
  { destruct V as [|i V]; [done|]. destruct (HV i ltac:(by left)) as [Hin|Ho]; [|unfold owned in Ho; by rewrite Hp in Ho].
    apply (list_elem_of_fmap_2 fst) in Hin. rewrite Hchan in Hin. by apply elem_of_nil in Hin. }
  constructor; cbn [h_t h_store h_run h_chan]; unfold flight; cbn [h_t h_run h_chan]; rewrite ?Hc', ?Hheld, ?Hchan, ?Hv'; cbn [app].
  - by apply NoDup_nil_2.
  - intros i. set_solver.
  - done.
  - exists []. split_and!; [done|by intros i ?%elem_of_nil|]. destruct (h_run h); [done|done|by destruct Hr].
Qed.

Lemma result_core h i ok rest t' :
  hinv h -> h_chan h = (i, ok) :: rest -> turn (InPieceHashed i ok) (h_t h) = Ok ((), t') ->
  input_ok (h_t h) (InPieceHashed i ok) /\ hcore (mkHsys t' (h_store h) (h_run h) rest) /\
  (forall j, owned t' j = (ok && (j =? i)) || owned (h_t h) j) /\
  mi_Info (t_data t') = mi_Info (t_data (h_t h)) /\ haveInfo t' = haveInfo (h_t h).
Proof.
  intros [Ht [H2' H3' H4' (V & HN & HV & Hr)]] Hc E. unfold flight in *. rewrite Hc in *. cbn [fmap list_fmap fst] in *.
  assert (Hperm : forall q hd, q ++ hd ++ i :: rest.*1 ≡ₚ i :: q ++ hd ++ rest.*1) by (intros; by rewrite !(assoc_L (++)), Permutation_middle).
  rewrite Hperm in H2'. apply NoDup_cons in H2' as [Hni Hnd].
  assert (Hi : i ∈ queuedForVerification (t_data (h_t h))) by (apply H3'; rewrite Hperm; by left).
  destruct (tor_pieces _ Ht) as [Hpc _].
  { intros Hn. apply set_eq. intros j. rewrite <- H3', (H4' Hn). set_solver. }
  destruct (Hpc i Hi) as (p & Hp & Hw & _). destruct (tk_data _ Ht p Hp) as [_ Hd].
  destruct (waits_pieces _ _ _ (do_pieces _ _ _ Hd) Hw) as (pc & Hpi & Hcomp & Hver).
  destruct (pieceHashed_spec _ _ _ ok _ (do_pieces _ _ _ Hd) Hpi Hcomp Hver) as (p' & Ep & _ & _ & _ & Hown & _).
  apply turn_Ok in E as [_ E]. cbn [handle] in E.
  destruct (onPieceHashed_after env ip6_String int_of_Inf outboundIP quiet i ok _ _ _ E) as (q & q' & cs & Hq & Eq & Hquiet).
  rewrite Hp in Hq. injection Hq as <-. rewrite Ep in Eq. injection Eq as <- <-.
  set (mid := set_data (d_pieces (Some p') (t_data (unqueued i (h_t h)))) (unqueued i (h_t h))) in *.
  assert (Hmid : forall j, owned mid j = (ok && (j =? i)) || owned (h_t h) j) by (intros j; unfold owned; cbn; by rewrite Hown, Hp).
  split_and!.
  - split_and!; [by rewrite Hp|done|]. intros Hin. apply Hni. set_solver.
  - apply (quiet_core (mkHsys mid (h_store h) (h_run h) rest)); [|exact Hquiet]. constructor; unfold flight; cbn [h_t h_store h_run h_chan].
    + exact Hnd.
    + intros j. cbn [mid t_data set_data queuedForVerification d_pieces unqueued d_queue pieceQueuedHashingC].
      specialize (H3' j). rewrite Hperm, elem_of_cons in H3'. rewrite elem_of_difference, not_elem_of_singleton, <- H3'. split.
      * intros Hj. split; [by right|]. intros ->. done.
      * intros [[->|Hj] Hne]; done.
    + done.
    + exists V. split_and!; [done| |].
      * intros j Hj. rewrite Hmid. destruct (HV j Hj) as [[Hx|Hx]%elem_of_cons|Ho]; [|by left|].
        -- injection Hx as -> <-. right. by rewrite Z.eqb_refl.
        -- right. rewrite Ho. apply orb_true_r.
      * exact Hr.
  - intros j. destruct Hquiet as (_ & Ho & _). by rewrite Ho, Hmid.
  - apply Hquiet.
  - apply Hquiet.
Qed.

Lemma take_core h n i rest t' st' ok :
  hinv h -> h_run h = HIdle n -> pieceQueuedHashingC (t_data (h_t h)) = i :: rest -> turn InHasherTake (h_t h) = Ok ((), t') ->
  hcore (mkHsys t' st' (HSend n i ok) (h_chan h)) /\ forall j, owned t' j = owned (h_t h) j.
Proof.
  intros [Ht [H2' H3' H4' (V & HN & HV & Hr)]] Hrun Hq E. apply turn_Ok in E as [_ E]. injection E as <-.
  unfold flight in *. rewrite Hrun, Hq in *. cbn [held app] in *.
  assert (Hperm : i :: rest ++ (h_chan h).*1 ≡ₚ rest ++ i :: (h_chan h).*1) by (by rewrite Permutation_middle).
  split; [|done]. constructor; unfold flight; cbn [h_t h_store h_run h_chan held app t_data set_data pieceQueuedHashingC d_queue queuedForVerification pieces_];
    rewrite ?Hq; cbn [tail].
  - by rewrite <- Hperm.
  - intros j. by rewrite <- Hperm, H3'.
  - intros Hn. by apply H4' in Hn.
  - by exists V.
Qed.

Lemma send_core h n i ok :
  hinv h -> h_run h = HSend n i ok ->
  hcore (mkHsys (h_t h) (h_store h) (hasher_next (h_t h) n ok) (h_chan h ++ [(i, ok)])).
Proof.
  intros [Ht [H2' H3' H4' (V & HN & HV & Hr)]] Hrun. unfold flight in *. rewrite Hrun in *. cbn [held] in *.
  assert (Hheld : held (hasher_next (h_t h) n ok) = []) by (unfold hasher_next; by repeat case_match).
  assert (Hperm : pieceQueuedHashingC (t_data (h_t h)) ++ [i] ++ (h_chan h).*1 ≡ₚ pieceQueuedHashingC (t_data (h_t h)) ++ (h_chan h ++ [(i, ok)]).*1)
    by (by rewrite fmap_app, (Permutation_app_comm [i])).
  constructor; unfold flight; cbn [h_t h_store h_run h_chan]; rewrite ?Hheld; cbn [app].
  - by rewrite <- Hperm.
  - intros j. by rewrite <- Hperm, H3'.
  - intros Hn. apply H4' in Hn. by destruct (pieceQueuedHashingC _).
  - assert (Hold : forall j, j ∈ V -> (j, true) ∈ h_chan h ++ [(i, ok)] \/ owned (h_t h) j = true).
    { intros j Hj. destruct (HV j Hj) as [Hx|]; [left; apply elem_of_app; by left|by right]. }
    unfold hasher_next. destruct ok; [|by exists V]. exists (i :: V).
    assert (Hni : i ∉ V).
    { intros Hi. destruct (tor_pieces _ Ht) as [_ Ho].
      { intros Hn. apply set_eq. intros j. rewrite <- H3', (H4' Hn). set_solver. }
      destruct (HV i Hi) as [Hx|Hx].
      - apply (list_elem_of_fmap_2 fst) in Hx. cbn in Hx. apply NoDup_app in H2' as (_ & _ & H2'). cbn in H2'. by apply NoDup_cons in H2' as [].
      - destruct (Ho i Hx) as [_ Hnq]. apply Hnq, H3'. set_solver. }
    cbn in Hr. split_and!.
    + by constructor.
    + intros j [->|Hj]%elem_of_cons; [left; set_solver|by apply Hold].
    + destruct (Z.eqb_spec (n + 1) (numPieces (h_t h))); cbn [length]; [split; [lia|done]|lia].
Qed.

(** What connections and dialers change. *)
Lemma quiet_pieces t p p' :
  tor_ok t -> pieces_ (t_data t) = Some p -> conn_op (tparams_of (t_data t)) p p' -> quiet t (set_data (d_pieces (Some p') (t_data t)) t).
Proof.
  intros Ht Hp Hop. destruct (tk_data _ Ht p Hp) as [_ Hd].
  destruct (conn_op_keeps _ _ _ _ (do_pieces _ _ _ Hd) (do_contrib _ _ _ Hd) Hop) as (_ & _ & _ & Ho & _).
  apply quiet_data; try done. cbn. rewrite Hp. cbn. by rewrite Ho.
Qed.

Lemma quiet_dialed t addr t' : removeHalfOpen env ip6_String int_of_Inf addr t = Ok ((), t') -> quiet t t'.
Proof. intros E. eapply (frames_removeHalfOpen env ip6_String int_of_Inf quiet). exact E. Qed.

Lemma hstep_inv h h' : hinv h -> hstep h h' -> t_closed (h_t h') = false -> hinv h'.
Proof.
  intros Hh Hst. pose proof Hh as [Ht Hc]. 
  assert (Hbg : forall t', tstep env ip6_String int_of_Inf sha1_Sum openStorage SelectorF outboundIP (h_t h) t' -> quiet (h_t h) t' ->
    hinv (mkHsys t' (h_store h) (h_run h) (h_chan h))).
  { intros t' Hs Hq. split; [by eapply tor_ok_step|by apply quiet_core]. }
  destruct Hst as [h inp t' _ Hout _ Hin E|h i ok rest t' _ Hch E|h n i rest t' len st' ok Hrun Hq E _ _|h n i ok Hrun _|h n _ Hcl
    |h st' _|h p p' Hp Hop|h m|h ip|h addr t' _ E]; cbn [h_t] in *; intros Hopen.
  - assert (Ht' : tor_ok t') by by eapply turn_tor_ok. split; [done|].
    destruct (turn_quiet _ _ _ Ht Hout Hin E Hopen) as [Hq|[Hi Hq]]; [by apply quiet_core|by apply empty_core].
  - destruct (result_core _ _ _ _ _ Hh Hch E) as (Hin & Hcore & _). split; [by eapply turn_tor_ok|done].
  - split; [by eapply (turn_tor_ok InHasherTake)|]. by eapply take_core.
  - split; [done|by apply send_core].
  - exfalso. rewrite (tor_open _ Ht) in Hcl. done.
  - split; [done|]. by destruct Hc.
  - apply Hbg; [by apply (ts_pieces _ _ _ _ _ _ _ _ p)|by apply (quiet_pieces _ p)].
  - apply Hbg; [apply ts_metadata|by apply quiet_data].
  - apply Hbg; [apply ts_banned|by apply quiet_data].
  - apply Hbg; [by apply (ts_dialed _ _ _ _ _ _ _ _ addr)|by eapply quiet_dialed].
Qed.

Lemma hstep_open h h' : hstep h h' -> t_closed (h_t h') = false -> t_closed (h_t h) = false.
Proof.
  destruct 1 as [| |h n i rest t' len st' ok _ _ E _ _| | | | | | |]; cbn [h_t]; try done.
  intros _. by apply turn_Ok in E as [? _].
Qed.

Lemma hcore_none h : hcore h -> pieces_ (t_data (h_t h)) = None -> queuedForVerification (t_data (h_t h)) = ∅.
Proof. intros Hc Hn. apply set_eq. intros j. rewrite <- (hi_queued h Hc), (hi_none h Hc Hn). set_solver. Qed.

Lemma flight_range h : hinv h -> forall i, i ∈ flight h -> 0 <= i < numPieces (h_t h).
Proof.
  intros [Ht Hc] i Hi%(hi_queued h Hc). destruct (tor_pieces _ Ht (hcore_none h Hc)) as [Hq _].
  by destruct (Hq i Hi) as (_ & _ & _ & ?).
Qed.

Lemma flight_bound h : hinv h -> lenZ (flight h) <= Z.max 0 (numPieces (h_t h)).
Proof.
  intros Hh. assert (Hs : flight h ⊆+ seqZ 0 (numPieces (h_t h))).
  { apply NoDup_submseteq; [apply Hh|]. intros i Hi%(flight_range h Hh). by apply elem_of_seqZ. }
  apply submseteq_length in Hs. rewrite length_seqZ in Hs. lia.
Qed.

(** The main loop takes a result. *)
Lemma result_returns h i ok rest :
  hinv h -> h_chan h = (i, ok) :: rest ->
  input_ok (h_t h) (InPieceHashed i ok) /\ exists t', turn (InPieceHashed i ok) (h_t h) = Ok ((), t') /\ t_closed t' = false /\
    hinv (mkHsys t' (h_store h) (h_run h) rest) /\ (forall j, owned t' j = (ok && (j =? i)) || owned (h_t h) j).
Proof.
  intros Hh Hch. pose proof Hh as [Ht Hc].
  assert (Hin : input_ok (h_t h) (InPieceHashed i ok)).
  { assert (Hi : i ∈ flight h) by (unfold flight; rewrite Hch; set_solver).
    assert (Hq : i ∈ queuedForVerification (t_data (h_t h))) by by apply (hi_queued h Hc). split_and!; [|done|].
    - destruct (tor_pieces _ Ht (hcore_none h Hc)) as [Hp _]. destruct (Hp i Hq) as (p & -> & _). done.
    - pose proof (hi_nodup h Hc) as Hn. unfold flight in Hn. rewrite Hch in Hn. apply NoDup_app in Hn as (_ & Hn & _).
      intros Hx%Hn. apply Hx. cbn. set_solver. }
  split; [done|]. destruct (okay_turn env ip6_String int_of_Inf sha1_Sum openStorage SelectorF outboundIP _ _ Ht Hin) as ([] & t' & E & Hok).
  destruct (result_core h i ok rest t' Hh Hch E) as (_ & Hcore & Ho & _). exists t'.
  assert (Hcl : t_closed t' = false).
  { apply turn_Ok in E as [_ E]. destruct (onPieceHashed_after env ip6_String int_of_Inf outboundIP quiet i ok _ _ _ E)
      as (q & q' & cs & _ & _ & (_ & _ & _ & _ & _ & ->)). exact (tor_open _ Ht). }
  split_and!; [done|done| |done]. split; [by eapply turn_tor_ok|done].
Qed.

Lemma flight_free h i : hinv h -> i ∈ flight h -> owned (h_t h) i = false.
Proof.
  intros [Ht Hc] Hi%(hi_queued h Hc). destruct (tor_pieces _ Ht (hcore_none h Hc)) as [_ Ho].
  destruct (owned (h_t h) i) eqn:E; [|done]. by destruct (Ho i E).
Qed.

(** The main loop takes all results that are on the way. *)
Lemma results_taken h :
  hinv h -> exists h', rtc hstep h h' /\ hinv h' /\ h_chan h' = [] /\ h_run h' = h_run h /\ h_store h' = h_store h /\
    forall j, owned (h_t h') j = bool_decide ((j, true) ∈ h_chan h) || owned (h_t h) j.
Proof.
  remember (h_chan h) as chan eqn:Hch. revert h Hch. induction chan as [|[i ok] rest IH]; intros h Hch Hh.
  - exists h. by split_and!.
  - destruct (result_returns h i ok rest Hh (eq_sym Hch)) as (_ & t' & E & _ & Hh' & Ho).
    destruct (IH (mkHsys t' (h_store h) (h_run h) rest) eq_refl Hh') as (h' & Hr & Hi' & Hc' & Hrun & Hst & Ho').
    exists h'. split_and!; try done.
    + eapply rtc_l; [|exact Hr]. apply (hs_result h i ok); [apply (tor_open _), Hh|done|done].
    + intros j. rewrite Ho'. cbn [h_t]. rewrite Ho. destruct (owned (h_t h) j); [by rewrite !orb_true_r|]. rewrite !orb_false_r.
      destruct (bool_decide_reflect ((j, true) ∈ rest)) as [Hin|Hn]; cbn [orb].
      * symmetry. apply bool_decide_eq_true. by right.
      * destruct ok; cbn [andb].
        -- destruct (Z.eqb_spec j i) as [->|Hne]; symmetry; [apply bool_decide_eq_true; by left|apply bool_decide_eq_false].
           intros [[= ?]|?]%elem_of_cons; [done|done].
        -- symmetry. apply bool_decide_eq_false. by intros [[= ?]|?]%elem_of_cons.
Qed.

(** The hasher takes the next piece, and its result gets to the main loop. *)
Lemma piece_delivered h n i rest len st' ok :
  hinv h -> h_run h = HIdle n -> pieceQueuedHashingC (t_data (h_t h)) = i :: rest ->
  pieceLen (tparams_of (t_data (h_t h))) (uint32 i) = Some len -> HashPiece (h_store h) i len = Some (st', ok) ->
  exists h', rtc hstep h h' /\ hinv h' /\ h_chan h' = [] /\ h_store h' = st' /\ held (h_run h') = [] /\
    owned (h_t h') i = ok /\ (forall j, owned (h_t h) j = true -> owned (h_t h') j = true).
Proof.
  intros Hh Hrun Hq Hlen Hst. pose proof Hh as [Ht Hc].
  set (t1 := set_data (d_queue (queuedForVerification (t_data (h_t h))) rest (t_data (h_t h))) (h_t h)).
  assert (E1 : turn InHasherTake (h_t h) = Ok ((), t1)).
  { rewrite turn_open by apply Ht. unfold t1. cbn [handle]. unfold mod_data, modify. by rewrite Hq. }
  destruct (take_core h n i rest t1 st' ok Hh Hrun Hq E1) as [Hc1 Ho1]. set (h1 := mkHsys t1 st' (HSend n i ok) (h_chan h)).
  assert (Hh1 : hinv h1) by (split; [exact (turn_tor_ok InHasherTake (h_t h) t1 Ht I E1 (tor_open _ Ht))|done]).
  assert (S1 : hstep h h1) by (by apply (hs_take h n i rest t1 len)).
  set (h2 := mkHsys t1 st' (hasher_next t1 n ok) (h_chan h ++ [(i, ok)])).
  assert (S2 : hstep h1 h2).
  { apply (hs_send h1 n i ok); [done|]. pose proof (flight_bound h1 Hh1) as Hb. unfold flight in Hb. cbn [h1 h_t h_run h_chan held] in *.
    rewrite !length_app, length_fmap in Hb. cbn [length] in Hb. lia. }
  assert (Hh2 : hinv h2) by (split; [apply Hh1|exact (send_core h1 n i ok Hh1 eq_refl)]).
  destruct (results_taken h2 Hh2) as (h' & Hr & Hh' & Hch & Hrun' & Hst' & Ho'). exists h'.
  split_and!; [by eapply rtc_l; [exact S1|]; eapply rtc_l; [exact S2|]|done|done|done| | |].
  - rewrite Hrun'. cbn. unfold hasher_next. by repeat case_match.
  - rewrite Ho'. cbn [h2 h_t h_chan]. rewrite Ho1.
    assert (Hi : i ∈ flight h) by (unfold flight; rewrite Hq; set_solver). rewrite (flight_free h i Hh Hi), orb_false_r.
    destruct ok; [apply bool_decide_eq_true; set_solver|apply bool_decide_eq_false].
    intros [Hx|Hx]%elem_of_app; [|by apply list_elem_of_singleton in Hx].
    apply (list_elem_of_fmap_2 fst) in Hx. pose proof (hi_nodup h Hc) as Hn. unfold flight in Hn. rewrite Hq in Hn. cbn in Hn, Hx.
    apply NoDup_cons in Hn as [Hn _]. apply Hn. set_solver.
  - intros j Hj. rewrite Ho'. cbn [h2 h_t]. rewrite Ho1, Hj. apply orb_true_r.
Qed.

Variable cfg : config.
Variable info : InfoDict.
Variable ann : bytes.
Variable ib : option bytes.
Hypothesis Hsetup : setup_ok cfg info ib.

(** From a started torrent and any storage. *)
Definition h_reachable h : Prop :=
  exists t0 st0, start env ip6_String int_of_Inf openStorage SelectorF outboundIP (newTorrent cfg info ann ib) = Ok ((), t0) /\
    rtc hstep (mkHsys t0 st0 (HIdle 0) []) h.

Lemma hinv_start t0 st0 :
  start env ip6_String int_of_Inf openStorage SelectorF outboundIP (newTorrent cfg info ann ib) = Ok ((), t0) ->
  hinv (mkHsys t0 st0 (HIdle 0) []).
Proof.
  intros E. destruct (okay_started env ip6_String int_of_Inf sha1_Sum openStorage SelectorF outboundIP cfg info ann ib Hsetup) as ([] & t1 & E1 & Ht).
  rewrite E in E1. injection E1 as <-. split; [done|].
  assert (Hq : quiet_empty (newTorrent cfg info ann ib) t0).
  { assert (Hf : frames quiet_empty (start env ip6_String int_of_Inf openStorage SelectorF outboundIP : M B S unit)); [|by eapply Hf].
    unfold start. apply (frames_bind quiet_empty); [apply (frames_gets quiet_empty)|]. intros b.
    apply (frames_bind quiet_empty); [|intros _; apply (frames_tryAnnounceAll env int_of_Inf quiet_empty)].
    apply (frames_when quiet_empty). apply (frames_gotInfo env ip6_String int_of_Inf openStorage SelectorF outboundIP quiet_empty). apply _. }
  destruct (Hq (conj eq_refl eq_refl)) as [Hv Hc].
  constructor; unfold flight; cbn [h_t h_run h_chan held app fmap list_fmap]; rewrite ?Hc, ?Hv; cbn [app].
  - by apply NoDup_nil_2.
  - intros i. set_solver.
  - done.
  - exists []. split_and!; [by apply NoDup_nil_2|by intros i ?%elem_of_nil|done].
Qed.

Lemma h_reachable_inv h : h_reachable h -> t_closed (h_t h) = false -> hinv h.
Proof.
  intros (t0 & st0 & E & Hr). revert Hr. apply (rtc_ind_r (fun h => t_closed (h_t h) = false -> hinv h)).
  - intros _. by apply hinv_start.
  - intros x y _ Hxy IH Hy. eapply hstep_inv; [|exact Hxy|exact Hy]. apply IH. by eapply hstep_open.
Qed.

(** ** Theorems *)

(** C21: The protocol of the hasher: while the torrent is open, the pieces that wait in the queue,
    that are being hashed and whose results are on the way are different and exactly the queued
    ones; the channel of results always has room; every result that arrives is one that the main
    loop handles without panicking; and when the hasher has returned every piece is owned or its
    result, that it is correct, is on the way. *)
Theorem hasher_protocol h :
  h_reachable h -> t_closed (h_t h) = false ->
  NoDup (flight h) /\ (forall i, i ∈ flight h <-> i ∈ queuedForVerification (t_data (h_t h))) /\
  (forall n i ok, h_run h = HSend n i ok -> lenZ (h_chan h) < numPieces (h_t h)) /\
  (forall i ok rest, h_chan h = (i, ok) :: rest ->
     input_ok (h_t h) (InPieceHashed i ok) /\
     exists t', turn (InPieceHashed i ok) (h_t h) = Ok ((), t') /\ t_closed t' = false) /\
  (h_run h = HDone -> forall i, 0 <= i < numPieces (h_t h) -> owned (h_t h) i = true \/ (i, true) ∈ h_chan h).
Proof.
  intros Hr Hopen. pose proof (h_reachable_inv h Hr Hopen) as Hh. pose proof Hh as [Ht Hc]. split_and!; [apply Hc|apply Hc|..].
  - intros n i ok Hrun. pose proof (flight_bound h Hh) as Hb. unfold flight in Hb. rewrite Hrun in Hb.
    rewrite !length_app, length_fmap in Hb. cbn [held length] in Hb. lia.
  - intros i ok rest Hch. destruct (result_returns h i ok rest Hh Hch) as (Hin & t' & E & Hcl & _). by eauto.
  - intros Hd i Hi. destruct (hi_counted _ Hc) as (V & HN & HV & Hlen). rewrite Hd in Hlen. destruct Hlen as [Hlen _].
    cut (i ∈ V); [intros [?|?]%HV; [by right|by left]|].
    assert (Hsub : V ⊆+ seqZ 0 (numPieces (h_t h))).
    { apply NoDup_submseteq; [done|]. intros j Hj. apply elem_of_seqZ. destruct (HV j Hj) as [Hx|Hx].
      - apply (list_elem_of_fmap_2 fst) in Hx. apply (flight_range h Hh). unfold flight. set_solver.
      - destruct (tor_pieces _ Ht (hcore_none h Hc)) as [_ Ho]. apply (Ho j Hx). }
    assert (Hp : V ≡ₚ seqZ 0 (numPieces (h_t h))).
    { apply submseteq_length_Permutation; [done|]. rewrite length_seqZ. lia. }
    rewrite Hp. apply elem_of_seqZ. lia.
Qed.

End hasher.

(** ** The hasher over files *)

Section in_files.
Context {B : Type} `{BitmapLaws B} {S : Type} `{PieceSelector S B} `{SortSliceLaws (Piece B)} `{SortSliceLaws Z}.
Variable env : Env.
Context `{EnvLaws env}.
Variable ip6_String : bytes -> bytes.
Variable int_of_Inf : Z.
Variable sha1_Sum : bytes -> bytes.
Variable openStorage : InfoDict -> list Z -> bool.
Variable SelectorF : S.
Variable outboundIP : bytes.
Variable filepath_Join : list bytes -> bytes.
Variable io : fileio.
Variable cfg : config.
Variable info : InfoDict.
Variable ann : bytes.
Variable ib : option bytes.

(** Connections write blocks. *)
Definition file_step (s s' : FileStorage) : Prop :=
  exists p off n err, WriteBlock filepath_Join io s p off = Some (s', n, err).

Abbreviation fstep := (hstep env ip6_String int_of_Inf sha1_Sum openStorage SelectorF outboundIP (Storage.HashPiece filepath_Join sha1_Sum) file_step True).
Abbreviation freachable := (h_reachable env ip6_String int_of_Inf sha1_Sum openStorage SelectorF outboundIP
  (Storage.HashPiece filepath_Join sha1_Sum) file_step True cfg info ann ib).

(** C22: From a written piece to an owned one: when the next piece of the queue has all its blocks
    written in the files, the hasher and the main loop can go on until it is owned exactly if the
    SHA-1 of its bytes in the files is the one of the info dictionary; the storage has marked it
    verified exactly then, and pieces that were owned stay owned. *)
Theorem written_piece_owned (h : hsys B S FileStorage) n i rest len hash piece :
  setup_ok cfg info ib -> freachable h -> t_closed (h_t h) = false ->
  h_run h = HIdle n -> pieceQueuedHashingC (t_data (h_t h)) = i :: rest -> pieceLen (tparams_of (t_data (h_t h))) (uint32 i) = Some len ->
  let st := h_store h in
  files_ok filepath_Join io st (FilesInfo (st_info st)) -> 0 <= pieceOff st i -> 0 <= len -> available filepath_Join st (pieceOff st i) len ->
  PieceHash (st_info st) i = Some hash -> at_index (st_pieces st) i = Some piece ->
  sp_verified piece = false -> readyForVerification piece = true ->
  let ok := bool_decide (sha1_Sum (region filepath_Join st (pieceOff st i) len) = hash) in
  exists h' piece', rtc fstep h h' /\ t_closed (h_t h') = false /\ h_chan h' = [] /\ owned (h_t h') i = ok /\
    at_index (st_pieces (h_store h')) i = Some piece' /\ sp_verified piece' = ok /\
    (forall j, owned (h_t h) j = true -> owned (h_t h') j = true).
Proof.
  intros Hs Hr Hopen Hrun Hq Hlen st Hok Hoff Hl Hav Hh Hp Hv Hready ok.
  pose proof (h_reachable_inv env ip6_String int_of_Inf sha1_Sum openStorage SelectorF outboundIP _ _ _ cfg info ann ib Hs h Hr Hopen) as Hi.
  assert (E : Storage.HashPiece filepath_Join sha1_Sum st i len =
    Some (with_pieces st (<[Z.to_nat i := mkSpiece (sp_blocks piece) ∅ ok]> (st_pieces st)), ok)).
  { unfold Storage.HashPiece. rewrite Hp. cbn [mbind option_bind]. rewrite Hv, Hready. cbn [negb].
    rewrite (hashPiece_correct filepath_Join sha1_Sum io st i len hash piece) by done. rewrite Hv. unfold ok. by case_bool_decide. }
  destruct (piece_delivered env ip6_String int_of_Inf sha1_Sum openStorage SelectorF outboundIP (Storage.HashPiece filepath_Join sha1_Sum) file_step True
    h n i rest len _ ok Hi Hrun Hq Hlen E) as (h' & Hsteps & Hi' & Hc & Hst & _ & Ho & Hold).
  exists h', (mkSpiece (sp_blocks piece) ∅ ok). split_and!; try done.
  - exact (tor_open _ (proj1 Hi')).
  - rewrite Hst. cbn [with_pieces st_pieces]. rewrite (at_index_set_index (st_pieces st) _ i i (mkSpiece (sp_blocks piece) ∅ ok)), Z.eqb_refl; [done|].
    by eapply set_index_Some, at_index_bound.
Qed.

End in_files.
