(* ===== verification/Download.v ===== *)
(** * From the wire to the files: what a torrent owns is what it was asked for

    The torrent, its hasher and its files together: the torrent opens its storage when it has the
    info dictionary, connections write blocks, the hasher hashes pieces and the main loop takes the
    results. *)

From S2P Require Import Prelude Strconv Bitfield GoValue BenDecode BenEncode Wire Metainfo Bitmap Piece Pieces Storage StorageSafe.
From S2P Require Import Metadata ConnInfo Swarm SwarmInv Torrent TorrentInv TorrentSafe Frames Hasher.

Section download.
Context {B : Type} `{BitmapLaws B} {S : Type} `{PieceSelector S B} `{SortSliceLaws (Piece B)} `{SortSliceLaws Z}.
Variable env : Env.
Context `{EnvLaws env}.
Variable ip6_String : bytes -> bytes.
Variable int_of_Inf : Z.
Variable sha1_Sum : bytes -> bytes.
Variable SelectorF : S.
Variable outboundIP : bytes.
Variable filepath_Join : list bytes -> bytes.
Variable io : fileio.
(** BaseDir, and the files when the torrent opens its storage. *)
Variable dir : bytes.
Variable fs0 : fsys.
Variable users : Prop.

Abbreviation torrent := (torrent B S).
Abbreviation hsys := (hsys B S FileStorage).
Implicit Types (t : torrent) (h : hsys) (i n : Z) (s : FileStorage).

(** ** The system *)

(** config.OpenStorage for files. *)
Definition openFiles (info : InfoDict) (blocks : list Z) : bool :=
  match OpenFileStorage filepath_Join sha1_Sum info dir blocks fs0 with Some (_, seed) => seed | None => false end.

(** A connection writes a block of a piece. *)
Definition conn_write s s' : Prop :=
  exists p i o len n err, 0 <= i < NumPieces (st_info s) /\ PieceLength (st_info s) i = Some len /\ p <> [] /\ 0 <= o /\ o + lenZ p <= len /\
    WriteBlock filepath_Join io s p (pieceOff s i + o) = Some (s', n, err).

Abbreviation gotInfo := (gotInfo (B := B) (S := S) env ip6_String int_of_Inf openFiles SelectorF outboundIP).
Abbreviation start := (start (B := B) (S := S) env ip6_String int_of_Inf openFiles SelectorF outboundIP).
Abbreviation turn := (mainLoop_turn (B := B) (S := S) env ip6_String int_of_Inf sha1_Sum openFiles SelectorF outboundIP).
Abbreviation hstep := (hstep (B := B) (S := S) env ip6_String int_of_Inf sha1_Sum openFiles SelectorF outboundIP
  (Storage.HashPiece filepath_Join sha1_Sum) conn_write users).
Abbreviation metadataCompleted := (metadataCompleted (B := B) (S := S) env ip6_String int_of_Inf sha1_Sum openFiles SelectorF outboundIP).

(** The storage that the torrent has opened. *)
Definition opened t s : Prop :=
  exists p seed, newPieces (B := B) (info_params (mi_Info (t_data t))) SelectorF = Some p /\
    OpenFileStorage filepath_Join sha1_Sum (mi_Info (t_data t)) dir (pieces_blocks p) fs0 = Some (s, seed).

Definition with_store h s : hsys := mkHsys (h_t h) s (h_run h) (h_chan h).

(** The turn with the info dictionary opens the storage. *)
Inductive dstep h : hsys -> Prop :=
| ds_step h' : hstep h h' -> haveInfo (h_t h') = haveInfo (h_t h) -> dstep h h'
| ds_open h' s : hstep h h' -> haveInfo (h_t h) = false -> haveInfo (h_t h') = true -> opened (h_t h') s -> dstep h (with_store h' s).

Variable cfg : config.
Variable info : InfoDict.
Variable ann : bytes.
Variable ib : option bytes.
Hypothesis Hsetup : setup_ok cfg info ib.

Definition dreachable h : Prop :=
  exists t0 s0, start (newTorrent cfg info ann ib) = Ok ((), t0) /\ (haveInfo t0 = true -> opened t0 s0) /\
    rtc dstep (mkHsys t0 s0 (HIdle 0) []) h.

(** ** The info dictionary *)

(** The dictionary is the one of the torrent file, or was decoded from bytes with the info hash. *)
Definition dictionary (info' : InfoDict) : Prop :=
  match ib with
  | Some _ => info' = info
  | None => exists b v, sha1_Sum b = Hash info /\ BenDecode.Decode b InfoDict_type (Info_val info) = Ok (v, None) /\ Info_of v = Some info'
  end.

Definition dict_inv t : Prop :=
  if haveInfo t then dictionary (mi_Info (t_data t)) else ib = None /\ mi_Info (t_data t) = info.

Lemma quiet_dict t t' : quiet t t' -> dict_inv t -> dict_inv t'.
Proof using. intros (_ & _ & _ & Hm & Hi & _). unfold dict_inv. by rewrite Hm, Hi. Qed.

(** What the start of the download leaves alone. *)
Definition same_dict t t' : Prop := mi_Info (t_data t') = mi_Info (t_data t) /\ haveInfo t' = haveInfo t.

#[local] Instance same_dict_framing : Framing same_dict.
Proof using.
  constructor; [split; [by intros t|intros t1 t2 t3 [] []; split; congruence]|..]; try by (intros; split).
  intros t d _ _ _ Hm _ Hc _. split; [done|]. unfold haveInfo. cbn. by rewrite Hc.
Qed.
#[local] Instance same_dict_unqueueing : Unqueueing same_dict.
Proof using. by intros t i. Qed.
#[local] Instance same_dict_hashing i : Hashing same_dict i.
Proof using. by intros t p ok p' cs _ _. Qed.

Lemma gotInfo_result t t' :
  gotInfo t = Ok ((), t') -> exists ut p, gotInfo_ut (t_data t) = Some ut /\
    newPieces (info_params (mi_Info (t_data t))) SelectorF = Some p /\
    mi_Info (t_data t') = mi_Info (t_data t) /\ haveInfo t' = negb (correctSize ut =? 0) /\
    (openFiles (mi_Info (t_data t)) (pieces_blocks p) = false -> forall i, owned t' i = false).
Proof.
  unfold Torrent.gotInfo. unfold mbind at 1, M_bind, gets. unfold mbind at 1, M_bind.
  destruct (gotInfo_ut (t_data t)) as [ut|]; [|done]. cbn [lift_option mret M_ret].
  do 3 (unfold mbind at 1, M_bind; unfold mod_data at 1, modify). unfold mbind at 1, M_bind. unfold mbind at 1, M_bind.
  match goal with |- context [lift_option ?x] => change x with (newPieces (B := B) (info_params (mi_Info (t_data t))) SelectorF) end.
  destruct (newPieces _ SelectorF) as [p|] eqn:Ep; [|done]. cbn [lift_option mret M_ret].
  unfold mbind at 1, M_bind. unfold mod_data at 1, modify. unfold mbind at 1, M_bind.
  match goal with |- context [broadcastToConns _ _ _ _ ?x] => set (t0 := x) end. intros E.
  destruct (broadcastToConns _ _ _ CHaveInfo t0) as [[[] t1]| |] eqn:E1; [|done..].
  unfold mbind at 1, M_bind in E. match type of E with match ?m with _ => _ end = _ => destruct m as [[[] t2]| |] eqn:E2; [|done..] end.
  unfold mbind, M_bind in E. destruct (InfoC_closed (t_data t2)); [done|]. injection E as <-.
  exists ut, p. match type of E2 with context [openFiles ?x _] => change x with (mi_Info (t_data t)) in E2 end.
  pose proof (frames_broadcast env ip6_String int_of_Inf same_dict CHaveInfo _ _ _ E1) as [M1 I1].
  pose proof (frames_broadcast env ip6_String int_of_Inf quiet CHaveInfo _ _ _ E1) as (_ & O1 & _).
  assert (Hd : same_dict t1 t2).
  { revert E2. apply (frames_when same_dict). apply (frames_bind same_dict); [|intros _; apply (frames_downloadedAll env ip6_String int_of_Inf same_dict)].
    apply (frames_for_each same_dict). intros i. apply (frames_complete_piece env ip6_String int_of_Inf outboundIP same_dict). apply _. }
  destruct Hd as [M2 I2]. split_and!; [done|done|change (mi_Info (t_data t2) = mi_Info (t_data t0)); congruence|change (haveInfo t2 = haveInfo t0); congruence|].
  intros Ho. rewrite Ho in E2. injection E2 as <-. intros i. change (owned t1 i = false). rewrite O1.
  unfold newPieces in Ep. destruct (mapM _ _); [|done]. injection Ep as <-. apply bm_Get_empty.
Qed.

(** The storage that [gotInfo] opens. *)
Definition opens t : Prop :=
  forall i, owned t i = true -> exists p, newPieces (B := B) (info_params (mi_Info (t_data t))) SelectorF = Some p /\
    openFiles (mi_Info (t_data t)) (pieces_blocks p) = true.

Lemma gotInfo_opens t t' : gotInfo t = Ok ((), t') -> opens t'.
Proof.
  intros (ut & p & _ & Hp & Hm & _ & Ho)%gotInfo_result i Hi. rewrite Hm. exists p. split; [done|].
  destruct (openFiles _ _); [done|]. by rewrite Ho in Hi.
Qed.

Lemma quiet_opens t t' : quiet t t' -> opens t -> opens t'.
Proof using. intros (_ & Ho & _ & Hm & _) Hop i Hi. rewrite Hm. apply (Hop i). by rewrite <- Ho. Qed.

Lemma close_shuts t t' : close env t = Ok ((), t') -> t_closed t' = false -> False.
Proof using.
  unfold close. unfold mbind at 1, M_bind, gets. destruct (isClosed (t_data t)); [done|].
  unfold mbind, M_bind. destruct (dropAllConns env t) as [[u t1]| |]; [|done..]. by intros [= <-].
Qed.

(** The turn that gets the dictionary. *)
Lemma turn_opens inp t t' :
  tor_ok t -> outside_hasher inp = true -> input_ok (B := B) (S := S) sha1_Sum t inp -> turn inp t = Ok ((), t') -> t_closed t' = false ->
  dict_inv t -> dict_inv t' /\ (haveInfo t = false -> opens t').
Proof.
  intros Ht Hout Hin E Hcl Hd. destruct (turn_cases _ _ _ _ _ _ _ inp t t' Ht Hout Hin E Hcl) as [Hq|(Hi & n & ut & E1 & Hut & Hsum & Hn)].
  - split; [by eapply quiet_dict|]. intros Hi. apply (quiet_opens t t' Hq). destruct (tk_before _ Ht Hi) as [Hp _].
    intros i. unfold owned. by rewrite Hp.
  - unfold Torrent.metadataCompleted in E1. unfold mbind at 1, M_bind, gets in E1. unfold mbind at 1, M_bind, uts_metadata in E1.
    rewrite Hut in E1. cbn [lift_option mret M_ret] in E1. rewrite bool_decide_true in E1 by done. cbn [negb] in E1.
    destruct (BenDecode.Decode _ _ _) as [[v [e|]]| |] eqn:Ed; [| |by apply close_shuts in E1|done].
    + exfalso. unfold mbind at 1, M_bind in E1. destruct (Info_of v) as [i'|]; [|done]. unfold lift_option, mret, M_ret in E1.
      unfold mbind, M_bind, mod_data, modify in E1. by apply close_shuts in E1.
    + unfold mbind at 1, M_bind in E1. destruct (Info_of v) as [i'|] eqn:Ei; [|done]. unfold lift_option, mret, M_ret in E1.
      unfold mbind, M_bind, mod_data, modify in E1. pose proof (gotInfo_opens _ _ E1) as Hop.
      apply gotInfo_result in E1 as (u & p & Hu & _ & Hm & Hi' & _). split; [|done]. unfold dict_inv in *. rewrite Hi in Hd. destruct Hd as [Hib Hinfo].
      unfold gotInfo_ut in Hu. destruct (tk_before _ Ht Hi) as (_ & _ & Hb).
      cbn [set_data t_data d_info mi_InfoBytes utmetadata mi_Info] in Hu, Hm. rewrite Hb in Hu. injection Hu as <-. rewrite Hi', Hm.
      cbn [uts_setCorrect correctSize]. destruct (Z.eqb_spec n 0); [done|]. cbn [negb]. unfold dictionary. rewrite Hib, <- Hinfo. by exists (infoBytes ut), v.
Qed.

Lemma start_opens t0 :
  start (newTorrent cfg info ann ib) = Ok ((), t0) -> dict_inv t0 /\ (haveInfo t0 = true -> opens t0).
Proof.
  intros E. unfold Torrent.start in E. unfold mbind at 1, M_bind, gets in E. unfold mbind at 1, M_bind in E.
  match type of E with match ?m with _ => _ end = _ => destruct m as [[[] t1]| |] eqn:E1; [|done..] end.
  assert (Hq : quiet t1 t0) by (by eapply (frames_tryAnnounceAll env int_of_Inf quiet)).
  cut (dict_inv t1 /\ (haveInfo t1 = true -> opens t1)).
  { intros [Hd Ho]. split; [by eapply quiet_dict|]. intros Hi. apply (quiet_opens t1); [done|]. apply Ho.
    destruct Hq as (_ & _ & _ & _ & <- & _). done. }
  clear E Hq. unfold infoWasDownloaded in E1. cbn [newTorrent t_data mi_InfoBytes] in E1. destruct Hsetup as [_ Hib].
  unfold dict_inv, dictionary. destruct ib as [b|] eqn:Eib; cbn [negb when] in E1.
  - pose proof (gotInfo_opens _ _ E1) as Ho. split; [|done]. apply gotInfo_result in E1 as (u & p & Hu & _ & Hm & Hi & _). rewrite Hi, Hm.
    unfold gotInfo_ut in Hu. cbn in Hu. injection Hu as <-. cbn. destruct Hib as [?|[(b' & [= <-] & Hb) _]]; [done|].
    destruct b; [done|]. cbn. by destruct (Z.eqb_spec (Z.pos (Pos.of_succ_nat (length b0))) 0).
  - injection E1 as <-. by split.
Qed.

(** ** What is marked is verified *)

(** What the info dictionary must be: its pieces cover its content, and its files have different
    names that can be opened. *)
Definition info_good (info' : InfoDict) : Prop :=
  pieces_match info' /\ total_len (FilesInfo info') = TotalLength info' /\
  files_ok filepath_Join io (mkStorage dir info' [] fs0) (FilesInfo info').

Abbreviation st_inv := (st_inv filepath_Join io sha1_Sum).

(** Owned, or about to be. *)
Definition marked h i : Prop :=
  owned (h_t h) i = true \/ (i, true) ∈ h_chan h \/ exists n, h_run h = HSend n i true.

Record kept h : Prop := mkKept {
  ke_info : st_info (h_store h) = mi_Info (t_data (h_t h));
  ke_inv : st_inv (h_store h);
  ke_marked i : marked h i -> verified_at (h_store h) i;
}.

Definition dinv h : Prop :=
  hinv h /\ dict_inv (h_t h) /\ (haveInfo (h_t h) = true -> info_good (mi_Info (t_data (h_t h))) -> kept h).

(** The storage of an opened torrent. *)
Lemma opened_kept h s :
  tor_ok (h_t h) -> (pieces_ (t_data (h_t h)) = None -> queuedForVerification (t_data (h_t h)) = ∅) ->
  opens (h_t h) -> opened (h_t h) s -> info_good (mi_Info (t_data (h_t h))) -> held (h_run h) = [] -> h_chan h = [] -> kept (with_store h s).
Proof.
  intros Ht Hq Hop (p & seed & Hp & E) (Hm & Htot & Hok) Hr Hc. pose proof (pieces_match_sized _ Hm Htot) as Hs.
  destruct (opened_verified _ _ _ _ _ _ _ _ E) as [Hi Hv]. constructor; cbn [with_store h_store h_t]; [done|by eapply opened_inv|].
  intros i [Ho|[Hin|(n & Hrun)]]; cbn in *; [|rewrite Hc in Hin; by apply elem_of_nil in Hin|by rewrite Hrun in Hr].
  destruct (Hop i Ho) as (p' & Hp' & Hseed). rewrite Hp in Hp'. injection Hp' as <-. unfold openFiles in Hseed. rewrite E in Hseed.
  apply (Hv Hseed). by apply (tor_pieces env _ Ht Hq).
Qed.

Lemma conn_write_keeps s s' : conn_write s s' -> st_inv s -> st_inv s' /\ st_info s' = st_info s /\ forall i, verified_at s i -> verified_at s' i.
Proof.
  intros (p & i & o & len & n & err & Hi & Hl & Hp & Ho & Hfit & E) Hs. destruct (WriteBlock_monotone _ _ _ _ _ _ _ _ E) as [? ?].
  split_and!; [|done|done]. by eapply write_inv.
Qed.

(** A step with the info dictionary known: nothing, or a write, happens to the storage, or the hasher
    hashes a piece. *)
Lemma hstep_kept h h' :
  hinv h -> haveInfo (h_t h) = true -> hstep h h' -> t_closed (h_t h') = false ->
  mi_Info (t_data (h_t h')) = mi_Info (t_data (h_t h)) /\ haveInfo (h_t h') = haveInfo (h_t h) /\
  ((h_store h' = h_store h \/ conn_write (h_store h) (h_store h')) /\ (forall i, marked h' i -> marked h i) \/
   exists i len ok, 0 <= i < numPieces (h_t h) /\ PieceLength (mi_Info (t_data (h_t h))) i = Some len /\
     Storage.HashPiece filepath_Join sha1_Sum (h_store h) i len = Some (h_store h', ok) /\
     forall j, marked h' j -> marked h j \/ ok = true /\ j = i).
Proof.
  intros Hh Hi Hst. pose proof Hh as [Ht Hc].
  assert (Hbg : forall t' s', quiet (h_t h) t' -> (s' = h_store h \/ conn_write (h_store h) s') ->
    mi_Info (t_data t') = mi_Info (t_data (h_t h)) /\ haveInfo t' = haveInfo (h_t h) /\
    ((s' = h_store h \/ conn_write (h_store h) s') /\ (forall i, marked (mkHsys t' s' (h_run h) (h_chan h)) i -> marked h i) \/
     exists i len ok, 0 <= i < numPieces (h_t h) /\ PieceLength (mi_Info (t_data (h_t h))) i = Some len /\
       Storage.HashPiece filepath_Join sha1_Sum (h_store h) i len = Some (s', ok) /\
       forall j, marked (mkHsys t' s' (h_run h) (h_chan h)) j -> marked h j \/ ok = true /\ j = i)).
  { intros t' s' (_ & Ho & _ & Hm & Hhi & _) Hs. split_and!; [done|done|left]. split; [done|]. intros i. unfold marked. cbn. by rewrite Ho. }
  destruct Hst as [h inp t' _ Hout _ Hin E|h i ok rest t' _ Hch E|h n i rest t' len st' ok Hrun Hq E Hlen Hhash|h n i ok Hrun _|h n _ Hcl
    |h st' Hw|h p p' Hp Hop|h m|h ip|h addr t' _ E]; cbn [h_t h_store] in *; intros Hopen.
  - destruct (turn_quiet _ _ _ _ _ _ _ _ _ _ Ht Hout Hin E Hopen) as [Hq|[Hx _]]; [apply Hbg; auto|congruence].
  - destruct (result_core _ _ _ _ _ _ _ _ _ _ _ _ Hh Hch E) as (_ & _ & Ho & Hm & Hhi). split_and!; [done|done|left]. split; [by left|].
    intros j [Hj|Hj]; cbn in Hj.
    + rewrite Ho in Hj. apply orb_true_iff in Hj as [[-> ->%Z.eqb_eq]%andb_true_iff|Hj]; [|by left]. right; left. rewrite Hch. by left.
    + right. destruct Hj as [Hj|Hj]; [left; rewrite Hch; by right|by right].
  - destruct (take_core _ _ _ _ _ _ _ _ _ _ _ _ st' ok Hh Hrun Hq E) as [_ Ho]. apply turn_Ok in E as [_ E]. injection E as <-.
    assert (Hf : i ∈ flight h) by (unfold flight; rewrite Hq; set_solver).
    assert (Hb : 0 <= i < numPieces (h_t h)) by by eapply flight_range. split_and!; [done|done|right]. exists i, len, ok.
    split_and!; [lia|lia| |done|].
    + destruct (tor_pieces env _ Ht) as [Hp _]; [by eapply hcore_none|]. apply (hi_queued h Hc) in Hf.
      destruct (Hp i Hf) as (p & Hpp & _). destruct (tk_data _ Ht p Hpp) as [_ Hd]. pose proof (pa_num _ (do_params _ _ _ Hd)) as Hn.
      cbn [tparams_of t_numPieces] in Hn. rewrite wrapU_id in Hlen by (unfold in_u, numPieces in *; lia).
      unfold pieceLen, PieceLength in *. cbn [tparams_of t_numPieces t_length t_PieceLen] in Hlen. by rewrite (do_length _ _ _ Hd) in Hlen.
    + intros j [Hj|[Hj|(m & Hj)]]; cbn in Hj; [left; left; by rewrite <- Ho|left; right; by left|]. right. by injection Hj as _ -> ->.
  - split_and!; [done|done|left]. split; [by left|]. intros j [Hj|[Hj|(m & Hj)]]; cbn in Hj; [by left| |].
    + apply elem_of_app in Hj as [Hj|Hj%list_elem_of_singleton]; [right; by left|]. injection Hj as -> <-. right; right. by exists n.
    + unfold hasher_next in Hj. by repeat case_match.
  - exfalso. by rewrite (tor_open _ Ht) in Hcl.
  - split_and!; [done|done|left]. split; [by right|done].
  - apply Hbg; [by apply (quiet_pieces _ p)|by left].
  - apply Hbg; [by apply quiet_data|by left].
  - apply Hbg; [by apply quiet_data|by left].
  - apply Hbg; [by eapply quiet_dialed|by left].
Qed.

Lemma hinv_store h s : hinv h -> hinv (with_store h s).
Proof. by intros [? []]. Qed.

Lemma hstep_dict h h' : hinv h -> hstep h h' -> t_closed (h_t h') = false -> dict_inv (h_t h) ->
  dict_inv (h_t h') /\ (haveInfo (h_t h) = false -> haveInfo (h_t h') = true -> opens (h_t h') /\ held (h_run h') = [] /\ h_chan h' = []).
Proof.
  intros Hh Hst Hcl Hd. destruct (haveInfo (h_t h)) eqn:Hi.
  { destruct (hstep_kept h h' Hh Hi Hst Hcl) as (Hm & Hhi & _). split; [|done]. unfold dict_inv in *. by rewrite Hm, Hhi, Hi in *. }
  pose proof Hh as [Ht Hc]. destruct (tk_before _ Ht Hi) as (Hp & _). pose proof (hi_none h Hc Hp) as Hf.
  assert (Hheld : held (h_run h) = []) by (unfold flight in Hf; by apply app_eq_nil in Hf as [_ [? _]%app_eq_nil]).
  assert (Hchan : h_chan h = []) by (unfold flight in Hf; apply app_eq_nil in Hf as [_ [_ Hx]%app_eq_nil]; by destruct (h_chan h)).
  assert (Hq : pieceQueuedHashingC (t_data (h_t h)) = []) by (unfold flight in Hf; by apply app_eq_nil in Hf as [? _]).
  assert (Hbg : forall t', quiet (h_t h) t' -> dict_inv t' /\ (haveInfo t' = true -> opens t' /\ held (h_run h) = [] /\ h_chan h = [])).
  { intros t' Hqu. split; [by eapply quiet_dict|]. intros Hx. split_and!; [|done|done]. apply (quiet_opens _ _ Hqu). intros i. unfold owned. by rewrite Hp. }
  destruct Hst as [h inp t' _ Hout _ Hin E|h i ok rest t' _ Hch E|h n i rest t' len st' ok Hrun Hq' E Hlen Hhash|h n i ok Hrun _|h n _ Hx
    |h st' Hw|h p p' Hpp Hop|h m|h ip|h addr t' _ E]; cbn [h_t h_run h_chan] in *.
  - destruct (turn_opens inp _ _ Ht Hout Hin E Hcl Hd) as [Hd' Ho]. split; [done|]. intros _ _. by auto.
  - by rewrite Hch in Hchan.
  - by rewrite Hq in Hq'.
  - by rewrite Hrun in Hheld.
  - by rewrite (tor_open _ Ht) in Hx.
  - split; [done|]. congruence.
  - by rewrite Hp in Hpp.
  - split; [by eapply quiet_dict; [apply quiet_data|]|]. intros _. apply Hbg, quiet_data; done.
  - split; [by eapply quiet_dict; [apply quiet_data|]|]. intros _. apply Hbg, quiet_data; done.
  - split; [eapply quiet_dict; [by eapply quiet_dialed|done]|]. intros _. apply Hbg. by eapply quiet_dialed.
Qed.

Lemma kept_step h h' : kept h -> st_info (h_store h') = st_info (h_store h) -> st_inv (h_store h') ->
  mi_Info (t_data (h_t h')) = mi_Info (t_data (h_t h)) ->
  (forall j, verified_at (h_store h) j -> verified_at (h_store h') j) ->
  (forall j, marked h' j -> marked h j \/ verified_at (h_store h') j) -> kept h'.
Proof. intros [Hi Hs Hv] Hi' Hs' Hm Hk Hmk. constructor; [congruence|done|]. intros j [Hj|?]%Hmk; auto. Qed.

Lemma dstep_inv h h' : dinv h -> dstep h h' -> t_closed (h_t h') = false -> dinv h'.
Proof.
  intros (Hh & Hd & Hk) [h1 Hst Hsame|h1 s Hst Hno Hyes Hop] Hcl.
  - assert (Hh1 : hinv h1) by (by eapply hstep_inv). destruct (hstep_dict h h1 Hh Hst Hcl Hd) as [Hd1 _]. split_and!; [done|done|].
    rewrite Hsame. intros Hi Hg. destruct (hstep_kept h h1 Hh Hi Hst Hcl) as (Hm & _ & Hcase). rewrite Hm in Hg. specialize (Hk Hi Hg).
    destruct Hcase as [[[Hs|Hw] Hmk]|(i & len & ok & Hb & Hl & Hhash & Hmk)].
    + apply (kept_step h); rewrite ?Hs; try done; [apply Hk|]. auto.
    + destruct (conn_write_keeps _ _ Hw (ke_inv h Hk)) as (? & ? & ?). apply (kept_step h); auto.
    + destruct (HashPiece_monotone _ _ _ _ _ _ _ Hhash) as (Hi1 & Hv1 & Hv2). apply (kept_step h); auto.
      * eapply st_step_inv; [apply Hk|]. eapply ss_hash; [|rewrite (ke_info h Hk); exact Hl|exact Hhash]. rewrite (ke_info h Hk). exact Hb.
      * intros j [Hj|[Hok ->]]%Hmk; auto.
  - cbn [with_store h_t] in Hcl. assert (Hh1 : hinv h1) by (by eapply hstep_inv). destruct (hstep_dict h h1 Hh Hst Hcl Hd) as [Hd1 Ho].
    destruct (Ho Hno Hyes) as (Hopen & Hr & Hc). split_and!; [by apply hinv_store|done|]. cbn [with_store h_t]. intros _ Hg.
    destruct Hh1 as [Ht1 Hc1]. apply opened_kept; try done. by eapply hcore_none.
Qed.

Lemma dreachable_inv h : dreachable h -> t_closed (h_t h) = false -> dinv h.
Proof.
  intros (t0 & s0 & E & Hop & Hr). revert Hr. apply (rtc_ind_r (fun h => t_closed (h_t h) = false -> dinv h)).
  - intros _. assert (Hh : hinv (mkHsys t0 s0 (HIdle 0) [])) by exact (hinv_start env ip6_String int_of_Inf sha1_Sum openFiles SelectorF outboundIP (Storage.HashPiece filepath_Join sha1_Sum) conn_write cfg info ann ib Hsetup t0 s0 E). destruct (start_opens t0 E) as [Hd Ho].
    split_and!; [done|done|]. cbn [h_t]. intros Hi Hg. pose proof Hh as [Ht Hc].
    apply (opened_kept (mkHsys t0 s0 (HIdle 0) []) s0); auto. by eapply hcore_none.
  - intros x y _ Hxy IH Hy. apply (dstep_inv x); [|done|done]. apply IH.
    destruct Hxy as [y Hst _|y s Hst _ _ _]; by eapply hstep_open.
Qed.

(** What an open torrent owns, in the files. *)
Lemma owned_intact h i :
  dinv h -> owned (h_t h) i = true ->
  let info' := mi_Info (t_data (h_t h)) in
  dictionary info' /\
  (info_good info' -> exists len data, PieceLength info' i = Some len /\ lenZ data = len /\ PieceHash info' i = Some (sha1_Sum data) /\
     (forall g, 0 <= g < len -> fbyte filepath_Join (h_store h) (FilesInfo info') (i * PieceLen info' + g) = data !! Z.to_nat g) /\
     forall o n, 0 <= o -> 0 < n -> o + n <= len ->
       ReadBlock filepath_Join (h_store h) n (i * PieceLen info' + o) = Some (take (Z.to_nat n) (drop (Z.to_nat o) data), None)).
Proof.
  intros ([Ht Hc] & Hd & Hk) Ho info'.
  assert (Hi : haveInfo (h_t h) = true).
  { unfold owned in Ho. destruct (pieces_ (t_data (h_t h))) as [p|] eqn:Hp; [|done]. by destruct (tk_data _ Ht p Hp). }
  unfold dict_inv in Hd. rewrite Hi in Hd. split; [done|]. intros Hg. destruct (Hk Hi Hg) as [Hinfo Hs Hm].
  destruct (Hm i (or_introl Ho)) as (piece & Hp & Hv). pose proof Hs as (_ & _ & Hint).
  destruct (Hint i piece Hp Hv) as (len & Hl & Hn & Hav & Hh). unfold pieceOff in *. rewrite Hinfo in *. fold info' in Hl, Hh, Hav.
  pose proof (region_length filepath_Join _ _ _ Hn Hav) as Hlen. exists len, (region filepath_Join (h_store h) (i * PieceLen info') len).
  split_and!; [done|done|done| |].
  - intros g Hgb. rewrite region_lookup by (done || lia). rewrite Hinfo. f_equal. lia.
  - intros o n Ho' Hn' Hfit. pose proof (ReadBlock_good filepath_Join io sha1_Sum (h_store h) i piece len o n Hs Hp Hv) as E.
    unfold pieceOff in E. rewrite Hinfo in E. by apply E.
Qed.

(** ** Theorem *)

(** C5: From a torrent file or a magnet link to the files: whatever peers send and however connections,
    hasher and main loop take turns, the info dictionary of an open torrent is the one of the torrent
    file or was decoded from bytes whose SHA-1 is the info hash of the link; and every piece that the
    torrent owns has, in the files, exactly the bytes whose SHA-1 the dictionary lists, which every
    read within the piece gives. *)
Theorem owned_pieces_intact h i :
  dreachable h -> t_closed (h_t h) = false -> owned (h_t h) i = true ->
  let info' := mi_Info (t_data (h_t h)) in
  dictionary info' /\
  (info_good info' -> exists len data, PieceLength info' i = Some len /\ lenZ data = len /\ PieceHash info' i = Some (sha1_Sum data) /\
     (forall g, 0 <= g < len -> fbyte filepath_Join (h_store h) (FilesInfo info') (i * PieceLen info' + g) = data !! Z.to_nat g) /\
     forall o n, 0 <= o -> 0 < n -> o + n <= len ->
       ReadBlock filepath_Join (h_store h) n (i * PieceLen info' + o) = Some (take (Z.to_nat n) (drop (Z.to_nat o) data), None)).
Proof. intros Hr Hcl Ho. apply (owned_intact h i); [by apply dreachable_inv|done]. Qed.

End download.
