(* ===== verification/Conc.v ===== *)
(** * Goroutines that share a state under a mutex

    A goroutine is a resumption: it accesses the state in single steps and locks and unlocks
    one mutex, which is not reentrant (sync.Mutex). A pool is any number of goroutines over
    one state, with all interleavings. When every critical section reads and then makes one
    atomic change, and what goroutines do without the mutex only reads, the pool is
    linearizable: the state is the outcome of a log of atomic operations, and each goroutine
    does its own ones, in its own order. *)

From S2P Require Import Prelude.

(** [T] is the state, [E] the errors of an access (a panic is not an error), [R] the result. *)
Inductive prog (E T R : Type) :=
| Ret (r : R)
| Do (m : T -> result E (prog E T R * T))
| Lock (k : prog E T R)
| Unlock (k : prog E T R).
Arguments Ret {E T R} r.
Arguments Do {E T R} m.
Arguments Lock {E T R} k.
Arguments Unlock {E T R} k.

Section pool.
Context {E T R : Type}.
Abbreviation prog := (prog E T R).
Implicit Types (p k q : prog) (t : T) (u v : nat).

(** An access that reads, and one that writes. *)
Definition read {A} (f : T -> A) (k : A -> prog) : prog := Do (fun t => Ok (k (f t), t)).
Definition write (f : T -> T) (k : prog) : prog := Do (fun t => Ok (k, f t)).

Record pool := mkPool {
  p_st : T;
  p_mu : bool;                     (* the mutex is locked *)
  p_thr : gmap nat prog;
}.
Implicit Types (w x y : pool).

(** [P]: the program that a goroutine is started with. *)
Variable P : nat -> prog -> Prop.

Inductive pstep : pool -> pool -> Prop :=
| ps_go w u p : p_thr w !! u = None -> P u p -> pstep w (mkPool (p_st w) (p_mu w) (<[u := p]> (p_thr w)))
| ps_do w u m k t' :
    p_thr w !! u = Some (Do m) -> m (p_st w) = Ok (k, t') -> pstep w (mkPool t' (p_mu w) (<[u := k]> (p_thr w)))
| ps_lock w u k :
    p_thr w !! u = Some (Lock k) -> p_mu w = false -> pstep w (mkPool (p_st w) true (<[u := k]> (p_thr w)))
| ps_unlock w u k :
    p_thr w !! u = Some (Unlock k) -> p_mu w = true -> pstep w (mkPool (p_st w) false (<[u := k]> (p_thr w))).

Definition preach (t0 : T) (w : pool) : Prop := rtc pstep (mkPool t0 false ∅) w.

(** ** Atomic operations

    [does e t t']: the atomic operation [e], with what it replied, takes [t] to [t'].
    [Q l r]: a goroutine that has done the operations [l] may return [r]. *)

Context {L : Type}.
Variable does : L -> T -> T -> Prop.

Section conforms.
Variable Q : list L -> R -> Prop.

(** A program without the mutex that has done [l]; one in a critical section that has not yet
    done its operation, and knows the state to be in [K]; and one that has. It may end there
    without unlocking. *)
Inductive outer : list L -> prog -> Prop :=
| ou_ret l r : Q l r -> outer l (Ret r)
| ou_read l m :
    (forall t k t', m t = Ok (k, t') -> t' = t) ->
    (forall t k t', m t = Ok (k, t') -> exists e, does e t t /\ outer (l ++ [e]) k) -> outer l (Do m)
| ou_lock l k : before l (fun _ => True) k -> outer l (Lock k)
with before : list L -> (T -> Prop) -> prog -> Prop :=
| be_do l (K : T -> Prop) m :
    (forall t k t', K t -> m t = Ok (k, t') ->
       t' = t /\ before l (eq t) k \/ exists e, does e t t' /\ after (l ++ [e]) k) -> before l K (Do m)
with after : list L -> prog -> Prop :=
| af_ret l r : Q l r -> after l (Ret r)
| af_unlock l k : outer l k -> after l (Unlock k).

Lemma before_weaken l (K K' : T -> Prop) p : before l K p -> (forall t, K' t -> K t) -> before l K' p.
Proof. destruct 1 as [l K m Hm]. intros HK. constructor. intros t k t' Ht. by apply Hm, HK. Qed.

Lemma before_read {A} l (K : T -> Prop) (f : T -> A) (k : A -> prog) :
  (forall t, K t -> before l (eq t) (k (f t)) \/ exists e, does e t t /\ after (l ++ [e]) (k (f t))) -> before l K (read f k).
Proof. intros Hk. constructor. intros t q t' Ht [= <- <-]. destruct (Hk t Ht); [by left|by right]. Qed.

Lemma before_write l (K : T -> Prop) (f : T -> T) k :
  (forall t, K t -> exists e, does e t (f t) /\ outer (l ++ [e]) k) -> before l K (write f (Unlock k)).
Proof.
  intros Hk. constructor. intros t q t' Ht [= <- <-]. right. destruct (Hk t Ht) as (e & He & Ho). exists e. split; [done|by constructor].
Qed.

(** A critical section that only reads. *)
Lemma outer_look {A} l (f : T -> A) (k : A -> prog) :
  (forall t, exists e, does e t t /\ outer (l ++ [e]) (k (f t))) -> outer l (Lock (read f (fun a => Unlock (k a)))).
Proof.
  intros Hk. constructor. apply before_read. intros t _. right. destruct (Hk t) as (e & He & Ho). exists e. split; [done|by constructor].
Qed.

End conforms.

(** ** Logs *)

Abbreviation log := (list (nat * L)).
Implicit Types (h : log).

(** What the goroutine [u] has done. *)
Definition did u h : list L := snd <$> filter (fun a => a.1 = u) h.

Inductive runs_log : T -> log -> T -> Prop :=
| rl_nil t : runs_log t [] t
| rl_snoc t h t1 u e t2 : runs_log t h t1 -> does e t1 t2 -> runs_log t (h ++ [(u, e)]) t2.

Lemma did_app u h h' : did u (h ++ h') = did u h ++ did u h'.
Proof. unfold did. by rewrite filter_app, fmap_app. Qed.

Lemma did_self u e : did u [(u, e)] = [e].
Proof. unfold did. by rewrite filter_cons_True. Qed.

Lemma did_other u v e : u <> v -> did u [(v, e)] = [].
Proof. intros Hne. unfold did. rewrite filter_cons_False; [done|]. cbn. congruence. Qed.

Lemma runs_log_app t h t1 h' t2 : runs_log t h t1 -> runs_log t1 h' t2 -> runs_log t (h ++ h') t2.
Proof.
  intros H1 H2. revert H1. induction H2 as [t1|t1 h' t2 u e t3 _ IH Hd]; intros H1; [by rewrite app_nil_r|].
  rewrite app_assoc. eapply rl_snoc; [by apply IH|done].
Qed.

Lemma runs_log_keeps (I : T -> Prop) t h t' : (forall e t t', I t -> does e t t' -> I t') -> runs_log t h t' -> I t -> I t'.
Proof. intros Hs. induction 1 as [|t h t1 u e t2 _ IH Hd]; [done|]. intros Ht. by eapply Hs, Hd; apply IH. Qed.

(** ** Linearizability *)

(** What a goroutine may return. *)
Variable Q : nat -> list L -> R -> Prop.
Hypothesis P_outer : forall u p, P u p -> outer (Q u) [] p.

Definition outside h w u : Prop :=
  match p_thr w !! u with Some q => outer (Q u) (did u h) q | None => did u h = [] end.

Definition inside h w u : Prop :=
  exists q, p_thr w !! u = Some q /\ (before (Q u) (did u h) (eq (p_st w)) q \/ after (Q u) (did u h) q).

(** While the mutex is locked, one goroutine is in a critical section. *)
Definition logged h w : Prop :=
  if p_mu w then exists u, inside h w u /\ forall v, v <> u -> outside h w v else forall u, outside h w u.

Lemma outside_grow h u e w st mu v k : outside h w v -> v <> u -> outside (h ++ [(u, e)]) (mkPool st mu (<[u := k]> (p_thr w))) v.
Proof. unfold outside. intros Hv Hne. cbn. by rewrite lookup_insert_ne, did_app, did_other, app_nil_r by done. Qed.

Lemma outside_stay h w st mu u k v : outside h w v -> v <> u -> outside h (mkPool st mu (<[u := k]> (p_thr w))) v.
Proof. unfold outside. intros Hv Hne. cbn. by rewrite lookup_insert_ne by done. Qed.

Lemma outside_self h st mu thr u k : outer (Q u) (did u h) k -> outside h (mkPool st mu (<[u := k]> thr)) u.
Proof. unfold outside. cbn. by rewrite lookup_insert_eq. Qed.

(** A step adds at most one operation, of the goroutine that takes it. *)
Definition adds w w' h' : Prop :=
  h' = [] /\ p_st w' = p_st w \/
  exists u e, h' = [(u, e)] /\ does e (p_st w) (p_st w') /\ (forall r, p_thr w !! u <> Some (Ret r)) /\ is_Some (p_thr w !! u).

Lemma outer_do h w u m k t' :
  outside h w u -> p_thr w !! u = Some (Do m) -> m (p_st w) = Ok (k, t') ->
  t' = p_st w /\ exists e, does e (p_st w) (p_st w) /\ outer (Q u) (did u (h ++ [(u, e)])) k.
Proof.
  unfold outside. intros Ho Hu Hm. rewrite Hu in Ho. inversion Ho as [|l m' Hsame Hk|]; simplify_eq.
  split; [by eapply Hsame|]. destruct (Hk _ _ _ Hm) as (e & He & Hk'). exists e. by rewrite did_app, did_self.
Qed.

Lemma logged_step h w w' : logged h w -> pstep w w' -> exists h', logged (h ++ h') w' /\ adds w w' h'.
Proof.
  intros Hl Hst. destruct Hst as [w v p Hv Hp|w v m k t' Hv Hm|w v k Hv Hmu|w v k Hv Hmu]; unfold logged in *; cbn [p_st p_mu p_thr].
  - exists []. rewrite app_nil_r. split; [|by left].
    assert (Hnew : forall st mu, outside h w v -> outside h (mkPool st mu (<[v := p]> (p_thr w))) v).
    { intros st mu Ho. apply outside_self. unfold outside in Ho. rewrite Hv in Ho. rewrite Ho. by apply P_outer. }
    destruct (p_mu w).
    + destruct Hl as (u & (q & Hu & Hq) & Hother). assert (Hne : v <> u) by congruence. exists u. split.
      * exists q. cbn. by rewrite lookup_insert_ne.
      * intros x Hx. destruct (decide (x = v)) as [->|]; [by apply Hnew, Hother|by apply outside_stay; [apply Hother|]].
    + intros x. destruct (decide (x = v)) as [->|]; [by apply Hnew|by apply outside_stay].
  - destruct (p_mu w) eqn:Hmu.
    + destruct Hl as (u & (q & Hu & Hq) & Hother). destruct (decide (v = u)) as [->|Hne].
      * rewrite Hv in Hu. injection Hu as <-. destruct Hq as [Hq|Hq]; [|by inversion Hq].
        inversion Hq as [l K m' Hk]; simplify_eq. destruct (Hk _ _ _ eq_refl Hm) as [[-> Hb]|(e & He & Ha)].
        -- exists []. rewrite app_nil_r. split; [|by left]. exists u. split; [|intros x Hx; by apply outside_stay; [apply Hother|]].
           exists k. cbn. rewrite lookup_insert_eq. split; [done|by left].
        -- exists [(u, e)]. split; [|right; exists u, e; rewrite Hv; by eauto].
           exists u. split; [|intros x Hx; by apply outside_grow; [apply Hother|]].
           exists k. cbn. rewrite lookup_insert_eq, did_app, did_self. split; [done|by right].
      * destruct (outer_do _ _ _ _ _ _ (Hother v Hne) Hv Hm) as (-> & e & He & Hk).
        exists [(v, e)]. split; [|right; exists v, e; rewrite Hv; by eauto]. exists u. split.
        -- exists q. cbn. by rewrite lookup_insert_ne, did_app, did_other, app_nil_r by done.
        -- intros x Hx. destruct (decide (x = v)) as [->|]; [by apply outside_self|by apply outside_grow; [apply Hother|]].
    + destruct (outer_do _ _ _ _ _ _ (Hl v) Hv Hm) as (-> & e & He & Hk).
      exists [(v, e)]. split; [|right; exists v, e; rewrite Hv; by eauto].
      intros x. destruct (decide (x = v)) as [->|]; [by apply outside_self|by apply outside_grow].
  - rewrite Hmu in Hl. exists []. rewrite app_nil_r. split; [|by left].
    pose proof (Hl v) as Hov. unfold outside in Hov. rewrite Hv in Hov. inversion Hov as [| |l k' Hb]; simplify_eq.
    exists v. split; [|intros x Hx; by apply outside_stay]. exists k. cbn. rewrite lookup_insert_eq. split; [done|left].
    by eapply before_weaken.
  - rewrite Hmu in Hl. exists []. rewrite app_nil_r. split; [|by left]. destruct Hl as (u & (q & Hu & Hq) & Hother).
    destruct (decide (v = u)) as [->|Hne].
    + rewrite Hv in Hu. injection Hu as <-. destruct Hq as [Hq|Hq]; inversion Hq; simplify_eq.
      intros x. destruct (decide (x = u)) as [->|]; [by apply outside_self|by apply outside_stay; [apply Hother|]].
    + specialize (Hother v Hne). unfold outside in Hother. rewrite Hv in Hother. inversion Hother.
Qed.

(** What has returned does nothing more, and what has not started has done nothing. *)
Definition later w h' : Prop := forall u r, p_thr w !! u = Some (Ret r) -> did u h' = [].

Lemma logged_steps h w w' : logged h w -> rtc pstep w w' ->
  exists h', logged (h ++ h') w' /\ runs_log (p_st w) h' (p_st w') /\ later w h'.
Proof.
  intros Hl Hw. revert h Hl. induction Hw as [w|w1 w2 w3 Hst Hw IH]; intros h Hl.
  - exists []. rewrite app_nil_r. split_and!; [done|constructor|by intros u r _].
  - destruct (logged_step _ _ _ Hl Hst) as (h1 & Hl1 & Ha). destruct (IH _ Hl1) as (h2 & Hl2 & Hr2 & Hp2).
    exists (h1 ++ h2). rewrite app_assoc. split_and!; [done| |].
    + eapply runs_log_app; [|exact Hr2]. destruct Ha as [[-> ->]|(u & e & -> & He & _)]; [constructor|].
      apply (rl_snoc _ []) with (p_st w1); [constructor|done].
    + intros v r Hv. rewrite did_app. rewrite (Hp2 v r).
      * rewrite app_nil_r. destruct Ha as [[-> _]|(u & e & -> & _ & Hn & _)]; [done|]. apply did_other. intros ->. by eapply Hn.
      * assert (Hne : forall u k, u <> v -> <[u := k]> (p_thr w1) !! v = Some (Ret r)) by (intros u k Hne; by rewrite lookup_insert_ne).
        destruct Hst; cbn; apply Hne; congruence.
Qed.

Lemma linearizable t0 w : preach t0 w -> exists h, logged h w /\ runs_log t0 h (p_st w).
Proof.
  intros Hw. destruct (logged_steps [] (mkPool t0 false ∅) w) as (h & Hl & Hr & _); [|done|by exists h].
  intros u. unfold outside. cbn. by rewrite lookup_empty.
Qed.

(** What a goroutine has done when it has returned, and before it starts. *)
Lemma logged_ret h w u r : logged h w -> p_thr w !! u = Some (Ret r) -> Q u (did u h) r.
Proof.
  unfold logged. intros Hl Hu.
  assert (Ho : outside h w u -> Q u (did u h) r) by (unfold outside; rewrite Hu; intros Ho; by inversion Ho).
  destruct (p_mu w); [|by apply Ho]. destruct Hl as (v & (q & Hv & Hq) & Hother). destruct (decide (u = v)) as [->|Hne]; [|by apply Ho, Hother].
  rewrite Hu in Hv. injection Hv as <-. destruct Hq as [Hq|Hq]; by inversion Hq.
Qed.

Lemma logged_none h w u : logged h w -> p_thr w !! u = None -> did u h = [].
Proof.
  unfold logged. intros Hl Hu. assert (Ho : outside h w u -> did u h = []) by (unfold outside; by rewrite Hu).
  destruct (p_mu w); [|by apply Ho]. destruct Hl as (v & (q & Hv & Hq) & Hother). apply Ho, Hother. congruence.
Qed.

(** A goroutine that has returned with the mutex locked locks the others out for ever. *)
Lemma abandoned h w u r :
  p_mu w = true -> p_thr w !! u = Some (Ret r) -> (forall v, v <> u -> outside h w v) ->
  forall w', rtc pstep w w' ->
    p_mu w' = true /\ p_st w' = p_st w /\ forall v q, p_thr w !! v = Some (Lock q) -> p_thr w' !! v = Some (Lock q).
Proof.
  intros Hmu Hu Hother w' Hw.
  assert (H : (exists h, forall v, v <> u -> outside h w' v) /\ p_thr w' !! u = Some (Ret r) /\ p_mu w' = true /\ p_st w' = p_st w /\
    forall v q, p_thr w !! v = Some (Lock q) -> p_thr w' !! v = Some (Lock q)); [|by destruct H as (_ & _ & ?)].
  pattern w'. apply (rtc_ind_r _ w) with (3 := Hw); [by split_and!; [by exists h|..]|]. clear w' Hw h Hother.
  intros x y _ Hxy ([h Hother] & Hx & Hm & Hs & Hlk). destruct Hxy as [x v p Hv Hp|x v m k t' Hv Hd|x v k Hv Hf|x v k Hv _]; cbn.
  - assert (Hne : v <> u) by congruence. split_and!; [exists h|by rewrite lookup_insert_ne|done|done|].
    + intros z Hz. destruct (decide (z = v)) as [->|]; [|by apply outside_stay; [apply Hother|]].
      apply outside_self. specialize (Hother v Hne). unfold outside in Hother. rewrite Hv in Hother. rewrite Hother. by apply P_outer.
    + intros z q Hz%Hlk. rewrite lookup_insert_ne; [done|congruence].
  - assert (Hne : v <> u) by congruence. destruct (outer_do _ _ _ _ _ _ (Hother v Hne) Hv Hd) as (-> & e & He & Hk).
    split_and!; [exists (h ++ [(v, e)])|by rewrite lookup_insert_ne|done|done|].
    + intros z Hz. destruct (decide (z = v)) as [->|]; [by apply outside_self|by apply outside_grow; [apply Hother|]].
    + intros z q Hz%Hlk. rewrite lookup_insert_ne; [done|congruence].
  - congruence.
  - assert (Hne : v <> u) by congruence. specialize (Hother v Hne). unfold outside in Hother. rewrite Hv in Hother. inversion Hother.
Qed.

End pool.
Arguments pool E T R : clear implicits.
