(* ===== verification/Status.v ===== *)
(** * The text of the status of a torrent (torrent.go: writeStatus)

    The parts that the language and its standard library bring: conversions between int and
    float64, and the columns of text/tabwriter with a padding of two spaces and no flags. *)

From Stdlib Require Import Floats.SpecFloat.
From S2P Require Import Prelude Strconv.

(** ** float64 *)

Definition f64 (n : Z) : spec_float := binary_normalize 53 1024 n 0 false.

(** int(x): towards zero. The language leaves open what becomes of numbers that do not fit, of the
    infinities and of NaN: [other]. *)
Definition int_of_f64 (other : spec_float -> Z) (x : spec_float) : Z :=
  match x with
  | S754_zero _ => 0
  | S754_finite s m e =>
      let v := if 0 <=? e then Z.shiftl (Zpos m) e else Z.shiftr (Zpos m) (- e) in
      let v := if s then - v else v in
      if (- 2 ^ 63 <=? v) && (v <? 2 ^ 63) then v else other x
  | _ => other x
  end.

(** int(float64(len)/float64(n)*100) *)
Definition percent (other : spec_float -> Z) (len n : Z) : Z :=
  int_of_f64 other (SFmul 53 1024 (SFdiv 53 1024 (f64 len) (f64 n)) (f64 100)).

(** Nothing, half and all of the pieces; the quotient 29/100 is a little less, and loses one percent. *)
Theorem percent_truncates other :
  percent other 0 7 = 0 /\ percent other 4 8 = 50 /\ percent other 7 7 = 100 /\ percent other 29 100 = 28.
Proof. by vm_compute. Qed.

(** ** text/tabwriter *)

(** The lines have the same number of cells, each ended by a tab: every cell is filled up with spaces
    to the widest cell of its column and two more. The cells are ASCII, a byte for a character. *)
Definition col_width (rows : list (list bytes)) (j : nat) : nat :=
  2 + foldr (fun row w => Nat.max (from_option length 0%nat (row !! j)) w) 0%nat rows.

Definition pad_cell (w : nat) (cell : bytes) : bytes := cell ++ replicate (w - length cell) (z2b 32).
Definition tab_line (rows : list (list bytes)) (row : list bytes) : bytes :=
  concat (imap (fun j cell => pad_cell (col_width rows j) cell) row).
Definition tabulate (rows : list (list bytes)) : bytes := concat ((fun row => tab_line rows row ++ [z2b 10]) <$> rows).

Lemma col_width_le rows row j cell : row ∈ rows -> row !! j = Some cell -> (length cell + 2 <= col_width rows j)%nat.
Proof.
  intros Hr Hj. unfold col_width. induction rows as [|r rows IH]; [by apply elem_of_nil in Hr|]. cbn [foldr].
  apply elem_of_cons in Hr as [->|Hr]; [rewrite Hj; cbn; lia|]. specialize (IH Hr). lia.
Qed.

Lemma tab_line_from rows (f : nat -> nat) row j cell :
  (forall k c, row !! k = Some c -> (length c <= col_width rows (f k))%nat) -> row !! j = Some cell ->
  take (length cell) (drop (sum_list ((fun k => col_width rows (f k)) <$> seq 0 j))
    (concat (imap (fun k c => pad_cell (col_width rows (f k)) c) row))) = cell.
Proof.
  revert f j. induction row as [|c row IH]; intros f j Hw Hj; [done|].
  assert (Hl : length (pad_cell (col_width rows (f 0%nat)) c) = col_width rows (f 0%nat)).
  { unfold pad_cell. rewrite length_app, length_replicate. specialize (Hw 0%nat c eq_refl). lia. }
  cbn [imap concat]. destruct j as [|j]; cbn in Hj.
  - injection Hj as ->. cbn [seq fmap list_fmap sum_list foldr]. rewrite drop_0. unfold pad_cell. rewrite <- app_assoc. by apply take_app_length.
  - cbn [seq]. rewrite fmap_cons. match goal with |- context [sum_list (?x :: ?l)] => change (sum_list (x :: l)) with (x + sum_list l)%nat end.
    rewrite <- drop_drop, <- Hl at 1. rewrite drop_app_length, <- fmap_S_seq, <- list_fmap_compose.
    exact (IH (fun k => f (S k)) j (fun k c' Hk => Hw (S k) c' Hk) Hj).
Qed.

(** The columns line up: the cells of a column start at the same place in every line. *)
Theorem columns_align rows row j cell :
  row ∈ rows -> row !! j = Some cell ->
  take (length cell) (drop (sum_list (col_width rows <$> seq 0 j)) (tab_line rows row)) = cell.
Proof.
  intros Hr Hj. apply (tab_line_from rows id row j cell); [|done]. intros k c Hk. pose proof (col_width_le rows row k c Hr Hk). unfold id. lia.
Qed.
