(* ===== verification/Exported.v ===== *)
(** * torrent/torrent_xported.go, tlocker.go: calls of users beside the main goroutine

    Any goroutine may call the exported methods of a torrent. A call locks by handing a
    channel to the main goroutine, which then waits on it, and unlocks by answering there;
    it does not lock when the torrent is closed. A call is a resumption: accesses to the
    torrent, and the mutex of the pieces, as in [Conc]. The system is a step
    relation between the main goroutine, the calls and the connections. *)

From Stdlib Require Import Floats.SpecFloat.
From S2P Require Import Prelude Strconv Bitfield GoValue BenDecode BenEncode Wire Metainfo Bitmap Piece Pieces Status.
From S2P Require Import Metadata ConnInfo Swarm SwarmInv Torrent TorrentInv TorrentSafe Conc.

(** ** Calls and their results *)

Inductive api_error := errTorrentClosed | errStart (e : uerror) | errInfoRequired.

Inductive uresult (B : Type) :=
| RErr (e : option api_error)
| RBool (b : bool)
| RPeers (l : list Peer)
| RStats (s : Stats)
| RMeta (announce : bytes) (ib : option bytes) (info : InfoDict)
| RInfo (info : InfoDict)
| RPieces (l : option (list (Piece B)))
| RStatus (text : bytes).
Arguments RErr {B} e.
Arguments RBool {B} b.
Arguments RPeers {B} l.
Arguments RStats {B} s.
Arguments RMeta {B} announce ib info.
Arguments RInfo {B} info.
Arguments RPieces {B} l.
Arguments RStatus {B} text.

(** What else WriteStatus prints: [lastAnnounceResp], that is its Seeders, Leechers and Interval, which
    nothing else reads; humanize.Bytes; and the conversion of a float64 that is no int. *)
Record printing := mkPrinting {
  pr_last : option (Z * Z * Z);
  pr_humanize : Z -> bytes;
  pr_other : spec_float -> Z;
}.

(** The calls; [order] is the order in which Swarm meets the map of half-open peers. *)
Inductive call :=
| CAddPeers (l : list Peer)
| CSwarm (order : list Peer -> list Peer)
| CStartDataTransfer
| CMetainfo
| CInfo
| CHaveAllPieces
| CSeeding
| CStats
| CWriteStatus (pr : printing)
| CPieces
| CSetDataDownloadEnable (v : bool)      (* EnableDataDownload, DisableDataDownload *)
| CClose.

Section exported.
Context {B : Type} `{BitmapOps B} {S : Type} `{PieceSelector S B} `{SortSlice (Piece B)} `{SortSlice Z}.
Variable env : Env.
Variable ip6_String : bytes -> bytes.
Variable int_of_Inf : Z.

Abbreviation torrent := (torrent B S).
Abbreviation M := (M B S).
Abbreviation uresult := (uresult B).
Abbreviation prog := (prog terror torrent uresult).
Abbreviation onDrop := (droppedConn env ip6_String int_of_Inf).

(** ** Queries (torrent.go) *)

Definition seeding : M bool :=
  all ← t_haveAll;
  if all : bool then gets (fun t => uploadEnabled (t_data t)) else mret false.

Definition swarm (order : list Peer -> list Peer) (t : torrent) : list Peer :=
  omap (fun id => ci_peer <$> t_infos t !! id) (conns t) ++
  order (snd <$> map_to_list (halfOpen (t_dial t))) ++ peers (t_dial t).

Definition uploaders (t : torrent) : list Z :=
  filter (fun id => from_option (fun ci => canDownload (ci_state ci)) false (t_infos t !! id) = true) (conns t).

Definition state_closed : bytes := bs "closed".

Definition state : M bytes :=
  d ← gets t_data;
  if isClosed d then mret state_closed
  else
    s ← seeding;
    hi ← gets haveInfo;
    mret (if s : bool then bs "seeding"
          else if negb hi then bs "downloading info"
          else if uploadEnabled d && downloadEnabled d then bs "uploading/downloading"
          else if uploadEnabled d then bs "uploading only"
          else if downloadEnabled d then bs "downloading only"
          else bs "waiting for downloading request").

(** How often the tracker and the DHT have been asked. *)
Definition numTrackerAnnouncesSend (t : torrent) : Z :=
  lenZ (filter (fun e => match e with EAnnounceTracker _ _ => true | _ => false end = true) (t_events t)).
Definition numDhtAnnounces (t : torrent) : Z :=
  lenZ (filter (fun e => match e with EAnnounceDht => true | _ => false end = true) (t_events t)).

Definition status_row (pr : printing) (t : torrent) (ci : connInfo B) : list bytes :=
  [IP_String ip6_String (p_IP (ci_peer ci)); Itoa (percent (pr_other pr) (bm_Len (peerBf ci)) (numPieces t)) ++ bs "%";
   pr_humanize pr (uint64 (uploadUsefulBytes (ci_stats ci))); pr_humanize pr (uint64 (downloadUsefulBytes (ci_stats ci)))].

Definition eol : bytes := [z2b 10].
Definition tab : bytes := [z2b 9].

Definition writeStatus (pr : printing) : M bytes :=
  t ← gets id;
  state ← state;
  let d := t_data t in
  let size n := pr_humanize pr (uint64 n) in
  mret ((if haveInfo t then bs "Name: " ++ Name (mi_Info d) ++ eol else []) ++
    bs "#DhtAnnounces: " ++ Itoa (numDhtAnnounces t) ++ eol ++
    bs "Tracker: " ++ mi_Announce d ++ tab ++ bs "Announce: " ++
      (match pr_last pr with Some _ => bs "OK" | None => bs "Not Available" end) ++
      tab ++ bs "#AnnouncesSend: " ++ Itoa (numTrackerAnnouncesSend t) ++ eol ++
    match pr_last pr with
    | Some (seeders, leechers, interval) =>
        bs "Seeders: " ++ Itoa seeders ++ tab ++ bs "Leechers: " ++ Itoa seeders ++ tab ++ bs "Interval: " ++ Itoa interval ++
        bs "(secs)" ++ eol
    | None => []
    end ++
    bs "State: " ++ state ++ eol ++
    bs "Downloaded: " ++ size (BytesDownloaded (stats d)) ++ tab ++ bs "Uploaded: " ++ size (BytesUploaded (stats d)) ++ tab ++
      bs "Remaining: " ++ size (BytesLeft (stats d)) ++ eol ++
    bs "Connected to " ++ Itoa (Z.of_nat (t_len t)) ++ bs " peers" ++ eol ++
    tabulate ([bs "Address"; bs "%"; bs "Up"; bs "Down"] ::
      (status_row pr t <$> omap (fun id => t_infos t !! id) (conns t)))).

(** connsIter: until the function returns false. *)
Fixpoint connsIter_loop (f : Z -> M bool) (ks : list nat) : M unit :=
  match ks with
  | [] => mret ()
  | k :: ks => id ← arr_at k; go ← f id; if go : bool then connsIter_loop f ks else mret ()
  end.
Definition connsIter (f : Z -> M bool) : M unit := n ← gets t_len; connsIter_loop f (seq 0 n).

(** ** The exported methods, between lock and unlock *)

Definition do_ {A} (m : M A) (k : A -> prog) : prog := Do (a ← m; mret (k a)).

Definition AddPeers (l : list Peer) (closed : bool) : prog :=
  if closed then Ret (RErr (Some errTorrentClosed))
  else do_ (gotPeers env ip6_String int_of_Inf l) (fun _ => Ret (RErr None)).

Definition Swarm (order : list Peer -> list Peer) : prog := do_ (gets (swarm order)) (fun l => Ret (RPeers l)).

Definition StartDataTransfer_call (closed : bool) : prog :=
  if closed then Ret (RErr (Some errTorrentClosed))
  else do_ (StartDataTransfer env ip6_String int_of_Inf) (fun r => Ret (RErr (errStart <$> r))).

Definition Metainfo_call : prog :=
  do_ (gets t_data) (fun d => Ret (RMeta (mi_Announce d) (mi_InfoBytes d) (mi_Info d))).
Definition Info_call : prog := do_ (gets t_data) (fun d => Ret (RInfo (mi_Info d))).
Definition HaveAllPieces : prog := do_ t_haveAll (fun b => Ret (RBool b)).

Definition Seeding (closed : bool) : prog :=
  if closed then Ret (RBool false) else do_ seeding (fun b => Ret (RBool b)).

Definition Stats_call : prog := do_ (gets t_data) (fun d => Ret (RStats (stats d))).

Definition WriteStatus (pr : printing) : prog := do_ (writeStatus pr) (fun text => Ret (RStatus text)).

(** The pieces are copied under their mutex; the pointer has been read before. *)
Definition Pieces_call : prog :=
  do_ (gets (fun t => pieces_ (t_data t))) (fun p =>
    match p with
    | None => Ret (RPieces None)
    | Some _ =>
        Lock (do_ (gets (fun t => from_option pcs [] (pieces_ (t_data t)))) (fun l =>
          Unlock (Ret (RPieces (Some l)))))
    end).

(** pieces.setDownloadEnabled, which takes the mutex itself. *)
Definition setDownloadEnabled_call (v : bool) (k : prog) : prog :=
  Lock (do_ (p ← get_pieces; mod_data (d_pieces (Some (setDownloadEnabled p v)))) (fun _ => Unlock k)).

Definition setDataDownloadEnable (v : bool) : prog :=
  do_ (gets (fun t => pieces_ (t_data t))) (fun p =>
    match p with
    | None => Ret (RErr (Some errInfoRequired))
    | Some _ =>
        Lock (setDownloadEnabled_call v
          (do_ (p ← get_pieces;
                if Bool.eqb (Pieces.downloadEnabled p) v then mret ()
                else
                  mod_data (d_pieces (Some (setDownloadEnabled p v)));;
                  range_conns (fun id => if v then interested env onDrop id else notInterested env onDrop id);;
                  when v (broadcastToConns env ip6_String int_of_Inf CRequestsAvailable))
             (fun _ => Unlock (Ret (RErr None)))))
    end).

Definition closeWithLock (closed : bool) : prog :=
  if closed then Ret (RErr (Some errTorrentClosed)) else do_ (close env) (fun _ => Ret (RErr None)).

Definition api (c : call) (closed : bool) : prog :=
  match c with
  | CAddPeers l => AddPeers l closed
  | CSwarm order => Swarm order
  | CStartDataTransfer => StartDataTransfer_call closed
  | CMetainfo => Metainfo_call
  | CInfo => Info_call
  | CHaveAllPieces => HaveAllPieces
  | CSeeding => Seeding closed
  | CStats => Stats_call
  | CWriteStatus pr => WriteStatus pr
  | CPieces => Pieces_call
  | CSetDataDownloadEnable v => setDataDownloadEnable v
  | CClose => closeWithLock closed
  end.

(** ** The system *)

(** A call waits in lock, runs, waits in unlock, or has returned. *)
Inductive ustate :=
| ULock (c : call)
| URun (closed : bool) (p : prog)
| UUnlock (r : uresult)
| UDone (r : uresult).

(** The main goroutine is in its select, waits for the end of a call, or has returned. *)
Inductive mstate := MSelect | MServe (u : nat) | MGone.

Record sys := mkSys {
  s_t : torrent;
  s_main : mstate;
  s_users : gmap nat ustate;
  s_pmu : bool;                          (* the mutex of the pieces is locked *)
}.

Definition s_closed (s : sys) : bool := isClosed (t_data (s_t s)).

Definition with_user (u : nat) (x : ustate) (s : sys) : sys :=
  mkSys (s_t s) (s_main s) (<[u := x]> (s_users s)) (s_pmu s).
Definition with_torrent (t : torrent) (s : sys) : sys := mkSys t (s_main s) (s_users s) (s_pmu s).
Definition with_main (m : mstate) (s : sys) : sys := mkSys (s_t s) m (s_users s) (s_pmu s).
Definition with_pmu (b : bool) (s : sys) : sys := mkSys (s_t s) (s_main s) (s_users s) b.

(** A step of the goroutine of the call [u]. The selects of lock and unlock take any case
    that is ready. *)
Inductive ustep (u : nat) : sys -> sys -> Prop :=
| us_lock s c :
    s_users s !! u = Some (ULock c) -> s_main s = MSelect -> s_closed s = false ->
    ustep u s (with_main (MServe u) (with_user u (URun false (api c false)) s))
| us_lock_closed s c :
    s_users s !! u = Some (ULock c) -> s_closed s = true ->
    ustep u s (with_user u (URun true (api c true)) s)
| us_do s cl m k t' :
    s_users s !! u = Some (URun cl (Do m)) -> m (s_t s) = Ok (k, t') ->
    ustep u s (with_torrent t' (with_user u (URun cl k) s))
| us_lockP s cl k :
    s_users s !! u = Some (URun cl (Lock k)) -> s_pmu s = false ->
    ustep u s (with_pmu true (with_user u (URun cl k) s))
| us_unlockP s cl k :
    s_users s !! u = Some (URun cl (Unlock k)) -> s_pmu s = true ->
    ustep u s (with_pmu false (with_user u (URun cl k) s))
| us_ret s cl r :
    s_users s !! u = Some (URun cl (Ret r)) ->
    ustep u s (with_user u (if cl then UDone r else UUnlock r) s)
| us_unlock s r :
    s_users s !! u = Some (UUnlock r) -> s_main s = MServe u ->
    ustep u s (with_main (if s_closed s then MGone else MSelect) (with_user u (UDone r) s))
| us_unlock_closed s r :
    s_users s !! u = Some (UUnlock r) -> s_closed s = true ->
    ustep u s (with_user u (UDone r) s).

Variable sha1_Sum : bytes -> bytes.
Variable openStorage : InfoDict -> list Z -> bool.
Variable SelectorF : S.
Variable outboundIP : bytes.
Abbreviation turn := (mainLoop_turn env ip6_String int_of_Inf sha1_Sum openStorage SelectorF outboundIP).

(** All steps: a user calls, a call goes on, the main loop takes a turn, a connection works
    on the pieces or on the metadata buffers, another goroutine bans an address, a dial ends
    (those that end after the torrent is closed are left out). *)
Inductive sstep : sys -> sys -> Prop :=
| ss_call s u c : s_users s !! u = None -> sstep s (with_user u (ULock c) s)
| ss_user u s s' : ustep u s s' -> sstep s s'
| ss_turn s inp t' :
    s_main s = MSelect -> internal inp = true -> input_ok sha1_Sum (s_t s) inp -> turn inp (s_t s) = Ok ((), t') ->
    sstep s (with_torrent t' s)
| ss_pieces s p p' :
    s_pmu s = false -> pieces_ (t_data (s_t s)) = Some p -> conn_op (tparams_of (t_data (s_t s))) p p' ->
    sstep s (with_torrent (set_data (d_pieces (Some p') (t_data (s_t s))) (s_t s)) s)
| ss_metadata s m :
    sstep s (with_torrent (set_data (d_info (mi_Info (t_data (s_t s)))
      (mkUts m (correctSize (utmetadata (t_data (s_t s))))) (t_data (s_t s))) (s_t s)) s)
| ss_banned s ip : sstep s (with_torrent (set_blackList (blackList (t_dial (s_t s)) ++ [ip]) (s_t s)) s)
| ss_dialed s addr t' :
    s_closed s = false -> removeHalfOpen env ip6_String int_of_Inf addr (s_t s) = Ok ((), t') -> sstep s (with_torrent t' s).

(** The next access of a call panics. *)
Definition user_panics (s : sys) (u : nat) : Prop :=
  exists cl m, s_users s !! u = Some (URun cl (Do m)) /\ forall k t', m (s_t s) <> Ok (k, t').

(** The number of leechers is not printed: the number of seeders is, twice. *)
Theorem leechers_not_printed (t : torrent) humanize other seeders leechers leechers' interval :
  writeStatus (mkPrinting (Some (seeders, leechers, interval)) humanize other) t =
  writeStatus (mkPrinting (Some (seeders, leechers', interval)) humanize other) t.
Proof. reflexivity. Qed.

End exported.
