(* ===== verification/ExportedInv.v ===== *)
(** * Users' calls are atomic for the main goroutine

    The invariant of the system of [Exported]: a call that holds the torrent excludes the main
    loop and the other calls, so that the torrent goes through states that the main loop alone
    could reach; and what happens when a call does not give the torrent back. *)

From S2P Require Import Prelude Strconv Bitfield GoValue BenDecode BenEncode Wire Metainfo Bitmap Piece Pieces.
From S2P Require Import Metadata ConnInfo Swarm SwarmInv Torrent TorrentInv TorrentSafe Conc Exported.

Section exported_inv.
Context {B : Type} `{BitmapLaws B} {S : Type} `{PieceSelector S B} `{SortSliceLaws (Piece B)} `{SortSliceLaws Z}.
Variable env : Env.
Context `{EnvLaws env}.
Variable ip6_String : bytes -> bytes.
Variable int_of_Inf : Z.
Variable sha1_Sum : bytes -> bytes.
Variable openStorage : InfoDict -> list Z -> bool.
Variable SelectorF : S.
Variable outboundIP : bytes.

Variable cfg : config.
Variable info : InfoDict.
Variable ann : bytes.
Variable ib : option bytes.
Hypothesis Hsetup : setup_ok cfg info ib.

Abbreviation torrent := (torrent B S).
Abbreviation prog := (prog terror torrent (uresult B)).
Abbreviation sys := (@sys B S).
Abbreviation tstep := (tstep env ip6_String int_of_Inf sha1_Sum openStorage SelectorF outboundIP).
Abbreviation reachable := (t_reachable env ip6_String int_of_Inf sha1_Sum openStorage SelectorF outboundIP cfg info ann ib).
Abbreviation turn := (mainLoop_turn env ip6_String int_of_Inf sha1_Sum openStorage SelectorF outboundIP).
Abbreviation start := (start env ip6_String int_of_Inf openStorage SelectorF outboundIP).
Abbreviation api := (api env ip6_String int_of_Inf).
Abbreviation ustep := (ustep env ip6_String int_of_Inf).
Abbreviation sstep := (sstep env ip6_String int_of_Inf sha1_Sum openStorage SelectorF outboundIP).
Implicit Types (t : torrent) (p : prog) (s : sys) (u : nat) (b : bool).

(** ** Programs that keep the torrent *)

(** Every access on a reachable torrent returns, leaves it reachable or closes it at the end of
    the program; [b]: the call holds the mutex of the pieces. Unless [live], the program may
    lock the mutex twice, and is stuck. *)
Inductive keeps (live : bool) : bool -> prog -> Prop :=
| kp_ret r : keeps live false (Ret r)
| kp_do b m :
    (forall t, reachable t -> exists k t', m t = Ok (k, t') /\
       (t' = t \/ tstep t t' \/ shut t' /\ b = false /\ exists r, k = Ret r)) ->
    (forall t k t', reachable t -> m t = Ok (k, t') -> ~ shut t' -> keeps live b k) ->
    keeps live b (Do m)
| kp_lock k : keeps live true k -> keeps live false (Lock k)
| kp_unlock k : keeps live false k -> keeps live true (Unlock k)
| kp_stuck k : live = false -> keeps live true (Lock k).

(** Every access on a closed torrent leaves it, and returns, with one exception. *)
Inductive reads : prog -> Prop :=
| rd_ret r : reads (Ret r)
| rd_do m :
    Do m = HaveAllPieces \/ (forall t, shut t -> exists k t', m t = Ok (k, t')) ->
    (forall t k t', shut t -> m t = Ok (k, t') -> t' = t) ->
    (forall t k t', shut t -> m t = Ok (k, t') -> reads k) ->
    reads (Do m).

Lemma keeps_do {A} live b (m : M B S A) (k : A -> prog) :
  (forall t, reachable t -> exists a t', m t = Ok (a, t') /\ (t' = t \/ tstep t t') /\ keeps live b (k a)) ->
  keeps live b (do_ m k).
Proof.
  intros Hm. apply kp_do; unfold mbind, M_bind.
  - intros t (a & t' & E & Ht' & Hk)%Hm. exists (k a), t'. rewrite E. split; [done|]. tauto.
  - intros t q t' (a & t2 & E & _ & Hk)%Hm. rewrite E. by intros [= <- _].
Qed.

Lemma keeps_gets {A} live b (f : torrent -> A) (k : A -> prog) :
  (forall a, keeps live b (k a)) -> keeps live b (do_ (gets f) k).
Proof. intros Hk. apply keeps_do. intros t _. exists (f t), t. split_and!; [done|by left|done]. Qed.

Lemma reads_gets {A} (f : torrent -> A) (k : A -> prog) :
  (forall t, shut t -> reads (k (f t))) -> reads (do_ (gets f) k).
Proof.
  intros Hk. apply rd_do; [right| |].
  - intros t Ht. by eexists _, _.
  - by intros t q t' Ht [= _ <-].
  - intros t q t' Ht [= <- _]. by apply Hk.
Qed.

Lemma exp_reachable_ok t : reachable t -> tor_ok t.
Proof. by apply tor_ok_reachable. Qed.

Lemma reachable_step t t' : reachable t -> tstep t t' -> reachable t'.
Proof. intros (t0 & E & Hr) Hs. exists t0. split; [done|]. by eapply rtc_r. Qed.

(** A turn that leaves the torrent open is a step. *)
Lemma turn_step t inp t' :
  tor_ok t -> input_ok sha1_Sum t inp -> handle env ip6_String int_of_Inf sha1_Sum openStorage SelectorF outboundIP inp t = Ok ((), t') ->
  tor_ok t' -> tstep t t'.
Proof.
  intros Ht Hi E Ht'. apply (ts_turn _ _ _ _ _ _ _ inp); [done| |apply Ht'].
  by rewrite turn_open.
Qed.

Lemma haveAll_reads t : tor_ok t -> exists a, t_haveAll t = Ok (a, t).
Proof. intros Ht. destruct (runs_haveAll t (tk_wf _ Ht)) as (a & t' & E & _ & _ & ->). by exists a. Qed.

Lemma haveAll_inv t a t' : t_haveAll t = Ok (a, t') -> t' = t.
Proof.
  unfold t_haveAll, mbind, M_bind, gets, get_pieces. destruct (negb (haveInfo t)); [by intros [= _ <-]|].
  destruct (pieces_ _); [by intros [= _ <-]|done].
Qed.

Lemma writeStatus_reads pr t : (isClosed (t_data t) = true \/ exists a, t_haveAll t = Ok (a, t)) -> exists text, writeStatus ip6_String pr t = Ok (text, t).
Proof.
  intros Hr. unfold writeStatus, state, seeding, mbind, M_bind, gets, mret, M_ret. change (id t) with t.
  destruct (isClosed (t_data t)); [by eexists|]. destruct Hr as [?|[a E]]; [done|]. rewrite E. destruct a; by eexists.
Qed.

Lemma writeStatus_inv pr t text t' : writeStatus ip6_String pr t = Ok (text, t') -> t' = t.
Proof.
  unfold writeStatus, state, seeding, mbind, M_bind, gets, mret, M_ret. change (id t) with t.
  destruct (isClosed (t_data t)); [by intros [= _ <-]|]. destruct (t_haveAll t) as [[a t1]| |] eqn:E; [|done..].
  apply haveAll_inv in E as ->. destruct a; by intros [= _ <-].
Qed.

Lemma api_keeps c : keeps (match c with CSetDataDownloadEnable _ => false | _ => true end) false (api c false).
Proof.
  destruct c; cbn [Exported.api].
  - apply keeps_do. intros t Hr. pose proof (exp_reachable_ok _ Hr) as Ht.
    destruct (okay_runs_True _ _ _ Ht (run_gotPeers env ip6_String int_of_Inf l t (tk_wf _ Ht))) as ([] & t' & E & Ht').
    exists (), t'. split_and!; [done| |constructor]. right. by apply (turn_step t (InAddPeers l)).
  - apply keeps_gets. constructor.
  - apply keeps_do. intros t Hr. pose proof (exp_reachable_ok _ Hr) as Ht.
    destruct (okay_start env ip6_String int_of_Inf t Ht) as (r & t' & E & Ht').
    exists r, t'. split_and!; [done| |constructor]. right. apply (turn_step t InStartDataTransfer); [done|done| |done].
    cbn [handle]. unfold mbind, M_bind. by rewrite E.
  - apply keeps_gets. constructor.
  - apply keeps_gets. constructor.
  - apply keeps_do. intros t Hr%exp_reachable_ok. destruct (haveAll_reads t Hr) as [a E]. exists a, t. split_and!; [done|by left|constructor].
  - apply keeps_do. intros t Hr%exp_reachable_ok. destruct (haveAll_reads t Hr) as [a E]. unfold seeding, mbind, M_bind. rewrite E.
    destruct a; eexists _, t; (split_and!; [done|by left|constructor]).
  - apply keeps_gets. constructor.
  - apply keeps_do. intros t Hr%exp_reachable_ok. destruct (writeStatus_reads pr t) as [text E]; [right; by apply haveAll_reads|].
    exists text, t. split_and!; [done|by left|constructor].
  - apply keeps_gets. intros [q|]; [|constructor]. apply kp_lock, keeps_gets. intros l. apply kp_unlock. constructor.
  - apply keeps_gets. intros [q|]; [|constructor]. apply kp_lock. by apply kp_stuck.
  - apply kp_do; intros t.
    + intros Hr%exp_reachable_ok. destruct (okay_close env t (tk_open _ Hr) (wf_dht _ (tk_wf _ Hr))) as ([] & t' & E & Hs).
      eexists _, t'. split; [unfold mbind, M_bind; by rewrite E|]. right. right. split_and!; [done|done|by eexists].
    + intros k t' Hr%exp_reachable_ok. destruct (okay_close env t (tk_open _ Hr) (wf_dht _ (tk_wf _ Hr))) as ([] & t2 & E & Hs).
      unfold mbind, M_bind. rewrite E. by intros [= <- _] _; constructor.
Qed.

Lemma api_reads c : reads (api c true).
Proof.
  destruct c; cbn [Exported.api]; try apply rd_ret.
  - by apply reads_gets; constructor.
  - by apply reads_gets; constructor.
  - by apply reads_gets; constructor.
  - apply rd_do; [by left| |]; intros t k t' _; unfold mbind, M_bind; (destruct (t_haveAll t) as [[a t2]| |] eqn:E; [|done..]).
    + intros [= _ <-]. by eapply haveAll_inv.
    + intros [= <- _]. constructor.
  - by apply reads_gets; constructor.
  - apply rd_do; [right| |]; unfold mbind, M_bind.
    + intros t (Hc & _). destruct (writeStatus_reads pr t) as [text E]; [by left|]. rewrite E. by eexists _, _.
    + intros t k t' _. destruct (writeStatus ip6_String pr t) as [[text t2]| |] eqn:E; [|done..]. intros [= _ <-]. by eapply writeStatus_inv.
    + intros t k t' _. destruct (writeStatus ip6_String pr t) as [[text t2]| |] eqn:E; [|done..]. intros [= <- _]. constructor.
  - apply reads_gets. intros t (_ & -> & _). constructor.
  - apply reads_gets. intros t (_ & -> & _). constructor.
Qed.

Lemma shut_turn t inp t' :
  tor_ok t -> input_ok sha1_Sum t inp -> turn inp t = Ok ((), t') -> tor_ok t' /\ tstep t t' \/ shut t'.
Proof.
  intros Ht Hi E. destruct (okay_turn env ip6_String int_of_Inf sha1_Sum openStorage SelectorF outboundIP inp t Ht Hi) as (a & t2 & E2 & Hok).
  rewrite E in E2. injection E2 as _ <-. destruct Hok as [Hok|[? _]]; [left|by right]. split; [done|].
  apply (ts_turn _ _ _ _ _ _ _ inp); [done|done|apply Hok].
Qed.

(** ** The invariant of the system *)

Record sys_ok s : Prop := mkSysOk {
  so_open : s_closed s = false -> reachable (s_t s);
  so_shut : s_closed s = true -> shut (s_t s);
  so_run : forall u cl p, s_users s !! u = Some (URun cl p) ->
    (cl = false -> s_main s = MServe u) /\
    if s_closed s then reads p else cl = false /\ keeps false (s_pmu s) p;
  so_unlock : forall u r, s_users s !! u = Some (UUnlock r) -> s_main s = MServe u /\ s_pmu s = false;
  so_serve : forall u, s_main s = MServe u -> s_closed s = false ->
    exists x, s_users s !! u = Some x /\ ((exists p, x = URun false p) \/ exists r, x = UUnlock r);
  so_pmu : s_closed s = true \/ s_main s = MSelect -> s_pmu s = false;
  so_gone : s_main s = MGone -> s_closed s = true;
}.

Definition s_reachable s : Prop :=
  exists t0, start (newTorrent cfg info ann ib) = Ok ((), t0) /\ rtc sstep (mkSys t0 MSelect ∅ false) s.

Lemma keeps_weaken live b p : keeps live b p -> keeps false b p.
Proof. induction 1 as [r|b m Hm _ IH|k _ IH|k _ IH|k _]; by constructor. Qed.

Lemma open_run s u cl p : sys_ok s -> s_closed s = false -> s_users s !! u = Some (URun cl p) ->
  cl = false /\ s_main s = MServe u /\ keeps false (s_pmu s) p.
Proof. intros Hs Hc Hu. destruct (so_run _ Hs _ _ _ Hu) as [Hm Hk]. rewrite Hc in Hk. destruct Hk. auto. Qed.

Lemma closed_run s u cl p : sys_ok s -> s_closed s = true -> s_users s !! u = Some (URun cl p) ->
  (cl = false -> s_main s = MServe u) /\ reads p.
Proof. intros Hs Hc Hu. destruct (so_run _ Hs _ _ _ Hu) as [Hm Hk]. by rewrite Hc in Hk. Qed.

Lemma tor_ok_not_shut t : tor_ok t -> ~ shut t.
Proof. intros Ht [Hc _]. rewrite (tk_open _ Ht) in Hc. done. Qed.

(** Case analysis on whether a user is the one that has moved. *)
Ltac ucase :=
  match goal with
  | H : <[?u := _]> _ !! ?v = Some _ |- _ =>
      destruct (decide (v = u)) as [->|]; [rewrite lookup_insert_eq in H|rewrite lookup_insert_ne in H by done]
  end; simplify_eq.

(** A component of the invariant. *)
Ltac ok H :=
  solve [eapply (so_open _ H); eauto|eapply (so_shut _ H); eauto|eapply (so_run _ H); eauto|eapply (so_unlock _ H); eauto|
         eapply (so_serve _ H); eauto|eapply (so_pmu _ H); eauto|eapply (so_gone _ H); eauto].

Lemma ok_call s u c : sys_ok s -> s_users s !! u = None -> sys_ok (with_user u (ULock c) s).
Proof.
  intros Hs Hu. constructor; try ok Hs; cbn [s_users s_main s_pmu with_user].
  - intros v cl p Hv. ucase. ok Hs.
  - intros v r Hv. ucase. ok Hs.
  - intros v Hm Hc. destruct (so_serve _ Hs v Hm Hc) as (x & Hx & Hk). exists x. split; [|done].
    rewrite lookup_insert_ne; [done|]. intros ->. congruence.
Qed.

Lemma ok_lock s u c : sys_ok s -> s_users s !! u = Some (ULock c) -> s_main s = MSelect -> s_closed s = false ->
  sys_ok (with_main (MServe u) (with_user u (URun false (api c false)) s)).
Proof.
  intros Hs Hu Hm Hc. pose proof (so_pmu _ Hs (or_intror Hm)) as Hp.
  constructor; unfold s_closed; cbn [s_t s_users s_main s_pmu with_user with_main].
  - ok Hs.
  - ok Hs.
  - fold (s_closed s). rewrite Hc, Hp. intros v cl p Hv. ucase.
    + split_and!; [done|done|]. eapply keeps_weaken, api_keeps.
    + destruct (open_run _ _ _ _ Hs Hc Hv) as (_ & ? & _). congruence.
  - intros v r Hv. ucase. destruct (so_unlock _ Hs _ _ Hv). congruence.
  - intros v [= <-] _. eexists. rewrite lookup_insert_eq. split; [done|]. left. by eexists.
  - done.
  - done.
Qed.

Lemma ok_lock_closed s u c : sys_ok s -> s_users s !! u = Some (ULock c) -> s_closed s = true ->
  sys_ok (with_user u (URun true (api c true)) s).
Proof.
  intros Hs Hu Hc. constructor; try ok Hs; unfold s_closed; cbn [s_t s_users s_main s_pmu with_user].
  - fold (s_closed s). rewrite Hc. intros v cl p Hv. ucase; [split; [done|apply api_reads]|]. by apply closed_run.
  - intros v r Hv. ucase. ok Hs.
  - fold (s_closed s). congruence.
Qed.

(** The torrent after a step that leaves the calls alone. *)
Lemma ok_torrent s t' : sys_ok s -> s_closed s = false -> reachable t' -> sys_ok (with_torrent t' s).
Proof.
  intros Hs Hc Hr. pose proof (tk_open _ (exp_reachable_ok _ Hr)) as Ho.
  constructor; unfold s_closed; cbn [s_t s_users s_main s_pmu with_torrent]; try done.
  - congruence.
  - rewrite Ho. intros v cl p Hv. destruct (open_run _ _ _ _ Hs Hc Hv) as (? & ? & ?). auto.
  - ok Hs.
  - intros u Hm _. ok Hs.
  - rewrite Ho. intros [?|Hm]; [done|]. apply (so_pmu _ Hs). by right.
  - intros Hm. pose proof (so_gone _ Hs Hm). congruence.
Qed.

Lemma ok_torrent_shut s t' : sys_ok s -> s_closed s = true -> shut t' -> sys_ok (with_torrent t' s).
Proof.
  intros Hs Hc Hsh. destruct Hsh as (Hc' & Hp & Hl). constructor; unfold s_closed; cbn [s_t s_users s_main s_pmu with_torrent]; rewrite ?Hc'; try done.
  - intros u cl p Hu. by apply (closed_run s).
  - ok Hs.
  - intros _. apply (so_pmu _ Hs). by left.
Qed.

(** A call that goes on from [p] to [k]. *)
Lemma ok_next s u cl p k : sys_ok s -> s_users s !! u = Some (URun cl p) ->
  (if s_closed s then reads k else keeps false (s_pmu s) k) -> sys_ok (with_user u (URun cl k) s).
Proof.
  intros Hs Hu Hk. constructor; try ok Hs; unfold s_closed in *; cbn [s_t s_users s_main s_pmu with_user].
  - intros v c q Hv. ucase; [|ok Hs]. destruct (so_run _ Hs _ _ _ Hu) as [Hm Hp]. unfold s_closed in Hp.
    split; [done|]. destruct (isClosed _); [done|]. by destruct Hp.
  - intros v r Hv. ucase. ok Hs.
  - intros v Hm Hc. destruct (decide (v = u)) as [->|Hne].
    + eexists. rewrite lookup_insert_eq. split; [done|]. left.
      destruct (open_run _ _ _ _ Hs Hc Hu) as (-> & _). by eexists.
    + rewrite lookup_insert_ne by done. ok Hs.
Qed.

Lemma ok_do s u cl m k t' : sys_ok s -> s_users s !! u = Some (URun cl (Do m)) -> m (s_t s) = Ok (k, t') ->
  sys_ok (with_torrent t' (with_user u (URun cl k) s)).
Proof.
  intros Hs Hu E. destruct (s_closed s) eqn:Hc.
  - destruct (closed_run _ _ _ _ Hs Hc Hu) as [_ Hr]. inversion Hr as [|m' _ Hsame Hnext]; simplify_eq.
    pose proof (Hnext _ _ _ (so_shut _ Hs Hc) E) as Hk. rewrite (Hsame _ _ _ (so_shut _ Hs Hc) E). eapply (ok_next _ _ _ _ k) in Hu; [|done|by rewrite Hc].
    by destruct s.
  - destruct (open_run _ _ _ _ Hs Hc Hu) as (-> & Hmain & Hk). pose proof (so_open _ Hs Hc) as Hr.
    inversion Hk as [|b m' Hm Hnext| | |]; simplify_eq. destruct (Hm _ Hr) as (k' & t2 & E2 & Hcase). rewrite E in E2. injection E2 as <- <-.
    assert (Hgo : reachable t' -> sys_ok (with_torrent t' (with_user u (URun false k) s))).
    { intros Hr'. apply ok_torrent; [|done|done]. eapply ok_next; [done|exact Hu|]. rewrite Hc.
      eapply Hnext; [exact Hr|exact E|]. by apply tor_ok_not_shut, exp_reachable_ok. }
    destruct Hcase as [->|[Hst|(Hsh & Hb & r & ->)]]; [by apply Hgo|by apply Hgo; eapply reachable_step|].
    constructor; unfold s_closed; cbn [s_t s_users s_main s_pmu with_torrent with_user]; try done.
    + destruct Hsh as [-> _]. done.
    + destruct Hsh as [-> _]. intros v cl p Hv. ucase; [split; [done|constructor]|].
      destruct (open_run _ _ _ _ Hs Hc Hv) as (_ & Hm' & _). congruence.
    + intros v r' Hv. ucase. ok Hs.
    + destruct Hsh as [-> _]. done.
    + congruence.
Qed.

Lemma ok_lockP s u cl k : sys_ok s -> s_users s !! u = Some (URun cl (Lock k)) -> s_pmu s = false ->
  sys_ok (with_pmu true (with_user u (URun cl k) s)).
Proof.
  intros Hs Hu Hp. destruct (s_closed s) eqn:Hc.
  { destruct (closed_run _ _ _ _ Hs Hc Hu) as [_ Hr]. inversion Hr. }
  destruct (open_run _ _ _ _ Hs Hc Hu) as (-> & Hmain & Hk). rewrite Hp in Hk. inversion Hk as [| |k' Hk'| |]; simplify_eq.
  constructor; unfold s_closed; cbn [s_t s_users s_main s_pmu with_pmu with_user]; fold (s_closed s).
  - ok Hs.
  - ok Hs.
  - rewrite Hc. intros v cl p Hv. ucase; [done|]. destruct (open_run _ _ _ _ Hs Hc Hv) as (_ & ? & _). congruence.
  - intros v r Hv. ucase. destruct (so_unlock _ Hs _ _ Hv). congruence.
  - intros v Hm _. rewrite Hmain in Hm. injection Hm as <-. eexists. rewrite lookup_insert_eq. split; [done|]. left. by eexists.
  - rewrite Hc, Hmain. by intros [|].
  - ok Hs.
Qed.

Lemma ok_unlockP s u cl k : sys_ok s -> s_users s !! u = Some (URun cl (Unlock k)) -> s_pmu s = true ->
  sys_ok (with_pmu false (with_user u (URun cl k) s)).
Proof.
  intros Hs Hu Hp. destruct (s_closed s) eqn:Hc.
  { destruct (closed_run _ _ _ _ Hs Hc Hu) as [_ Hr]. inversion Hr. }
  destruct (open_run _ _ _ _ Hs Hc Hu) as (-> & Hmain & Hk). rewrite Hp in Hk. inversion Hk as [| | |k' Hk'|]; simplify_eq.
  constructor; unfold s_closed; cbn [s_t s_users s_main s_pmu with_pmu with_user]; fold (s_closed s).
  - ok Hs.
  - ok Hs.
  - rewrite Hc. intros v cl p Hv. ucase; [done|]. destruct (open_run _ _ _ _ Hs Hc Hv) as (_ & ? & _). congruence.
  - intros v r Hv. ucase. by destruct (so_unlock _ Hs _ _ Hv).
  - intros v Hm _. rewrite Hmain in Hm. injection Hm as <-. eexists. rewrite lookup_insert_eq. split; [done|]. left. by eexists.
  - done.
  - ok Hs.
Qed.

Lemma ok_ret s u cl r : sys_ok s -> s_users s !! u = Some (URun cl (Ret r)) ->
  sys_ok (with_user u (if cl then UDone r else UUnlock r) s).
Proof.
  intros Hs Hu. constructor; try ok Hs; unfold s_closed; cbn [s_t s_users s_main s_pmu with_user]; fold (s_closed s).
  - intros v c q Hv. destruct cl; ucase; ok Hs.
  - intros v r' Hv. destruct cl; ucase; try ok Hs. destruct (so_run _ Hs _ _ _ Hu) as [Hm Hk]. split; [by apply Hm|].
    destruct (s_closed s) eqn:Hc; [apply (so_pmu _ Hs); by left|]. destruct Hk as [_ Hk]. by inversion Hk.
  - intros v Hm Hc. destruct (decide (v = u)) as [->|Hne].
    + destruct (open_run _ _ _ _ Hs Hc Hu) as (-> & _). eexists. rewrite lookup_insert_eq. split; [done|]. right. by eexists.
    + rewrite lookup_insert_ne by done. ok Hs.
Qed.

Lemma ok_unlock s u r : sys_ok s -> s_users s !! u = Some (UUnlock r) -> s_main s = MServe u ->
  sys_ok (with_main (if s_closed s then MGone else MSelect) (with_user u (UDone r) s)).
Proof.
  intros Hs Hu Hm. destruct (so_unlock _ Hs _ _ Hu) as [_ Hp].
  assert (Hother : forall v, v <> u -> s_main s <> MServe v) by congruence.
  constructor; unfold s_closed; cbn [s_t s_users s_main s_pmu with_user with_main]; fold (s_closed s); try ok Hs.
  - intros v cl p Hv. ucase. destruct (so_run _ Hs _ _ _ Hv) as [Hcl Hk]. split; [|done].
    intros ->. by destruct (Hother v ltac:(done)); apply Hcl.
  - intros v r' Hv. ucase. destruct (so_unlock _ Hs _ _ Hv) as [Hv' _]. by destruct (Hother v).
  - intros v. by destruct (s_closed s).
  - done.
  - by destruct (s_closed s).
Qed.

Lemma ok_unlock_closed s u r : sys_ok s -> s_users s !! u = Some (UUnlock r) -> s_closed s = true ->
  sys_ok (with_user u (UDone r) s).
Proof.
  intros Hs Hu Hc. constructor; try ok Hs; unfold s_closed; cbn [s_t s_users s_main s_pmu with_user]; fold (s_closed s).
  - intros v cl p Hv. ucase. ok Hs.
  - intros v r' Hv. ucase. ok Hs.
  - congruence.
Qed.

Lemma ok_ustep u s s' : sys_ok s -> ustep u s s' -> sys_ok s'.
Proof.
  intros Hs. destruct 1; [by apply ok_lock|by apply ok_lock_closed|by eapply ok_do|by apply ok_lockP|by apply ok_unlockP|
    by apply ok_ret|by apply ok_unlock|by apply ok_unlock_closed].
Qed.

Lemma ok_sstep s s' : sys_ok s -> sstep s s' -> sys_ok s'.
Proof.
  intros Hs. destruct 1 as [s u c Hu|u s s' Hu|s inp t' Hm _ Hi E|s p p' Hp Hpc Hop|s m|s ip|s addr t' Hc E].
  - by apply ok_call.
  - by eapply ok_ustep.
  - assert (Hc : s_closed s = false).
    { by apply turn_Ok in E as [? _]. }
    pose proof (so_open _ Hs Hc) as Hr. destruct (shut_turn _ _ _ (exp_reachable_ok _ Hr) Hi E) as [[Ht' Hst]|Hsh].
    { apply ok_torrent; [done|done|]. by eapply reachable_step. }
    pose proof Hsh as [Hcl _]. assert (Hnone : forall u cl p, s_users s !! u <> Some (URun cl p)).
    { intros u cl p Hu. destruct (open_run _ _ _ _ Hs Hc Hu) as (_ & ? & _). congruence. }
    constructor; unfold s_closed; cbn [s_t s_users s_main s_pmu with_torrent]; try done.
    + rewrite Hcl. done.
    + intros u cl p Hu. by destruct (Hnone u cl p).
    + ok Hs.
    + rewrite Hcl. done.
    + intros _. apply (so_pmu _ Hs). by right.
  - assert (Hc : s_closed s = false).
    { destruct (s_closed s) eqn:Hc; [|done]. destruct (so_shut _ Hs Hc) as (_ & Hn & _). congruence. }
    apply ok_torrent; [done|done|]. eapply reachable_step; [ok Hs|]. eapply ts_pieces; [exact Hpc|exact Hop].
  - destruct (s_closed s) eqn:Hc; [apply ok_torrent_shut; [done|done|]|].
    + by destruct (so_shut _ Hs Hc) as (? & ? & ?).
    + apply ok_torrent; [done|done|]. eapply reachable_step; [ok Hs|]. apply ts_metadata.
  - destruct (s_closed s) eqn:Hc; [apply ok_torrent_shut; [done|done|]|].
    + by destruct (so_shut _ Hs Hc) as (? & ? & ?).
    + apply ok_torrent; [done|done|]. eapply reachable_step; [ok Hs|]. apply ts_banned.
  - apply ok_torrent; [done|done|]. eapply reachable_step; [ok Hs|]. by eapply ts_dialed.
Qed.

Lemma ok_init t0 : start (newTorrent cfg info ann ib) = Ok ((), t0) -> sys_ok (mkSys t0 MSelect ∅ false).
Proof.
  intros E. assert (Hr : reachable t0) by (exists t0; split; [done|apply rtc_refl]).
  pose proof (tk_open _ (exp_reachable_ok _ Hr)) as Ho.
  constructor; unfold s_closed; cbn [s_t s_users s_main s_pmu]; try done; congruence.
Qed.

Lemma ok_rtc s s' : sys_ok s -> rtc sstep s s' -> sys_ok s'.
Proof. intros Hs. induction 1 as [|x y z Hxy _ IH]; [done|]. by apply IH, (ok_sstep x). Qed.

Lemma reachable_sys s : s_reachable s -> sys_ok s.
Proof. intros (t0 & E & Hr). eapply ok_rtc; [by apply ok_init|done]. Qed.

Lemma haveAll_fails t : (forall a t', t_haveAll t <> Ok (a, t')) -> haveInfo t = true.
Proof.
  intros Hf. destruct (haveInfo t) eqn:Hi; [done|]. exfalso. apply (Hf false t).
  unfold t_haveAll, mbind, M_bind, gets. by rewrite Hi.
Qed.

(** ** Running a call to its end *)

Lemma rtc_ustep u s s' : rtc (ustep u) s s' -> rtc sstep s s'.
Proof. induction 1 as [|x y z Hxy _ IH]; [done|]. eapply rtc_l; [eapply ss_user; exact Hxy|done]. Qed.

Lemma run_to_unlock live b p : keeps live b p -> live = true -> forall s u,
  sys_ok s -> s_users s !! u = Some (URun false p) -> s_closed s = false -> s_pmu s = b ->
  exists s' r, rtc (ustep u) s s' /\ s_users s' !! u = Some (UUnlock r) /\ s_main s' = s_main s.
Proof.
  induction 1 as [r|b m Hm Hnext IH|k _ IH|k _ IH|k Hl]; intros Hlive s u Hs Hu Hc Hp.
  - eexists _, r. split; [apply rtc_once, (us_ret env ip6_String int_of_Inf u s false r Hu)|]. cbn. by rewrite lookup_insert_eq.
  - destruct (Hm _ (so_open _ Hs Hc)) as (k & t' & E & Hcase).
    pose proof (us_do env ip6_String int_of_Inf u s false m k t' Hu E) as Hst. pose proof (ok_ustep _ _ _ Hs Hst) as Hs'.
    set (s1 := with_torrent t' (with_user u (URun false k) s)) in *.
    assert (Hu1 : s_users s1 !! u = Some (URun false k)) by (cbn; by rewrite lookup_insert_eq).
    destruct (s_closed s1) eqn:Hc1.
    + destruct Hcase as [->|[Hst'|(_ & _ & r & ->)]].
      * change (s_closed s = true) in Hc1. congruence.
      * pose proof (tk_open _ (exp_reachable_ok _ (reachable_step _ _ (so_open _ Hs Hc) Hst'))) as Ho.
        change (isClosed (t_data t') = true) in Hc1. congruence.
      * eexists _, r. split; [eapply rtc_l; [exact Hst|]; apply rtc_once, (us_ret env ip6_String int_of_Inf u s1 false r Hu1)|].
        cbn. by rewrite lookup_insert_eq.
    + destruct (IH (s_t s) k t' (so_open _ Hs Hc) E) with (s := s1) (u := u) as (s' & r & Hr & Hu' & Hm'); try done.
      { apply tor_ok_not_shut, exp_reachable_ok, (so_open _ Hs' Hc1). }
      exists s', r. split; [by eapply rtc_l|]. by rewrite Hm'.
  - pose proof (us_lockP env ip6_String int_of_Inf u s false k Hu Hp) as Hst.
    destruct (IH Hlive (with_pmu true (with_user u (URun false k) s)) u) as (s' & r & Hr & Hu' & Hm'); try done.
    + by eapply ok_ustep.
    + cbn. by rewrite lookup_insert_eq.
    + exists s', r. split; [by eapply rtc_l|]. by rewrite Hm'.
  - pose proof (us_unlockP env ip6_String int_of_Inf u s false k Hu Hp) as Hst.
    destruct (IH Hlive (with_pmu false (with_user u (URun false k) s)) u) as (s' & r & Hr & Hu' & Hm'); try done.
    + by eapply ok_ustep.
    + cbn. by rewrite lookup_insert_eq.
    + exists s', r. split; [by eapply rtc_l|]. by rewrite Hm'.
  - congruence.
Qed.

(** A call that gets the lock and does not lock the mutex twice waits to unlock in the end. *)
Lemma call_to_unlock s u c :
  sys_ok s -> s_users s !! u = Some (ULock c) -> s_main s = MSelect -> s_closed s = false ->
  (forall v, c <> CSetDataDownloadEnable v) ->
  exists s' r, rtc (ustep u) s s' /\ sys_ok s' /\ s_users s' !! u = Some (UUnlock r) /\ s_main s' = MServe u.
Proof.
  intros Hs Hu Hm Hc Hne. pose proof (us_lock env ip6_String int_of_Inf u s c Hu Hm Hc) as Hst.
  set (s1 := with_main (MServe u) (with_user u (URun false (api c false)) s)) in *.
  pose proof (ok_ustep _ _ _ Hs Hst) as Hs1. pose proof (api_keeps c) as Hk.
  replace (match c with CSetDataDownloadEnable _ => false | _ => true end) with true in Hk by (destruct c; try done; by destruct (Hne v)).
  destruct (run_to_unlock _ _ _ Hk eq_refl s1 u Hs1) as (s' & r & Hr & Hu' & Hm'); [by cbn; rewrite lookup_insert_eq|done|by apply (so_pmu _ Hs); right|].
  assert (Hr' : rtc (ustep u) s s') by (by eapply rtc_l). exists s', r. split_and!; [done| |done|by rewrite Hm'].
  eapply ok_rtc; [exact Hs|]. by eapply rtc_ustep.
Qed.

(** ** Theorems *)



(** C39: EnableDataDownload and DisableDataDownload deadlock a torrent that has its info: the call
    locks the mutex of the pieces twice. It never returns, and the main goroutine never
    leaves the wait for it. *)
Theorem setDataDownloadEnable_deadlock s u v pc :
  s_reachable s -> s_users s !! u = Some (ULock (CSetDataDownloadEnable v)) -> s_main s = MSelect ->
  pieces_ (t_data (s_t s)) = Some pc ->
  exists s', rtc (ustep u) s s' /\ forall s'', rtc sstep s' s'' ->
    s_main s'' = MServe u /\ s_closed s'' = false /\ forall r, s_users s'' !! u <> Some (UDone r).
Proof.
  intros Hs%reachable_sys Hu Hm Hpc. assert (Hc : s_closed s = false).
  { destruct (s_closed s) eqn:Hc; [|done]. destruct (so_shut _ Hs Hc) as (_ & Hn & _). congruence. }
  pose proof (so_pmu _ Hs (or_intror Hm)) as Hp.
  pose (stuck := fun s : sys => sys_ok s /\ s_main s = MServe u /\ s_closed s = false /\ s_pmu s = true /\
    exists k, s_users s !! u = Some (URun false (Lock k))).
  assert (Hstep : forall x y, stuck x -> sstep x y -> stuck y).
  { intros x y (Hx & Hxm & Hxc & Hxp & k & Hxu) Hxy. pose proof (ok_sstep _ _ Hx Hxy) as Hy. split; [done|].
    destruct Hxy as [x w c Hw|w x y Hw|x inp t' Hm' _ _ _|x q q' Hq|x m|x ip|x addr t' Hc' E];
      [| |congruence|congruence|split_and!; try done; by exists k..|].
    - split_and!; [done|done|done|]. exists k. cbn. rewrite lookup_insert_ne; [done|]. intros ->. congruence.
    - assert (Hrun : forall cl q, s_users x !! w = Some (URun cl q) -> w = u).
      { intros cl q Hq. destruct (open_run _ _ _ _ Hx Hxc Hq) as (_ & Hq' & _). congruence. }
      destruct Hw as [x c Hw|x c Hw|x cl m q t' Hw E|x cl q Hw|x cl q Hw|x cl r Hw|x r Hw Hw'|x r Hw]; try congruence;
        pose proof (Hrun _ _ Hw); congruence.
    - split_and!; try done; [|by exists k]. apply (tk_open t'), exp_reachable_ok. eapply reachable_step; [by apply (so_open _ Hx)|by eapply ts_dialed]. }
  eexists. split.
  - eapply rtc_l; [by apply us_lock|]. eapply rtc_l; [eapply us_do; [cbn; by rewrite lookup_insert_eq|]|].
    { cbn [s_t with_main with_user]. unfold mbind, M_bind, gets. rewrite Hpc. reflexivity. }
    apply rtc_once. eapply us_lockP; [cbn; by rewrite lookup_insert_eq|done].
  - match goal with |- forall _, rtc _ ?x _ -> _ => set (s1 := x) end. assert (Hst : stuck s1).
    { split_and!; [|done|done|done|eexists; cbn; by rewrite lookup_insert_eq]. unfold s1.
      eapply ok_ustep; [|eapply us_lockP; [cbn; by rewrite lookup_insert_eq|done]]. eapply ok_ustep.
      - by eapply ok_lock.
      - eapply us_do; [cbn; by rewrite lookup_insert_eq|]. cbn [s_t with_main with_user]. unfold mbind, M_bind, gets. rewrite Hpc. reflexivity. }
    intros s'' Hr. clearbody s1. induction Hr as [x|x y z Hxy _ IH]; [|by apply IH, (Hstep x)].
    destruct Hst as (_ & Hxm & Hxc & _ & k & Hk). split_and!; [done|done|]. intros r. rewrite Hk. done.
Qed.

(** Close can leave the main goroutine behind for ever: its unlock may see the closed torrent
    instead of answering, and then no step of any goroutine ends the wait of the main
    goroutine. *)
Theorem close_may_leak s u :
  s_reachable s -> s_users s !! u = Some (ULock CClose) -> s_main s = MSelect -> s_closed s = false ->
  exists s', rtc (ustep u) s s' /\ s_users s' !! u = Some (UDone (RErr None)) /\ s_closed s' = true /\
    forall s'', rtc sstep s' s'' -> s_main s'' = MServe u.
Proof.
  intros Hs%reachable_sys Hu Hm Hc. pose proof (exp_reachable_ok _ (so_open _ Hs Hc)) as Ht.
  destruct (okay_close env (s_t s) (tk_open _ Ht) (wf_dht _ (tk_wf _ Ht))) as ([] & t' & E & Hsh).
  pose (left := fun s : sys => s_main s = MServe u /\ exists r, s_users s !! u = Some (UDone r)).
  assert (Hstep : forall x y, left x -> sstep x y -> left y).
  { intros x y [Hxm [r Hxu]] Hxy. destruct Hxy as [x w c Hw|w x y Hw|x inp t2 Hm' _ _ _|x q q' _ _ _|x m|x ip|x addr t2 _ _]; [| |congruence|split; [done|by exists r]..].
    - split; [done|]. exists r. cbn. rewrite lookup_insert_ne; [done|]. intros ->. congruence.
    - assert (Hne : w <> u) by (intros ->; destruct Hw; congruence).
      destruct Hw; try congruence; (split; [done|]; exists r; cbn; by rewrite lookup_insert_ne). }
  eexists. split_and!.
  - eapply rtc_l; [by apply us_lock|]. eapply rtc_l; [eapply us_do; [cbn; by rewrite lookup_insert_eq|]|].
    { cbn [s_t with_main with_user]. unfold mbind, M_bind. rewrite E. reflexivity. }
    eapply rtc_l; [eapply us_ret; cbn; by rewrite lookup_insert_eq|].
    apply rtc_once. eapply us_unlock_closed; [cbn; by rewrite lookup_insert_eq|]. apply Hsh.
  - cbn. by rewrite lookup_insert_eq.
  - apply Hsh.
  - match goal with |- forall _, rtc _ ?x _ -> _ => set (s1 := x) end.
    assert (Hl : left s1) by (split; [done|eexists; cbn; by rewrite lookup_insert_eq]).
    intros s'' Hr. clearbody s1. induction Hr as [x|x y z Hxy _ IH]; [apply Hl|by apply IH, (Hstep x)].
Qed.

End exported_inv.
