(* ===== verification/Conn.v ===== *)
(** * torrent/conn.go: a connection to a peer

    The goroutine of a connection: what it does with the commands of its torrent and
    with the messages of the peer, and the reader goroutine's filter. Its own state is a
    record; the pieces, the metadata buffers and the storage are shared with other
    goroutines. What the goroutine does not decide is a schedule: the cases that its
    selects take while it waits to hand a message to the torrent, what other goroutines
    do to the shared state meanwhile, and which writes to the socket fail. *)

From S2P Require Import Prelude Strconv Bitfield GoValue BenDecode BenEncode Wire Metainfo Bitmap Piece Pieces Storage.
From S2P Require Import Metadata ConnInfo Torrent.

#[global] Instance block_countable : Countable block :=
  inj_countable' (fun b => (b_pc b, b_off b, b_len b)) (fun '(p, o, l) => mkBlock p o l) ltac:(by intros []).

Definition maxOnFlight : Z := 20.

Section conn.
Context {B : Type} `{BitmapOps B} {S : Type} `{PieceSelector S B} `{SortSlice (Piece.Piece B)}.

(** ** State *)

Record conn := mkConn {
  c_state : connState;
  c_lastMsg : option (tmsg B);
  c_ban : bool;
  c_peerReqs : gset block;
  c_reqsMap : nat;                        (* which map peerReqs is: a choke makes a new one *)
  c_onFlightReqs : gset block;
  c_haveInfo : bool;
  numMetadataRespSent : Z;
  metadataTicking : bool;                 (* metadataRequestTicker has a channel *)
  metadataRejectedBlocks : list Z;
  metadataPendingBlocks : gset Z;
  metadataSize : Z;
  c_exts : option (list (bytes * Z));
  c_reserved : Reserved;
  c_peerBf : B;
  c_myBf : B;
  c_remoteIP : bytes;
}.

Definition newConn (ip : bytes) (r : Reserved) : conn :=
  mkConn newConnState None false ∅ 0 ∅ false 0 false [] ∅ 0 None r bm_empty bm_empty ip.

(** What the connection reaches through its torrent. *)
Record shared := mkShared {
  sh_params : tparams;
  sh_pieces : option (pieces B S);
  sh_uts : utMetadatas;
  sh_storage : option FileStorage;
  sh_reqq : Z;
  sh_reserved : Reserved;                 (* of the client *)
}.

(** What happens while [sendMsgToTorrent] waits: the case that its select takes, a message
    that the reader goroutine gets, or what others do to the shared state. *)
Inductive sel :=
| SSend
| SCmd (cmd : cmsg B)
| SDrop
| SKeepAlive
| SRead (m : Msg)
| SOther (f : shared -> shared).

Record world := mkWorld {
  w_conn : conn;
  w_shared : shared;
  w_sent : list (tmsg B);                 (* handed to the torrent *)
  w_wire : list Msg;                      (* written to the peer *)
  w_buffered : bool;                      (* the writer's buffer is not empty *)
  w_sched : list sel;                     (* the selects to come; then they send *)
  w_writes : list bool;                   (* the results of the writes to come; then they succeed *)
  w_tick : nat;
}.

(** The random choices and the orders of map iterations. *)
Record CEnv := mkCEnv {
  ce_coin : nat -> Piece.Piece B -> Piece.Piece B -> Z;
  ce_flip : nat -> bool;
  ce_order : nat -> list block -> list block;
  ce_Shuffle : nat -> list Z -> list Z;
}.

Class CEnvLaws (env : CEnv) : Prop := mkCEnvLaws {
  order_perm k l : ce_order env k l ≡ₚ l;
  Shuffle_perm k l : ce_Shuffle env k l ≡ₚ l;
}.

Inductive cerror :=
| EOF
| ErrWrite
| ErrRead
| ErrDuplicateHave
| ErrBitfieldTwice
| ErrBfLength
| ErrUnknownKind
| ErrNoExt
| ErrExtDict (e : xerror)
| ErrNoHandshake
| ErrMetadataSize
| ErrMetadata (e : uterror)
| ErrUnknownExt
| ErrExtension
| ErrRequestNoInfo
| ErrRequestLength
| ErrRequestPiece
| ErrRequestEnd
| ErrPieceNoInfo
| ErrPieceInvalid
| ErrPieceOffset (e : berror).

(** [CExit] is log.Fatalf; [CNil] is the panic of a call of a method of the storage while the
    torrent has none: gotInfo tells the connections of the info dictionary before it opens
    the storage. [CPanic] is any other panic. *)
Inductive outcome (A : Type) :=
| COk (a : A) (w : world)
| CErr (e : cerror) (w : world)
| CPanic
| CNil
| CExit
| CFuel.
Arguments COk {A} a w.
Arguments CErr {A} e w.
Arguments CPanic {A}.
Arguments CNil {A}.
Arguments CExit {A}.
Arguments CFuel {A}.

Definition CM (A : Type) : Type := world -> outcome A.

#[global] Instance CM_ret : MRet CM := fun _ a w => COk a w.
#[global] Instance CM_bind : MBind CM := fun _ _ f m w =>
  match m w with COk a w' => f a w' | CErr e w' => CErr e w'
  | CPanic => CPanic | CNil => CNil | CExit => CExit | CFuel => CFuel
  end.

Definition cget {A} (f : world -> A) : CM A := fun w => COk (f w) w.
Definition cmod (f : world -> world) : CM unit := fun w => COk () (f w).
Definition cfail {A} (e : cerror) : CM A := fun w => CErr e w.
Definition cpanic {A} : CM A := fun _ => CPanic.
Definition cexit {A} : CM A := fun _ => CExit.
Definition clift {A} (o : option A) : CM A := match o with Some a => mret a | None => cpanic end.
Definition cwhen (b : bool) (m : CM unit) : CM unit := if b then m else mret ().
(** Run on after an error, whose value is handed on. *)
Definition ctry {A} (m : CM A) : CM (A + cerror) := fun w =>
  match m w with
  | COk a w => COk (inl a) w | CErr e w => COk (inr e) w
  | CPanic => CPanic | CNil => CNil | CExit => CExit | CFuel => CFuel
  end.
Fixpoint cfor {A} (f : A -> CM unit) (l : list A) : CM unit :=
  match l with [] => mret () | a :: l => f a;; cfor f l end.

Definition set_c (f : conn -> conn) (w : world) : world :=
  mkWorld (f (w_conn w)) (w_shared w) (w_sent w) (w_wire w) (w_buffered w) (w_sched w) (w_writes w) (w_tick w).
Definition set_sh (f : shared -> shared) (w : world) : world :=
  mkWorld (w_conn w) (f (w_shared w)) (w_sent w) (w_wire w) (w_buffered w) (w_sched w) (w_writes w) (w_tick w).
Definition add_sent (e : tmsg B) (w : world) : world :=
  mkWorld (w_conn w) (w_shared w) (w_sent w ++ [e]) (w_wire w) (w_buffered w) (w_sched w) (w_writes w) (w_tick w).
Definition add_wire (m : Msg) (w : world) : world :=
  mkWorld (w_conn w) (w_shared w) (w_sent w) (w_wire w ++ [m]) true (w_sched w) (w_writes w) (w_tick w).

Definition with_cstate (f : connState -> connState) (c : conn) : conn :=
  mkConn (f (c_state c)) (c_lastMsg c) (c_ban c) (c_peerReqs c) (c_reqsMap c) (c_onFlightReqs c) (c_haveInfo c) (numMetadataRespSent c)
    (metadataTicking c) (metadataRejectedBlocks c) (metadataPendingBlocks c) (metadataSize c) (c_exts c) (c_reserved c)
    (c_peerBf c) (c_myBf c) (c_remoteIP c).
Definition with_lastMsg (m : tmsg B) (c : conn) : conn :=
  mkConn (c_state c) (Some m) (c_ban c) (c_peerReqs c) (c_reqsMap c) (c_onFlightReqs c) (c_haveInfo c) (numMetadataRespSent c)
    (metadataTicking c) (metadataRejectedBlocks c) (metadataPendingBlocks c) (metadataSize c) (c_exts c) (c_reserved c)
    (c_peerBf c) (c_myBf c) (c_remoteIP c).
Definition with_ban (c : conn) : conn :=
  mkConn (c_state c) (c_lastMsg c) true (c_peerReqs c) (c_reqsMap c) (c_onFlightReqs c) (c_haveInfo c) (numMetadataRespSent c)
    (metadataTicking c) (metadataRejectedBlocks c) (metadataPendingBlocks c) (metadataSize c) (c_exts c) (c_reserved c)
    (c_peerBf c) (c_myBf c) (c_remoteIP c).
Definition with_reqs (peer flight : gset block) (c : conn) : conn :=
  mkConn (c_state c) (c_lastMsg c) (c_ban c) peer (c_reqsMap c) flight (c_haveInfo c) (numMetadataRespSent c)
    (metadataTicking c) (metadataRejectedBlocks c) (metadataPendingBlocks c) (metadataSize c) (c_exts c) (c_reserved c)
    (c_peerBf c) (c_myBf c) (c_remoteIP c).
Definition with_newReqs (c : conn) : conn :=
  mkConn (c_state c) (c_lastMsg c) (c_ban c) ∅ (Datatypes.S (c_reqsMap c)) (c_onFlightReqs c) (c_haveInfo c) (numMetadataRespSent c)
    (metadataTicking c) (metadataRejectedBlocks c) (metadataPendingBlocks c) (metadataSize c) (c_exts c) (c_reserved c)
    (c_peerBf c) (c_myBf c) (c_remoteIP c).
Definition with_haveInfo (c : conn) : conn :=
  mkConn (c_state c) (c_lastMsg c) (c_ban c) (c_peerReqs c) (c_reqsMap c) (c_onFlightReqs c) true (numMetadataRespSent c)
    (metadataTicking c) (metadataRejectedBlocks c) (metadataPendingBlocks c) (metadataSize c) (c_exts c) (c_reserved c)
    (c_peerBf c) (c_myBf c) (c_remoteIP c).
Definition with_metadata (sent : Z) (ticking : bool) (rej : list Z) (pend : gset Z) (size : Z)
    (exts : option (list (bytes * Z))) (c : conn) : conn :=
  mkConn (c_state c) (c_lastMsg c) (c_ban c) (c_peerReqs c) (c_reqsMap c) (c_onFlightReqs c) (c_haveInfo c) sent ticking rej pend size exts
    (c_reserved c) (c_peerBf c) (c_myBf c) (c_remoteIP c).
Definition with_bfs (peer mine : B) (c : conn) : conn :=
  mkConn (c_state c) (c_lastMsg c) (c_ban c) (c_peerReqs c) (c_reqsMap c) (c_onFlightReqs c) (c_haveInfo c) (numMetadataRespSent c)
    (metadataTicking c) (metadataRejectedBlocks c) (metadataPendingBlocks c) (metadataSize c) (c_exts c) (c_reserved c)
    peer mine (c_remoteIP c).
Definition with_shpieces (p : pieces B S) (s : shared) : shared :=
  mkShared (sh_params s) (Some p) (sh_uts s) (sh_storage s) (sh_reqq s) (sh_reserved s).
Definition with_shuts (u : utMetadatas) (s : shared) : shared :=
  mkShared (sh_params s) (sh_pieces s) u (sh_storage s) (sh_reqq s) (sh_reserved s).
Definition with_shstorage (st : FileStorage) (s : shared) : shared :=
  mkShared (sh_params s) (sh_pieces s) (sh_uts s) (Some st) (sh_reqq s) (sh_reserved s).

Abbreviation getc f := (cget (fun w => f (w_conn w))).
Abbreviation gets_ f := (cget (fun w => f (w_shared w))).
Abbreviation modc f := (cmod (set_c f)).

(** Dereference the shared pointers. *)
Definition the_pieces : CM (pieces B S) := p ← gets_ sh_pieces; clift p.
Definition the_storage : CM FileStorage := s ← gets_ sh_storage; match s with Some s => mret s | None => fun _ => CNil end.

Variable env : CEnv.
(** filepath.Join and whether a file can be opened, for the storage. *)
Variable join : list bytes -> bytes.
Variable io : fileio.

Definition cdraw {A} (f : nat -> A) : CM A := fun w =>
  COk (f (w_tick w)) (mkWorld (w_conn w) (w_shared w) (w_sent w) (w_wire w) (w_buffered w) (w_sched w) (w_writes w) (Datatypes.S (w_tick w))).
Definition next_sel : CM sel := fun w =>
  match w_sched w with
  | [] => COk SSend w
  | s :: l => COk s (mkWorld (w_conn w) (w_shared w) (w_sent w) (w_wire w) (w_buffered w) l (w_writes w) (w_tick w))
  end.
(** The buffered writer and the socket: the next result. *)
Definition write : CM unit := fun w =>
  match w_writes w with
  | [] => COk () w
  | ok :: l =>
      let w := mkWorld (w_conn w) (w_shared w) (w_sent w) (w_wire w) (w_buffered w) (w_sched w) l (w_tick w) in
      if ok : bool then COk () w else CErr ErrWrite w
  end.

(** ** Messages to the peer

    The buffer of the writer is smaller than the limit of sendMsgToPeer and no caller
    asks for a flush. *)

Definition sendMsgToPeer (m : Msg) : CM unit :=
  _ ← clift (Wire.Encode m);
  write;; cmod (add_wire m).

Definition set_flushed (w : world) : world :=
  mkWorld (w_conn w) (w_shared w) (w_sent w) (w_wire w) false (w_sched w) (w_writes w) (w_tick w).

Definition flushWriter : CM unit :=
  b ← cget w_buffered;
  if negb b then mret () else write;; cmod set_flushed.

Definition sendKeepAlive : CM unit := sendMsgToPeer (simple_msg KeepAlive).

Definition reqMsg (b : block) : Msg :=
  mkMsg RequestK (uint32 (b_pc b)) (uint32 (b_off b)) (uint32 (b_len b)) [] [] 0 0 ExtNil.
Definition reqMsgToBlock (m : Msg) : block := mkBlock (Index m) (Begin m) (Wire.Len m).

(** ** Queries *)

Definition c_numPieces (w : world) : Z := t_numPieces (sh_params (w_shared w)).

Definition amSeeding : CM bool :=
  hi ← getc c_haveInfo;
  if negb hi then mret false else bf ← getc c_myBf; n ← cget c_numPieces; mret (bm_Len bf =? n).

Definition peerSeeding_c : CM bool :=
  hi ← getc c_haveInfo;
  if negb hi then cpanic else bf ← getc c_peerBf; n ← cget c_numPieces; mret (bm_Len bf =? n).

Definition notUseful : CM bool :=
  hi ← getc c_haveInfo;
  if negb hi then mret false
  else ps ← peerSeeding_c; if ps : bool then amSeeding else mret false.

Definition wantBlocks : CM bool :=
  seed ← amSeeding;
  c ← cget w_conn;
  mret (negb seed && c_haveInfo c && canDownload (c_state c) && (0 <? bm_Len (c_peerBf c)) &&
        (Z.of_nat (base.size (c_onFlightReqs c)) <? Z.quot maxOnFlight 2)).

(** ** Requests *)

Definition send_request (req : block) : CM unit :=
  c ← cget w_conn;
  if bool_decide (req ∈ c_onFlightReqs c) then mret ()
  else
    modc (fun c => with_reqs (c_peerReqs c) (c_onFlightReqs c ∪ {[ req ]}) c);;
    sendMsgToPeer (reqMsg req).

Definition maybeSendRequests : CM unit :=
  want ← wantBlocks;
  if negb want then mret ()
  else
    c ← cget w_conn;
    let sz := maxOnFlight - Z.of_nat (base.size (c_onFlightReqs c)) in
    if sz <=? 0 then cpanic
    else
      p ← the_pieces; tp ← gets_ sh_params; coin ← cdraw (ce_coin env);
      '(p, requests) ← clift (fillRequests tp coin (c_peerBf c) sz p);
      cmod (set_sh (with_shpieces p));;
      cfor send_request requests.

Definition extensionMsg (name : bytes) (v : extmsg) : CM Msg :=
  exts ← getc c_exts;
  match assoc name (default [] exts) with
  | None => cfail ErrExtension
  | Some id => mret (mkMsg Extended 0 0 0 [] [] 0 id v)
  end.

Fixpoint request_metadata_loop (l : list Z) : CM unit :=
  match l with
  | [] => mret ()
  | i :: l =>
      r ← ctry (extensionMsg (bs "ut_metadata") (ExtMetadata (mkMetadataExtMsg MetadataReqID i 0 None)));
      match r with
      | inr _ => mret ()
      | inl m =>
          c ← cget w_conn;
          cwhen (negb (bool_decide (i ∈ metadataPendingBlocks c)))
            (modc (fun c => with_metadata (numMetadataRespSent c) (metadataTicking c) (metadataRejectedBlocks c)
                              (metadataPendingBlocks c ∪ {[ i ]}) (metadataSize c) (c_exts c) c);;
             sendMsgToPeer m);;
          request_metadata_loop l
      end
  end.

Definition requestMetadata : CM unit :=
  uts ← gets_ sh_uts; c ← cget w_conn;
  if match uts_correct uts with Some _ => true | None => false end || c_haveInfo c then mret ()
  else if (metadataSize c =? 0) || match c_exts c with None => true | Some _ => false end then mret ()
  else if match assoc (bs "ut_metadata") (default [] (c_exts c)) with None => true | Some _ => false end then mret ()
  else
    let toRequest := 5 - Z.of_nat (base.size (metadataPendingBlocks c)) in
    if toRequest <=? 0 then mret ()
    else
      sh ← cdraw (ce_Shuffle env);
      l ← clift (uts_fillRequest sh uts (metadataSize c) toRequest (metadataRejectedBlocks c));
      request_metadata_loop l.

(** ** Bit fields *)

Definition bitfield (bm : B) : CM BitField :=
  n ← cget c_numPieces;
  bf ← clift (NewBitField n);
  clift (foldM SetPiece bf (bm_Iter bm)).

Definition bitmap (bf : BitField) : CM B :=
  hi ← getc c_haveInfo; n ← cget c_numPieces;
  if hi && negb (Valid bf n) then modc with_ban;; cfail ErrBfLength
  else l ← clift (FilterNotSet bf); mret (foldl (fun bm i => bm_Set bm i true) bm_empty l).

(** ** Commands of the torrent

    [toTorrent] stands for [sendMsgToTorrent], which is defined below with these. *)

Section ops.
Variable toTorrent : tmsg B -> CM unit.

Definition discardBlocks (notifyTorrent sendCancels : bool) : CM unit :=
  c ← cget w_conn;
  if (0 <? base.size (c_onFlightReqs c))%nat then
    reqs ← cdraw (fun k => ce_order env k (elements (c_onFlightReqs c)));
    cwhen sendCancels (cfor (fun req => sendMsgToPeer (cancelMsg req)) reqs);;
    p ← the_pieces;
    p ← clift (discardRequests p reqs);
    cmod (set_sh (with_shpieces p));;
    modc (fun c => with_reqs (c_peerReqs c) ∅ c);;
    cwhen notifyTorrent (toTorrent TDiscardedRequests)
  else mret ().

Definition set_amInterested (b : bool) (s : connState) : connState := mkConnState b (amChoking s) (isInterested s) (isChoking s).
Definition set_amChoking (b : bool) (s : connState) : connState := mkConnState (amInterested s) b (isInterested s) (isChoking s).

Definition onTorrentHave (v : Msg) : CM unit :=
  modc (fun c => with_bfs (c_peerBf c) (bm_Set (c_myBf c) (Index v) true) c);;
  useless ← notUseful;
  if useless : bool then cfail EOF
  else
    ps ← peerSeeding_c;
    if ps : bool then mret ()
    else
      bf ← getc c_peerBf;
      if bm_Get bf (Index v) then
        flip ← cdraw (ce_flip env);
        if flip : bool then mret () else sendMsgToPeer v
      else sendMsgToPeer v.

Definition onTorrentMsg (cmd : cmsg B) : CM unit :=
  match cmd with
  | CWire v =>
      let k := Kind v in
      if k =? Port then sendMsgToPeer v
      else if k =? Interested then
        (* the deferred call overwrites the error of the write *)
        modc (with_cstate (set_amInterested true));; ctry (sendMsgToPeer v);; maybeSendRequests
      else if k =? NotInterested then
        modc (with_cstate (set_amInterested false));; discardBlocks true true;; sendMsgToPeer v
      else if k =? Choke then
        modc (with_cstate (set_amChoking true));; modc with_newReqs;; sendMsgToPeer v
      else if k =? Unchoke then
        modc (with_cstate (set_amChoking false));; sendMsgToPeer v
      else if k =? Have then onTorrentHave v
      else if k =? Cancel then
        c ← cget w_conn;
        cwhen (bool_decide (reqMsgToBlock v ∈ c_onFlightReqs c)) (sendMsgToPeer v)
      else cpanic
  | CBitmap v =>
      modc (fun c => with_bfs (c_peerBf c) v c);;
      useless ← notUseful;
      if useless : bool then cfail EOF
      else bf ← bitfield v; sendMsgToPeer (mkMsg BitfieldK 0 0 0 bf [] 0 0 ExtNil)
  | CRequestsAvailable =>
      hi ← getc c_haveInfo; if hi : bool then maybeSendRequests else requestMetadata
  | CHaveInfo =>
      modc with_haveInfo;;
      bf ← getc c_peerBf;
      cwhen (0 <? bm_Len bf)
        (p ← the_pieces; p ← clift (onBitfield p bf); cmod (set_sh (with_shpieces p)));;
      maybeSendRequests
  | CDrop => cfail EOF
  end.

End ops.

(** ** The reader goroutine *)

(** Before the message is handed to the main loop of the connection: whether it is. *)
Definition readPeerMsg (m : Msg) : CM bool :=
  if Kind m =? RequestK then
    c ← cget w_conn; reqq ← gets_ sh_reqq;
    let b := reqMsgToBlock m in
    if bool_decide (b ∈ c_peerReqs c) then mret false
    else if reqq <=? Z.of_nat (base.size (c_peerReqs c)) then mret false
    else modc (fun c => with_reqs (c_peerReqs c ∪ {[ b ]}) (c_onFlightReqs c) c);; mret true
  else if Kind m =? Cancel then
    modc (fun c => with_reqs (c_peerReqs c ∖ {[ reqMsgToBlock m ]}) (c_onFlightReqs c) c);; mret false
  else mret true.

(** ** Messages to the torrent *)

(** The loop of sendMsgToTorrent: every turn takes one case of the schedule. *)
Fixpoint sendMsgToTorrent_fuel (fuel : nat) (e : tmsg B) : CM unit :=
  match fuel with
  | O => fun _ => CFuel
  | Datatypes.S fuel =>
      let save (m : CM unit) : CM unit :=
        r ← ctry m;
        match r with
        | inl _ => sendMsgToTorrent_fuel fuel e
        | inr err => modc (with_lastMsg e);; cfail err
        end in
      s ← next_sel;
      match s with
      | SSend => cmod (add_sent e)
      | SCmd cmd => save (onTorrentMsg (sendMsgToTorrent_fuel fuel) cmd)
      | SDrop => save (cfail EOF)
      | SKeepAlive => save sendKeepAlive
      | SRead m => readPeerMsg m;; sendMsgToTorrent_fuel fuel e
      | SOther f => cmod (set_sh f);; sendMsgToTorrent_fuel fuel e
      end
  end.

Definition sendMsgToTorrent (e : tmsg B) : CM unit := fun w =>
  sendMsgToTorrent_fuel (Datatypes.S (length (w_sched w))) e w.

(** ** Messages of the peer *)

Definition set_isInterested (b : bool) (s : connState) : connState := mkConnState (amInterested s) (amChoking s) b (isChoking s).
Definition set_isChoking (b : bool) (s : connState) : connState := mkConnState (amInterested s) (amChoking s) (isInterested s) b.

Definition changeState (cur : connState -> bool) (set : bool -> connState -> connState) (v : bool) (m : Msg) : CM unit :=
  st ← getc c_state;
  if eqb (cur st) v then mret ()
  else modc (with_cstate (set v));; sendMsgToTorrent (TWire m).

(** The offset in the torrent, in 64 bits. *)
Definition torrent_off (s : FileStorage) (pc off : Z) : Z := int64 (pc * PieceLen (st_info s) + off).

Definition t_writeBlock (data : bytes) (pc off : Z) : CM (option serror) :=
  s ← the_storage;
  '(s, _, err) ← clift (WriteBlock join io s data (torrent_off s pc off));
  cmod (set_sh (with_shstorage s));; mret err.

(** The bytes that were not read stay zero. *)
Definition t_readBlock (n pc off : Z) : CM (bytes * option serror) :=
  s ← the_storage;
  '(data, err) ← clift (ReadBlock join s n (torrent_off s pc off));
  mret (data ++ replicate (Z.to_nat n - length data) Byte.x00, err).

(** One turn of the loop of upload. *)
Definition upload_one (req : block) : CM unit :=
  modc (fun c => with_reqs (c_peerReqs c ∖ {[ req ]}) (c_onFlightReqs c) c);;
  c ← cget w_conn; tp ← gets_ sh_params;
  if negb (c_haveInfo c) then modc with_ban;; cfail ErrRequestNoInfo
  else if negb (canUpload (c_state c)) then mret ()
  else if maxRequestBlockSz <? b_len req then modc with_ban;; cfail ErrRequestLength
  else if negb (bm_Get (c_myBf c) (b_pc req)) then cfail ErrRequestPiece
  else
    len ← clift (pieceLen tp (uint32 (b_pc req)));
    if len <? int64 (b_off req + b_len req) then modc with_ban;; cfail ErrRequestEnd
    else
      '(data, err) ← t_readBlock (b_len req) (b_pc req) (b_off req);
      match err with
      | Some _ => mret ()
      | None =>
          sendMsgToPeer (mkMsg Wire.Piece (uint32 (b_pc req)) (uint32 (b_off req)) 0 [] data 0 0 ExtNil);;
          sendMsgToTorrent (TUploadedBlock req)
      end.

(** The loop ranges over the map that the field holds when it starts: as long as the field
    holds that map, a request that the reader has cancelled meanwhile is not visited. One
    that the reader adds meanwhile is left to the call for it, which the language allows. *)
Definition upload_turn (map : nat) (req : block) : CM unit :=
  c ← cget w_conn;
  cwhen (bool_decide (c_reqsMap c <> map) || bool_decide (req ∈ c_peerReqs c)) (upload_one req).

Definition upload : CM unit :=
  c ← cget w_conn;
  reqs ← cdraw (fun k => ce_order env k (elements (c_peerReqs c)));
  cfor (upload_turn (c_reqsMap c)) reqs.

Definition store_block (data : bytes) (bl : block) : CM unit :=
  err ← t_writeBlock data (b_pc bl) (b_off bl);
  match err with
  | Some ErrAlreadyWritten => mret ()
  | Some _ => cexit
  | None => sendMsgToTorrent (TDownloadedBlock bl)
  end.

(** A block that is not on flight: whether to store it. *)
Definition unexpected_block (bl : block) : CM bool :=
  c ← cget w_conn; tp ← gets_ sh_params;
  if negb (c_haveInfo c) then modc with_ban;; cfail ErrPieceNoInfo
  else
    p ← the_pieces;
    if negb (isValid p (b_pc bl)) then modc with_ban;; cfail ErrPieceInvalid
    else if bm_Get (c_myBf c) (b_pc bl) then mret false
    else
      pc ← clift (at_index (pcs p) (b_pc bl));
      match blockLenSafe tp pc (b_off bl) with
      | Err errDivOffset => mret false
      | Err e => cfail (ErrPieceOffset e)
      | Ok len => mret (len =? b_len bl)
      | Panic => cpanic
      end.

Definition onPieceMsg (m : Msg) : CM unit :=
  req ← clift (Wire.Request m);
  let bl := reqMsgToBlock req in
  c ← cget w_conn;
  if bool_decide (bl ∈ c_onFlightReqs c) then
    modc (fun c => with_reqs (c_peerReqs c) (c_onFlightReqs c ∖ {[ bl ]}) c);;
    maybeSendRequests;;
    store_block (Block m) bl
  else
    good ← unexpected_block bl;
    cwhen good (store_block (Block m) bl).

(** ** Extensions *)

Definition forget_pending (i : Z) (c : conn) : conn :=
  with_metadata (numMetadataRespSent c) (metadataTicking c) (metadataRejectedBlocks c)
    (metadataPendingBlocks c ∖ {[ i ]}) (metadataSize c) (c_exts c) c.

Definition onExtHandshake (d : ExtHandshakeDict) : CM unit :=
  match Extensions d with
  | Err e =>
      modc (fun c => with_metadata (numMetadataRespSent c) (metadataTicking c) (metadataRejectedBlocks c)
                       (metadataPendingBlocks c) (metadataSize c) None c);;
      cfail (ErrExtDict e)
  | Panic => cpanic
  | Ok exts =>
      modc (fun c => with_metadata (numMetadataRespSent c) (metadataTicking c) (metadataRejectedBlocks c)
                       (metadataPendingBlocks c) (metadataSize c) (Some exts) c);;
      match assoc (bs "ut_metadata") exts, MetadataSize d with
      | Some _, Some msize =>
          modc (fun c => with_metadata (numMetadataRespSent c) (metadataTicking c) (metadataRejectedBlocks c)
                           (metadataPendingBlocks c) msize (c_exts c) c);;
          uts ← gets_ sh_uts;
          let '(uts, ok) := uts_add uts msize in
          cmod (set_sh (with_shuts uts));;
          if ok then requestMetadata else modc with_ban;; cfail EOF
      | _, _ => mret ()
      end
  end.

Definition onMetadataData (v : MetadataExtMsg) : CM unit :=
  c ← cget w_conn;
  if negb (me_TotalSz v =? metadataSize c) then cfail ErrMetadataSize
  else
    uts ← gets_ sh_uts;
    '(uts, r) ← clift (uts_writeBlock uts (default [] (me_Data v)) (me_Piece v) (me_TotalSz v) (c_remoteIP c));
    cmod (set_sh (with_shuts uts));;
    match r with
    | Err e => cfail (ErrMetadata e)
    | Panic => cpanic
    | Ok completed =>
        modc (forget_pending (me_Piece v));;
        if completed : bool then sendMsgToTorrent (TDownloadedMetadata (metadataSize c)) else requestMetadata
    end.

Definition onMetadataReject (v : MetadataExtMsg) : CM unit :=
  modc (fun c => with_metadata (numMetadataRespSent c) true (metadataRejectedBlocks c ++ [me_Piece v])
                   (metadataPendingBlocks c ∖ {[ me_Piece v ]}) (metadataSize c) (c_exts c) c).

(** The condition dereferences the buffer before it tests it for nil. *)
Definition onMetadataRequest (v : MetadataExtMsg) : CM unit :=
  uts ← gets_ sh_uts; c ← cget w_conn;
  let reject := mkMetadataExtMsg MetadataRejID (me_Piece v) 0 None in
  answer ←
    (if negb (c_haveInfo c) then mret reject
     else ut ← clift (uts_correct uts);
          if (3 * Metadata.numPieces ut <? numMetadataRespSent c) || (Metadata.numPieces ut <=? me_Piece v) then mret reject
          else
            let n := metadataPieceLength ut (me_Piece v) in
            if n <? 0 then cpanic
            else
              r ← clift (uts_readBlock uts n (me_Piece v));
              modc (fun c => with_metadata (numMetadataRespSent c + 1) (metadataTicking c) (metadataRejectedBlocks c)
                               (metadataPendingBlocks c) (metadataSize c) (c_exts c) c);;
              let data := match r with Ok d => d | _ => [] end in
              mret (mkMetadataExtMsg MetadataDataID (me_Piece v) (lenZ (infoBytes ut))
                      (Some (data ++ replicate (Z.to_nat n - length data) Byte.x00))));
  m ← extensionMsg (bs "ut_metadata") (ExtMetadata answer);
  (* the error stays in a variable of the inner block *)
  ctry (sendMsgToPeer m);; mret ().

(** The error for an extension message that is not supported is overwritten. *)
Definition onExtended (m : Msg) : CM unit :=
  c ← cget w_conn; r ← gets_ sh_reserved;
  mine ← clift (SupportExtended r);
  _ ← (if mine : bool then clift (SupportExtended (c_reserved c)) else mret false);
  match ExtendedMsg m with
  | ExtDict d => onExtHandshake d
  | ExtMetadata v =>
      match c_exts c with
      | None => cfail ErrNoHandshake
      | Some _ =>
          if me_Kind v =? MetadataDataID then onMetadataData v
          else if me_Kind v =? MetadataRejID then onMetadataReject v
          else if me_Kind v =? MetadataReqID then onMetadataRequest v
          else mret ()
      end
  | ExtNil => cfail ErrUnknownExt
  end.

Definition onPeerHave (m : Msg) : CM unit :=
  bf ← getc c_peerBf;
  if bm_Get bf (Index m) then cfail ErrDuplicateHave
  else
    modc (fun c => with_bfs (bm_Set (c_peerBf c) (Index m) true) (c_myBf c) c);;
    useless ← notUseful;
    if useless : bool then cfail EOF
    else
      hi ← getc c_haveInfo;
      cwhen hi (p ← the_pieces; p ← clift (onHave p (Index m)); cmod (set_sh (with_shpieces p)));;
      sendMsgToTorrent (TWire m).

Definition onPeerBitfield (m : Msg) : CM unit :=
  bf ← getc c_peerBf;
  if negb (bm_Len bf =? 0) then cfail ErrBitfieldTwice
  else
    bm ← bitmap (Bf m);
    modc (fun c => with_bfs bm (c_myBf c) c);;
    useless ← notUseful;
    if useless : bool then cfail EOF
    else
      hi ← getc c_haveInfo;
      cwhen hi (p ← the_pieces; p ← clift (onBitfield p bm); cmod (set_sh (with_shpieces p)));;
      sendMsgToTorrent (TBitmap bm).

(** A port message only pings the DHT node. The error of onExtended is dropped. *)
Definition onPeerMsg (m : Msg) : CM unit :=
  let k := Kind m in
  if k =? KeepAlive then mret ()
  else if k =? Interested then changeState isInterested set_isInterested true m
  else if k =? NotInterested then changeState isInterested set_isInterested false m
  else if k =? Choke then
    discardBlocks sendMsgToTorrent true false;; changeState isChoking set_isChoking true m
  else if k =? Unchoke then changeState isChoking set_isChoking false m;; maybeSendRequests
  else if k =? Wire.Piece then onPieceMsg m
  else if k =? RequestK then upload
  else if k =? Have then onPeerHave m
  else if k =? BitfieldK then onPeerBitfield m
  else if k =? Extended then ctry (onExtended m);; mret ()
  else if k =? Port then mret ()
  else cfail ErrUnknownKind.

(** ** The main loop of the connection *)

Inductive cinput :=
| InCmd (cmd : cmsg B)
| InPeer (m : Msg)
| InReadErr
| InDrop
| InKeepAlive
| InMetadataTick.

(** Sending on close: the torrent takes the message or is gone. *)
Definition last_send (e : tmsg B) : CM unit :=
  s ← next_sel; match s with SDrop => mret () | _ => cmod (add_sent e) end.

Definition c_close : CM unit :=
  ctry (discardBlocks sendMsgToTorrent false false);;
  c ← cget w_conn;
  last_send (default TNil (c_lastMsg c));;
  last_send TDiscardedRequests;;
  last_send TConnDropped.

Definition on_input (inp : cinput) : CM unit :=
  match inp with
  | InCmd cmd => onTorrentMsg sendMsgToTorrent cmd
  | InPeer m => onPeerMsg m
  | InReadErr => cfail ErrRead
  | InDrop => cfail EOF
  | InKeepAlive => sendKeepAlive
  | InMetadataTick =>
      c ← cget w_conn;
      if negb (c_haveInfo c) then
        modc (fun c => with_metadata (numMetadataRespSent c) (metadataTicking c) [] (metadataPendingBlocks c)
                         (metadataSize c) (c_exts c) c);;
        requestMetadata
      else mret ()
  end.

(** One turn: [false] when the loop has ended and the connection is closed. *)
Definition mainLoop_turn_c (inp : cinput) : CM bool :=
  r ← ctry (on_input inp;; flushWriter);
  match r with
  | inl _ => mret true
  | inr _ => c_close;; mret false
  end.

End conn.
Arguments COk {B S A} a w.
Arguments CErr {B S A} e w.
Arguments CPanic {B S A}.
Arguments CNil {B S A}.
Arguments CExit {B S A}.
Arguments CFuel {B S A}.
