(* ===== verification/ConnInv.v ===== *)
(** * A connection never panics, and only hands valid blocks to its torrent

    The invariant of a connection and of what it shares with other goroutines, and that
    every handler keeps it, for any schedule of the selects, any failing writes and any
    other goroutine that keeps the shared invariant. *)

From S2P Require Import Prelude Strconv Bitfield GoValue BenDecode BenEncode BenRound Wire Metainfo Bitmap Piece Pieces Storage.
From S2P Require Import Metadata ConnInfo Torrent Conn.

Lemma extensions_loop_returns l acc : extensions_loop l acc <> Panic.
Proof.
  revert acc. induction l as [|[k v] l IH]; intros acc; cbn [extensions_loop]; [done|].
  repeat match goal with |- context [match ?x with _ => _ end] => destruct x end; solve [done|apply IH].
Qed.

Lemma Extensions_returns d : Extensions d <> Panic.
Proof.
  unfold Extensions. repeat match goal with |- context [match ?x with _ => _ end] => destruct x end;
    solve [done|apply extensions_loop_returns].
Qed.

Lemma uts_add_spec uts n u ok :
  uts_add uts n = (u, ok) -> (forall k ut, uts_m uts !! k = Some ut -> ut_ok k ut) ->
  (forall k ut, uts_m u !! k = Some ut -> ut_ok k ut) /\ (forall k, is_Some (uts_m uts !! k) -> is_Some (uts_m u !! k)) /\
  (ok = true -> is_Some (uts_m u !! n)) /\ (0 <= n <= 10000000 -> ok = true).
Proof.
  unfold uts_add. destruct (Z.ltb_spec n 0), (Z.ltb_spec 10000000 n); cbn [orb];
    try (intros [= <- <-] Hu; split_and!; [done|done|done|lia]).
  destruct (uts_m uts !! n) eqn:E; intros [= <- <-] Hu; [by split_and!|]. cbn. split_and!.
  - intros k ut. destruct (decide (k = n)) as [->|]; [rewrite lookup_insert_eq|rewrite lookup_insert_ne by done; apply Hu].
    intros [= <-]. by apply newUtMetadata_ok.
  - intros k Hk. destruct (decide (k = n)) as [->|]; [by rewrite lookup_insert_eq|by rewrite lookup_insert_ne].
  - by rewrite lookup_insert_eq.
  - done.
Qed.

(** A piece number in range never makes a write or a read panic. *)
Lemma ut_writeBlock_returns n ut b i ip :
  ut_ok n ut -> 0 <= i < Metadata.numPieces ut ->
  exists ut' r, ut_writeBlock ut b i n ip = Some (ut', r) /\ ut_ok n ut' /\ r <> Panic.
Proof.
  intros Hok Hi. destruct (at_index_Some (ownedInfoBlocks ut) i) as [o Ho]; [rewrite (uo_num _ _ Hok); lia|].
  destruct o; [exists ut, (Ok false); unfold ut_writeBlock; by rewrite Ho|].
  destruct (Z.eqb_spec (lenZ b) (metadataPieceLength ut i)) as [El|El].
  - destruct (ut_writeBlock_spec n ut b i ip Hok Ho El) as (ut' & E & Hok' & _). by exists ut', (Ok (ut_complete ut')).
  - exists ut, (Err ErrWrongLength). split_and!; [|done|done]. unfold ut_writeBlock. rewrite Ho. cbn [mbind option_bind].
    rewrite (uo_size _ _ Hok), Z.eqb_refl. cbn [negb]. destruct (Z.leb_spec (lenZ (ownedInfoBlocks ut)) i); [rewrite (uo_num _ _ Hok) in *; lia|].
    by destruct (Z.eqb_spec (lenZ b) (metadataPieceLength ut i)).
Qed.

Lemma ut_readBlock_returns n ut k i :
  ut_ok n ut -> 0 <= i < Metadata.numPieces ut -> exists r, ut_readBlock ut k i = Some r.
Proof.
  intros [Hs _ Hl Hr] Hi. pose proof sz_val as Hsz. unfold ut_readBlock. destruct (Z.leb_spec (Metadata.numPieces ut) i); [lia|].
  match goal with |- context [if ?c then _ else _] => assert (c = true) as -> end; [|by eexists].
  rewrite !andb_true_iff, !Z.leb_le. destruct (Z.ltb_spec i (Metadata.numPieces ut - 1)); rewrite ?Hs; nia.
Qed.

(** What connections rely on of the storage behind their torrent: writing a block within a piece
    keeps [trusted]. *)
Class BlockStore (join : list bytes -> bytes) (io : fileio) (tp : tparams) (trusted : FileStorage -> Prop) : Prop :=
  keeps_trusted st p i o len st' n err :
    trusted st -> 0 <= i < t_numPieces tp -> pieceLen tp i = Some len -> p <> [] -> 0 <= o -> o + lenZ p <= len ->
    WriteBlock join io st p (torrent_off st i o) = Some (st', n, err) -> trusted st'.

#[export] Instance any_store join io tp : BlockStore join io tp (fun _ => True).
Proof. by intros st p i o len st' n err. Qed.

Section conn_inv.
Context {B : Type} `{BitmapLaws B} {S : Type} `{PieceSelector S B} `{SortSliceLaws (Piece.Piece B)}.
Variable env : CEnv (B := B).
Context `{!CEnvLaws env}.
Variable join : list bytes -> bytes.
Variable io : fileio.
(** The numbers of the torrent, once its info dictionary is known. *)
Variable tp : tparams.
Hypothesis tp_ok : params_ok tp.
Hypothesis tp_size : t_numPieces tp * t_PieceLen tp < 2 ^ 62.
Variable trusted : FileStorage -> Prop.
Context `{!BlockStore join io tp trusted}.

Abbreviation world := (world (B := B) (S := S)).
Abbreviation shared := (shared (B := B) (S := S)).
Abbreviation conn := (conn (B := B)).
Abbreviation CM := (CM (B := B) (S := S)).
Abbreviation sel := (sel (B := B) (S := S)).
Implicit Types (w : world) (sh : shared) (c : conn) (b : block) (m : Msg).

(** ** The invariant *)

(** The blocks of a piece make up the piece. *)
Definition fits (p : pieces B S) : Prop :=
  Forall (fun pc => pieceLen tp (uint32 (index pc)) = Some (piece_length tp pc)) (pcs p).

Record shared_ok sh : Prop := mkSharedOk {
  so_params : sh_params sh = tp;
  so_pieces : forall p, sh_pieces sh = Some p -> pieces_ok tp p;
  so_fits : forall p, sh_pieces sh = Some p -> fits p;
  so_storage : forall st, sh_storage sh = Some st ->
    PieceLen (st_info st) = t_PieceLen tp /\ lenZ (st_pieces st) = t_numPieces tp;
  so_trusted : forall st, sh_storage sh = Some st -> trusted st;
  so_uts : forall n ut, uts_m (sh_uts sh) !! n = Some ut -> ut_ok n ut;
  so_reserved : length (sh_reserved sh) = 8%nat;
}.

(** [b] is a block of the torrent. *)
Definition known_block sh b : Prop := exists p, sh_pieces sh = Some p /\ block_in tp p b.
(** The pieces exist. The storage may not be open yet. *)
Definition ready sh : bool := match sh_pieces sh with Some _ => true | None => false end.

(** What stays when goroutines go on. *)
Record later sh sh' : Prop := mkLater {
  la_ok : shared_ok sh';
  la_block : forall b, known_block sh b -> known_block sh' b;
  la_uts : forall n, is_Some (uts_m (sh_uts sh) !! n) -> is_Some (uts_m (sh_uts sh') !! n);
  la_ready : ready sh = true -> ready sh' = true;
  la_storage : sh_storage sh <> None -> sh_storage sh' <> None;
  la_reqq : sh_reqq sh' = sh_reqq sh;
}.

Definition in_range (bm : B) : Prop := forall i, bm_Get bm i = true -> 0 <= i < t_numPieces tp.

(** Commands as the torrent sends them: no have or bit field before the connection
    has been told of the info dictionary, which happens when the pieces exist. *)
Definition cmd_ok (hi ex : bool) (cmd : cmsg B) : Prop :=
  match cmd with
  | CWire v =>
      Kind v ∈ [Port; Interested; NotInterested; Choke; Unchoke; Cancel] \/
      Kind v = Have /\ hi = true /\ 0 <= Index v < t_numPieces tp
  | CBitmap v => hi = true /\ in_range v
  | CHaveInfo => ex = true
  | _ => True
  end.

(** What is sent to peers as a piece was read within that piece, from a trusted storage. *)
Definition served m : Prop :=
  Kind m = Wire.Piece -> exists st len n d, trusted st /\ 0 <= Index m < t_numPieces tp /\ pieceLen tp (Index m) = Some len /\
    0 <= Begin m /\ 0 <= n /\ Begin m + n <= len /\ ReadBlock join st n (torrent_off st (Index m) (Begin m)) = Some (d, None) /\
    Block m = d ++ replicate (Z.to_nat n - length d) Byte.x00.

(** Numbers as they are read from the wire. *)
Definition small_msg m : Prop :=
  0 <= Index m < 2 ^ 32 /\ 0 <= Begin m < 2 ^ 32 /\ 0 <= Wire.Len m < 2 ^ 32.
Definition read_ok m : Prop := Kind m = RequestK -> small_msg m.

Fixpoint sched_ok (hi ex : bool) (l : list sel) : Prop :=
  match l with
  | [] => True
  | SCmd cmd :: l => cmd_ok hi ex cmd /\ sched_ok (hi || match cmd with CHaveInfo => true | _ => false end) ex l
  | SOther f :: l =>
      (forall sh, shared_ok sh -> later sh (f sh)) /\
      ((forall sh, shared_ok sh -> ready (f sh) = true) /\ sched_ok hi true l \/ sched_ok hi ex l)
  | SRead m :: l => read_ok m /\ sched_ok hi ex l
  | _ :: l => sched_ok hi ex l
  end.

(** What the torrent may rely on in a message. *)
Definition sent_ok sh (e : tmsg B) : Prop :=
  match e with
  | TDownloadedBlock b => known_block sh b
  | TDownloadedMetadata n => is_Some (uts_m (sh_uts sh) !! n)
  | _ => True
  end.

Definition small_block b : Prop := 0 <= b_pc b < 2 ^ 32 /\ 0 <= b_off b < 2 ^ 32 /\ 0 <= b_len b < 2 ^ 32.

Record cinv w : Prop := mkCinv {
  ci_shared : shared_ok (w_shared w);
  ci_info : c_haveInfo (w_conn w) = true -> ready (w_shared w) = true;
  ci_flight : forall b, b ∈ c_onFlightReqs (w_conn w) -> known_block (w_shared w) b;
  ci_count : Z.of_nat (base.size (c_onFlightReqs (w_conn w))) <= maxOnFlight;
  ci_noinfo : c_haveInfo (w_conn w) = false -> c_onFlightReqs (w_conn w) = ∅;
  ci_peerBf : in_range (c_peerBf (w_conn w));
  ci_myBf : in_range (c_myBf (w_conn w));
  ci_peerReqs : forall b, b ∈ c_peerReqs (w_conn w) -> small_block b;
  ci_reqq : Z.of_nat (base.size (c_peerReqs (w_conn w))) <= Z.max 0 (sh_reqq (w_shared w));
  ci_meta : metadataSize (w_conn w) <> 0 -> is_Some (uts_m (sh_uts (w_shared w)) !! metadataSize (w_conn w));
  ci_res : length (Conn.c_reserved (w_conn w)) = 8%nat;
  ci_handed : Forall (sent_ok (w_shared w)) (w_sent w);
  ci_last : forall e, c_lastMsg (w_conn w) = Some e -> sent_ok (w_shared w) e;
  ci_sched : sched_ok (c_haveInfo (w_conn w)) (ready (w_shared w)) (w_sched w);
  ci_wire : Forall served (w_wire w);
}.

(** From [w] to [w']: the schedule gets shorter, the info dictionary stays. *)
Record goes w w' : Prop := mkGoes {
  go_inv : cinv w';
  go_sched : (length (w_sched w') <= length (w_sched w))%nat;
  go_later : later (w_shared w) (w_shared w');
  go_info : c_haveInfo (w_conn w) = true -> c_haveInfo (w_conn w') = true;
}.

Lemma later_refl sh : shared_ok sh -> later sh sh.
Proof. by constructor. Qed.

Lemma later_trans s1 s2 s3 : later s1 s2 -> later s2 s3 -> later s1 s3.
Proof. intros [] []. constructor; auto; congruence. Qed.

Lemma goes_refl w : cinv w -> goes w w.
Proof. intros Hw. constructor; [done|done|apply later_refl, Hw|done]. Qed.

Lemma goes_trans w1 w2 w3 : goes w1 w2 -> goes w2 w3 -> goes w1 w3.
Proof. intros [] []. constructor; [done|lia|by eapply later_trans|auto]. Qed.

Lemma sent_later sh sh' e : later sh sh' -> sent_ok sh e -> sent_ok sh' e.
Proof. intros [_ Hb Hu _ _ _]. destruct e; cbn; auto. Qed.

Lemma sched_ok_ready hi l : sched_ok hi false l -> sched_ok hi true l.
Proof.
  revert hi. induction l as [|[|cmd| | |m|f] l IH]; intros hi; cbn; try done; try apply IH.
  - intros [Hc Hl]. split; [|by apply IH]. by destruct cmd.
  - intros [Hm Hl]. split; [done|by apply IH].
  - intros [Hf [?|Hl]]; split; [done|by left|done|]. right. by apply IH.
Qed.

(** [m] returns with [Q], or fails, and keeps the invariant; it may only exit when the files
    fail, and only panic when the storage was not open when it started. *)
Definition lands {A} w (o : outcome (B := B) (S := S) A) (Q : A -> world -> Prop) : Prop :=
  match o with
  | COk a w' => goes w w' /\ Q a w'
  | CErr _ w' => goes w w'
  | CExit => io_fails io
  | CNil => sh_storage (w_shared w) = None
  | _ => False
  end.
Definition holds {A} (m : CM A) w (Q : A -> world -> Prop) : Prop := lands w (m w) Q.

Lemma holds_ret {A} (a : A) w (Q : A -> world -> Prop) : cinv w -> Q a w -> holds (mret a) w Q.
Proof. intros. split; [by apply goes_refl|done]. Qed.

Lemma holds_fail {A} e w (Q : A -> world -> Prop) : cinv w -> holds (cfail e) w Q.
Proof. intros. by apply goes_refl. Qed.

Lemma no_storage w w' : goes w w' -> sh_storage (w_shared w') = None -> sh_storage (w_shared w) = None.
Proof. intros [_ _ L _] E. destruct (sh_storage (w_shared w)) eqn:E'; [|done]. destruct (la_storage _ _ L); [by rewrite E'|done]. Qed.

Lemma holds_bind {A C} (m : CM A) (f : A -> CM C) w Q (R : C -> world -> Prop) :
  holds m w Q -> (forall a w', goes w w' -> Q a w' -> holds (f a) w' R) -> holds (m ≫= f) w R.
Proof.
  unfold holds, lands, mbind, CM_bind. destruct (m w) as [a w'|e w'| | | |]; [|done..]. intros [G Hq] Hf.
  specialize (Hf a w' G Hq). destruct (f a w') as [c w2|e w2| | | |]; [|by eapply goes_trans|done| |done..].
  - destruct Hf as [G2 Hr]. split; [by eapply goes_trans|done].
  - by eapply no_storage.
Qed.

Lemma holds_weaken {A} (m : CM A) w (Q R : A -> world -> Prop) :
  holds m w Q -> (forall a w', goes w w' -> Q a w' -> R a w') -> holds m w R.
Proof. unfold holds, lands. destruct (m w) as [a w'|e w'| | | |]; [|done..]. intros [G Hq] Hr. split; [done|by apply Hr]. Qed.

Lemma holds_get {A} (f : world -> A) w : cinv w -> holds (cget f) w (fun a w' => a = f w /\ w' = w).
Proof. intros. split; [by apply goes_refl|done]. Qed.

Lemma holds_lift {A} (o : option A) a w : cinv w -> o = Some a -> holds (clift o) w (fun x w' => x = a /\ w' = w).
Proof. intros Hw ->. split; [by apply goes_refl|done]. Qed.

Lemma holds_mod (f : world -> world) w : goes w (f w) -> holds (cmod f) w (fun _ w' => w' = f w).
Proof. intros G. by split. Qed.

Lemma holds_when (b : bool) (m : CM unit) w (Q : unit -> world -> Prop) :
  cinv w -> (b = true -> holds m w Q) -> (b = false -> Q () w) -> holds (cwhen b m) w Q.
Proof. intros Hw Hm Hq. destruct b; cbn; [by apply Hm|]. apply holds_ret; [done|by apply Hq]. Qed.

Lemma holds_try {A} (m : CM A) w Q :
  holds m w Q -> holds (ctry m) w (fun r w' => match r with inl a => Q a w' | inr _ => True end).
Proof. unfold holds, lands, ctry. by destruct (m w). Qed.

Abbreviation True2 := (fun _ _ => True).

Lemma holds_for {A} (f : A -> CM unit) l w (P : A -> world -> Prop) :
  cinv w -> Forall (fun a => P a w) l ->
  (forall a w1 w2, a ∈ l -> goes w1 w2 -> P a w1 -> P a w2) ->
  (forall a w', a ∈ l -> cinv w' -> P a w' -> holds (f a) w' True2) -> holds (cfor f l) w True2.
Proof.
  intros Hw HP Hst Hf. revert w Hw HP. induction l as [|a l IH]; intros w Hw HP; cbn [cfor]; [by apply holds_ret|].
  apply Forall_cons in HP as [Ha HP]. eapply holds_bind; [apply Hf; [left|done|done]|].
  intros _ w' G _. apply IH; [intros; eapply Hst; [by right|done..]|intros; apply Hf; [by right|done..]|apply G|].
  rewrite Forall_forall in HP |- *. intros x Hx. eapply Hst; [by right|exact G|by apply HP].
Qed.

(** ** Reading and changing the state *)

Lemma holds_draw {A} (f : nat -> A) w : cinv w -> holds (cdraw f) w (fun a w' => a = f (w_tick w) /\ w_conn w' = w_conn w /\ w_shared w' = w_shared w).
Proof. intros [] . split; [|done]. constructor; [by constructor|done|by apply later_refl|done]. Qed.

(** The record of the connection changes in a way the invariant allows. *)
Lemma goes_conn f w :
  cinv w ->
  c_haveInfo (f (w_conn w)) = c_haveInfo (w_conn w) ->
  (forall b, b ∈ c_onFlightReqs (f (w_conn w)) -> known_block (w_shared w) b) ->
  Z.of_nat (base.size (c_onFlightReqs (f (w_conn w)))) <= maxOnFlight ->
  (c_haveInfo (w_conn w) = false -> c_onFlightReqs (f (w_conn w)) = ∅) ->
  in_range (c_peerBf (f (w_conn w))) -> in_range (c_myBf (f (w_conn w))) ->
  (forall b, b ∈ c_peerReqs (f (w_conn w)) -> small_block b) ->
  Z.of_nat (base.size (c_peerReqs (f (w_conn w)))) <= Z.max 0 (sh_reqq (w_shared w)) ->
  (metadataSize (f (w_conn w)) <> 0 -> is_Some (uts_m (sh_uts (w_shared w)) !! metadataSize (f (w_conn w)))) ->
  Conn.c_reserved (f (w_conn w)) = Conn.c_reserved (w_conn w) ->
  (forall e, c_lastMsg (f (w_conn w)) = Some e -> sent_ok (w_shared w) e) ->
  goes w (set_c f w).
Proof.
  intros [] Hi Hf Hc Hn Hp Hm Hr Hq Hme Hre Hl. constructor; [|done|by apply later_refl|cbn; by rewrite Hi].
  constructor; cbn; try done; try (by rewrite Hi); by rewrite Hre.
Qed.

(** A request of the peer goes away. *)
Lemma goes_drop_req b w :
  cinv w -> goes w (set_c (fun c => with_reqs (c_peerReqs c ∖ {[ b ]}) (c_onFlightReqs c) c) w).
Proof.
  intros Hw. apply goes_conn; try solve [done|apply Hw]; cbn.
  - intros x [Hx _]%elem_of_difference. by apply (ci_peerReqs _ Hw).
  - pose proof (subseteq_size (c_peerReqs (w_conn w) ∖ {[ b ]}) (c_peerReqs (w_conn w)) ltac:(set_solver)).
    pose proof (ci_reqq _ Hw). lia.
Qed.

Lemma goes_shared f w : cinv w -> later (w_shared w) (f (w_shared w)) -> goes w (set_sh f w).
Proof.
  intros [] L. constructor; [|done|done|done]. constructor; cbn; try done.
  - apply L.
  - intros Hi. apply (la_ready _ _ L). auto.
  - intros b Hb. apply (la_block _ _ L). auto.
  - by rewrite (la_reqq _ _ L).
  - intros Hm. apply (la_uts _ _ L). auto.
  - eapply Forall_impl; [done|]. intros e. by apply sent_later.
  - intros e He. eapply sent_later; [done|auto].
  - destruct (ready (w_shared w)) eqn:E; [by rewrite (la_ready _ _ L E)|].
    destruct (ready (f (w_shared w))); [by apply sched_ok_ready|done].
Qed.

Lemma goes_sent e w : cinv w -> sent_ok (w_shared w) e -> goes w (add_sent e w).
Proof.
  intros [] He. constructor; [|done|by apply later_refl|done]. constructor; cbn; try done.
  apply Forall_app. split; [done|by apply Forall_singleton].
Qed.

Lemma goes_wire m w : cinv w -> served m -> goes w (add_wire m w).
Proof.
  intros [] Hm. constructor; [constructor; try done|done|by apply later_refl|done].
  apply Forall_app. split; [done|by apply Forall_singleton].
Qed.

Lemma holds_write w : cinv w -> holds write w (fun _ w' => w_conn w' = w_conn w /\ w_shared w' = w_shared w).
Proof.
  intros []. unfold holds, lands, write. destruct (w_writes w) as [|[] l].
  - split; [|done]. by apply goes_refl.
  - split; [|done]. constructor; [by constructor|done|by apply later_refl|done].
  - constructor; [by constructor|done|by apply later_refl|done].
Qed.

(** ** Messages to the peer *)

Definition plain_kinds : list Z :=
  [KeepAlive; Choke; Unchoke; Interested; NotInterested; Have; BitfieldK; RequestK; Cancel; Port].

Lemma encode_plain m : Kind m ∈ plain_kinds -> exists s, Wire.Encode m = Some s.
Proof.
  intros Hk. unfold Wire.Encode, encode_body. unfold plain_kinds in Hk.
  repeat (apply elem_of_cons in Hk as [->|Hk]; [by eexists|]). by apply elem_of_nil in Hk.
Qed.

Lemma holds_peer m w : cinv w -> (exists s, Wire.Encode m = Some s) -> served m ->
  holds (sendMsgToPeer m) w (fun _ w' => w_conn w' = w_conn w /\ w_shared w' = w_shared w).
Proof.
  intros Hw [s Hs] Hm. unfold sendMsgToPeer. eapply holds_bind; [by eapply holds_lift|]. intros x w1 _ [-> ->].
  eapply holds_bind; [by apply holds_write|]. intros _ w1 G [Ec Es].
  eapply holds_weaken; [apply holds_mod, goes_wire; [apply G|done]|]. intros _ w2 _ ->. done.
Qed.

Lemma holds_peer_plain m w : cinv w -> Kind m ∈ plain_kinds ->
  holds (sendMsgToPeer m) w (fun _ w' => w_conn w' = w_conn w /\ w_shared w' = w_shared w).
Proof.
  intros Hw Hk. apply holds_peer; [done|by apply encode_plain|]. intros E. rewrite E in Hk. unfold plain_kinds in Hk. by set_unfold in Hk; naive_solver.
Qed.

Lemma holds_flush w : cinv w -> holds flushWriter w True2.
Proof.
  intros Hw. unfold flushWriter. eapply holds_bind; [by apply holds_get|]. intros b w1 _ [-> ->].
  destruct (w_buffered w); cbn [negb]; [|by apply holds_ret]. eapply holds_bind; [by apply holds_write|]. intros _ w1 [Hw1 _ _ _] _.
  eapply holds_weaken; [apply holds_mod|done]. destruct Hw1.
  constructor; [by constructor|done|by apply later_refl|done].
Qed.

(** ** Queries *)

Lemma holds_pieces w : cinv w -> ready (w_shared w) = true ->
  holds the_pieces w (fun p w' => sh_pieces (w_shared w) = Some p /\ w' = w).
Proof.
  intros Hw Hr. unfold ready in Hr. destruct (sh_pieces (w_shared w)) as [p|] eqn:E; [|done].
  eapply holds_bind; [by apply holds_get|]. intros x w1 _ [-> ->].
  eapply holds_weaken; [by apply holds_lift|]. by intros x w1 _ [-> ->].
Qed.

Lemma holds_storage w : cinv w ->
  holds the_storage w (fun st w' => sh_storage (w_shared w) = Some st /\ w' = w).
Proof.
  intros Hw. eapply holds_bind; [by apply holds_get|]. intros x w1 _ [-> ->].
  destruct (sh_storage (w_shared w)) eqn:E; [by apply holds_ret|done].
Qed.

Lemma holds_amSeeding w : cinv w -> holds amSeeding w (fun _ w' => w' = w).
Proof.
  intros Hw. unfold amSeeding. eapply holds_bind; [by apply holds_get|]. intros hi w1 _ [-> ->].
  destruct (negb _); [by apply holds_ret|]. eapply holds_bind; [by apply holds_get|]. intros bf w1 _ [-> ->].
  eapply holds_bind; [by apply holds_get|]. intros n w1 _ [-> ->]. by apply holds_ret.
Qed.

Lemma holds_peerSeeding w : cinv w -> c_haveInfo (w_conn w) = true -> holds peerSeeding_c w (fun _ w' => w' = w).
Proof.
  intros Hw Hi. unfold peerSeeding_c. eapply holds_bind; [by apply holds_get|]. intros hi w1 _ [-> ->].
  rewrite Hi. cbn [negb]. eapply holds_bind; [by apply holds_get|]. intros bf w1 _ [-> ->].
  eapply holds_bind; [by apply holds_get|]. intros n w1 _ [-> ->]. by apply holds_ret.
Qed.

Lemma holds_notUseful w : cinv w -> holds notUseful w (fun _ w' => w' = w).
Proof.
  intros Hw. unfold notUseful. eapply holds_bind; [by apply holds_get|]. intros hi w1 _ [-> ->].
  destruct (c_haveInfo (w_conn w)) eqn:Hi; cbn [negb]; [|by apply holds_ret].
  eapply holds_bind; [by apply holds_peerSeeding|]. intros [] w1 _ ->; [by apply holds_amSeeding|by apply holds_ret].
Qed.

(** ** Requests *)

Lemma known_block_shapes sh p p' b :
  sh_pieces sh = Some p -> same_shapes p p' -> block_in tp p b -> known_block (with_shpieces p' sh) b.
Proof.
  intros Hp Hs (pc & Hi & Ho & Hl). exists p'. split; [done|].
  destruct (same_shapes_lookup _ _ _ _ Hs Hi) as (pc' & Hi' & Hsh). exists pc'. split_and!; [done| |].
  - by rewrite (same_shape_offsets _ _ _ Hsh).
  - rewrite Hl. destruct Hsh as (E1 & E2 & E3). unfold blockLen. by rewrite ?E1, ?E2, ?E3.
Qed.

Lemma newPieces_fits (sel : S) p : newPieces tp sel = Some p -> fits p.
Proof using tp_ok.
  intros E. apply Forall_forall. intros pc [k Hk]%list_elem_of_lookup. rewrite <- at_index_nat in Hk.
  apply (newPieces_at _ _ _ _ _ E) in Hk. destruct (pieceLen_range tp (uint32 (Z.of_nat k)) tp_ok) as (plen & Hpl & Hr).
  pose proof (pa_brs _ tp_ok). pose proof (pa_bound _ tp_ok).
  destruct (newPiece_spec (B := B) tp (Z.of_nat k) plen Hpl) as (nb & last & E' & _ & _ & _ & _ & Hlen); [lia..|].
  rewrite Hk in E'. injection E' as ->. unfold piece_length. cbn. by rewrite Hlen.
Qed.

Lemma fits_shapes p p' : same_shapes p p' -> fits p -> fits p'.
Proof.
  unfold same_shapes, fits. intros Hs. induction Hs as [|x y l k Hxy _ IH]; [done|].
  intros [Hx Hl]%Forall_cons. apply Forall_cons. split; [|by apply IH]. destruct Hxy as (E1 & E2 & E3). unfold piece_length in *. congruence.
Qed.

(** New pieces of the same shapes. *)
Lemma later_pieces sh p p' :
  shared_ok sh -> sh_pieces sh = Some p -> pieces_ok tp p' -> same_shapes p p' -> later sh (with_shpieces p' sh).
Proof.
  intros [K1 K2 Kf K3 Kg K4 K5] Hp Hp' Hs. constructor.
  - constructor; try done; intros q [= <-]; [done|]. by eapply fits_shapes, Kf.
  - intros b (q & Hq & Hb). rewrite Hp in Hq. injection Hq as <-. by eapply known_block_shapes.
  - done.
  - unfold ready. rewrite Hp. done.
  - done.
  - done.
Qed.

Lemma fill_any p coin bf n :
  pieces_ok tp p -> 0 <= n ->
  exists p' new, fillRequests tp coin bf n p = Some (p', new) /\ pieces_ok tp p' /\ same_shapes p p' /\
    lenZ new <= n /\ Forall (block_in tp p) new.
Proof.
  intros Hp Hn. destruct (Pieces.downloadEnabled p) eqn:Ed.
  - destruct (fillRequests_filled tp coin bf n p Hp Hn Ed) as (order & p' & new & E & [F1 F2 F3 F4 F5 F6 F7 F8] & _).
    exists p', new. split_and!; [done|done|done|lia|]. eapply Forall_impl; [exact F6|]. by intros b (_ & Hb & _).
  - exists p, []. unfold fillRequests. rewrite Ed. split_and!; [done|done|apply same_shapes_refl|cbn; lia|by apply Forall_nil].
Qed.

Lemma holds_requests l w :
  cinv w -> c_haveInfo (w_conn w) = true -> Forall (known_block (w_shared w)) l ->
  Z.of_nat (base.size (c_onFlightReqs (w_conn w))) + lenZ l <= maxOnFlight -> holds (cfor send_request l) w True2.
Proof.
  revert w. induction l as [|b l IH]; intros w Hw Hi Hl Hn; cbn [cfor]; [by apply holds_ret|].
  apply Forall_cons in Hl as [Hb Hl]. cbn [length] in Hn. unfold send_request.
  eapply (holds_bind _ _ _ (fun _ w' => Forall (known_block (w_shared w')) l /\ c_haveInfo (w_conn w') = true /\
    Z.of_nat (base.size (c_onFlightReqs (w_conn w'))) + lenZ l <= maxOnFlight)).
  2:{ intros _ w' G (Hl' & Hi' & Hn'). by apply IH; [apply G|..]. }
  eapply holds_bind; [by apply holds_get|]. intros c w1 _ [-> ->]. case_bool_decide as Hin.
  { apply holds_ret; [done|]. split_and!; [done|done|lia]. }
  eapply holds_bind; [apply holds_mod, goes_conn; try apply Hw; try done|].
  - cbn. intros x [Hx| ->%elem_of_singleton]%elem_of_union; [by apply (ci_flight _ Hw)|done].
  - cbn. rewrite size_union by set_solver. rewrite size_singleton. lia.
  - cbn. congruence.
  - intros _ w1 G ->. eapply holds_weaken; [apply holds_peer_plain; [apply G|unfold plain_kinds; cbn; set_solver]|].
    intros _ w2 _ [-> ->]. cbn. split_and!; [done|done|]. rewrite size_union by set_solver. rewrite size_singleton. lia.
Qed.

Lemma holds_maybeSend w : cinv w -> holds (maybeSendRequests env) w True2.
Proof.
  intros Hw. unfold maybeSendRequests. eapply (holds_bind _ _ _ (fun want w' => w' = w /\ (want = true ->
    c_haveInfo (w_conn w) = true /\ Z.of_nat (base.size (c_onFlightReqs (w_conn w))) < maxOnFlight))).
  { unfold wantBlocks. eapply holds_bind; [by apply holds_amSeeding|]. intros sd w1 _ ->.
    eapply holds_bind; [by apply holds_get|]. intros c w1 _ [-> ->]. apply holds_ret; [done|]. split; [done|].
    rewrite !andb_true_iff. intros [[[[_ Hi] _] _] Hn%Z.ltb_lt]. split; [done|]. by change (Z.quot maxOnFlight 2) with 10 in Hn; change maxOnFlight with 20; lia. }
  intros want w1 _ [-> Hwant]. destruct want; cbn [negb]; [|by apply holds_ret]. destruct (Hwant eq_refl) as [Hi Hn]. clear Hwant.
  eapply holds_bind; [by apply holds_get|]. intros c w1 _ [-> ->]. destruct (Z.leb_spec (maxOnFlight - Z.of_nat (base.size (c_onFlightReqs (w_conn w)))) 0); [lia|].
  pose proof (ci_info _ Hw Hi) as Hr. eapply holds_bind; [by apply holds_pieces|]. intros p w1 _ [Hp ->].
  eapply holds_bind; [by apply holds_get|]. intros q w1 _ [-> ->]. rewrite (so_params _ (ci_shared _ Hw)).
  eapply holds_bind; [by apply holds_draw|]. intros coin w1 G1 (_ & Ec & Es).
  destruct (fill_any p coin (c_peerBf (w_conn w)) (maxOnFlight - Z.of_nat (base.size (c_onFlightReqs (w_conn w)))))
    as (p' & new & E & Hp' & Hsh & Hlen & Hnew); [by apply (so_pieces _ (ci_shared _ Hw))|lia|].
  eapply holds_bind; [apply holds_lift; [apply G1|exact E]|]. intros x w2 _ [-> ->]. cbn beta iota.
  eapply holds_bind; [apply holds_mod, goes_shared; [apply G1|]|].
  { rewrite Es. eapply later_pieces; [apply Hw|done|done|done]. }
  intros _ w2 G2 ->. apply holds_requests; [apply G2|cbn; by rewrite Ec| |cbn; rewrite Ec; lia].
  cbn. rewrite Es. eapply Forall_impl; [exact Hnew|]. intros b. by apply (known_block_shapes _ p).
Qed.

(** ** Metadata requests *)

Lemma enc_entries_Ok l : Forall (fun e => exists s, e.2 = Ok s) l -> exists s, enc_entries l = Ok s.
Proof.
  induction 1 as [|[k r] l [x Hx] _ [y Hy]]; [by eexists|]. cbn in *. rewrite Hx, Hy. cbn. by eexists.
Qed.

Lemma insert_key_elem {A} k (x : A) l e : e ∈ insert_key k x l -> e = (k, x) \/ e ∈ l.
Proof.
  induction l as [|[k' y] l IH]; cbn; [set_solver|]. destruct (bytes_ltb k k'); set_solver.
Qed.

Lemma sort_keys_elem {A} (l : list (bytes * A)) e : e ∈ sort_keys l -> e ∈ l.
Proof.
  induction l as [|[k x] l IH]; cbn; [done|]. intros [->|Hin]%insert_key_elem; [left|]. right. by apply IH.
Qed.

Lemma encode_metadata id v : exists s, Wire.Encode (mkMsg Extended 0 0 0 [] [] 0 id (ExtMetadata v)) = Some s.
Proof.
  assert (exists s, encode MetadataExtMsg_type (MetadataExtMsg_val v) = Ok s) as [s Hs].
  { unfold MetadataExtMsg_type, MetadataExtMsg_val. rewrite encode_struct.
    match goal with |- context [enc_entries ?l] => destruct (enc_entries_Ok l) as [b Hb] end.
    - apply Forall_forall. intros e (x & -> & [_ Hx]%list_elem_of_filter)%list_elem_of_fmap. apply sort_keys_elem in Hx.
      cbn in Hx. repeat (apply elem_of_cons in Hx as [->|Hx]; [by eexists|]). by apply elem_of_nil in Hx.
    - rewrite Hb. by eexists. }
  unfold Wire.Encode, encode_body. cbn [Kind]. unfold writeExtension. cbn [ExtendedMsg extmsg_val ExtendedID].
  unfold BenEncode.Encode. rewrite encode_ptr_iface, Hs.
  destruct (id =? 0); [by eexists|]. destruct (me_Data v); by eexists.
Qed.

Lemma holds_extensionMsg name v w : cinv w ->
  holds (extensionMsg name (ExtMetadata v)) w (fun m w' => w' = w /\ (exists s, Wire.Encode m = Some s) /\ served m).
Proof.
  intros Hw. unfold extensionMsg. eapply holds_bind; [by apply holds_get|]. intros e w1 _ [-> ->].
  destruct (assoc _ _); [|by apply holds_fail]. apply holds_ret; [done|]. split; [done|]. split; [apply encode_metadata|by intros].
Qed.

Lemma holds_metadata_loop l w : cinv w -> holds (request_metadata_loop l) w True2.
Proof.
  revert w. induction l as [|i l IH]; intros w Hw; cbn [request_metadata_loop]; [by apply holds_ret|].
  eapply holds_bind; [by apply holds_try, holds_extensionMsg|]. intros [m|e] w1 G1; [|intros _; by apply holds_ret; [apply G1|]].
  intros (-> & Hm & Hm'). eapply holds_bind; [by apply holds_get|]. intros c w1 _ [-> ->].
  eapply holds_bind; [|intros _ w2 G2 _; apply IH, G2]. apply (holds_when _ _ _ True2); [done| |done]. intros _.
  eapply holds_bind; [apply holds_mod, goes_conn; try apply Hw; done|]. intros _ w2 G2 ->.
  eapply holds_weaken; [apply holds_peer; [apply G2|done|done]|done].
Qed.

Lemma holds_requestMetadata w : cinv w -> holds (requestMetadata env) w True2.
Proof.
  intros Hw. unfold requestMetadata. eapply holds_bind; [by apply holds_get|]. intros u w1 _ [-> ->].
  eapply holds_bind; [by apply holds_get|]. intros c w1 _ [-> ->]. destruct (_ || c_haveInfo _); [by apply holds_ret|].
  destruct (metadataSize (w_conn w) =? 0) eqn:Em; cbn [orb]; [by apply holds_ret|]. apply Z.eqb_neq in Em.
  destruct (c_exts _); [|by apply holds_ret]. destruct (assoc _ _); [|by apply holds_ret].
  destruct (_ <=? 0); [by apply holds_ret|]. eapply holds_bind; [by apply holds_draw|]. intros sh w1 G1 (_ & _ & _).
  destruct (ci_meta _ Hw Em) as [ut Hut]. eapply holds_bind; [apply holds_lift; [apply G1|]; unfold uts_fillRequest; by rewrite Hut|].
  intros x w2 _ [-> ->]. apply holds_metadata_loop, G1.
Qed.

(** ** Discarding requests *)

Section with_torrent.
Variable toTorrent : tmsg B -> CM unit.
Variable n : nat.
(** Handing a message to the torrent works while fewer than [n] selects are left. *)
Hypothesis toTorrent_ok : forall e w, cinv w -> sent_ok (w_shared w) e -> (length (w_sched w) < n)%nat ->
  holds (toTorrent e) w True2.

Lemma holds_discard notify cancels w :
  cinv w -> (length (w_sched w) < n)%nat -> holds (discardBlocks env toTorrent notify cancels) w True2.
Proof.
  intros Hw Hn. unfold discardBlocks. eapply holds_bind; [by apply holds_get|]. intros c w1 _ [-> ->].
  destruct (Nat.ltb_spec 0 (base.size (c_onFlightReqs (w_conn w)))) as [Hpos|]; [|by apply holds_ret].
  assert (Hi : c_haveInfo (w_conn w) = true).
  { apply not_false_is_true. intros Hf%(ci_noinfo _ Hw). rewrite Hf, size_empty in Hpos. lia. }
  eapply holds_bind; [by apply holds_draw|]. intros reqs w1 G1 (-> & Ec & Es).
  set (reqs := ce_order env _ _). assert (Hreqs : forall b, b ∈ reqs -> b ∈ c_onFlightReqs (w_conn w)).
  { intros b Hb. unfold reqs in Hb. rewrite order_perm in Hb. by apply elem_of_elements. }
  eapply (holds_bind _ _ _ (fun _ w' => Forall (known_block (w_shared w')) reqs)).
  { assert (Hk : Forall (fun b => known_block (w_shared w1) b) reqs).
    { apply Forall_forall. intros b Hb. rewrite Es. by apply (ci_flight _ Hw), Hreqs. }
    destruct cancels; cbn [cwhen]; [|by apply holds_ret; [apply G1|]].
    eapply holds_weaken; [apply (holds_for _ _ _ (fun _ _ => True)); [apply G1|by apply Forall_true|done|]|].
    - intros b w' _ Hw' _. eapply holds_weaken; [apply holds_peer_plain; [done|unfold plain_kinds; cbn; set_solver]|done].
    - intros _ w' G _. eapply Forall_impl; [exact Hk|]. intros b. apply (la_block _ _ (go_later _ _ G)). }
  intros _ w2 G2 Hk. assert (Hi2 : c_haveInfo (w_conn w2) = true) by (by apply (go_info _ _ G2), (go_info _ _ G1)).
  eapply holds_bind; [apply holds_pieces; [apply G2|apply (ci_info _ (go_inv _ _ G2) Hi2)]|]. intros p w3 _ [Hp ->].
  assert (Hin : Forall (block_in tp p) reqs).
  { eapply Forall_impl; [exact Hk|]. intros b (q & Hq & Hb). congruence. }
  pose proof (so_pieces _ (ci_shared _ (go_inv _ _ G2)) p Hp) as Hpok.
  destruct (discardRequests_spec tp p reqs Hpok Hin) as (p' & E & Hp' & Hs & _).
  eapply holds_bind; [apply holds_lift; [apply G2|exact E]|]. intros x w3 _ [-> ->].
  eapply holds_bind; [apply holds_mod, goes_shared; [apply G2|by eapply later_pieces; [apply G2|..]]|]. intros _ w3 G3 ->.
  eapply holds_bind; [apply holds_mod, goes_conn; try solve [done|apply (go_inv _ _ G3)]|].
  intros _ w4 G4 ->. apply holds_when; [apply G4| |done]. intros _. apply toTorrent_ok; [apply G4|done|].
  cbn. pose proof (go_sched _ _ G1). pose proof (go_sched _ _ G2). lia.
Qed.

(** ** Commands of the torrent *)

Lemma holds_onTorrentHave v w :
  cinv w -> c_haveInfo (w_conn w) = true -> 0 <= Index v < t_numPieces tp -> Kind v = Have ->
  holds (onTorrentHave env v) w True2.
Proof.
  intros Hw Hi Hx Hk. unfold onTorrentHave. pose proof (pa_num _ tp_ok) as Hnum.
  assert (Hp : Kind v ∈ plain_kinds) by (rewrite Hk; unfold plain_kinds; set_solver).
  eapply holds_bind; [apply holds_mod, goes_conn; try solve [done|apply Hw]|].
  { cbn. intros i. rewrite bm_Get_Set by (unfold bm_index; lia). destruct (Z.eqb_spec i (Index v)); [lia|]. apply (ci_myBf _ Hw). }
  intros _ w1 G1 ->. pose proof (go_inv _ _ G1) as Hw1.
  eapply holds_bind; [by apply holds_notUseful|]. intros [] w2 _ ->; [by apply holds_fail|].
  eapply holds_bind; [by apply holds_peerSeeding|]. intros [] w2 _ ->; [by apply holds_ret|].
  eapply holds_bind; [by apply holds_get|]. intros bf w2 _ [-> ->].
  destruct (bm_Get _ _); [|eapply holds_weaken; [by apply holds_peer_plain|done]].
  eapply holds_bind; [by apply holds_draw|]. intros [] w2 G2 _; [by apply holds_ret; [apply G2|]|].
  eapply holds_weaken; [apply holds_peer_plain; [apply G2|done]|done].
Qed.

Lemma in_range_Iter bm : in_range bm -> Forall (fun i => 0 <= i < t_numPieces tp) (bm_Iter bm).
Proof. intros Hr. apply Forall_forall. intros i Hi%bm_Iter_Get. by apply Hr. Qed.

Lemma SetPieces_Some (l : list Z) bf :
  lenZ bf = (t_numPieces tp + 7) / 8 -> Forall (fun i => 0 <= i < t_numPieces tp) l -> exists bf', foldM SetPiece bf l = Some bf'.
Proof.
  intros Hl Hr. revert bf Hl. induction Hr as [|i l Hi _ IH]; intros bf Hl; cbn [foldM]; [by eexists|].
  assert (Hlt : 0 <= Z.quot i 8 < lenZ bf) by (rewrite Hl, Z.quot_div_nonneg by lia; lia_div).
  assert (exists bf', SetPiece bf i = Some bf' /\ lenZ bf' = lenZ bf) as (bf' & -> & Hl').
  { unfold SetPiece. destruct (at_index_Some bf _ Hlt) as [x ->]. cbn [mbind option_bind]. rewrite set_index_Some by done.
    eexists. split; [reflexivity|]. by rewrite length_insert. }
  cbn [mbind option_bind]. apply IH. by rewrite Hl'.
Qed.

Lemma holds_bitfield bm w : cinv w -> in_range bm -> holds (bitfield bm) w (fun _ w' => w' = w).
Proof.
  intros Hw Hr. unfold bitfield. eapply holds_bind; [by apply holds_get|]. intros n' w1 _ [-> ->].
  unfold c_numPieces. rewrite (so_params _ (ci_shared _ Hw)). pose proof (pa_num _ tp_ok) as Hn.
  pose proof (BfLen_ceil (t_numPieces tp) ltac:(lia)) as Hb.
  assert (0 <= (t_numPieces tp + 7) / 8) by (apply Z.div_pos; lia).
  eapply holds_bind; [apply holds_lift; [done|]; unfold NewBitField; rewrite Hb; destruct (Z.ltb_spec ((t_numPieces tp + 7) / 8) 0); [lia|done]|].
  intros x w1 _ [-> ->]. destruct (SetPieces_Some (bm_Iter bm) (replicate (Z.to_nat ((t_numPieces tp + 7) / 8)) Byte.x00)) as [bf' E].
  - rewrite length_replicate. lia.
  - by apply in_range_Iter.
  - eapply holds_weaken; [by apply holds_lift|]. by intros x w1 _ [_ ->].
Qed.

(** Counting the pieces of a peer. *)
Lemma onHave_keeps (p : pieces B S) i : pieces_ok tp p -> 0 <= i < t_numPieces tp ->
  exists p', onHave p i = Some p' /\ pieces_ok tp p' /\ same_shapes p p'.
Proof.
  intros Hp Hi. destruct (at_index_Some (pcs p) i) as [pc Hpc]; [rewrite (pso_len _ _ Hp); lia|].
  destruct (pieces_entry _ _ _ _ Hp Hpc) as (_ & Hok & _).
  destruct (update_changes tp p i pc (fun pc => with_rarity pc (rarity pc + 1)) (fun _ s => s) Hp Hpc) as (q & E & Hq & Hs & _).
  { apply (rarity_changes tp pc (rarity pc + 1) Hok). }
  by exists q.
Qed.

Lemma onBitfield_keeps (p : pieces B S) bm : pieces_ok tp p -> in_range bm ->
  exists p', onBitfield p bm = Some p' /\ pieces_ok tp p' /\ same_shapes p p'.
Proof.
  intros Hp Hr%in_range_Iter. unfold onBitfield. revert p Hp. induction Hr as [|i l Hi _ IH]; intros p Hp; cbn [foldM].
  { exists p. split_and!; [done|done|apply same_shapes_refl]. }
  destruct (onHave_keeps p i Hp Hi) as (p1 & E & Hp1 & Hs1). rewrite E. cbn [mbind option_bind].
  destruct (IH p1 Hp1) as (p2 & E2 & Hp2 & Hs2). exists p2. split_and!; [done|done|by eapply same_shapes_trans].
Qed.

Lemma holds_onBitfield bm w :
  cinv w -> ready (w_shared w) = true -> in_range bm ->
  holds (p ← the_pieces; p ← clift (onBitfield p bm); cmod (set_sh (with_shpieces p))) w (fun _ w' => w_conn w' = w_conn w).
Proof.
  intros Hw Hr Hb. eapply holds_bind; [by apply holds_pieces|]. intros p w1 _ [Hp ->].
  pose proof (so_pieces _ (ci_shared _ Hw) p Hp) as Hpok. destruct (onBitfield_keeps p bm Hpok Hb) as (p' & E & Hp' & Hs).
  eapply holds_bind; [by apply holds_lift|]. intros x w1 _ [-> ->].
  eapply holds_weaken; [apply holds_mod, goes_shared; [done|by eapply later_pieces; [apply Hw|..]]|]. by intros _ w1 _ ->.
Qed.

(** What the connection does once it knows of the info dictionary. *)
Definition told : CM unit :=
  bf ← cget (fun w => c_peerBf (w_conn w));
  cwhen (0 <? bm_Len bf) (p ← the_pieces; p ← clift (onBitfield p bf); cmod (set_sh (with_shpieces p)));;
  maybeSendRequests env.

Lemma holds_told w : cinv w -> c_haveInfo (w_conn w) = true -> holds told w True2.
Proof.
  intros Hw Hi. unfold told. eapply holds_bind; [by apply holds_get|]. intros bf w1 _ [-> ->].
  eapply (holds_bind _ _ _ True2); [|intros _ w2 G2 _; apply holds_maybeSend, G2].
  apply holds_when; [done| |done]. intros _.
  eapply holds_weaken; [apply holds_onBitfield; [done|by apply (ci_info _ Hw)|apply Hw]|done].
Qed.

Definition is_haveInfo (cmd : cmsg B) : bool := match cmd with CHaveInfo => true | _ => false end.

Lemma holds_wire v w :
  cinv w -> cmd_ok (c_haveInfo (w_conn w)) (ready (w_shared w)) (CWire v) -> (length (w_sched w) < n)%nat ->
  holds (onTorrentMsg env toTorrent (CWire v)) w True2.
Proof.
  intros Hw [Hk|(Hk & Hi & Hx)] Hn; cbn [onTorrentMsg].
  2:{ rewrite Hk. cbn [Z.eqb Port Interested NotInterested Choke Unchoke Have]. by apply holds_onTorrentHave. }
  assert (Hpl : Kind v ∈ plain_kinds) by (unfold plain_kinds; set_solver).
  assert (Hsend : forall w', cinv w' -> holds (sendMsgToPeer v) w' True2).
  { intros w' Hw'. eapply holds_weaken; [by apply holds_peer_plain|done]. }
  destruct (Z.eqb_spec (Kind v) Port); [by apply Hsend|].
  destruct (Z.eqb_spec (Kind v) Interested).
  { eapply holds_bind; [apply holds_mod, goes_conn; solve [done|apply Hw]|]. intros _ w1 G1 ->.
    eapply holds_bind; [apply holds_try, Hsend, G1|]. intros _ w2 G2 _. apply holds_maybeSend, G2. }
  destruct (Z.eqb_spec (Kind v) NotInterested).
  { eapply holds_bind; [apply holds_mod, goes_conn; solve [done|apply Hw]|]. intros _ w1 G1 ->.
    eapply holds_bind; [apply holds_discard; [apply G1|done]|]. intros _ w2 G2 _. apply Hsend, G2. }
  destruct (Z.eqb_spec (Kind v) Choke).
  { eapply holds_bind; [apply holds_mod, goes_conn; solve [done|apply Hw]|]. intros _ w1 G1 ->. pose proof (go_inv _ _ G1) as Hw1.
    eapply holds_bind; [apply holds_mod, goes_conn; try solve [done|apply Hw1]|intros _ w2 G2 ->; apply Hsend, G2].
    cbn. rewrite size_empty. lia. }
  destruct (Z.eqb_spec (Kind v) Unchoke).
  { eapply holds_bind; [apply holds_mod, goes_conn; solve [done|apply Hw]|]. intros _ w1 G1 ->. apply Hsend, G1. }
  assert (Kind v = Cancel) as -> by set_solver. cbn [Z.eqb Have Cancel].
  eapply holds_bind; [by apply holds_get|]. intros c w1 _ [-> ->]. apply holds_when; [done| |done]. intros _. by apply Hsend.
Qed.

Lemma holds_onTorrentMsg cmd w :
  cinv w -> cmd_ok (c_haveInfo (w_conn w)) (ready (w_shared w)) cmd -> is_haveInfo cmd = false -> (length (w_sched w) < n)%nat ->
  holds (onTorrentMsg env toTorrent cmd) w True2.
Proof.
  intros Hw Hc Hh Hn. destruct cmd as [v|v| | |]; cbn [onTorrentMsg]; [by apply holds_wire| | |done|by apply holds_fail].
  - destruct Hc as [Hi Hr]. eapply holds_bind; [apply holds_mod, goes_conn; solve [done|apply Hw]|]. intros _ w1 G1 ->.
    eapply holds_bind; [apply holds_notUseful, G1|]. intros [] w2 _ ->; [apply holds_fail, G1|].
    eapply holds_bind; [apply holds_bitfield; [apply G1|done]|]. intros bf w2 _ ->.
    eapply holds_weaken; [apply holds_peer_plain; [apply G1|unfold plain_kinds; cbn; set_solver]|done].
  - eapply holds_bind; [by apply holds_get|]. intros [] w1 _ [_ ->]; [by apply holds_maybeSend|by apply holds_requestMetadata].
Qed.

End with_torrent.
(** ** Handing a message to the torrent *)

Lemma lands_goes {A} (k : CM A) w w1 Q : goes w w1 -> holds k w1 Q -> lands w (k w1) Q.
Proof.
  intros G. unfold holds, lands. destruct (k w1) as [a w2|e w2| | | |]; [|by apply goes_trans|done|by apply no_storage|done..].
  intros [G2 Hq]. split; [by eapply goes_trans|done].
Qed.

Lemma sched_ok_info ex l : sched_ok false ex l -> sched_ok true ex l.
Proof.
  revert ex. induction l as [|[|cmd| | |m|f] l IH]; intros ex; cbn; try done; try apply IH.
  - intros [Hc Hl]. split; [|destruct cmd; [by apply IH..|done|by apply IH]].
    destruct cmd as [v|v| | |]; cbn in *; try done; [destruct Hc as [?|(? & ? & _)]; [by left|done]|by destruct Hc].
  - intros [Hm Hl]. split; [done|by apply IH].
  - intros [Hf [[? ?]|?]]; (split; [done|]); [left|right]; auto.
Qed.

(** The world after the select has taken the next case. *)
Definition popped w (l : list sel) : world :=
  mkWorld (w_conn w) (w_shared w) (w_sent w) (w_wire w) (w_buffered w) l (w_writes w) (w_tick w).

Lemma goes_popped w s l :
  cinv w -> w_sched w = s :: l -> sched_ok (c_haveInfo (w_conn w)) (ready (w_shared w)) l -> goes w (popped w l).
Proof.
  intros [] El Hl. constructor; [by constructor|cbn; rewrite El; cbn; lia|by apply later_refl|done].
Qed.

(** Taking the news of the info dictionary. *)
Lemma goes_told w l :
  cinv w -> ready (w_shared w) = true -> sched_ok true true l -> (length l <= length (w_sched w))%nat ->
  goes w (set_c with_haveInfo (popped w l)).
Proof.
  intros [] Hr Hl Hle. constructor; [|done|by apply later_refl|done]. constructor; try done. cbn. by rewrite Hr.
Qed.

(** The reader keeps at most [reqq] requests of the peer. *)
Lemma holds_read m w : cinv w -> read_ok m -> holds (readPeerMsg m) w True2.
Proof.
  intros Hw Hm. unfold readPeerMsg. destruct (Z.eqb_spec (Kind m) RequestK) as [Ek|_].
  - eapply holds_bind; [by apply holds_get|]. intros c w1 _ [-> ->]. eapply holds_bind; [by apply holds_get|]. intros q w1 _ [-> ->].
    case_bool_decide; [by apply holds_ret|]. destruct (Z.leb_spec (sh_reqq (w_shared w)) (Z.of_nat (base.size (c_peerReqs (w_conn w)))));
      [by apply holds_ret|].
    eapply holds_bind; [apply holds_mod, goes_conn; try solve [done|apply Hw]|intros _ w1 G1 _; apply holds_ret; [apply G1|done]]; cbn.
    + intros b. rewrite elem_of_union, elem_of_singleton. intros [Hb| ->]; [by apply (ci_peerReqs _ Hw)|by apply Hm].
    + rewrite size_union_alt.
      pose proof (subseteq_size ({[ reqMsgToBlock m ]} ∖ c_peerReqs (w_conn w)) {[ reqMsgToBlock m ]} ltac:(set_solver)) as Hle.
      rewrite size_singleton in Hle. lia.
  - destruct (_ =? Cancel); [|by apply holds_ret].
    eapply holds_bind; [apply holds_mod, goes_drop_req, Hw|intros _ w1 G1 _; apply holds_ret; [apply G1|done]].
Qed.

Lemma holds_save fuel e (m : CM unit) w :
  (forall w', cinv w' -> sent_ok (w_shared w') e -> (length (w_sched w') < fuel)%nat ->
     holds (sendMsgToTorrent_fuel env fuel e) w' True2) ->
  sent_ok (w_shared w) e -> (length (w_sched w) < fuel)%nat -> holds m w True2 ->
  holds (r ← ctry m; match r with
                     | inl _ => sendMsgToTorrent_fuel env fuel e
                     | inr err => cmod (set_c (with_lastMsg e));; cfail err
                     end) w True2.
Proof.
  intros IH He Hf Hm. eapply holds_bind; [by apply holds_try|]. intros r w1 G1 _.
  pose proof (sent_later _ _ _ (go_later _ _ G1) He) as He1. pose proof (go_inv _ _ G1) as Hw1. destruct r as [_|err].
  - apply IH; [done|done|]. pose proof (go_sched _ _ G1). lia.
  - eapply holds_bind; [apply holds_mod, goes_conn; try solve [done|apply Hw1]|intros _ w2 G2 _; apply holds_fail, G2].
    cbn. by intros x [= <-].
Qed.

Lemma holds_send_fuel fuel e w :
  cinv w -> sent_ok (w_shared w) e -> (length (w_sched w) < fuel)%nat -> holds (sendMsgToTorrent_fuel env fuel e) w True2.
Proof.
  revert e w. induction fuel as [|fuel IH]; intros e w Hw He Hf; [lia|].
  destruct (w_sched w) as [|s l] eqn:El.
  { unfold holds, lands. cbn [sendMsgToTorrent_fuel]. unfold mbind, CM_bind, next_sel. rewrite El.
    split; [by apply goes_sent|done]. }
  pose proof (ci_sched _ Hw) as Hs. rewrite El in Hs. cbn [length] in Hf.
  assert (En : forall k : sel -> CM unit, (next_sel ≫= k) w = k s (popped w l)).
  { intros k. unfold mbind, CM_bind, next_sel. by rewrite El. }
  cbn [sendMsgToTorrent_fuel]. unfold holds. rewrite En. clear En.
  assert (Hgo : sched_ok (c_haveInfo (w_conn w)) (ready (w_shared w)) l -> goes w (popped w l)) by (by apply (goes_popped w s)).
  destruct s as [|cmd| | |m|f]; cbn [sched_ok] in Hs.
  - apply lands_goes; [apply Hgo, Hs|].
    eapply holds_weaken; [apply holds_mod, goes_sent; [apply Hgo, Hs|done]|done].
  - destruct Hs as [Hc Hl]. destruct (is_haveInfo cmd) eqn:Eh.
    + destruct cmd; try done. cbn in Hc. rewrite Hc, orb_true_r in Hl.
      assert (G : goes w (set_c with_haveInfo (popped w l))) by (apply goes_told; [done|done|done|rewrite El; cbn; lia]).
      change (lands w ((r ← ctry told; match r with
        | inl _ => sendMsgToTorrent_fuel env fuel e
        | inr err => cmod (set_c (with_lastMsg e));; cfail err
        end) (set_c with_haveInfo (popped w l))) True2).
      apply lands_goes; [done|]. apply holds_save; [intros; by apply IH|done|cbn; lia|]. apply holds_told; [apply G|done].
    + assert (Hl' : sched_ok (c_haveInfo (w_conn w)) (ready (w_shared w)) l) by (by destruct cmd; rewrite ?orb_false_r in Hl).
      apply lands_goes; [by apply Hgo|]. apply holds_save; [intros; by apply IH|done|cbn; lia|].
      apply (holds_onTorrentMsg _ fuel); [intros; by apply IH|apply Hgo, Hl'|done|done|cbn; lia].
  - apply lands_goes; [by apply Hgo|]. apply holds_save; [intros; by apply IH|done|cbn; lia|].
    apply holds_fail, Hgo, Hs.
  - apply lands_goes; [by apply Hgo|]. apply holds_save; [intros; by apply IH|done|cbn; lia|].
    eapply holds_weaken; [apply holds_peer_plain; [apply Hgo, Hs|unfold plain_kinds; cbn; set_solver]|done].
  - destruct Hs as [Hm Hl]. apply lands_goes; [by apply Hgo|].
    eapply holds_bind; [by apply holds_read; [apply Hgo|]|]. intros r w1 G1 _. pose proof (go_sched _ _ G1) as Hle. cbn in Hle.
    apply IH; [apply G1|by eapply (sent_later _ _ _ (go_later _ _ G1))|lia].
  - destruct Hs as [Hf' Hl].
    assert (G : goes w (set_sh f (popped w l))).
    { pose proof (Hf' _ (ci_shared _ Hw)) as L.
      assert (Hl' : sched_ok (c_haveInfo (w_conn w)) (ready (f (w_shared w))) l).
      { destruct Hl as [[Hr Hl]|Hl]; [by rewrite Hr by apply Hw|].
        destruct (ready (w_shared w)) eqn:Er; [by rewrite (la_ready _ _ L Er)|].
        destruct (ready (f (w_shared w))); [by apply sched_ok_ready|done]. }
      assert (Hunsched : cinv (popped w [])) by (destruct Hw; by constructor).
      destruct (goes_shared f (popped w []) Hunsched L) as [[] _ _ _].
      constructor; [by constructor|cbn; rewrite El; cbn; lia|done|done]. }
    apply (lands_goes (sendMsgToTorrent_fuel env fuel e) w (set_sh f (popped w l))); [done|].
    apply IH; [apply G| |cbn; lia]. eapply sent_later; [|exact He]. apply G.
Qed.

Lemma holds_send e w : cinv w -> sent_ok (w_shared w) e -> holds (sendMsgToTorrent env e) w True2.
Proof. intros Hw He. apply holds_send_fuel; [done|done|lia]. Qed.

(** ** Blocks in the storage *)

Lemma torrent_off_small st pc off :
  PieceLen (st_info st) = t_PieceLen tp -> 0 <= pc < t_numPieces tp -> 0 <= off < 2 ^ 33 ->
  torrent_off st pc off = pc * t_PieceLen tp + off.
Proof.
  intros El Hpc Ho. unfold torrent_off. rewrite El. pose proof (pa_brs _ tp_ok) as Hb.
  apply int64_small. nia.
Qed.

(** The piece of an offset within a piece, or at the end of one that is not the last. *)
Lemma index_in_range st pc off :
  PieceLen (st_info st) = t_PieceLen tp -> lenZ (st_pieces st) = t_numPieces tp ->
  0 <= pc < t_numPieces tp -> 0 <= off <= t_PieceLen tp -> (off = t_PieceLen tp -> pc <> t_numPieces tp - 1) ->
  exists i piece, pieceIndex st (torrent_off st pc off) = Some i /\ at_index (st_pieces st) i = Some piece.
Proof.
  intros El Es Hpc Ho Hl. pose proof (pa_brs _ tp_ok) as Hb. pose proof (pa_bound _ tp_ok) as Hbd.
  rewrite (torrent_off_small st pc off El Hpc) by lia. unfold pieceIndex. rewrite El.
  destruct (Z.eqb_spec (t_PieceLen tp) 0); [lia|]. rewrite Z.quot_div_nonneg by nia.
  assert (Hi : 0 <= (pc * t_PieceLen tp + off) / t_PieceLen tp < t_numPieces tp).
  { rewrite Z.div_add_l by lia. destruct (decide (off = t_PieceLen tp)) as [->|].
    - rewrite Z.div_same by lia. specialize (Hl eq_refl). lia.
    - rewrite (Z.div_small off) by lia. lia. }
  destruct (at_index_Some (st_pieces st) _ ltac:(rewrite Es; exact Hi)) as [piece Hp]. by eexists _, piece.
Qed.

(** A write at an offset that is not negative only fails when a file cannot be opened or written. *)
Lemma WriteAt_files_err s files p off n s' n' e :
  0 <= off -> WriteAt_files join io s files p off n = (s', n', Some e) -> io_fails io.
Proof.
  revert s p off n. induction files as [|fi files IH]; intros s p off n Ho; cbn [WriteAt_files]; [done|].
  destruct (Z.leb_spec (f_Len fi) off); [apply IH; lia|]. destruct (can_open io (fileInfoName join s fi)) eqn:Eo; cbn [negb]; [|by left; eauto].
  destruct (Z.ltb_spec off 0); [lia|]. destruct (file_WriteAt _ _ _ _ _) as [fs []] eqn:Ef; cbn [negb]; [|intros _; by eapply file_WriteAt_err].
  case_bool_decide; [done|]. apply IH. lia.
Qed.

Lemma WriteBlock_keeps st data pc off :
  PieceLen (st_info st) = t_PieceLen tp -> lenZ (st_pieces st) = t_numPieces tp ->
  0 <= pc < t_numPieces tp -> 0 <= off < t_PieceLen tp ->
  exists st' n err, WriteBlock join io st data (torrent_off st pc off) = Some (st', n, err) /\
    st_info st' = st_info st /\ lenZ (st_pieces st') = lenZ (st_pieces st) /\
    (err = None \/ err = Some ErrAlreadyWritten \/ io_fails io).
Proof.
  intros El Es Hpc Ho. destruct (index_in_range st pc off El Es Hpc) as (i & piece & Hi & Hp); [lia|lia|].
  pose proof (pa_bound _ tp_ok) as Hbd. pose proof (pa_brs _ tp_ok) as Hb.
  unfold WriteBlock. rewrite Hi. cbn [mbind option_bind]. rewrite Hp. cbn [mbind option_bind].
  destruct (reserveOffset piece _) as [piece' ok]. destruct ok; cbn [negb]; [|eexists _, _, _; split_and!; [done..|]; auto].
  pose proof (at_index_bound _ _ _ Hp) as Hbi. rewrite set_index_Some by done. cbn [mbind option_bind]. unfold WriteAt.
  pose proof (WriteAt_files_keeps join io (FilesInfo (st_info (with_pieces st (<[Z.to_nat i:=piece']> (st_pieces st))))) data
    (torrent_off st pc off) 0 (with_pieces st (<[Z.to_nat i:=piece']> (st_pieces st)))) as Hk.
  destruct (WriteAt_files _ _ _ _ _ _ _) as [[st' n'] err] eqn:E. destruct Hk as [Hki Hkp].
  exists st', n', err. split_and!; [done|by rewrite Hki|rewrite Hkp; cbn; by rewrite length_insert|].
  destruct err as [e|]; [|by left]. right. right. eapply WriteAt_files_err; [|exact E].
  rewrite (torrent_off_small st pc off El Hpc) by lia. nia.
Qed.

Lemma later_storage sh st st' :
  shared_ok sh -> sh_storage sh = Some st -> st_info st' = st_info st -> lenZ (st_pieces st') = lenZ (st_pieces st) -> trusted st' ->
  later sh (with_shstorage st' sh).
Proof.
  intros [K1 K2 Kf K3 Kg K4 K5] Hst Ei El Hg. destruct (K3 st Hst) as [Hi Hl]. constructor.
  - constructor; try done; intros x [= <-]; [by rewrite Ei, El|done].
  - done.
  - done.
  - done.
  - done.
  - done.
Qed.

(** ** Messages of the peer *)

Lemma holds_changeState cur set v m w :
  cinv w -> holds (changeState env cur set v m) w True2.
Proof.
  intros Hw. unfold changeState. eapply holds_bind; [by apply holds_get|]. intros st w1 _ [-> ->].
  destruct (eqb _ _); [by apply holds_ret|].
  eapply holds_bind; [apply holds_mod, goes_conn; solve [done|apply Hw]|]. intros _ w1 G1 ->. by apply holds_send; [apply G1|].
Qed.

(** A known block lies within its piece. *)
Lemma known_block_bounds sh b : shared_ok sh -> known_block sh b ->
  0 <= b_pc b < t_numPieces tp /\ exists len, pieceLen tp (b_pc b) = Some len /\ len <= t_PieceLen tp /\
    0 <= b_off b /\ 0 < b_len b /\ b_off b + b_len b <= len.
Proof.
  intros Hs (p & Hp & pc & Hi & Ho & Hl). pose proof (so_pieces _ Hs p Hp) as Hpo. pose proof (pa_brs _ tp_ok). pose proof (pa_num _ tp_ok).
  destruct (pieces_entry _ _ _ _ Hpo Hi) as (Hx & Hok & _ & _ & Hr). split; [done|].
  pose proof (proj1 (Forall_forall _ _) (so_fits _ Hs p Hp) pc) as Hf. cbn in Hf. rewrite Hx in Hf.
  assert (uint32 (b_pc b) = b_pc b) as E by (apply wrapU_id; unfold in_u; lia). rewrite E in Hf.
  destruct (pieceLen_range tp (b_pc b) tp_ok) as (len & Hpl & Hrl). exists len. split_and!; [done|lia|..].
  all: specialize (Hf ltac:(apply at_index_lookup in Hi as [Hi _]; by eapply list_elem_of_lookup_2)); rewrite Hpl in Hf; injection Hf as Hf;
    unfold piece_length in Hf; apply elem_of_offsets in Ho as (j & Hj & Hjb); rewrite ?Hl; unfold blockLen; pose proof (po_last _ _ Hok); rewrite Hj;
    rewrite ?Z.quot_mul by lia; try (destruct (Z.eqb_spec j (blocks pc - 1)) as [->|]); nia.
Qed.

Lemma holds_store data b w :
  cinv w -> c_haveInfo (w_conn w) = true -> known_block (w_shared w) b -> lenZ data = b_len b ->
  holds (store_block env join io data b) w True2.
Proof.
  intros Hw Hi Hb Hd. unfold store_block, t_writeBlock.
  destruct (known_block_bounds _ _ (ci_shared _ Hw) Hb) as (Hpc & len & Hlen & Hle & Ho & Hl & Hfit).
  eapply (holds_bind _ _ _ (fun err w' => known_block (w_shared w') b /\
    (err = None \/ err = Some ErrAlreadyWritten \/ io_fails io))).
  - eapply holds_bind; [apply holds_storage; done|]. intros st w1 _ [Hst ->].
    destruct (so_storage _ (ci_shared _ Hw) st Hst) as [El Es].
    destruct (WriteBlock_keeps st data (b_pc b) (b_off b) El Es Hpc ltac:(lia)) as (st' & n & err & E & Ei & Ep & He).
    eapply holds_bind; [by apply holds_lift|]. intros x w1 _ [-> ->]. cbn beta iota.
    assert (Hg : trusted st').
    { eapply (keeps_trusted st data (b_pc b) (b_off b) len); [by apply (so_trusted _ (ci_shared _ Hw))|done|done| |done|lia|exact E].
      intros ->. cbn in Hd. lia. }
    pose proof (later_storage _ st st' (ci_shared _ Hw) Hst Ei Ep Hg) as L.
    eapply holds_bind; [apply holds_mod, goes_shared; [done|exact L]|]. intros _ w1 G1 ->.
    apply holds_ret; [apply G1|]. split; [|done]. by apply (la_block _ _ L).
  - intros err w1 G1 [Hb1 He]. destruct err as [e|]; [|by apply holds_send; [apply G1|]].
    destruct e; try (by apply holds_ret; [apply G1|]); destruct He as [?|[?|He]]; done.
Qed.

Lemma holds_unexpected b w :
  cinv w -> 0 <= b_pc b -> 0 <= b_off b ->
  holds (unexpected_block b) w (fun good w' => w' = w /\ (good = true -> c_haveInfo (w_conn w) = true /\ known_block (w_shared w) b)).
Proof.
  intros Hw Hpc Ho. unfold unexpected_block. eapply holds_bind; [by apply holds_get|]. intros c w1 _ [-> ->].
  eapply holds_bind; [by apply holds_get|]. intros q w1 _ [-> ->]. rewrite (so_params _ (ci_shared _ Hw)).
  assert (Hban : forall e (Q : bool -> world -> Prop), holds (cmod (set_c with_ban);; cfail e) w Q).
  { intros e Q. eapply holds_bind; [apply holds_mod, goes_conn; solve [done|apply Hw]|]. intros _ w1 G1 ->. apply holds_fail, G1. }
  destruct (c_haveInfo (w_conn w)) eqn:Hi; cbn [negb]; [|apply Hban].
  eapply holds_bind; [apply holds_pieces; [done|by apply (ci_info _ Hw)]|]. intros p w1 _ [Hp ->].
  destruct (isValid p (b_pc b)) eqn:Hv; cbn [negb]; [|apply Hban].
  apply andb_true_iff in Hv as [_ Hv%Z.ltb_lt]. destruct (bm_Get _ _); [by apply holds_ret|].
  destruct (at_index_Some (pcs p) (b_pc b) ltac:(lia)) as [pc Hi'].
  eapply holds_bind; [by apply holds_lift|]. intros x w1 _ [-> ->].
  destruct (pieces_entry _ _ _ _ (so_pieces _ (ci_shared _ Hw) p Hp) Hi') as (_ & Hok & _).
  destruct (blockLenSafe tp pc (b_off b)) as [len|e|] eqn:E; [|destruct e; solve [by apply holds_fail|by apply holds_ret]|].
  - apply holds_ret; [done|]. split; [done|]. intros ->%Z.eqb_eq. split; [done|].
    apply (blockLenSafe_spec tp pc _ _ Hok Ho) in E as [Hin Hlen]. exists p. split; [done|]. by exists pc.
  - exfalso. revert E. unfold blockLenSafe. destruct (negb _); [done|]. destruct (_ =? _); [done|]. by destruct (_ <? _).
Qed.

Lemma holds_onPieceMsg m w :
  cinv w -> small_msg m -> lenZ (Block m) < 2 ^ 32 -> Kind m = Wire.Piece -> holds (onPieceMsg env join io m) w True2.
Proof.
  intros Hw (Hx & Hb & _) Hbl Hk. unfold onPieceMsg. eapply holds_bind; [apply holds_lift; [done|]; unfold Wire.Request; by rewrite Hk|].
  intros r w1 _ [-> ->]. cbn zeta. set (b := reqMsgToBlock _).
  assert (Hlb : lenZ (Block m) = b_len b) by (cbn; rewrite wrapU_id; [done|unfold in_u; lia]). eapply holds_bind; [by apply holds_get|]. intros c w1 _ [-> ->].
  case_bool_decide as Hin.
  - pose proof (ci_flight _ Hw b Hin) as Hkb.
    assert (Hi : c_haveInfo (w_conn w) = true).
    { apply not_false_is_true. intros Hf%(ci_noinfo _ Hw). rewrite Hf in Hin. by apply elem_of_empty in Hin. }
    eapply holds_bind; [apply holds_mod, goes_conn; try solve [done|apply Hw]|].
    + cbn. intros x [Hx' _]%elem_of_difference. by apply (ci_flight _ Hw).
    + cbn. etrans; [|apply (ci_count _ Hw)]. apply inj_le, subseteq_size. set_solver.
    + cbn. congruence.
    + intros _ w1 G1 ->. eapply holds_bind; [apply holds_maybeSend, G1|]. intros _ w2 G2 _.
      apply holds_store; [apply G2|by apply (go_info _ _ G2)|by apply (la_block _ _ (go_later _ _ G2))|done].
  - eapply holds_bind; [apply holds_unexpected; [done|apply Hx|apply Hb]|]. intros good w1 _ [-> Hg].
    apply holds_when; [done| |done]. intros Hgood. destruct (Hg Hgood). by apply holds_store.
Qed.

(** ** Uploads *)

(** An offset the checks of upload let through. *)
Lemma upload_offset pc off len n :
  pieceLen tp (uint32 pc) = Some n -> 0 <= pc < t_numPieces tp -> 0 <= off -> 0 <= len -> off + len <= n ->
  off <= t_PieceLen tp /\ (off = t_PieceLen tp -> pc <> t_numPieces tp - 1).
Proof.
  intros Hn Hpc Ho Hl Hle. pose proof (pa_brs _ tp_ok) as Hb. pose proof (pa_num _ tp_ok) as Hnum. pose proof (pa_length _ tp_ok).
  assert (uint32 pc = pc) as E by (apply wrapU_id; unfold in_u; lia). rewrite E in Hn. unfold pieceLen in Hn.
  destruct (Z.eqb_spec pc (t_numPieces tp - 1)) as [Hlast|Hlast].
  - destruct (Z.eqb_spec (t_PieceLen tp) 0); [lia|]. injection Hn as <-. rewrite Z.rem_mod_nonneg in Hle by lia.
    pose proof (Z.mod_pos_bound (t_length tp) (t_PieceLen tp)). lia.
  - injection Hn as <-. split; [lia|done].
Qed.

Lemma holds_readBlock n pc off w :
  cinv w -> c_haveInfo (w_conn w) = true -> 0 <= pc < t_numPieces tp -> 0 <= off <= t_PieceLen tp ->
  (off = t_PieceLen tp -> pc <> t_numPieces tp - 1) ->
  holds (t_readBlock join n pc off) w (fun r w' => w' = w /\ exists st d, trusted st /\
    ReadBlock join st n (torrent_off st pc off) = Some (d, r.2) /\ r.1 = d ++ replicate (Z.to_nat n - length d) Byte.x00).
Proof.
  intros Hw Hi Hpc Ho Hl. unfold t_readBlock. eapply holds_bind; [apply holds_storage; done|].
  intros st w1 _ [Hst ->]. destruct (so_storage _ (ci_shared _ Hw) st Hst) as [El Es].
  destruct (index_in_range st pc off El Es Hpc Ho Hl) as (i & piece & Hi' & Hp).
  assert (exists r, ReadBlock join st n (torrent_off st pc off) = Some r) as [[d e] E].
  { unfold ReadBlock. rewrite Hi'. cbn [mbind option_bind]. rewrite Hp. cbn [mbind option_bind]. destruct (negb _); by eexists. }
  eapply holds_bind; [by apply holds_lift|]. intros x w1 _ [-> ->]. apply holds_ret; [done|]. split; [done|].
  exists st, d. split_and!; [by apply (so_trusted _ (ci_shared _ Hw))|done|done].
Qed.

Lemma holds_upload_one b w : cinv w -> small_block b -> holds (upload_one env join b) w True2.
Proof.
  intros Hw (Hpc & Ho & Hlen). unfold upload_one. eapply holds_bind; [by apply holds_mod, goes_drop_req|].
  intros _ w1 G1 ->. set (w1 := set_c _ w) in *. pose proof (go_inv _ _ G1) as Hw1.
  eapply holds_bind; [by apply holds_get|]. intros c w2 _ [-> ->]. eapply holds_bind; [by apply holds_get|]. intros q w2 _ [-> ->].
  rewrite (so_params _ (ci_shared _ Hw1)).
  assert (Hban : forall e, holds (cmod (set_c with_ban);; cfail e) w1 (fun (_ : unit) _ => True)).
  { intros e. eapply holds_bind; [apply holds_mod, goes_conn; solve [done|apply Hw1]|]. intros _ w2 G2 ->. apply holds_fail, G2. }
  destruct (c_haveInfo (w_conn w1)) eqn:Hi; cbn [negb]; [|apply Hban]. destruct (negb (canUpload _)); [by apply holds_ret|].
  destruct (_ <? b_len b); [apply Hban|]. destruct (bm_Get (c_myBf (w_conn w1)) (b_pc b)) eqn:Hg; cbn [negb]; [|by apply holds_fail].
  pose proof (ci_myBf _ Hw1 _ Hg) as Hr. destruct (pieceLen_range tp (uint32 (b_pc b)) tp_ok) as (plen & Hpl & _).
  eapply holds_bind; [by apply holds_lift|]. intros x w2 _ [-> ->]. rewrite int64_small by lia.
  destruct (Z.ltb_spec plen (b_off b + b_len b)); [apply Hban|].
  destruct (upload_offset _ _ (b_len b) _ Hpl Hr (proj1 Ho) (proj1 Hlen)) as [Hoff Hlast]; [lia|].
  eapply holds_bind; [apply holds_readBlock; [done|done|done|lia|done]|]. intros [data err] w2 _ (-> & st & d & Hst & Hread & Hdata).
  destruct err; [by apply holds_ret|]. eapply holds_bind; [apply holds_peer; [done|by eexists|]|].
  { pose proof (pa_num _ tp_ok) as Hn. intros _. cbn. rewrite !wrapU_id in * by (unfold in_u; lia).
    exists st, plen, (b_len b), d. split_and!; try done; lia. }
  intros _ w2 G2 _. by apply holds_send; [apply G2|].
Qed.

Lemma holds_upload_turn map b w : cinv w -> small_block b -> holds (upload_turn env join map b) w True2.
Proof.
  intros Hw Hb. unfold upload_turn. eapply holds_bind; [by apply holds_get|]. intros c w1 _ [-> ->].
  apply holds_when; [done| |done]. intros _. by apply holds_upload_one.
Qed.

Lemma holds_upload w : cinv w -> holds (upload env join) w True2.
Proof.
  intros Hw. unfold upload. eapply holds_bind; [by apply holds_get|]. intros c w1 _ [-> ->].
  eapply holds_bind; [by apply holds_draw|]. intros reqs w1 G1 (-> & _ & _).
  apply (holds_for _ _ _ (fun b _ => small_block b)); [apply G1| |done|intros; by apply holds_upload_turn].
  apply Forall_forall. intros b Hb. rewrite order_perm in Hb. by apply (ci_peerReqs _ Hw), elem_of_elements.
Qed.

(** ** Haves and bit fields *)

Lemma in_range_set bm i : in_range bm -> 0 <= i < t_numPieces tp -> in_range (bm_Set bm i true).
Proof.
  intros Hr Hi j. pose proof (pa_num _ tp_ok). rewrite bm_Get_Set by (unfold bm_index; lia).
  destruct (Z.eqb_spec j i); [lia|apply Hr].
Qed.

Lemma holds_onPeerHave m w : cinv w -> 0 <= Index m < t_numPieces tp -> holds (onPeerHave env m) w True2.
Proof.
  intros Hw Hx. unfold onPeerHave. eapply holds_bind; [by apply holds_get|]. intros bf w1 _ [-> ->].
  destruct (bm_Get _ _); [by apply holds_fail|].
  eapply holds_bind; [apply holds_mod, goes_conn; try solve [done|apply Hw]; apply in_range_set; [apply Hw|done]|].
  intros _ w1 G1 ->. set (w1 := set_c _ w) in *. pose proof (go_inv _ _ G1) as Hw1.
  eapply holds_bind; [by apply holds_notUseful|]. intros [] w2 _ ->; [by apply holds_fail|].
  eapply holds_bind; [by apply holds_get|]. intros hi w2 _ [-> ->].
  eapply (holds_bind _ _ _ True2); [|intros _ w2 G2 _; by apply holds_send; [apply G2|]].
  apply holds_when; [done| |done]. intros Hi. eapply holds_bind; [apply holds_pieces; [done|by apply (ci_info _ Hw1)]|].
  intros p w2 _ [Hp ->]. destruct (onHave_keeps p (Index m) (so_pieces _ (ci_shared _ Hw1) p Hp) Hx) as (p' & E & Hp' & Hs).
  eapply holds_bind; [by apply holds_lift|]. intros x w2 _ [-> ->].
  eapply holds_weaken; [apply holds_mod, goes_shared; [done|by eapply later_pieces; [apply Hw1|..]]|done].
Qed.

(** The bits set in a bit field are pieces of the torrent. *)
Definition bf_ok (bf : BitField) : Prop := forall l, FilterNotSet bf = Some l -> Forall (fun i => 0 <= i < t_numPieces tp) l.

Lemma FilterNotSet_Some bf : exists l, FilterNotSet bf = Some l.
Proof.
  unfold FilterNotSet. assert (Hr : Forall (fun i => 0 <= i < lenZ bf * 8) (seqZ 0 (lenZ bf * 8))).
  { apply Forall_forall. intros i Hi%elem_of_seqZ. lia. }
  induction Hr as [|i l Hi _ [k IH]]; cbn [filter_loop]; [by eexists|].
  assert (exists h, HasPiece bf i = Some h) as [h ->].
  { unfold HasPiece. destruct (at_index_Some bf (Z.quot i 8)) as [x ->]; [rewrite Z.quot_div_nonneg by lia; lia_div|by eexists]. }
  cbn [mbind option_bind]. rewrite IH. cbn. by eexists.
Qed.

Lemma in_range_foldl l bm :
  in_range bm -> Forall (fun i => 0 <= i < t_numPieces tp) l -> in_range (foldl (fun bm i => bm_Set bm i true) bm l).
Proof. intros Hb Hl. revert bm Hb. induction Hl; intros bm Hb; cbn; [done|]. by apply IHHl, in_range_set. Qed.

Lemma holds_bitmap bf w : cinv w -> bf_ok bf -> holds (bitmap bf) w (fun bm w' => w' = w /\ in_range bm).
Proof.
  intros Hw Hb. unfold bitmap. eapply holds_bind; [by apply holds_get|]. intros hi w1 _ [-> ->].
  eapply holds_bind; [by apply holds_get|]. intros n w1 _ [-> ->]. destruct (_ && _).
  { eapply holds_bind; [apply holds_mod, goes_conn; solve [done|apply Hw]|]. intros _ w1 G1 ->. apply holds_fail, G1. }
  destruct (FilterNotSet_Some bf) as [l Hl]. eapply holds_bind; [by apply holds_lift|]. intros x w1 _ [-> ->].
  apply holds_ret; [done|]. split; [done|]. apply in_range_foldl; [|by apply Hb]. intros i. by rewrite bm_Get_empty.
Qed.

Lemma holds_onPeerBitfield m w : cinv w -> bf_ok (Bf m) -> holds (onPeerBitfield env m) w True2.
Proof.
  intros Hw Hb. unfold onPeerBitfield. eapply holds_bind; [by apply holds_get|]. intros bf w1 _ [-> ->].
  destruct (negb _); [by apply holds_fail|]. eapply holds_bind; [by apply holds_bitmap|]. intros bm w1 _ [-> Hr].
  eapply holds_bind; [apply holds_mod, goes_conn; solve [done|apply Hw]|]. intros _ w1 G1 ->. pose proof (go_inv _ _ G1) as Hw1.
  eapply holds_bind; [by apply holds_notUseful|]. intros [] w2 _ ->; [by apply holds_fail|].
  eapply holds_bind; [by apply holds_get|]. intros hi w2 _ [-> ->].
  eapply (holds_bind _ _ _ True2); [|intros _ w2 G2 _; by apply holds_send; [apply G2|]].
  apply holds_when; [done| |done]. intros Hi.
  eapply holds_weaken; [apply holds_onBitfield; [done|by apply (ci_info _ Hw1)|done]|done].
Qed.

(** ** Extensions *)

Lemma later_uts sh u :
  shared_ok sh -> (forall n ut, uts_m u !! n = Some ut -> ut_ok n ut) ->
  (forall n, is_Some (uts_m (sh_uts sh) !! n) -> is_Some (uts_m u !! n)) -> later sh (with_shuts u sh).
Proof. intros [] Hu Hs. by constructor; [constructor|..]. Qed.

(** What an extension message must be for the connection not to panic. *)
Definition ext_ok w m : Prop :=
  match ExtendedMsg m with
  | ExtNil => True
  | ExtDict d => forall msize, MetadataSize d = Some msize -> 0 <= msize <= 10000000
  | ExtMetadata v =>
      (me_Kind v = MetadataDataID -> me_TotalSz v = metadataSize (w_conn w) ->
       exists ut, uts_m (sh_uts (w_shared w)) !! me_TotalSz v = Some ut /\ 0 <= me_Piece v < Metadata.numPieces ut) /\
      (me_Kind v = MetadataReqID -> c_haveInfo (w_conn w) = true ->
       exists n ut, n <> 0 /\ sh_uts (w_shared w) = mkUts {[ n := ut ]} n /\ 0 <= me_Piece v)
  end.

Lemma holds_onExtHandshake d w :
  cinv w -> (forall msize, MetadataSize d = Some msize -> 0 <= msize <= 10000000) -> holds (onExtHandshake env d) w True2.
Proof.
  intros Hw Hd. unfold onExtHandshake. destruct (Extensions d) as [exts|e|] eqn:E; [| |by apply Extensions_returns in E].
  2:{ eapply holds_bind; [apply holds_mod, goes_conn; solve [done|apply Hw]|]. intros _ w1 G1 ->. apply holds_fail, G1. }
  eapply holds_bind; [apply holds_mod, goes_conn; solve [done|apply Hw]|]. intros _ w1 G1 ->. set (w1 := set_c _ w) in *.
  pose proof (go_inv _ _ G1) as Hw1. destruct (assoc _ exts); [|by apply holds_ret].
  destruct (MetadataSize d) as [msize|]; [|by apply holds_ret]. specialize (Hd msize eq_refl).
  (* the size is stored before the buffer exists: both changes together keep the invariant *)
  destruct (uts_add (sh_uts (w_shared w1)) msize) as [u ok] eqn:Ea.
  destruct (uts_add_spec _ _ _ _ Ea (so_uts _ (ci_shared _ Hw1))) as (Hu1 & Hu2 & Hu3 & Hu4). specialize (Hu4 Hd). subst ok.
  set (f := fun c => with_metadata (numMetadataRespSent c) (metadataTicking c) (metadataRejectedBlocks c)
                       (metadataPendingBlocks c) msize (c_exts c) c).
  pose proof (goes_shared (with_shuts u) w1 Hw1 (later_uts _ u (ci_shared _ Hw1) Hu1 Hu2)) as G2.
  assert (G3 : goes (set_sh (with_shuts u) w1) (set_c f (set_sh (with_shuts u) w1))).
  { apply goes_conn; try solve [done|apply (go_inv _ _ G2)]. intros _. by apply Hu3. }
  unfold holds. change (lands w1 ((let '(uts, ok) := uts_add (sh_uts (w_shared w1)) msize in
     cmod (set_sh (with_shuts uts));; if ok then requestMetadata env else cmod (set_c with_ban);; cfail EOF) (set_c f w1)) True2).
  rewrite Ea. apply (lands_goes (requestMetadata env) w1 (set_c f (set_sh (with_shuts u) w1))); [by eapply goes_trans|].
  apply holds_requestMetadata, G3.
Qed.

Lemma holds_onMetadataData v w :
  cinv w -> (me_TotalSz v = metadataSize (w_conn w) ->
    exists ut, uts_m (sh_uts (w_shared w)) !! me_TotalSz v = Some ut /\ 0 <= me_Piece v < Metadata.numPieces ut) ->
  holds (onMetadataData env v) w True2.
Proof.
  intros Hw Hv. unfold onMetadataData. eapply holds_bind; [by apply holds_get|]. intros c w1 _ [-> ->].
  destruct (Z.eqb_spec (me_TotalSz v) (metadataSize (w_conn w))) as [Et|]; cbn [negb]; [|by apply holds_fail].
  destruct (Hv Et) as (ut & Hut & Hi). eapply holds_bind; [by apply holds_get|]. intros u w1 _ [-> ->].
  destruct (ut_writeBlock_returns _ ut (default [] (me_Data v)) (me_Piece v) (c_remoteIP (w_conn w)) (so_uts _ (ci_shared _ Hw) _ _ Hut) Hi)
    as (ut' & r & E & Hok' & Hr).
  eapply holds_bind; [apply holds_lift; [done|]; unfold uts_writeBlock; rewrite Hut; cbn [mbind option_bind]; by rewrite E|].
  intros x w1 _ [-> ->]. cbn beta iota. eapply holds_bind; [apply holds_mod, goes_shared; [done|]|].
  { apply later_uts; [apply Hw| |].
    - cbn. intros k u. destruct (decide (k = me_TotalSz v)) as [->|]; [rewrite lookup_insert_eq; by intros [= <-]|].
      rewrite lookup_insert_ne by done. apply (so_uts _ (ci_shared _ Hw)).
    - cbn. intros k. by destruct (decide (k = me_TotalSz v)) as [->|]; [rewrite lookup_insert_eq|rewrite lookup_insert_ne]. }
  intros _ w1 G1 ->. set (w1 := set_sh _ w) in *. pose proof (go_inv _ _ G1) as Hw1.
  destruct r as [completed|e|]; [|by apply holds_fail|done].
  eapply holds_bind; [apply holds_mod, goes_conn; solve [done|apply Hw1]|]. intros _ w2 G2 ->.
  destruct completed; [|apply holds_requestMetadata, G2]. apply holds_send; [apply G2|]. cbn. rewrite <- Et. by rewrite lookup_insert_eq.
Qed.

Lemma holds_onMetadataRequest v w :
  cinv w -> (c_haveInfo (w_conn w) = true ->
    exists n ut, n <> 0 /\ sh_uts (w_shared w) = mkUts {[ n := ut ]} n /\ 0 <= me_Piece v) ->
  holds (onMetadataRequest v) w True2.
Proof.
  intros Hw Hv. unfold onMetadataRequest. eapply holds_bind; [by apply holds_get|]. intros u w1 _ [-> ->].
  eapply holds_bind; [by apply holds_get|]. intros c w1 _ [-> ->]. cbn zeta.
  eapply (holds_bind _ _ _ True2).
  - destruct (c_haveInfo (w_conn w)) eqn:Hi; cbn [negb]; [|by apply holds_ret]. destruct (Hv eq_refl) as (n & ut & Hn & Eu & Hp).
    assert (Hut : uts_m (sh_uts (w_shared w)) !! n = Some ut) by (rewrite Eu; apply lookup_singleton_eq).
    pose proof (so_uts _ (ci_shared _ Hw) n ut Hut) as Hok.
    eapply holds_bind; [apply (holds_lift _ ut); [done|]|].
    { rewrite Eu. unfold uts_correct. cbn. apply Z.eqb_neq in Hn. rewrite Hn. apply lookup_singleton_eq. }
    intros x w1 _ [-> ->]. destruct (_ || _) eqn:Hor; [by apply holds_ret|].
    apply orb_false_iff in Hor as [_ Hlt%Z.leb_gt]. destruct (piece_fits n ut (me_Piece v) Hok) as [_ Hpl]; [lia|].
    destruct (Z.ltb_spec (metadataPieceLength ut (me_Piece v)) 0); [lia|].
    destruct (ut_readBlock_returns n ut (metadataPieceLength ut (me_Piece v)) (me_Piece v) Hok) as [r Hr]; [lia|].
    eapply holds_bind; [apply (holds_lift _ r); [done|]; rewrite Eu; unfold uts_readBlock; cbn; by rewrite map_to_list_singleton|].
    intros x w1 _ [-> ->]. eapply holds_bind; [apply holds_mod, goes_conn; solve [done|apply Hw]|]. intros _ w1 G1 ->.
    by apply holds_ret; [apply G1|].
  - intros answer w1 G1 _. eapply holds_bind; [apply holds_extensionMsg, G1|]. intros m w2 _ (-> & Hm & Hm').
    eapply holds_bind; [apply holds_try, holds_peer; [apply G1|done|done]|]. intros _ w2 G2 _. by apply holds_ret; [apply G2|].
Qed.

Lemma SupportExtended_Some r : length r = 8%nat -> exists v, SupportExtended r = Some v.
Proof. intros Hr. unfold SupportExtended. destruct (at_index_Some r 5) as [x ->]; [lia|]. by eexists. Qed.

Lemma holds_onExtended m w : cinv w -> ext_ok w m -> holds (onExtended env m) w True2.
Proof.
  intros Hw Hm. unfold onExtended. eapply holds_bind; [by apply holds_get|]. intros c w1 _ [-> ->].
  eapply holds_bind; [by apply holds_get|]. intros r w1 _ [-> ->].
  destruct (SupportExtended_Some _ (so_reserved _ (ci_shared _ Hw))) as [mine E]. eapply holds_bind; [by apply holds_lift|].
  intros x w1 _ [-> ->]. destruct (SupportExtended_Some _ (ci_res _ Hw)) as [his E'].
  eapply (holds_bind _ _ _ (fun _ w' => w' = w)).
  { destruct mine; [|by apply holds_ret]. eapply holds_weaken; [by apply holds_lift|]. by intros x w1 _ [_ ->]. }
  intros _ w1 _ ->. unfold ext_ok in Hm. destruct (ExtendedMsg m) as [|d|v]; [by apply holds_fail|by apply holds_onExtHandshake|].
  destruct Hm as [Hd Hq]. destruct (c_exts (w_conn w)); [|by apply holds_fail].
  destruct (Z.eqb_spec (me_Kind v) MetadataDataID); [apply holds_onMetadataData; auto|].
  destruct (Z.eqb_spec (me_Kind v) MetadataRejID).
  { eapply holds_weaken; [apply holds_mod, goes_conn; solve [done|apply Hw]|done]. }
  destruct (Z.eqb_spec (me_Kind v) MetadataReqID); [apply holds_onMetadataRequest; auto|by apply holds_ret].
Qed.

(** ** The main loop *)

(** Messages of a peer that keeps to the pieces of the torrent. *)
Definition peer_ok w m : Prop :=
  (Kind m = Have -> 0 <= Index m < t_numPieces tp) /\ (Kind m = BitfieldK -> bf_ok (Bf m)) /\
  (Kind m = Wire.Piece -> small_msg m /\ lenZ (Block m) < 2 ^ 32) /\ (Kind m = Extended -> ext_ok w m).

Lemma holds_onPeerMsg m w : cinv w -> peer_ok w m -> holds (onPeerMsg env join io m) w True2.
Proof.
  intros Hw (Hh & Hb & Hp & He). unfold onPeerMsg.
  destruct (Z.eqb_spec (Kind m) KeepAlive); [by apply holds_ret|].
  destruct (Z.eqb_spec (Kind m) Interested); [by apply holds_changeState|].
  destruct (Z.eqb_spec (Kind m) NotInterested); [by apply holds_changeState|].
  destruct (Z.eqb_spec (Kind m) Choke).
  { eapply holds_bind; [apply (holds_discard _ (Datatypes.S (length (w_sched w)))); [intros; by apply holds_send|done|lia]|].
    intros _ w1 G1 _. apply holds_changeState, G1. }
  destruct (Z.eqb_spec (Kind m) Unchoke).
  { eapply holds_bind; [by apply holds_changeState|]. intros _ w1 G1 _. apply holds_maybeSend, G1. }
  destruct (Z.eqb_spec (Kind m) Wire.Piece); [destruct Hp as [? ?]; [done|]; by apply holds_onPieceMsg|].
  destruct (Z.eqb_spec (Kind m) RequestK); [by apply holds_upload|].
  destruct (Z.eqb_spec (Kind m) Have); [apply holds_onPeerHave; auto|].
  destruct (Z.eqb_spec (Kind m) BitfieldK); [apply holds_onPeerBitfield; auto|].
  destruct (Z.eqb_spec (Kind m) Extended).
  { eapply holds_bind; [apply holds_try, holds_onExtended; auto|]. intros _ w1 G1 _. by apply holds_ret; [apply G1|]. }
  destruct (_ =? Port); [by apply holds_ret|by apply holds_fail].
Qed.

Definition cinput_ok w (inp : cinput (B := B)) : Prop :=
  match inp with
  | InCmd cmd => cmd_ok (c_haveInfo (w_conn w)) (ready (w_shared w)) cmd
  | InPeer m => peer_ok w m
  | _ => True
  end.

Lemma holds_input inp w : cinv w -> cinput_ok w inp -> holds (on_input env join io inp) w True2.
Proof.
  intros Hw Hin. destruct inp as [cmd|m| | | |]; cbn [on_input].
  - destruct (is_haveInfo cmd) eqn:Eh.
    2:{ apply (holds_onTorrentMsg _ (Datatypes.S (length (w_sched w)))); [intros; by apply holds_send|done|done|done|lia]. }
    destruct cmd; try done. cbn in Hin.
    assert (G : goes w (set_c with_haveInfo (popped w (w_sched w)))).
    { apply goes_told; [done|done| |done]. pose proof (ci_sched _ Hw) as Hs. rewrite Hin in Hs.
      destruct (c_haveInfo _); [done|by apply sched_ok_info]. }
    unfold holds. change (lands w (told (set_c with_haveInfo (popped w (w_sched w)))) True2).
    apply lands_goes; [done|]. apply holds_told; [apply G|done].
  - by apply holds_onPeerMsg.
  - by apply holds_fail.
  - by apply holds_fail.
  - eapply holds_weaken; [apply holds_peer_plain; [done|unfold plain_kinds; cbn; set_solver]|done].
  - eapply holds_bind; [by apply holds_get|]. intros c w1 _ [-> ->]. destruct (negb _); [|by apply holds_ret].
    eapply holds_bind; [apply holds_mod, goes_conn; solve [done|apply Hw]|]. intros _ w1 G1 ->. apply holds_requestMetadata, G1.
Qed.

Definition sent_all w : Prop := Forall (sent_ok (w_shared w)) (w_sent w).

Lemma last_send_ok e w : sent_all w -> sent_ok (w_shared w) e ->
  exists w', last_send e w = COk () w' /\ sent_all w' /\ w_shared w' = w_shared w.
Proof.
  intros Hs He. assert (Hadd : forall l, sent_all (add_sent e (popped w l))).
  { intros l. unfold sent_all. cbn. apply Forall_app. split; [done|by apply Forall_singleton]. }
  unfold last_send, mbind, CM_bind, next_sel. destruct (w_sched w) as [|s l] eqn:E.
  { exists (add_sent e w). split_and!; [done| |done]. unfold sent_all. cbn. apply Forall_app. split; [done|by apply Forall_singleton]. }
  destruct s; try (exists (add_sent e (popped w l)); by split_and!). exists (popped w l). by split_and!.
Qed.

(** After an error that was caught, a computation goes on. *)
Lemma try_lands {A} (m : CM A) w Q :
  holds m w Q ->
  match ctry m w with
  | COk _ w' => goes w w' | CExit => io_fails io | CNil => sh_storage (w_shared w) = None | _ => False
  end.
Proof. unfold holds, ctry. by destruct (m w); cbn; [intros []|..]. Qed.

Lemma close_ok w : cinv w ->
  match c_close env w with
  | COk _ w' => sent_all w' | CExit => io_fails io | CNil => sh_storage (w_shared w) = None | _ => False
  end.
Proof.
  intros Hw. unfold c_close.
  assert (Hd : holds (discardBlocks env (sendMsgToTorrent env) false false) w (fun _ _ => True)).
  { apply (holds_discard _ (Datatypes.S (length (w_sched w)))); [intros; by apply holds_send|done|lia]. }
  apply try_lands in Hd. unfold mbind, CM_bind, cget. destruct (ctry _ w) as [a w1|e w1| | | |]; [|done..].
  destruct Hd as [Hw1 _ _ _].
  assert (He : sent_ok (w_shared w1) (default TNil (c_lastMsg (w_conn w1)))).
  { destruct (c_lastMsg (w_conn w1)) as [e|] eqn:E; [by apply (ci_last _ Hw1)|done]. }
  destruct (last_send_ok _ w1 (ci_handed _ Hw1) He) as (w2 & E2 & H2' & Es2).
  destruct (last_send_ok TDiscardedRequests w2 H2' I) as (w3 & E3 & H3' & Es3).
  destruct (last_send_ok TConnDropped w3 H3' I) as (w4 & E4 & H4' & Es4).
  by rewrite E2, E3, E4.
Qed.

(** A turn of the main loop keeps the invariant, or closes the connection. *)
Lemma turn_ok inp w :
  cinv w -> cinput_ok w inp ->
  match mainLoop_turn_c env join io inp w with
  | COk true w' => cinv w'
  | COk false w' => sent_all w'
  | CExit => io_fails io
  | CNil => sh_storage (w_shared w) = None
  | _ => False
  end.
Proof.
  intros Hw Hin. unfold mainLoop_turn_c.
  assert (Ht : holds (on_input env join io inp;; flushWriter) w (fun _ _ => True)).
  { eapply holds_bind; [by apply holds_input|]. intros _ w1 G1 _. apply holds_flush, G1. }
  apply try_lands in Ht. unfold mbind at 1, CM_bind at 1. destruct (ctry _ w) as [r w1|e w1| | | |]; [|done..].
  pose proof Ht as [Hw1 _ _ _]. destruct r as [_|e]; [done|].
  pose proof (close_ok w1 Hw1) as Hc. unfold mbind, CM_bind. destruct (c_close env w1); try done. by eapply no_storage.
Qed.

(** ** Runs of a connection

    From a new connection: turns of the main loop, messages that the reader gets, and
    what other goroutines do meanwhile; before a turn, any schedule may be fixed for it. *)

Inductive c_reach : world -> Prop :=
| cr_new w ip r :
    w_conn w = newConn ip r -> length r = 8%nat -> shared_ok (w_shared w) -> w_sent w = [] -> w_wire w = [] ->
    sched_ok false (ready (w_shared w)) (w_sched w) -> c_reach w
| cr_turn inp w w' :
    c_reach w -> cinput_ok w inp -> mainLoop_turn_c env join io inp w = COk true w' -> c_reach w'
| cr_read m (more : bool) w w' : c_reach w -> read_ok m -> readPeerMsg m w = COk more w' -> c_reach w'
| cr_other w w' :
    c_reach w -> later (w_shared w) (w_shared w') -> w_conn w' = w_conn w -> w_sent w' = w_sent w -> w_wire w' = w_wire w ->
    sched_ok (c_haveInfo (w_conn w')) (ready (w_shared w')) (w_sched w') -> c_reach w'.

Lemma cinv_new w ip r :
  w_conn w = newConn ip r -> length r = 8%nat -> shared_ok (w_shared w) -> w_sent w = [] -> w_wire w = [] ->
  sched_ok false (ready (w_shared w)) (w_sched w) -> cinv w.
Proof.
  intros Ec Hr Hsh Hs Hwi Hl. constructor; rewrite ?Ec, ?Hs, ?Hwi; cbn; try done; try (by constructor).
  - intros i. by rewrite bm_Get_empty.
  - intros i. by rewrite bm_Get_empty.
  - pose proof (size_empty (C := gset block)) as ->. lia.
Qed.

Lemma cinv_reach w : c_reach w -> cinv w.
Proof.
  induction 1 as [w ip r Ec Hr Hsh Hs Hwi Hl|inp w w' _ Hw Hin E|m b w w' _ Hw Hm E|w w' _ Hw Hla Ec Es Ewi Hl].
  - by eapply cinv_new.
  - pose proof (turn_ok inp w Hw Hin) as Ht. by rewrite E in Ht.
  - pose proof (holds_read m w Hw Hm) as Hr. unfold holds, lands in Hr. rewrite E in Hr. apply Hr.
  - destruct Hw. constructor; rewrite ?Ec, ?Es, ?Ewi; try done.
    + apply Hla.
    + intros Hi. by apply (la_ready _ _ Hla), ci_info0.
    + intros b Hb. by apply (la_block _ _ Hla), ci_flight0.
    + by rewrite (la_reqq _ _ Hla).
    + intros Hm. by apply (la_uts _ _ Hla), ci_meta0.
    + eapply Forall_impl; [done|]. intros e. by apply sent_later.
    + intros e He. eapply sent_later; [done|auto].
    + by rewrite Ec in Hl.
Qed.

(** ** Theorems *)


(** C19: In every state that a connection can reach, at most [maxOnFlight] requests are on
    flight, all of them for blocks of the torrent, at most [reqq] requests of the peer
    wait, no request is on flight before the info dictionary is known, and every block that
    was reported to the torrent as downloaded is a block of the torrent. *)
Theorem conn_invariant w :
  c_reach w ->
  Z.of_nat (base.size (c_onFlightReqs (w_conn w))) <= maxOnFlight /\
  Z.of_nat (base.size (c_peerReqs (w_conn w))) <= Z.max 0 (sh_reqq (w_shared w)) /\
  (forall b, b ∈ c_onFlightReqs (w_conn w) ->
     c_haveInfo (w_conn w) = true /\ exists p, sh_pieces (w_shared w) = Some p /\ block_in tp p b) /\
  (forall b, TDownloadedBlock b ∈ w_sent w -> exists p, sh_pieces (w_shared w) = Some p /\ block_in tp p b).
Proof.
  intros Hr. destruct (cinv_reach w Hr). split_and!; [done|done| |].
  - intros b Hb. split; [|by apply ci_flight0]. destruct (c_haveInfo (w_conn w)) eqn:E; [done|]. rewrite ci_noinfo0 in Hb by done. set_solver.
  - intros b Hb. rewrite Forall_forall in ci_handed0. by apply (ci_handed0 _ Hb).
Qed.

End conn_inv.
