(* ===== verification/ConnSteps.v ===== *)
(** * What a connection does to its world, handler by handler

    A small logic for relations between the world before and after a computation of a
    connection, whether it returns or fails: [steps R m]. A relation that is a preorder,
    does not look at what the handlers freely change and allows the messages that they
    write is kept by every handler, given that the exchange with the torrent keeps it. The
    components [ConnFlags] and [ConnUpload] are two such relations. *)

From S2P Require Import Prelude Strconv Bitfield GoValue BenDecode BenEncode Wire Metainfo Bitmap Piece Pieces Storage.
From S2P Require Import Metadata ConnInfo Torrent Conn.

(** Our two flags: interested, choking. *)
Definition own (cs : connState) : bool * bool := (amInterested cs, amChoking cs).

Section steps.
Context {B : Type} `{BitmapOps B} {S : Type} `{PieceSelector S B} `{SortSlice (Piece.Piece B)}.
Variable env : CEnv (B := B).
Variable join : list bytes -> bytes.
Variable io : fileio.

Abbreviation world := (world (B := B) (S := S)).
Abbreviation CM := (CM (B := B) (S := S)).
Implicit Types (w : world) (m : Msg).

Definition steps {A} (R : world -> world -> Prop) (m : CM A) : Prop :=
  forall w, match m w with COk _ w' | CErr _ w' => R w w' | _ => True end.

(** Relations that the handlers keep; [P] says which messages may be written. *)
Class Kept (R : world -> world -> Prop) (P : Msg -> Prop) : Prop := mkKept {
  kept_pre :: PreOrder R;
  kept_core w w' : w_conn w' = w_conn w -> w_wire w' = w_wire w -> w_sched w' = w_sched w ->
    sh_storage (w_shared w') = sh_storage (w_shared w) -> R w w';
  kept_conn f w : (forall c, own (c_state (f c)) = own (c_state c)) -> R w (set_c f w);
  kept_wire m w : P m -> R w (add_wire m w);
  kept_plain m : Kind m <> Wire.Piece -> P m;
}.

(** Relations that the storing of a block keeps too. *)
Class KeptStore (R : world -> world -> Prop) : Prop :=
  kept_store w st data off st' n err : sh_storage (w_shared w) = Some st ->
    WriteBlock join io st data off = Some (st', n, err) -> R w (set_sh (with_shstorage st') w).

Lemma steps_bind {A C} (R1 R2 R : world -> world -> Prop) (m : CM A) (f : A -> CM C) :
  steps R1 m -> (forall a, steps R2 (f a)) -> (forall w1 w2, R1 w1 w2 -> R w1 w2) ->
  (forall w1 w2 w3, R1 w1 w2 -> R2 w2 w3 -> R w1 w3) -> steps R (m ≫= f).
Proof.
  intros Hm Hf Hl Hc w. specialize (Hm w). unfold mbind, CM_bind. destruct (m w) as [a w1|e w1| | | |]; [|auto|done..].
  specialize (Hf a w1). destruct (f a w1); try done; by eapply Hc.
Qed.

Lemma steps_weaken {A} (R1 R2 : world -> world -> Prop) (m : CM A) :
  (forall w w', R1 w w' -> R2 w w') -> steps R1 m -> steps R2 m.
Proof. intros HR Hm w. specialize (Hm w). destruct (m w); auto. Qed.

Lemma steps_try {A} R (m : CM A) : steps R m -> steps R (ctry m).
Proof. intros Hm w. specialize (Hm w). unfold ctry. by destruct (m w). Qed.
Lemma steps_panic {A} R : steps R (cpanic : CM A).
Proof. done. Qed.
Lemma steps_exit {A} R : steps R (cexit : CM A).
Proof. done. Qed.

Section kept.
Context (R : world -> world -> Prop) (P : Msg -> Prop) `{!Kept R P}.

Lemma steps_seq {A C} (m : CM A) (f : A -> CM C) : steps R m -> (forall a, steps R (f a)) -> steps R (m ≫= f).
Proof. intros Hm Hf. eapply steps_bind; [exact Hm|exact Hf|done|]. intros w1 w2 w3. by transitivity w2. Qed.

(** A computation that leaves the connection, what was written, the schedule and the storage. *)
Lemma steps_core {A} (m : CM A) :
  (forall w, match m w with
             | COk _ w' | CErr _ w' =>
                 w_conn w' = w_conn w /\ w_wire w' = w_wire w /\ w_sched w' = w_sched w /\
                 sh_storage (w_shared w') = sh_storage (w_shared w)
             | _ => True
             end) -> steps R m.
Proof. intros Hm w. specialize (Hm w). destruct (m w); try done; destruct Hm as (E1 & E2 & E3 & E4); by apply kept_core. Qed.

Lemma steps_ret {A} (a : A) : steps R (mret a).
Proof. by apply steps_core. Qed.
Lemma steps_fail {A} e : steps R (cfail e : CM A).
Proof. by apply steps_core. Qed.
Lemma steps_get {A} (f : world -> A) : steps R (cget f).
Proof. by apply steps_core. Qed.
Lemma steps_draw {A} (f : nat -> A) : steps R (cdraw f : CM A).
Proof. by apply steps_core. Qed.
Lemma steps_lift {A} (o : option A) : steps R (clift o : CM A).
Proof. destruct o; [apply steps_ret|apply steps_panic]. Qed.
Lemma steps_when (b : bool) (m : CM unit) : steps R m -> steps R (cwhen b m).
Proof. destruct b; [done|intros; apply steps_ret]. Qed.
Lemma steps_for {A} (f : A -> CM unit) l : (forall a, a ∈ l -> steps R (f a)) -> steps R (cfor f l).
Proof.
  intros Hf. induction l; [apply steps_ret|]. apply steps_seq; [apply Hf; left|]. intros _. apply IHl. intros a' Ha. apply Hf. by right.
Qed.
Lemma steps_write : steps R (write : CM unit).
Proof. apply steps_core. intros w. unfold write. by destruct (w_writes w) as [|[] ?]. Qed.
Lemma steps_modc f : (forall c, own (c_state (f c)) = own (c_state c)) -> steps R (cmod (set_c f) : CM unit).
Proof. intros Hf w. by apply kept_conn. Qed.
Lemma steps_mod (f : world -> world) :
  (forall w, w_conn (f w) = w_conn w /\ w_wire (f w) = w_wire w /\ w_sched (f w) = w_sched w /\
             sh_storage (w_shared (f w)) = sh_storage (w_shared w)) -> steps R (cmod f : CM unit).
Proof. intros Hf. by apply steps_core. Qed.

(** A step for every construct of the monad, and the case analysis of a handler. *)
Create HintDb steps discriminated.
Hint Resolve steps_ret steps_fail steps_panic steps_exit steps_get steps_draw steps_lift steps_write : steps.
Ltac step := repeat first
  [ solve [eauto with steps nocore]
  | match goal with |- steps _ (mbind _ _) => apply steps_seq; [|intros ?] end
  | apply steps_try | apply steps_when | apply steps_for; intros ? _
  | solve [apply steps_modc; intros; reflexivity]
  | solve [apply steps_mod; intros; by split_and!]
  | match goal with |- steps _ (match ?x with _ => _ end) => destruct x eqn:? end ].

Lemma steps_peer m : P m -> steps R (sendMsgToPeer m : CM unit).
Proof. intros Hm. unfold sendMsgToPeer. step. intros w. by apply kept_wire. Qed.
Lemma steps_peer_plain m : Kind m <> Wire.Piece -> steps R (sendMsgToPeer m : CM unit).
Proof. intros Hm. by apply steps_peer, kept_plain. Qed.
Hint Extern 1 (steps _ (sendMsgToPeer _)) => apply steps_peer_plain; discriminate : steps.
Lemma steps_keepAlive : steps R (sendKeepAlive : CM unit).
Proof. by apply steps_peer_plain. Qed.
Lemma steps_flush : steps R (flushWriter : CM unit).
Proof. unfold flushWriter. step. Qed.
Hint Resolve steps_keepAlive steps_flush : steps.

Lemma steps_pieces : steps R (the_pieces : CM _).
Proof. unfold the_pieces. step. Qed.
Lemma steps_storage : steps R (the_storage : CM _).
Proof. apply steps_core. intros w. unfold the_storage, mbind, CM_bind, cget. destruct (sh_storage (w_shared w)) eqn:E; [cbn; by rewrite E|done]. Qed.
Lemma steps_amSeeding : steps R (amSeeding : CM bool).
Proof. unfold amSeeding. step. Qed.
Lemma steps_peerSeeding : steps R (peerSeeding_c : CM bool).
Proof. unfold peerSeeding_c. step. Qed.
Hint Resolve steps_pieces steps_storage steps_amSeeding steps_peerSeeding : steps.
Lemma steps_notUseful : steps R (notUseful : CM bool).
Proof. unfold notUseful. step. Qed.
Lemma steps_wantBlocks : steps R (wantBlocks : CM bool).
Proof. unfold wantBlocks. step. Qed.
Lemma steps_send_request b : steps R (send_request b : CM unit).
Proof. unfold send_request. step. Qed.
Hint Resolve steps_notUseful steps_wantBlocks steps_send_request : steps.
Lemma steps_maybeSend : steps R (maybeSendRequests env : CM unit).
Proof. unfold maybeSendRequests. step. Qed.
Lemma steps_extensionMsg name v : steps R (extensionMsg name v : CM Msg).
Proof. unfold extensionMsg. step. Qed.
Hint Resolve steps_maybeSend steps_extensionMsg : steps.

(** A message made by [extensionMsg] is an extended one. *)
Lemma extensionMsg_kind name v w :
  (exists m, (extensionMsg name v : CM Msg) w = COk m w /\ Kind m = Extended) \/ (extensionMsg name v : CM Msg) w = CErr ErrExtension w.
Proof. unfold extensionMsg, mbind, CM_bind, cget. destruct (assoc name _); [left; by eexists|by right]. Qed.

Lemma steps_ext_bind {C} name v (f : Msg -> CM C) :
  (forall m, Kind m = Extended -> steps R (f m)) -> steps R (m ← extensionMsg name v; f m).
Proof.
  intros Hf w. unfold mbind, CM_bind. destruct (extensionMsg_kind name v w) as [(m & -> & Hm)| ->]; [by apply Hf|by apply kept_core].
Qed.

Lemma steps_ext_try {C} name v (f : Msg + cerror -> CM C) :
  (forall m, Kind m = Extended -> steps R (f (inl m))) -> (forall e, steps R (f (inr e))) ->
  steps R (r ← ctry (extensionMsg name v); f r).
Proof.
  intros Hf He w. unfold mbind, CM_bind, ctry. destruct (extensionMsg_kind name v w) as [(m & -> & Hm)| ->]; [by apply Hf|apply He].
Qed.

Lemma steps_request_loop l : steps R (request_metadata_loop l : CM unit).
Proof.
  induction l as [|i l IH]; cbn [request_metadata_loop]; [apply steps_ret|].
  apply steps_ext_try; [|step]. intros m Hm. step. by apply steps_peer_plain; rewrite Hm.
Qed.
Hint Resolve steps_request_loop : steps.
Lemma steps_requestMetadata : steps R (requestMetadata env : CM unit).
Proof. unfold requestMetadata. step. Qed.
Lemma steps_bitfield bm : steps R (bitfield bm : CM BitField).
Proof. unfold bitfield. step. Qed.
Lemma steps_bitmap bf : steps R (bitmap bf : CM B).
Proof. unfold bitmap. step. Qed.
Hint Resolve steps_requestMetadata steps_bitfield steps_bitmap : steps.

Lemma steps_read m : steps R (readPeerMsg m : CM bool).
Proof. unfold readPeerMsg. step. Qed.

(** ** Commands *)

Lemma steps_discard send n s : (forall e, steps R (send e)) -> steps R (discardBlocks env send n s : CM unit).
Proof. intros Hs. unfold discardBlocks. step. Qed.

Lemma steps_torrentHave v : Kind v = Have -> steps R (onTorrentHave env v : CM unit).
Proof. intros Hk. unfold onTorrentHave. step; by apply steps_peer_plain; rewrite Hk. Qed.

(** A command other than the four that set our flags. *)
Lemma steps_torrentMsg_other send cmd :
  (forall e, steps R (send e)) ->
  (forall v, cmd = CWire v -> Kind v <> Interested /\ Kind v <> NotInterested /\ Kind v <> Choke /\ Kind v <> Unchoke) ->
  steps R (onTorrentMsg env send cmd : CM unit).
Proof.
  intros Hs Hv. destruct cmd as [v|v| | |]; cbn [onTorrentMsg]; [|step..].
  destruct (Hv v eq_refl) as (N1 & N2 & N3 & N4). apply Z.eqb_neq in N1, N2, N3, N4. rewrite N1, N2, N3, N4.
  destruct (Z.eqb_spec (Kind v) Port) as [E|_]; [by apply steps_peer_plain; rewrite E|].
  destruct (Z.eqb_spec (Kind v) Have) as [E|_]; [by apply steps_torrentHave|].
  destruct (Z.eqb_spec (Kind v) Cancel) as [E|_]; [|step]. step. by apply steps_peer_plain; rewrite E.
Qed.

(** ** Messages of the peer *)

Section exchange.
Hypothesis steps_send : forall e, steps R (sendMsgToTorrent env e : CM unit).
Hint Resolve steps_send steps_discard : steps.

(** Where any message may be written, uploads are no different. *)
Lemma steps_upload_one_free b : (forall m, P m) -> steps R (upload_one env join b : CM unit).
Proof. intros HP. unfold upload_one, t_readBlock. step. by apply steps_peer. Qed.

Lemma steps_changeState cur set v m :
  (forall b cs, own (set b cs) = own cs) -> steps R (changeState env cur set v m : CM unit).
Proof. intros Hs. unfold changeState. step. apply steps_modc. intros c. apply Hs. Qed.
Lemma steps_upload_turn map b : steps R (upload_one env join b) -> steps R (upload_turn env join map b : CM unit).
Proof. intros Hb. unfold upload_turn. step. Qed.
Lemma steps_unexpected b : steps R (unexpected_block b : CM bool).
Proof. unfold unexpected_block. step. Qed.
Hint Resolve steps_unexpected : steps.
Lemma steps_metadataRequest v : steps R (onMetadataRequest v : CM unit).
Proof.
  unfold onMetadataRequest. apply steps_seq; [step|intros uts]. apply steps_seq; [step|intros c].
  apply steps_seq; [step|intros answer]. apply steps_ext_bind. intros m Hm. step. by apply steps_peer_plain; rewrite Hm.
Qed.
Hint Resolve steps_metadataRequest : steps.
Lemma steps_extended m : steps R (onExtended env m : CM unit).
Proof. unfold onExtended, onExtHandshake, onMetadataData, onMetadataReject. step. Qed.
Lemma steps_peerHave m : steps R (onPeerHave env m : CM unit).
Proof. unfold onPeerHave. step. Qed.
Lemma steps_peerBitfield m : steps R (onPeerBitfield env m : CM unit).
Proof. unfold onPeerBitfield. step. Qed.
Hint Resolve steps_extended steps_peerHave steps_peerBitfield steps_changeState : steps.

(** A block is stored only for a message with a block. *)
Context `{!KeptStore R}.
Lemma steps_writeBlock data pc off : steps R (t_writeBlock join io data pc off : CM (option serror)).
Proof.
  intros w. unfold t_writeBlock, the_storage, mbind, CM_bind, cget. destruct (sh_storage (w_shared w)) as [st|] eqn:Es; [|done].
  change ((mret st : CM _) w) with (COk (B := B) (S := S) st w). cbn match.
  destruct (WriteBlock join io st data (torrent_off st pc off)) as [[[st' n] err]|] eqn:E; [|done]. by eapply kept_store.
Qed.
Hint Resolve steps_writeBlock : steps.
Lemma steps_store data b : steps R (store_block env join io data b : CM unit).
Proof. unfold store_block. step. Qed.
Hint Resolve steps_store : steps.
Lemma steps_pieceMsg m : steps R (onPieceMsg env join io m : CM unit).
Proof. unfold onPieceMsg. step. Qed.
Hint Resolve steps_pieceMsg : steps.

Lemma steps_peerMsg m :
  (Kind m = RequestK -> steps R (upload env join : CM unit)) -> steps R (onPeerMsg env join io m : CM unit).
Proof.
  intros Hu. unfold onPeerMsg. destruct (Z.eqb_spec (Kind m) RequestK) as [E|_]; [rewrite E; by apply Hu|].
  step; by apply steps_changeState.
Qed.

(** What does not come from the torrent. *)
Lemma steps_input inp :
  (forall cmd, inp <> InCmd cmd) -> (forall m, inp = InPeer m -> Kind m = RequestK -> steps R (upload env join : CM unit)) ->
  steps R (on_input env join io inp : CM unit).
Proof.
  intros Hn Hu. destruct inp as [cmd|m| | | |]; cbn [on_input]; [by destruct (Hn cmd)|apply steps_peerMsg; by apply Hu|step..].
Qed.

End exchange.
End kept.
End steps.
