(* ===== verification/ConnFlags.v ===== *)
(** * What a connection knows of our choke and interest flags

    The copy of our own two flags in a connection is exactly the result of the commands
    that it has taken from its torrent, in their order, including those that it takes
    while it waits inside the handling of another one. With the invariant of the torrent,
    the two ends agree on the flags whenever no command is under way. *)

From S2P Require Import Prelude Strconv Bitfield GoValue BenDecode BenEncode Wire Metainfo Bitmap Piece Pieces Storage.
From S2P Require Import Metadata ConnInfo Swarm SwarmInv Torrent TorrentInv TorrentSafe Conn ConnSteps.

Section conn_flags.
Context {B : Type} `{BitmapOps B} {S : Type} `{PieceSelector S B} `{SortSlice (Piece.Piece B)}.
Variable env : CEnv (B := B).
Variable join : list bytes -> bytes.
Variable io : fileio.

Abbreviation world := (world (B := B) (S := S)).
Abbreviation CM := (CM (B := B) (S := S)).
Abbreviation sel := (sel (B := B) (S := S)).
Implicit Types (w : world) (cmd : cmsg B) (m : Msg).

Definition flags w : bool * bool := own (c_state (w_conn w)).

Definition own_apply cmd (f : bool * bool) : bool * bool :=
  own (conn_apply cmd (mkConnState f.1 f.2 false false)).
Definition own_replay (l : list (cmsg B)) (f : bool * bool) : bool * bool := foldl (fun f cmd => own_apply cmd f) f l.

Lemma own_conn_apply cmd cs : own (conn_apply cmd cs) = own_apply cmd (own cs).
Proof. unfold own_apply, conn_apply. destruct cmd; try done. by repeat case_match. Qed.

Lemma own_replay_app l1 l2 f : own_replay (l1 ++ l2) f = own_replay l2 (own_replay l1 f).
Proof. apply foldl_app. Qed.

Lemma own_conn_replay (l : list (cmsg B)) : own (conn_replay l) = own_replay l (own newConnState).
Proof.
  unfold conn_replay. generalize newConnState. induction l as [|cmd l IH]; intros cs; cbn; [done|].
  by rewrite IH, own_conn_apply.
Qed.

(** The commands among the selects. *)
Definition cmds (l : list sel) : list (cmsg B) := omap (fun s => match s with SCmd cmd => Some cmd | _ => None end) l.

(** From [w] to [w'] the flags have changed as the commands taken meanwhile say, after
    those in [l]. *)
Definition follows (l : list (cmsg B)) w w' : Prop :=
  exists pre, w_sched w = pre ++ w_sched w' /\ flags w' = own_replay (l ++ cmds pre) (flags w).

Lemma follows_refl w : follows [] w w.
Proof. by exists []. Qed.

Lemma follows_trans l w1 w2 w3 : follows l w1 w2 -> follows [] w2 w3 -> follows l w1 w3.
Proof.
  intros (p1 & E1 & F1) (p2 & E2 & F2). exists (p1 ++ p2). split; [by rewrite E1, E2, (assoc_L (++))|].
  rewrite F2, F1. unfold cmds. rewrite omap_app, <- own_replay_app. cbn. by rewrite (assoc_L (++)).
Qed.

#[local] Instance follows_kept : Kept (follows []) (fun _ => True).
Proof.
  constructor; [constructor|..].
  - intros w. apply follows_refl.
  - intros w1 w2 w3. apply follows_trans.
  - intros w w' Ec _ Es _. exists []. unfold flags. by rewrite Ec, Es.
  - intros f w Hf. exists []. split; [done|]. apply Hf.
  - intros m w _. by exists [].
  - done.
Qed.

#[local] Instance follows_store : KeptStore join io (follows []).
Proof. intros w st data off st' n err _ _. by exists []. Qed.

(** A computation that follows the commands, after those in [l]. *)
Abbreviation tracks l m := (steps (follows l) m).

(** The assignment that a command makes, and what comes after it. *)
Lemma tracks_command f cmd (m : CM unit) :
  (forall c, own (c_state (f c)) = own_apply cmd (own (c_state c))) -> tracks [] m -> tracks [cmd] (cmod (set_c f);; m).
Proof.
  intros Hf Hm. eapply (steps_bind (follows [cmd]) (follows [])); [|intros; exact Hm|done|intros w1 w2 w3; apply follows_trans].
  intros w. exists []. split; [done|]. unfold flags. cbn. by rewrite Hf.
Qed.

Lemma follows_neutral cmd w w' : (forall f, own_apply cmd f = f) -> follows [] w w' -> follows [cmd] w w'.
Proof. intros Hn (pre & E & F). exists pre. split; [done|]. rewrite F. cbn. by rewrite Hn. Qed.

Lemma own_apply_other cmd f :
  (forall v, cmd = CWire v -> Kind v <> Interested /\ Kind v <> NotInterested /\ Kind v <> Choke /\ Kind v <> Unchoke) ->
  own_apply cmd f = f.
Proof.
  intros Hv. destruct f as [i c]. unfold own_apply, conn_apply. destruct cmd as [v|v| | |]; try done.
  destruct (Hv v eq_refl) as (N1 & N2 & N3 & N4). apply Z.eqb_neq in N1, N2, N3, N4. by rewrite N1, N2, N3, N4.
Qed.

Lemma tracks_torrentMsg send cmd : (forall e, tracks [] (send e)) -> tracks [cmd] (onTorrentMsg env send cmd : CM unit).
Proof.
  intros Hs.
  assert (Hother : (forall v, cmd = CWire v -> Kind v <> Interested /\ Kind v <> NotInterested /\ Kind v <> Choke /\ Kind v <> Unchoke) ->
    tracks [cmd] (onTorrentMsg env send cmd : CM unit)).
  { intros Hv. apply (steps_weaken (follows [])); [|by eapply steps_torrentMsg_other; [apply _|..]].
    intros w w'. apply follows_neutral. intros f. by apply own_apply_other. }
  destruct cmd as [v|v| | |]; [|by apply Hother..].
  assert (Hpeer : Kind v <> Wire.Piece -> tracks [] (sendMsgToPeer v : CM unit)) by (intros; by eapply steps_peer_plain; [apply _|]).
  destruct (Z.eq_dec (Kind v) Interested) as [E|N1]; [|destruct (Z.eq_dec (Kind v) NotInterested) as [E|N2];
    [|destruct (Z.eq_dec (Kind v) Choke) as [E|N3]; [|destruct (Z.eq_dec (Kind v) Unchoke) as [E|N4]]]].
  5:{ apply Hother. by intros ? [= <-]. }
  all: rewrite E in Hpeer; specialize (Hpeer ltac:(discriminate)); cbn [onTorrentMsg]; rewrite E; cbn -[own_apply].
  all: apply tracks_command; [intros c; unfold own_apply; cbn; by rewrite E|].
  - eapply steps_seq; [apply _|by apply steps_try|]. intros _. eapply steps_maybeSend, _.
  - eapply steps_seq; [apply _|by eapply steps_discard; [apply _|]|done].
  - eapply steps_seq; [apply _|eapply steps_modc; [apply _|done]|done].
  - done.
Qed.

(** The loop that waits for the torrent takes a command from the schedule and follows it. *)
Lemma tracks_select (s : sel) (k : CM unit) l w :
  w_sched w = s :: l -> tracks (cmds [s]) k ->
  match k (mkWorld (w_conn w) (w_shared w) (w_sent w) (w_wire w) (w_buffered w) l (w_writes w) (w_tick w)) with
  | COk _ w' | CErr _ w' => follows [] w w'
  | _ => True
  end.
Proof.
  intros E Hk. match goal with |- context [k ?w1] => specialize (Hk w1); set (wl := w1) in * end.
  assert (Hl : forall w', follows (cmds [s]) wl w' -> follows [] w w').
  { intros w' (pre & E1 & F1). exists (s :: pre). split; [rewrite E; cbn; f_equal; exact E1|].
    rewrite F1. unfold cmds. by rewrite (omap_app _ [s] pre). }
  destruct (k wl); auto.
Qed.

(** The reader goroutine leaves the schedule too. *)
Lemma read_keeps m w :
  match (readPeerMsg m : CM bool) w with
  | COk _ w' | CErr _ w' => w_sched w' = w_sched w /\ flags w' = flags w
  | _ => True
  end.
Proof.
  unfold readPeerMsg. destruct (_ =? RequestK); [|by destruct (_ =? Cancel)].
  unfold mbind, CM_bind, cget. case_bool_decide; [done|]. by destruct (_ <=? _).
Qed.

Lemma tracks_send_fuel fuel e : tracks [] (sendMsgToTorrent_fuel env fuel e : CM unit).
Proof.
  revert e. induction fuel as [|fuel IH]; intros e; cbn [sendMsgToTorrent_fuel]; [done|].
  assert (Hsave : forall l (m : CM unit), tracks l m -> tracks l (r ← ctry m;
    match r with inl _ => sendMsgToTorrent_fuel env fuel e | inr err => cmod (set_c (with_lastMsg e));; cfail err end)).
  { intros l m Hm. eapply (steps_bind (follows l) (follows [])); [by apply steps_try| |done|intros w1 w2 w3; apply follows_trans].
    intros [[]|err]; [apply IH|]. eapply steps_seq; [apply _|by eapply steps_modc; [apply _|]|intros _; eapply steps_fail, _]. }
  assert (Hadd : tracks [] (cmod (add_sent e) : CM unit)) by (by eapply steps_mod; [apply _|]).
  intros w. unfold mbind at 1, CM_bind at 1, next_sel. destruct (w_sched w) as [|s l] eqn:E; [by apply Hadd|].
  destruct s as [|cmd| | |m|f]; apply (tracks_select _ _ _ _ E).
  - exact Hadd.
  - apply Hsave, tracks_torrentMsg, IH.
  - eapply Hsave, steps_fail, _.
  - eapply Hsave, steps_keepAlive, _.
  - eapply steps_seq; [apply _|eapply steps_read, _|intros; apply IH].
  - eapply steps_seq; [apply _|intros w1; by exists []|intros; apply IH].
Qed.

Lemma tracks_send e : tracks [] (sendMsgToTorrent env e : CM unit).
Proof. intros w. apply tracks_send_fuel. Qed.

Lemma tracks_upload : tracks [] (upload env join : CM unit).
Proof.
  unfold upload. eapply steps_seq; [apply _|eapply steps_get, _|intros c]. eapply steps_seq; [apply _|eapply steps_draw, _|intros reqs].
  eapply steps_for; [apply _|]. intros b _. eapply steps_upload_turn; [apply _|].
  eapply steps_upload_one_free; [apply _|apply tracks_send|done].
Qed.

Definition input_cmds (inp : cinput (B := B)) : list (cmsg B) := match inp with InCmd cmd => [cmd] | _ => [] end.

Lemma tracks_input inp : tracks (input_cmds inp) (on_input env join io inp : CM unit).
Proof.
  destruct inp as [cmd|m| | | |]; [apply tracks_torrentMsg, tracks_send|..];
    by eapply steps_input; [apply _|apply tracks_send|apply _| |intros; apply tracks_upload].
Qed.

(** ** Runs of a connection *)

(** The commands that were taken from the schedule between two states. *)
Definition taken w w' : list (cmsg B) := cmds (take (length (w_sched w) - length (w_sched w')) (w_sched w)).

(** [conn_path l w]: a connection can be in [w] after it has taken the commands [l]: by
    turns of its main loop, by what its reader does, and while others change the rest. *)
Inductive conn_path : list (cmsg B) -> world -> Prop :=
| cp_new w ip r : w_conn w = newConn ip r -> conn_path [] w
| cp_turn l w inp w' :
    conn_path l w -> mainLoop_turn_c env join io inp w = COk true w' ->
    conn_path (l ++ input_cmds inp ++ taken w w') w'
| cp_read l w m b w' : conn_path l w -> readPeerMsg m w = COk b w' -> conn_path l w'
| cp_other l w w' : conn_path l w -> w_conn w' = w_conn w -> conn_path l w'.

Lemma follows_taken l w w' : follows l w w' -> flags w' = own_replay (l ++ taken w w') (flags w).
Proof.
  intros (pre & E & F). rewrite F. unfold taken. rewrite E, length_app, Nat.add_sub, take_app_length. done.
Qed.

Lemma turn_follows inp w w' :
  mainLoop_turn_c env join io inp w = COk true w' -> follows (input_cmds inp) w w'.
Proof.
  assert (Ht : tracks (input_cmds inp) (on_input env join io inp;; flushWriter : CM unit)).
  { eapply (steps_bind (follows _) (follows [])); [apply tracks_input|intros; eapply steps_flush, _|done|intros w1 w2 w3; apply follows_trans]. }
  specialize (Ht w).
  unfold mainLoop_turn_c, mbind at 1, CM_bind at 1, ctry.
  destruct ((on_input env join io inp;; flushWriter) w) as [[] w1|e w1| | | |]; try done; [by intros [= <-]|].
  unfold mbind, CM_bind. by destruct (c_close env w1).
Qed.

Lemma conn_path_flags l w : conn_path l w -> flags w = own (conn_replay l).
Proof.
  rewrite own_conn_replay. induction 1 as [w ip r E|l w inp w' _ IH E|l w m b w' _ IH E|l w w' _ IH E].
  - unfold flags. by rewrite E.
  - by rewrite (follows_taken _ _ _ (turn_follows _ _ _ E)), IH, <- own_replay_app.
  - pose proof (read_keeps m w) as Hr. rewrite E in Hr. destruct Hr as [_ ->]. done.
  - unfold flags. by rewrite E.
Qed.

End conn_flags.

(** ** Both ends *)

Section ends.
Context {B : Type} `{BitmapLaws B} {S : Type} `{PieceSelector S B} `{SortSliceLaws (Piece.Piece B)} `{SortSliceLaws Z}.
Variable env : Env.
Context `{EnvLaws env}.
Variable ip6_String : bytes -> bytes.
Variable int_of_Inf : Z.
Variable sha1_Sum : bytes -> bytes.
Variable openStorage : InfoDict -> list Z -> bool.
Variable SelectorF : S.
Variable outboundIP : bytes.
Variable cenv : CEnv (B := B).
Variable join : list bytes -> bytes.
Variable io : fileio.

(** C13: The main goroutine of a torrent and the goroutine of a connection agree: once the
    connection has taken every command that the torrent has sent to it, in whatever turns
    and nested waits, its copies of our choke and interest flags are the torrent's. *)
Theorem ends_agree cfg info ann ib t id ci w :
  setup_ok cfg info ib ->
  t_reachable env ip6_String int_of_Inf sha1_Sum openStorage SelectorF outboundIP cfg info ann ib t ->
  id ∈ conns t -> t_infos t !! id = Some ci ->
  conn_path cenv join io (ci_sent ci) w ->
  amInterested (c_state (w_conn w)) = amInterested (ci_state ci) /\
  amChoking (c_state (w_conn w)) = amChoking (ci_state ci).
Proof.
  intros Hs Hr Hid Hci Hp. pose proof (tor_ok_reachable _ _ _ _ _ _ _ _ _ _ _ _ Hs Hr) as Ht.
  destruct (wf_sync _ (tk_wf _ Ht) id ci Hid Hci) as [Hi Hc].
  pose proof (conn_path_flags _ _ _ _ _ Hp) as [= -> ->]. done.
Qed.

End ends.
