(* ===== verification/ConnUpload.v ===== *)
(** * What a connection uploads

    A connection writes a piece message only for a request of the peer, only while it does not
    choke the peer, and only with bytes that the storage gave it from a verified piece: the
    storage as it is at that moment of the turn. *)

From S2P Require Import Prelude Strconv Bitfield GoValue BenDecode BenEncode Wire Metainfo Bitmap Piece Pieces Storage.
From S2P Require Import Metadata ConnInfo Torrent Conn ConnSteps ConnFlags.

Section conn_upload.
Context {B : Type} `{BitmapOps B} {S : Type} `{PieceSelector S B} `{SortSlice (Piece.Piece B)}.
Variable env : CEnv (B := B).
Context `{!CEnvLaws env}.
Variable join : list bytes -> bytes.
Variable io : fileio.

Abbreviation world := (world (B := B) (S := S)).
Abbreviation CM := (CM (B := B) (S := S)).
Implicit Types (w : world) (m : Msg) (req : block).

(** [m] answers [req] with what a storage in the state [st] gave without an error; bytes that
    it did not give are zero. *)
Record answers req m (st : FileStorage) : Prop := mkAnswers {
  an_place : Index m = uint32 (b_pc req) /\ Begin m = uint32 (b_off req);
  an_len : b_len req <= maxRequestBlockSz;
  an_data : exists d, ReadBlock join st (b_len req) (torrent_off st (b_pc req) (b_off req)) = Some (d, None) /\
    Block m = d ++ replicate (Z.to_nat (b_len req) - length d) Byte.x00;
}.

(** What matters for uploads: our two flags and the storage of the torrent. *)
Abbreviation view := ((bool * bool) * option FileStorage)%type.
Definition view_of w : view := (flags w, sh_storage (w_shared w)).

(** [replays l v v']: while the cases [l] of the selects are taken, in their order, the view goes
    from [v] to [v']: a command changes the flags, others change what they share; and where
    [stores] is set, this connection may store blocks in between. *)
Inductive replays (stores : bool) : list (sel (B := B) (S := S)) -> view -> view -> Prop :=
| rp_nil v : replays stores [] v v
| rp_store l fl st data off st' n err v :
    stores = true -> WriteBlock join io st data off = Some (st', n, err) ->
    replays stores l (fl, Some st') v -> replays stores l (fl, Some st) v
| rp_cmd l cmd fl st v : replays stores l (own_apply cmd fl, st) v -> replays stores (SCmd cmd :: l) (fl, st) v
| rp_other l f sh fl v : replays stores l (fl, sh_storage (f sh)) v -> replays stores (SOther f :: l) (fl, sh_storage sh) v
| rp_skip l s v v' :
    (forall cmd, s <> SCmd cmd) -> (forall f, s <> SOther f) -> replays stores l v v' -> replays stores (s :: l) v v'.

Lemma replays_app stores l1 l2 v1 v2 v3 : replays stores l1 v1 v2 -> replays stores l2 v2 v3 -> replays stores (l1 ++ l2) v1 v3.
Proof. induction 1; intros; cbn; [done|econstructor; eauto..]. Qed.

(** [m] answers one of [reqs] out of the storage as it is at a moment while [pre] is taken, and the
    peer is not choked then. *)
Definition served (stores : bool) (reqs : gset block) (v : view) (pre : list (sel (B := B) (S := S))) m : Prop :=
  Kind m = Wire.Piece -> exists req before after fl st,
    req ∈ reqs /\ pre = before ++ after /\ replays stores before v (fl, Some st) /\ fl.2 = false /\ answers req m st.

(** From [w] to [w'], with the cases [l] taken before, only messages that [served] allows have been
    written. *)
Definition gives (stores : bool) (l : list (sel (B := B) (S := S))) (reqs : gset block) w w' : Prop :=
  exists pre ms, w_sched w = pre ++ w_sched w' /\ replays stores (l ++ pre) (view_of w) (view_of w') /\
    w_wire w' = w_wire w ++ ms /\ Forall (served stores reqs (view_of w) (l ++ pre)) ms.

(** A step of the connection that takes no case and writes nothing. *)
Lemma gives_same stores l reqs w w' :
  w_wire w' = w_wire w -> w_sched w' = w_sched w -> replays stores l (view_of w) (view_of w') -> gives stores l reqs w w'.
Proof. intros Ew Es Hv. exists [], []. by rewrite Ew, Es, !app_nil_r. Qed.

Lemma gives_quiet stores reqs w w' : w_wire w' = w_wire w -> w_sched w' = w_sched w -> view_of w' = view_of w -> gives stores [] reqs w w'.
Proof. intros Ew Es Hv. apply gives_same; [done..|]. rewrite Hv. constructor. Qed.

Lemma gives_trans stores l reqs w1 w2 w3 : gives stores l reqs w1 w2 -> gives stores [] reqs w2 w3 -> gives stores l reqs w1 w3.
Proof.
  intros (p1 & m1 & Es1 & Hv1 & Ew1 & F1) (p2 & m2 & Es2 & Hv2 & Ew2 & F2). exists (p1 ++ p2), (m1 ++ m2).
  rewrite Es1, Es2, Ew2, Ew1, !(assoc_L (++)). split_and!; [done|by eapply replays_app|done|].
  apply Forall_app. split; eapply Forall_impl; try done; intros m Hm Hk; destruct (Hm Hk) as (req & b & a & fl & st & Hreq & E & Hr & Hf & Ha).
  - exists req, b, (a ++ p2), fl, st. by rewrite E, (assoc_L (++)).
  - cbn in E. exists req, ((l ++ p1) ++ b), a, fl, st. rewrite E, (assoc_L (++)). split_and!; try done. by eapply replays_app.
Qed.

#[local] Instance gives_kept stores reqs : Kept (gives stores [] reqs) (fun m => Kind m <> Wire.Piece).
Proof.
  constructor; [constructor|..].
  - intros w. by apply gives_quiet.
  - intros w1 w2 w3. apply gives_trans.
  - intros w w' Ec Ew Es Est. apply gives_quiet; [done..|]. unfold view_of, flags. by rewrite Ec, Est.
  - intros f w Hf. apply gives_quiet; [done..|]. unfold view_of, flags. cbn. by rewrite Hf.
  - intros m w Hm. exists [], [m]. split_and!; [done|constructor|done|]. apply Forall_singleton. by intros ?.
  - done.
Qed.

#[local] Instance gives_store reqs : KeptStore join io (gives true [] reqs).
Proof.
  intros w st data off st' n err Est E. apply gives_same; [done..|]. unfold view_of. rewrite Est.
  eapply rp_store; [done|exact E|]. constructor.
Qed.

(** The assignment that a command makes, and what comes after it. *)
Lemma gives_command stores reqs f cmd (m : CM unit) :
  (forall c, own (c_state (f c)) = own_apply cmd (own (c_state c))) -> steps (gives stores [] reqs) m ->
  steps (gives stores [SCmd cmd] reqs) (cmod (set_c f);; m).
Proof.
  intros Hf Hm. eapply (steps_bind (gives stores [SCmd cmd] reqs) (gives stores [] reqs)); [|intros; exact Hm|done|intros w1 w2 w3; apply gives_trans].
  intros w. apply gives_same; [done..|]. unfold view_of, flags. cbn. rewrite Hf. apply rp_cmd. constructor.
Qed.

Lemma gives_neutral stores reqs cmd w w' : (forall f, own_apply cmd f = f) -> gives stores [] reqs w w' -> gives stores [SCmd cmd] reqs w w'.
Proof.
  intros Hn (pre & ms & Es & Hv & Ew & F). exists pre, ms. cbn in *. destruct (view_of w) as [fl st] eqn:E. split_and!; [done| |done|].
  - apply rp_cmd. by rewrite Hn.
  - eapply Forall_impl; [exact F|]. intros m Hm Hk. destruct (Hm Hk) as (req & b & a & fl' & st' & Hreq & -> & Hr & Hf & Ha).
    exists req, (SCmd cmd :: b), a, fl', st'. split_and!; try done. apply rp_cmd. by rewrite Hn.
Qed.

Lemma gives_torrentMsg stores reqs send cmd :
  (forall e, steps (gives stores [] reqs) (send e)) -> steps (gives stores [SCmd cmd] reqs) (onTorrentMsg env send cmd : CM unit).
Proof.
  intros Hs.
  assert (Hother : (forall v, cmd = CWire v -> Kind v <> Interested /\ Kind v <> NotInterested /\ Kind v <> Choke /\ Kind v <> Unchoke) ->
    steps (gives stores [SCmd cmd] reqs) (onTorrentMsg env send cmd : CM unit)).
  { intros Hv. apply (steps_weaken (gives stores [] reqs)); [|by eapply steps_torrentMsg_other; [apply _|..]].
    intros w w'. apply gives_neutral. intros f. by apply own_apply_other. }
  destruct cmd as [v|v| | |]; [|by apply Hother..].
  assert (Hpeer : Kind v <> Wire.Piece -> steps (gives stores [] reqs) (sendMsgToPeer v : CM unit)) by (intros; by eapply steps_peer_plain; [apply _|]).
  destruct (Z.eq_dec (Kind v) Interested) as [E|N1]; [|destruct (Z.eq_dec (Kind v) NotInterested) as [E|N2];
    [|destruct (Z.eq_dec (Kind v) Choke) as [E|N3]; [|destruct (Z.eq_dec (Kind v) Unchoke) as [E|N4]]]].
  5:{ apply Hother. by intros ? [= <-]. }
  all: rewrite E in Hpeer; specialize (Hpeer ltac:(discriminate)); cbn [onTorrentMsg]; rewrite E; cbn -[own_apply].
  all: apply gives_command; [intros c; unfold own_apply; cbn; by rewrite E|].
  - eapply steps_seq; [apply _|by apply steps_try|]. intros _. eapply steps_maybeSend, _.
  - eapply steps_seq; [apply _|by eapply steps_discard; [apply _|]|done].
  - eapply steps_seq; [apply _|eapply steps_modc; [apply _|done]|done].
  - done.
Qed.

(** The loop that waits for the torrent takes a case of the schedule. *)
Lemma gives_select stores reqs (s : sel) (k : CM unit) l w :
  w_sched w = s :: l -> steps (gives stores [s] reqs) k ->
  match k (mkWorld (w_conn w) (w_shared w) (w_sent w) (w_wire w) (w_buffered w) l (w_writes w) (w_tick w)) with
  | COk _ w' | CErr _ w' => gives stores [] reqs w w'
  | _ => True
  end.
Proof.
  intros E Hk. match goal with |- context [k ?w1] => specialize (Hk w1); set (wl := w1) in * end.
  assert (Hl : forall w', gives stores [s] reqs wl w' -> gives stores [] reqs w w').
  { intros w' (pre & ms & E1 & Hv & Ew & F). exists (s :: pre), ms. split_and!; [rewrite E; cbn; f_equal; exact E1|exact Hv|done|exact F]. }
  destruct (k wl); auto.
Qed.

(** A case that changes neither the flags nor the storage. *)
Lemma gives_skip stores reqs s (m : CM unit) :
  (forall cmd, s <> SCmd cmd) -> (forall f, s <> SOther f) -> steps (gives stores [] reqs) m -> steps (gives stores [s] reqs) m.
Proof.
  intros Hc Ho. apply steps_weaken. intros w w' (pre & ms & Es & Hv & Ew & F). exists pre, ms. cbn in Hv, F. split_and!; [done|by apply rp_skip|done|].
  eapply Forall_impl; [exact F|]. intros x Hm Hk. destruct (Hm Hk) as (req & b & a & fl' & st' & Hreq & E & Hr & Hf & Ha).
  exists req, (s :: b), a, fl', st'. rewrite E. split_and!; try done. by apply rp_skip.
Qed.

Lemma gives_send_fuel stores reqs fuel e : steps (gives stores [] reqs) (sendMsgToTorrent_fuel env fuel e : CM unit).
Proof.
  revert e. induction fuel as [|fuel IH]; intros e; cbn [sendMsgToTorrent_fuel]; [done|].
  assert (Hsave : forall l (m : CM unit), steps (gives stores l reqs) m -> steps (gives stores l reqs) (r ← ctry m;
    match r with inl _ => sendMsgToTorrent_fuel env fuel e | inr err => cmod (set_c (with_lastMsg e));; cfail err end)).
  { intros l m Hm. eapply (steps_bind (gives stores l reqs) (gives stores [] reqs)); [by apply steps_try| |done|intros w1 w2 w3; apply gives_trans].
    intros [[]|err]; [apply IH|]. eapply steps_seq; [apply _|by eapply steps_modc; [apply _|]|intros _; eapply steps_fail, _]. }
  assert (Hadd : steps (gives stores [] reqs) (cmod (add_sent e) : CM unit)) by (by eapply steps_mod; [apply _|]).
  intros w. unfold mbind at 1, CM_bind at 1, next_sel. destruct (w_sched w) as [|s l] eqn:E; [by apply Hadd|].
  destruct s as [|cmd| | |m|f]; apply (gives_select _ _ _ _ _ _ E).
  - by apply gives_skip.
  - apply Hsave, gives_torrentMsg, IH.
  - apply gives_skip; [done..|]. eapply Hsave, steps_fail, _.
  - apply gives_skip; [done..|]. eapply Hsave, steps_keepAlive, _.
  - apply gives_skip; [done..|]. eapply steps_seq; [apply _|eapply steps_read, _|intros; apply IH].
  - eapply (steps_bind (gives stores [SOther f] reqs) (gives stores [] reqs)); [|intros; apply IH|done|intros w1 w2 w3; apply gives_trans].
    intros w1. apply gives_same; [done..|]. apply (rp_other _ [] f (w_shared w1)). constructor.
Qed.

Lemma gives_send stores reqs e : steps (gives stores [] reqs) (sendMsgToTorrent env e : CM unit).
Proof. intros w. apply gives_send_fuel. Qed.

(** ** Uploads *)

(** A block is written at a moment when the storage has it and the peer is not choked. *)
Lemma gives_answer stores reqs req m st w :
  req ∈ reqs -> answers req m st -> sh_storage (w_shared w) = Some st -> amChoking (c_state (w_conn w)) = false ->
  match (sendMsgToPeer m : CM unit) w with COk _ w' | CErr _ w' => gives stores [] reqs w w' | _ => True end.
Proof.
  intros Hreq Ha Est Hc. unfold sendMsgToPeer, clift, mbind, CM_bind. destruct (Wire.Encode m); [cbn|done].
  assert (Hm : forall w1, w_conn w1 = w_conn w -> w_wire w1 = w_wire w -> w_sched w1 = w_sched w -> w_shared w1 = w_shared w ->
    gives stores [] reqs w (add_wire m w1)).
  { intros w1 Ec Ew Es Esh. exists [], [m]. cbn. rewrite Es, Ew. unfold view_of, flags. cbn. rewrite Ec, Esh. split_and!; [done|constructor|done|].
    apply Forall_singleton. intros _. exists req, [], [], (own (c_state (w_conn w))), st. rewrite Est. split_and!; try done. constructor. }
  unfold write. destruct (w_writes w) as [|[] ws]; [by apply Hm|by apply Hm|by apply gives_quiet].
Qed.

#[local] Arguments sendMsgToPeer : simpl never.
#[local] Arguments sendMsgToTorrent : simpl never.

Lemma gives_upload_one stores reqs req : req ∈ reqs -> steps (gives stores [] reqs) (upload_one env join req : CM unit).
Proof.
  intros Hreq. unfold upload_one.
  assert (Hban : forall e, steps (gives stores [] reqs) (cmod (set_c with_ban);; cfail e : CM unit)).
  { intros e. eapply steps_seq; [apply _|by eapply steps_modc; [apply _|]|intros _; eapply steps_fail, _]. }
  eapply steps_seq; [apply _|by eapply steps_modc; [apply _|]|intros _]. intros w. unfold mbind, CM_bind, cget.
  destruct (negb (c_haveInfo (w_conn w))); [apply Hban|]. destruct (canUpload (c_state (w_conn w))) eqn:Hu; [|by apply gives_quiet].
  destruct (Z.ltb_spec maxRequestBlockSz (b_len req)) as [|Hl]; [apply Hban|]. cbn [negb].
  destruct (negb (bm_Get _ _)); [by apply gives_quiet|]. destruct (pieceLen _ _) as [len|]; [cbn|done].
  destruct (len <? _); [apply Hban|]. unfold t_readBlock, the_storage, mbind, CM_bind, cget.
  destruct (sh_storage (w_shared w)) as [st|] eqn:Est; [cbn|done].
  destruct (ReadBlock join st (b_len req) (torrent_off st (b_pc req) (b_off req))) as [[d [err|]]|] eqn:Hd; [by apply gives_quiet|cbn|done].
  apply andb_true_iff in Hu as [Hc%negb_true_iff _].
  match goal with |- context [sendMsgToPeer ?m w] => pose proof (gives_answer stores reqs req m st w Hreq) as Hg end.
  specialize (Hg ltac:(by constructor; [split|done|exists d]) Est Hc). destruct (sendMsgToPeer _ w) as [[] w1|e w1| | | |]; try done.
  pose proof (gives_send stores reqs (TUploadedBlock req) w1) as Hs. destruct (sendMsgToTorrent _ _ w1); try done; by eapply gives_trans.
Qed.

Lemma gives_upload w :
  match (upload env join : CM unit) w with COk _ w' | CErr _ w' => gives false [] (c_peerReqs (w_conn w)) w w' | _ => True end.
Proof.
  set (reqs := ce_order env (w_tick w) (elements (c_peerReqs (w_conn w)))).
  assert (Hf : steps (gives false [] (c_peerReqs (w_conn w))) (cfor (upload_turn env join (c_reqsMap (w_conn w))) reqs : CM unit)).
  { eapply steps_for; [apply _|]. intros req Hreq. eapply steps_upload_turn; [apply _|]. apply gives_upload_one.
    unfold reqs in Hreq. by rewrite order_perm, elem_of_elements in Hreq. }
  eapply (steps_seq _ _ (cdraw (fun _ => ())) _ (steps_draw _ _ _) (fun _ => Hf) w).
Qed.

(** A turn that uploads, and a turn that does not. *)
Definition uploads (inp : cinput (B := B)) : bool := match inp with InPeer m => Kind m =? RequestK | _ => false end.
Definition answered (inp : cinput (B := B)) w : gset block := if uploads inp then c_peerReqs (w_conn w) else ∅.

(** The cases that count as taken before the turn: the command that it handles. *)
Definition first_case (inp : cinput (B := B)) : list (sel (B := B) (S := S)) :=
  match inp with InCmd cmd => [SCmd cmd] | _ => [] end.

Lemma gives_input inp w :
  match on_input env join io inp w with
  | COk _ w' | CErr _ w' => gives (negb (uploads inp)) (first_case inp) (answered inp w) w w'
  | _ => True
  end.
Proof.
  destruct inp as [cmd|m| | | |]; [apply (gives_torrentMsg _ _ _ _ (gives_send _ _))| |by eapply steps_input; [apply _|apply gives_send|apply _|..]..].
  unfold answered, uploads. cbn [first_case]. destruct (Z.eqb_spec (Kind m) RequestK) as [E|N]; cbn [negb].
  - cbn [on_input]. unfold onPeerMsg. rewrite E. apply gives_upload.
  - by eapply steps_input; [apply _|apply gives_send|apply _| |intros ? [= <-]].
Qed.

(** Closing writes no piece message: it may cancel requests first, and then only waits for the
    torrent. *)
Lemma gives_close stores reqs w w' :
  (c_close env : CM unit) w = COk () w' -> exists w1, gives stores [] reqs w w1 /\ w_wire w' = w_wire w1.
Proof.
  assert (Hd : steps (gives stores [] reqs) (ctry (discardBlocks env (sendMsgToTorrent env) false false) : CM _)).
  { apply steps_try. eapply steps_discard; [apply _|apply gives_send]. }
  assert (Hl : forall (e : tmsg B) w1 w2, (last_send e : CM unit) w1 = COk () w2 -> w_wire w2 = w_wire w1).
  { intros e w1 w2. unfold last_send, mbind, CM_bind, next_sel. destruct (w_sched w1) as [|[] ?]; by intros [= <-]. }
  specialize (Hd w). unfold c_close, mbind, CM_bind, cget. destruct (ctry _ w) as [r w1|e w1| | | |]; try done. intros E. exists w1. split; [done|].
  revert E. destruct (last_send _ w1) as [[] w2|e w2| | | |] eqn:E2; try done. destruct (last_send _ w2) as [[] w3|e w3| | | |] eqn:E3; try done.
  intros E4. by rewrite (Hl _ _ _ E4), (Hl _ _ _ E3), (Hl _ _ _ E2).
Qed.

Lemma gives_turn inp goes_on w w' :
  mainLoop_turn_c env join io inp w = COk goes_on w' ->
  exists w1, gives (negb (uploads inp)) (first_case inp) (answered inp w) w w1 /\ w_wire w' = w_wire w1.
Proof.
  assert (Hb : match (on_input env join io inp;; flushWriter) w with
               | COk _ w2 | CErr _ w2 => gives (negb (uploads inp)) (first_case inp) (answered inp w) w w2 | _ => True end).
  { pose proof (gives_input inp w) as Hi. set (reqs := answered inp w) in *. unfold mbind, CM_bind.
    destruct (on_input env join io inp w) as [[] w1|e w1| | | |]; [|done..].
    pose proof (steps_flush _ _ w1 : match flushWriter w1 with COk _ w2 | CErr _ w2 => gives (negb (uploads inp)) [] reqs w1 w2 | _ => True end) as Hf.
    destruct (flushWriter w1); try done; by eapply gives_trans. }
  unfold mainLoop_turn_c, mbind at 1, CM_bind at 1, ctry.
  destruct ((on_input env join io inp;; flushWriter) w) as [[] w1|e w1| | | |]; [intros [= _ <-]; by exists w1| |done..].
  unfold mbind, CM_bind. destruct (c_close env w1) as [[] w2|e2 w2| | | |] eqn:Ec; try done. intros [= _ <-].
  destruct (gives_close (negb (uploads inp)) (answered inp w) _ _ Ec) as (w3 & G & Ew). exists w3. split; [by eapply gives_trans|done].
Qed.

(** ** Theorems *)

(** C14: What a turn of the main loop writes to the peer: every piece message answers a request
    that the peer had made and not withdrawn when the turn began, with the index and the
    offset of the request and a length within the limit. There is a moment of the turn, after
    the cases [before] of the selects, at which we do not choke the peer and its bytes are
    what the storage of the torrent gives without an error, from a piece that is verified:
    flags and storage are those at the start of the turn after the commands and the doings of
    others in [before]. *)
Theorem uploads_verified inp goes_on w w' :
  mainLoop_turn_c env join io inp w = COk goes_on w' ->
  exists l pre post, w_wire w' = w_wire w ++ l /\ first_case inp ++ w_sched w = pre ++ post /\
    forall m, m ∈ l -> Kind m = Wire.Piece ->
      exists req before after fl st i piece, req ∈ c_peerReqs (w_conn w) /\ pre = before ++ after /\
        replays false before (flags w, sh_storage (w_shared w)) (fl, Some st) /\ fl.2 = false /\ answers req m st /\
        pieceIndex st (torrent_off st (b_pc req) (b_off req)) = Some i /\
        at_index (st_pieces st) i = Some piece /\ sp_verified piece = true.
Proof.
  intros E. destruct (gives_turn _ _ _ _ E) as (w1 & (pre & ms & Es & _ & Ew & F) & Ew').
  exists ms, (first_case inp ++ pre), (w_sched w1). split_and!; [by rewrite Ew'|by rewrite Es, (assoc_L (++))|].
  intros m Hm Hk. destruct (proj1 (Forall_forall _ _) F m Hm Hk) as (req & before & after & fl & st & Hreq & Ep & Hr & Hf & Ha).
  revert Hreq Hr. unfold answered. destruct (uploads inp); cbn [negb]; intros Hreq Hr; [|by apply elem_of_empty in Hreq].
  exists req, before, after, fl, st. destruct (an_data _ _ _ Ha) as (d & Hd & _). unfold ReadBlock in Hd.
  destruct (pieceIndex _ _) as [i|]; [|done]. cbn [mbind option_bind] in Hd.
  destruct (at_index _ i) as [piece|] eqn:Ep'; [|done]. cbn [mbind option_bind] in Hd. destruct (sp_verified piece) eqn:Ev; [|done].
  exists i, piece. by split_and!.
Qed.

End conn_upload.
