(* ===== verification/ConnServe.v ===== *)
(** * What a connection gives away

    A connection over the storage of its torrent, which connections and the hasher change by their
    steps: every block that it sends is part of a piece with the hash of the info dictionary. Its own
    writes are those that [Download] expects. *)

From S2P Require Import Prelude Strconv Bitfield GoValue BenDecode BenEncode Wire Metainfo Bitmap Piece Pieces Storage StorageSafe.
From S2P Require Import Metadata ConnInfo Swarm SwarmInv Torrent TorrentInv TorrentSafe Frames Hasher Download Conn ConnInv.

Section serve.
Context {B : Type} `{BitmapLaws B} {S : Type} `{PieceSelector S B} `{SortSliceLaws (Piece.Piece B)}.
Variable env : CEnv (B := B).
Context `{!CEnvLaws env}.
Variable join : list bytes -> bytes.
Variable io : fileio.
Variable sha1_Sum : bytes -> bytes.
Variable info : InfoDict.
Hypothesis Hmatch : pieces_match info.
Hypothesis Htotal : total_len (FilesInfo info) = TotalLength info.
Hypothesis Hparams : params_ok (info_params info).
Hypothesis Hsize : NumPieces info * PieceLen info < 2 ^ 62.
Implicit Types (st : FileStorage) (m : Msg).

Abbreviation st_step := (st_step join io sha1_Sum).
Abbreviation st_inv := (st_inv join io sha1_Sum).

(** The storage after writes and hashing, from where it was opened. *)
Definition in_use st0 st : Prop := rtc st_step st0 st.

Lemma st_step_info st st' : st_step st st' -> st_info st' = st_info st.
Proof using. intros [p i o len s1 n err _ _ _ _ _ E|i len s1 ok _ _ E]; [by destruct (WriteBlock_monotone _ _ _ _ _ _ _ _ E)|by destruct (HashPiece_monotone _ _ _ _ _ _ _ E)]. Qed.

Lemma in_use_inv st0 st : st_inv st0 -> st_info st0 = info -> in_use st0 st -> st_inv st /\ st_info st = info.
Proof using.
  intros Hs Hi Hr. induction Hr as [|x y z Hxy _ IH]; [done|]. apply IH; [by eapply st_step_inv|]. by rewrite (st_step_info _ _ Hxy).
Qed.

Lemma piece_off st i o : st_info st = info -> 0 <= i < NumPieces info -> 0 <= o <= PieceLen info -> torrent_off st i o = pieceOff st i + o.
Proof using Hparams Hsize.
  intros Hi Hb Ho. pose proof (pa_brs _ Hparams) as H1'. pose proof (pa_bound _ Hparams) as H2'. cbn in H1', H2'. unfold pieceOff. rewrite Hi.
  apply (torrent_off_small (info_params info)); [done|done|by rewrite Hi|done|lia].
Qed.

Lemma in_use_store st0 : st_inv st0 -> st_info st0 = info -> BlockStore join io (info_params info) (in_use st0).
Proof using Hparams Hsize Hmatch.
  intros Hs Hi st p i o len st' n err Hr Hb Hl Hp Ho Hfit E. destruct (in_use_inv st0 st Hs Hi Hr) as [_ Hinfo].
  change (PieceLength info i = Some len) in Hl. pose proof (PieceLength_le _ _ _ (pm_len _ Hmatch) Hl). 
  eapply rtc_r; [exact Hr|]. eapply (ss_write _ _ _ _ p i o len); rewrite ?Hinfo; try done.
  rewrite <- piece_off; [exact E|done|done|lia].
Qed.

(** ** What a connection does to the files *)

(** The storage after writes of connections, as [Download] has them. *)
Definition written st0 st : Prop := rtc (conn_write join io) st0 st.

Lemma written_info st0 st : written st0 st -> st_info st = st_info st0.
Proof using.
  induction 1 as [|x y z (p & i & o & len & n & err & _ & _ & _ & _ & _ & E) _ IH]; [done|].
  rewrite IH. by destruct (WriteBlock_monotone _ _ _ _ _ _ _ _ E).
Qed.

Lemma written_store st0 : st_info st0 = info -> BlockStore join io (info_params info) (written st0).
Proof using Hparams Hsize Hmatch.
  intros Hi st p i o len st' n err Hr Hb Hl Hp Ho Hfit E. pose proof (written_info _ _ Hr) as Hinfo. rewrite Hi in Hinfo.
  change (PieceLength info i = Some len) in Hl. pose proof (PieceLength_le _ _ _ (pm_len _ Hmatch) Hl).
  eapply rtc_r; [exact Hr|]. rewrite (piece_off st i o Hinfo Hb ltac:(lia)) in E. exists p, i, o, len, n, err. by rewrite Hinfo.
Qed.

(** Connections keep to what [Download] expects of them: when the others change the files only
    by such writes, so do all the turns of a connection, on any messages. *)
Theorem connections_write st0 w st :
  st_info st0 = info -> c_reach env join io (info_params info) (written st0) (S := S) w ->
  sh_storage (w_shared w) = Some st -> written st0 st.
Proof.
  intros Hi Hr Hst. pose proof (written_store st0 Hi) as Hstore.
  exact (so_trusted _ _ _ (ci_shared _ _ _ _ (cinv_reach env join io (info_params info) Hparams Hsize (written st0) w Hr)) st Hst).
Qed.

(** ** What it sends *)

(** C6: The blocks that a connection has sent to its peer, whatever peers, the torrent, the hasher and
    other connections have done since the storage was opened, are parts of pieces whose SHA-1 is the
    one of the info dictionary: at the offset that the message names. *)
Theorem uploads_intact dir blocks fs st0 seed w m :
  files_ok join io (mkStorage dir info [] fs) (FilesInfo info) ->
  OpenFileStorage join sha1_Sum info dir blocks fs = Some (st0, seed) ->
  c_reach env join io (info_params info) (in_use st0) (S := S) w ->
  m ∈ w_wire w -> Kind m = Wire.Piece -> Block m <> [] ->
  exists len data, PieceLength info (Index m) = Some len /\ lenZ data = len /\ PieceHash info (Index m) = Some (sha1_Sum data) /\
    0 <= Begin m /\ Begin m + lenZ (Block m) <= len /\
    Block m = take (length (Block m)) (drop (Z.to_nat (Begin m)) data).
Proof.
  intros Hfiles Ho Hr Hm Hk Hne. pose proof (pieces_match_sized _ Hmatch Htotal) as Hsz.
  pose proof (opened_inv _ _ _ _ _ _ _ _ _ Hsz Hfiles Ho) as Hs0. destruct (opened_verified _ _ _ _ _ _ _ _ Ho) as [Hi0 _].
  pose proof (in_use_store st0 Hs0 Hi0) as Hstore.
  pose proof (ci_wire _ _ _ _ (cinv_reach env join io (info_params info) Hparams Hsize (in_use st0) w Hr)) as Hw.
  rewrite Forall_forall in Hw. destruct (Hw m Hm Hk) as (st & len & n & d & Hin & Hix & Hl & Hb & Hn & Hfit & Hread & Hd).
  destruct (in_use_inv st0 st Hs0 Hi0 Hin) as [Hs Hinfo]. change (PieceLength info (Index m) = Some len) in Hl.
  pose proof (PieceLength_le _ _ _ (pm_len _ Hmatch) Hl) as Hle. rewrite piece_off in Hread by (done || lia).
  assert (Hoff : 0 <= pieceOff st (Index m) + Begin m) by (unfold pieceOff; pose proof (pm_len _ Hmatch); rewrite Hinfo; nia).
  assert (0 < n).
  { destruct (decide (n = 0)) as [->|]; [|lia]. exfalso. apply Hne. rewrite Hd.
    assert (d = []) as ->; [|done]. apply nil_length_inv. pose proof (ReadBlock_length join io st 0 _ d None (proj1 (proj2 Hs)) Hoff Hn Hread). lia. }
  pose proof Hread as Hread'. unfold ReadBlock in Hread'. rewrite (quot_piece st (Index m) (Begin m) len) in Hread' by (rewrite ?Hinfo; done || lia).
  cbn [mbind option_bind] in Hread'. destruct (at_index (st_pieces st) (Index m)) as [piece|] eqn:Hp; [|done]. cbn [mbind option_bind] in Hread'.
  destruct (sp_verified piece) eqn:Hv; [clear Hread'|done]. pose proof Hs as (_ & _ & Hint).
  destruct (Hint _ _ Hp Hv) as (len' & Hl' & Hn' & Hav & Hh). rewrite Hinfo, Hl in Hl'. injection Hl' as <-. rewrite Hinfo in Hh.
  exists len, (region join st (pieceOff st (Index m)) len). pose proof (region_length join st _ _ Hn' Hav) as Hlen.
  rewrite (ReadBlock_good join io sha1_Sum st (Index m) piece len (Begin m) n Hs Hp Hv) in Hread by (rewrite ?Hinfo; done || lia).
  injection Hread as <-. assert (Hbl : length (take (Z.to_nat n) (drop (Z.to_nat (Begin m)) (region join st (pieceOff st (Index m)) len))) = Z.to_nat n)
    by (rewrite length_take, length_drop; lia).
  rewrite Hbl, Nat.sub_diag, app_nil_r in Hd. rewrite Hd, Hbl. split_and!; try done; lia.
Qed.

End serve.
