(* ===== verification/Reader.v ===== *)
(** * torrent/conn.go: the goroutine that reads what a peer sends

    It decodes the stream and hands the messages to the main loop of the connection, except
    requests that it has seen or has no room for, and cancels, which it carries out itself. *)

From S2P Require Import Prelude Strconv Bitfield GoValue BenDecode BenEncode Wire Metainfo Bitmap Piece Pieces Storage.
From S2P Require Import Metadata ConnInfo Conn.

Section reader.
Context {B : Type} `{BitmapOps B} {S : Type} `{PieceSelector S B}.
Abbreviation world := (world (B := B) (S := S)).
Implicit Types (w : world) (m : Msg) (s : bytes).

Inductive rend := RErr (e : werror) | RPanic | RFuel.

(** What the main loop of the connection does to the requests before the [k]-th message is
    looked at. *)
Variable between : nat -> world -> world.

(** The messages handed over, how the loop ends, and the state it leaves. *)
Fixpoint readPeerMsgs (fuel k : nat) s w : list Msg * rend * world :=
  match fuel with
  | O => ([], RFuel, w)
  | Datatypes.S fuel =>
      match Decode s with
      | Err e => ([], RErr e, w)
      | Panic => ([], RPanic, w)
      | Ok (msg, s) =>
          match readPeerMsg msg (between k w) with
          | COk sendToChan w =>
              let '(l, e, w) := readPeerMsgs fuel (Datatypes.S k) s w in
              (if sendToChan then msg :: l else l, e, w)
          | _ => ([], RPanic, w)
          end
      end
  end.

(** The end of a stream is no error of a connection. *)
Definition nilOnEOF (e : werror) : option werror := match e with WEOF | WUnexpectedEOF => None | _ => Some e end.

(** ** The reader over a stream *)

Definition reqs (w : world) : gset block := c_peerReqs (w_conn w).
Definition room w : Z := sh_reqq (w_shared w).
Definition kept w : Prop := Z.of_nat (base.size (reqs w)) <= Z.max 0 (room w).

(** Requests and cancels are looked at by the reader. *)
Definition screened m : bool := (Kind m =? RequestK) || (Kind m =? Cancel).

(** The main loop takes requests out. *)
Definition takes_requests : Prop := forall k w, reqs (between k w) ⊆ reqs w /\ room (between k w) = room w.

Lemma kept_subset w w' : reqs w' ⊆ reqs w -> room w' = room w -> kept w -> kept w'.
Proof. intros Hs Hr. unfold kept. rewrite Hr. pose proof (subseteq_size _ _ Hs). lia. Qed.

Lemma readPeerMsg_kept m w : kept w -> exists b w', readPeerMsg m w = COk b w' /\ kept w' /\ room w' = room w /\
  (screened m = false -> b = true) /\ (Kind m = Cancel -> b = false /\ reqMsgToBlock m ∉ reqs w') /\
  (Kind m = RequestK -> if b then reqMsgToBlock m ∉ reqs w /\ reqs w' = reqs w ∪ {[ reqMsgToBlock m ]}
                        else w' = w /\ (reqMsgToBlock m ∈ reqs w \/ room w <= Z.of_nat (base.size (reqs w)))).
Proof.
  intros Hk. unfold readPeerMsg, screened. destruct (Z.eqb_spec (Kind m) RequestK) as [E|E]; cbn [orb].
  - unfold mbind, CM_bind, cget. case_bool_decide as Hd.
    { exists false, w. split_and!; try done; intros Hc; first [by rewrite E in Hc|by auto]. }
    destruct (Z.leb_spec (sh_reqq (w_shared w)) (Z.of_nat (base.size (c_peerReqs (w_conn w))))) as [Hf|Hf].
    { exists false, w. split_and!; try done; intros Hc; first [by rewrite E in Hc|by auto]. }
    unfold cmod. eexists true, _. split_and!; [reflexivity| |done|done|intros Hc; by rewrite E in Hc|done].
    unfold kept, reqs, room in *. cbn. rewrite size_union, size_singleton by set_solver. lia.
  - destruct (Z.eqb_spec (Kind m) Cancel) as [E'|E']; cbn [orb].
    + unfold mbind, CM_bind, cmod. eexists false, _. split_and!; [reflexivity| |done|done| |done].
      * eapply kept_subset; [| |exact Hk]; [|done]. unfold reqs. cbn. set_solver.
      * intros _. split; [done|]. unfold reqs. cbn. set_solver.
    + exists true, w. by split_and!.
Qed.

Lemma reader_returns fuel k s w : takes_requests -> kept w -> (length s < fuel)%nat ->
  exists l e w', readPeerMsgs fuel k s w = (l, e, w') /\ e <> RFuel /\ kept w' /\ (e = RPanic -> exists s', s' `suffix_of` s /\ Decode s' = Panic).
Proof.
  intros Hb. revert k s w. induction fuel as [|fuel IH]; intros k s w Hk Hf; [lia|]. cbn [readPeerMsgs].
  destruct (Decode s) as [[m rest]|e|] eqn:E; [|by eexists _, _, _; split_and!|by eexists _, _, _; split_and!; eauto].
  apply Decode_takes in E as (h & -> & Hh). rewrite length_app in Hf.
  destruct (Hb k w) as [Hs Hr]. pose proof (kept_subset _ _ Hs Hr Hk) as Hk'.
  destruct (readPeerMsg_kept m _ Hk') as (b & w1 & -> & Hk1 & _).
  destruct (IH (Datatypes.S k) rest w1 Hk1) as (l & e & w' & -> & He & Hkw & Hp); [lia|].
  eexists _, e, w'. split_and!; [done|done|done|]. intros (s' & Hsuf & Hd)%Hp. exists s'. split; [|done].
  etrans; [exact Hsuf|]. by apply suffix_app_r.
Qed.

Lemma reader_stream ms k w fuel : takes_requests -> kept w -> Forall wf_msg ms ->
  exists ss, mapM Encode ms = Some ss /\ ((length (concat ss) < fuel)%nat ->
    exists l w', readPeerMsgs fuel k (concat ss) w = (l, RErr WEOF, w') /\ kept w' /\ l `sublist_of` ms /\
      filter (fun m => screened m = false) l = filter (fun m => screened m = false) ms /\ Forall (fun m => Kind m <> Cancel) l).
Proof.
  intros Hb. revert k w fuel. induction ms as [|m ms IH]; intros k w fuel Hk Hwf.
  - exists []. split; [done|]. cbn. intros Hf. destruct fuel as [|fuel]; [lia|]. exists [], w. by split_and!.
  - apply Forall_cons in Hwf as [Hm Hwf]. destruct (wf_msg_read m Hm) as (s & Es & Hs & Hl).
    destruct (Hb k w) as [Hsub Hr]. pose proof (kept_subset _ _ Hsub Hr Hk) as Hk'.
    destruct (readPeerMsg_kept m _ Hk') as (b & w1 & E & Hk1 & _ & Hdef & Hcan & _).
    destruct (IH (Datatypes.S k) w1 (Nat.pred fuel) Hk1 Hwf) as (ss & Ess & H2). exists (s :: ss).
    split; [cbn; by rewrite Es; cbn; rewrite Ess|]. cbn [concat]. rewrite length_app. intros Hf.
    destruct fuel as [|fuel]; [lia|]. cbn [readPeerMsgs Nat.pred] in *. rewrite Hs, E.
    destruct H2 as (l & w' & -> & Hk2 & Hsl & Hfl & Hc); [lia|]. eexists _, w'. split; [done|]. split; [done|].
    destruct b.
    + split_and!; [by constructor|rewrite !filter_cons, Hfl; done|]. constructor; [|done]. intros Hx. by destruct (Hcan Hx).
    + split_and!; [by constructor| |done]. rewrite filter_cons, Hfl. case_decide as Hx; [|done]. by apply Hdef in Hx.
Qed.

(** ** Theorems *)

(** C18: Whatever bytes a peer sends, the loop of the reader ends: when the stream ends or breaks, or
    by the panic of a frame that is too short; and the requests that are kept stay within the
    limit. From the bytes of any sequence of well-formed messages it hands exactly these over in
    their order, but for cancels and for requests that it drops, and then meets the end of the
    stream, which is no error of the connection. *)
Theorem reader_delivers :
  takes_requests ->
  (forall s w, kept w -> exists l e w', readPeerMsgs (Datatypes.S (length s)) 0 s w = (l, e, w') /\ e <> RFuel /\ kept w' /\
     (e = RPanic -> exists s', s' `suffix_of` s /\ Decode s' = Panic)) /\
  (forall ms w, kept w -> Forall wf_msg ms -> exists ss l w', mapM Encode ms = Some ss /\
     readPeerMsgs (Datatypes.S (length (concat ss))) 0 (concat ss) w = (l, RErr WEOF, w') /\ nilOnEOF WEOF = None /\ l `sublist_of` ms /\
     filter (fun m => screened m = false) l = filter (fun m => screened m = false) ms /\ Forall (fun m => Kind m <> Cancel) l).
Proof.
  intros Hb. split.
  - intros s w Hk. apply reader_returns; [done|done|lia].
  - intros ms w Hk Hwf. destruct (reader_stream ms 0 w 0 Hb Hk Hwf) as (ss & E & _).
    destruct (reader_stream ms 0 w (Datatypes.S (length (concat ss))) Hb Hk Hwf) as (ss' & E' & Hr). rewrite E in E'. injection E' as <-.
    destruct Hr as (l & w' & ? & _ & ? & ? & ?); [lia|]. exists ss, l, w'. by split_and!.
Qed.

End reader.
