(* ===== verification/Tracker.v ===== *)
(** * tracker/: announces and scrapes over UDP and HTTP, and the test server

    The UDP client runs against a network, an interface of its own: what time it is,
    whether a datagram can be written and what comes back within a deadline. The server
    of tracker/server.go is one implementation of the other side. The HTTP client gets
    the body of a response as an argument. *)

From S2P Require Import Prelude Strconv GoValue BenDecode BenEncode ConnInfo.

(** ** Data (tracker.go) *)

Inductive Event := None_ | Completed | Started | Stopped.
Definition Event_Z (e : Event) : Z := match e with None_ => 0 | Completed => 1 | Started => 2 | Stopped => 3 end.
#[global] Instance Event_eq_dec : EqDecision Event.
Proof. solve_decision. Defined.

Record AnnounceReq := mkAnnounceReq {
  rq_InfoHash : bytes;
  rq_PeerID : bytes;
  rq_Downloaded : Z;
  rq_Left : Z;
  rq_Uploaded : Z;
  rq_Event : Event;
  rq_IP : Z;
  rq_Key : Z;
  rq_Numwant : Z;
  rq_Port : Z;
}.

Record tpeer := mkTPeer { tp_ID : option bytes; tp_IP : bytes; tp_Port : Z }.

Record AnnounceResp := mkAnnounceResp {
  ar_Interval : Z;
  ar_Leechers : Z;
  ar_Seeders : Z;
  ar_Peers : list tpeer;
  ar_MinInterval : Z;
}.

Record TorrentInfo := mkTorrentInfo { ti_Seeders : Z; ti_Downloaded : Z; ti_Leechers : Z; ti_Name : bytes }.

(** The map of a scrape response: later entries overwrite earlier ones. *)
Definition ScrapeResp : Type := list (bytes * TorrentInfo).

(** To4 of four bytes is never nil. *)
Fixpoint peers_loop (n : nat) (cheap : bytes) : list tpeer :=
  match n with
  | O => []
  | S n => mkTPeer None (take 4 cheap) (be_dec (take 2 (drop 4 cheap))) :: peers_loop n (drop 6 cheap)
  end.

Definition cheap_peers (cheap : bytes) : list tpeer := peers_loop (length cheap / 6) cheap.

Fixpoint LastIndexByte_from (i : nat) (s : bytes) (c : byte) (last : option nat) : option nat :=
  match s with
  | [] => last
  | b :: s => LastIndexByte_from (S i) s c (if bool_decide (b = c) then Some i else last)
  end.

(** The empty string when the tracker has no scrape convention. *)
Definition ScrapeURL (u : bytes) : bytes :=
  let s := bs "announce" in
  match LastIndexByte_from 0 u "/"%byte None with
  | None => []
  | Some i =>
      if (length u <? i + 1 + length s)%nat then []
      else if negb (bool_decide (take (length s) (drop (i + 1) u) = s)) then []
      else take (i + 1) u ++ bs "scrape" ++ drop (i + length s + 1) u
  end.

Definition addPortMaybe (host : bytes) : bytes :=
  if bool_decide (":"%byte ∈ host) then host else host ++ bs ":80".

(** ** The UDP protocol (udp.go) *)

Definition actionConnect : Z := 0.
Definition actionAnnounce : Z := 1.
Definition actionScrape : Z := 2.
Definition actionError : Z := 3.
Definition protoID : Z := 4497486125440.        (* 0x41727101980 *)

Record respHeader := mkRespHeader { rh_Action : Z; rh_TxID : Z }.
Record reqHeader := mkReqHeader { qh_ConnID : Z; qh_Action : Z; qh_TxID : Z }.
Record announceFixed := mkFixed { af_Interval : Z; af_Leechers : Z; af_Seeders : Z }.
Record udpScrapeInfo := mkScrapeInfo { si_Seeders : Z; si_Completed : Z; si_Leechers : Z }.

(** binary.Write, big endian. *)
Definition w_respHeader (h : respHeader) : bytes := be_enc 4 (rh_Action h) ++ be_enc 4 (rh_TxID h).
Definition w_reqHeader (h : reqHeader) : bytes := be_enc 8 (qh_ConnID h) ++ be_enc 4 (qh_Action h) ++ be_enc 4 (qh_TxID h).
Definition w_fixed (f : announceFixed) : bytes := be_enc 4 (af_Interval f) ++ be_enc 4 (af_Leechers f) ++ be_enc 4 (af_Seeders f).
Definition w_scrapeInfo (i : udpScrapeInfo) : bytes :=
  be_enc 4 (si_Seeders i) ++ be_enc 4 (si_Completed i) ++ be_enc 4 (si_Leechers i).
Definition w_announceReq (r : AnnounceReq) : bytes :=
  rq_InfoHash r ++ rq_PeerID r ++ be_enc 8 (rq_Downloaded r) ++ be_enc 8 (rq_Left r) ++ be_enc 8 (rq_Uploaded r) ++
  be_enc 4 (Event_Z (rq_Event r)) ++ be_enc 4 (rq_IP r) ++ be_enc 4 (rq_Key r) ++ be_enc 4 (rq_Numwant r) ++ be_enc 2 (rq_Port r).

Inductive uerr :=
| UDial | UWrite | UWaited | UTimeout | UCancelled | URead
| UTooSmall | UUnknownAction | UEOF | UUnexpectedEOF | UWrongTx | UTracker (msg : bytes) | UWrongAction
| UNoScrape
| UFuel.                                        (* not an error of the code *)

(** binary.Read of a value of [n] bytes, and the integers in it. *)
Definition binary_Read (n : nat) (b : bytes) : result uerr (bytes * bytes) :=
  if (n <=? length b)%nat then Ok (take n b, drop n b)
  else if (length b =? 0)%nat then Err UEOF else Err UUnexpectedEOF.
Definition i32_at (i : nat) (d : bytes) : Z := int32 (be_dec (take 4 (drop i d))).

Definition r_respHeader (b : bytes) : result uerr (respHeader * bytes) :=
  '(d, b) ← binary_Read 8 b; Ok (mkRespHeader (i32_at 0 d) (i32_at 4 d), b).
Definition r_reqHeader (b : bytes) : result uerr (reqHeader * bytes) :=
  '(d, b) ← binary_Read 16 b; Ok (mkReqHeader (int64 (be_dec (take 8 d))) (i32_at 8 d) (i32_at 12 d), b).
Definition r_fixed (b : bytes) : result uerr (announceFixed * bytes) :=
  '(d, b) ← binary_Read 12 b; Ok (mkFixed (i32_at 0 d) (i32_at 4 d) (i32_at 8 d), b).
Definition scrapeInfo_at (d : bytes) : udpScrapeInfo := mkScrapeInfo (i32_at 0 d) (i32_at 4 d) (i32_at 8 d).

(** A slice is read as a whole. *)
Fixpoint chunks (size n : nat) (d : bytes) : list bytes :=
  match n with O => [] | S n => take size d :: chunks size n (drop size d) end.
Definition r_scrapeInfos (n : nat) (b : bytes) : result uerr (list udpScrapeInfo * bytes) :=
  '(d, b) ← binary_Read (12 * n) b; Ok (scrapeInfo_at <$> chunks 12 n d, b).

(** The buffer after the header, when it is the expected one. *)
Definition checkRespHeader (buf : bytes) (expected : respHeader) : result uerr bytes :=
  let a := rh_Action expected in
  if (a =? actionAnnounce) && (length buf <? 20)%nat then Err UTooSmall
  else if (a =? actionConnect) && (length buf <? 16)%nat then Err UTooSmall
  else if ((a =? actionScrape) || (a =? actionError)) && (length buf <? 8)%nat then Err UTooSmall
  else if negb ((a =? actionAnnounce) || (a =? actionConnect) || (a =? actionScrape) || (a =? actionError)) then Err UUnknownAction
  else
    '(header, buf) ← r_respHeader buf;
    if negb (rh_TxID header =? rh_TxID expected) then Err UWrongTx
    else if rh_Action header =? actionError then Err (UTracker buf)
    else if negb (rh_Action header =? a) then Err UWrongAction
    else Ok buf.

(** *** The network *)

Inductive reply := RPacket (b : bytes) | RTimeout | RCancelled | RError.

(** [net_read d]: what a read with the deadline [d] ahead gives. *)
Class Network (N : Type) := mkNetwork {
  net_now : N -> Z * N;
  net_Int31 : N -> Z * N;
  net_dial : N -> bool * N;
  net_write : bytes -> N -> bool * N;
  net_read : Z -> N -> reply * N;
}.

(** *** The client *)

Record UDPTrackerURL := mkUDP {
  u_connID : Z;
  u_lastConncted : Time;
  u_consecutiveTimeouts : Z;
}.
Definition newUDP : UDPTrackerURL := mkUDP 0 None 0.

Section udp.
Context {N : Type} `{Network N}.

Definition UM (A : Type) : Type := UDPTrackerURL * N -> result uerr A * (UDPTrackerURL * N).
#[global] Instance UM_ret : MRet UM := fun _ a s => (Ok a, s).
#[global] Instance UM_bind : MBind UM := fun _ _ f m s =>
  match m s with (Ok a, s) => f a s | (Err e, s) => (Err e, s) | (Panic, s) => (Panic, s) end.

Definition ufail {A} (e : uerr) : UM A := fun s => (Err e, s).
Definition ulift {A} (r : result uerr A) : UM A := fun s => (r, s).
Definition ucatch {A} (m : UM A) : UM (result uerr A) := fun s => let '(r, s) := m s in (Ok r, s).
Definition uget {A} (f : UDPTrackerURL -> A) : UM A := fun s => (Ok (f s.1), s).
Definition umod (f : UDPTrackerURL -> UDPTrackerURL) : UM unit := fun s => (Ok (), (f s.1, s.2)).
Definition unet {A} (f : N -> A * N) : UM A := fun s => let '(a, n) := f s.2 in (Ok a, (s.1, n)).

(** -1 when the tracker has not answered for too long. *)
Definition timeoutTime (t : UDPTrackerURL) : Z :=
  if 8 <=? u_consecutiveTimeouts t then -1
  else 2 ^ u_consecutiveTimeouts t * 15 * Second.

(** The buffer has 0x100 bytes: the rest of a datagram is lost. *)
Definition readResponse (header : respHeader) : UM bytes :=
  dur ← uget timeoutTime;
  if dur <? 0 then ufail UWaited
  else
    r ← unet (net_read dur);
    match r with
    | RTimeout => umod (fun t => mkUDP (u_connID t) (u_lastConncted t) (u_consecutiveTimeouts t + 1));; ufail UTimeout
    | RCancelled => ufail UCancelled
    | RError => ufail URead
    | RPacket b => ulift (checkRespHeader (take 256 b) header)
    end.

Definition writeRequest (data : bytes) : UM unit :=
  ok ← unet (net_write data); if ok : bool then mret () else ufail UWrite.

Definition isConnected : UM bool :=
  last ← uget u_lastConncted;
  if IsZero last then mret false else now ← unet net_now; mret (Since now last <? Minute).

(** The loop of request; [again] is what it does first, unless it connects. *)
Fixpoint request_fuel (fuel : nat) (again : UM unit) (respHead : respHeader) (req : bytes) : UM bytes :=
  match fuel with
  | O => ufail UFuel
  | S fuel =>
      again;;
      writeRequest req;;
      r ← ucatch (readResponse respHead);
      match r with
      | Ok buf => mret buf
      | Err UTimeout => request_fuel fuel again respHead req
      | Err e => ufail e
      | Panic => fun s => (Panic, s)
      end
  end.

(** Nine attempts are enough: every timeout is counted and the ninth attempt waits no more. *)
Definition request_connect : respHeader -> bytes -> UM bytes := request_fuel 9 (mret ()).

Definition connect : UM unit :=
  c ← isConnected;
  if c : bool then mret ()
  else
    ok ← unet net_dial;
    if negb ok then ufail UDial
    else
      txID ← unet net_Int31;
      buf ← request_connect (mkRespHeader actionConnect txID) (w_reqHeader (mkReqHeader protoID actionConnect txID));
      '(d, _) ← ulift (binary_Read 8 buf);
      now ← unet net_now;
      umod (fun t => mkUDP (int64 (be_dec d)) (Some now) (u_consecutiveTimeouts t)).

Definition request : respHeader -> bytes -> UM bytes := request_fuel 9 connect.

Definition udp_announce (req : AnnounceReq) : UM AnnounceResp :=
  connect;;
  txID ← unet net_Int31;
  connID ← uget u_connID;
  buf ← request (mkRespHeader actionAnnounce txID) (w_reqHeader (mkReqHeader connID actionAnnounce txID) ++ w_announceReq req);
  '(fixed, buf) ← ulift (r_fixed buf);
  mret (mkAnnounceResp (af_Interval fixed) (af_Leechers fixed) (af_Seeders fixed) (cheap_peers buf) 0).

Definition udp_scrape (ihashes : list bytes) : UM ScrapeResp :=
  connect;;
  txID ← unet net_Int31;
  connID ← uget u_connID;
  buf ← request (mkRespHeader actionScrape txID) (w_reqHeader (mkReqHeader connID actionScrape txID) ++ concat ihashes);
  '(infos, _) ← ulift (r_scrapeInfos (length ihashes) buf);
  mret (foldl (fun m '(h, i) => map_set h (mkTorrentInfo (si_Seeders i) (si_Completed i) (si_Leechers i) []) m) []
          (zip ihashes infos)).

Definition UDP_Scrape (url : bytes) (ihashes : list bytes) : UM ScrapeResp :=
  if bool_decide (ScrapeURL url = []) then ufail UNoScrape else udp_scrape ihashes.

End udp.

(** ** The test server (server.go) *)

Record portIP := mkPortIP { pi_IP : Z; pi_port : Z }.
Record storrent := mkSTorrent { st_stats : udpScrapeInfo; st_Peers : list portIP }.
Record server := mkServer { s_conns : gset Z; s_t : gmap bytes storrent }.

Definition w_portIP (p : portIP) : bytes := be_enc 4 (pi_IP p) ++ be_enc 2 (pi_port p).

(** What is sent back, if anything; errors only end the call. *)
Definition respond (rh : respHeader) (parts : bytes) : option bytes := Some (w_respHeader rh ++ parts).

Definition checkConnectionID (s : server) (h : reqHeader) : option bytes :=
  if bool_decide (qh_ConnID h ∈ s_conns s) then None
  else respond (mkRespHeader actionError (qh_TxID h)) (bs "not connected").

(** [rnd] is what rand.Int63 gives. *)
Definition serveOne (rnd : Z) (packet : bytes) (s : server) : option bytes * server :=
  match r_reqHeader (take (Z.to_nat 65536) packet) with
  | Ok (h, r) =>
      if qh_Action h =? actionConnect then
        if negb (qh_ConnID h =? protoID) then (None, s)
        else (respond (mkRespHeader actionConnect (qh_TxID h)) (be_enc 8 rnd), mkServer (s_conns s ∪ {[ rnd ]}) (s_t s))
      else if qh_Action h =? actionAnnounce then
        match checkConnectionID s h with
        | Some err => (Some err, s)
        | None =>
            if (length r <? 82)%nat then (None, s)
            else match s_t s !! take 20 r with
                 | None => (None, s)
                 | Some t =>
                     (respond (mkRespHeader actionAnnounce (qh_TxID h))
                        (w_fixed (mkFixed 900 (si_Leechers (st_stats t)) (si_Seeders (st_stats t))) ++ concat (w_portIP <$> st_Peers t)), s)
                 end
        end
      else if qh_Action h =? actionScrape then
        match checkConnectionID s h with
        | Some err => (Some err, s)
        | None =>
            if negb (length r mod 20 =? 0)%nat then (None, s)
            else
              let n := (length r / 20)%nat in
              if (74 <? n)%nat then (None, s)
              else match mapM (fun ih => s_t s !! ih) (chunks 20 n r) with
                   | None => (None, s)
                   | Some ts => (respond (mkRespHeader actionScrape (qh_TxID h)) (concat (w_scrapeInfo ∘ st_stats <$> ts)), s)
                   end
        end
      else (respond (mkRespHeader (qh_TxID h) actionError) (bs "unhandled action"), s)
  | _ => (None, s)
  end.

(** The server as a network: it answers at once, or not at all. *)
Record local := mkLocal {
  l_server : server;
  l_queue : list bytes;
  l_clock : Z;
  l_Int31 : nat -> Z;
  l_Int63 : nat -> Z;
  l_tick : nat;
}.
Definition l_next (n : local) (s : server) (q : list bytes) : local := mkLocal s q (l_clock n) (l_Int31 n) (l_Int63 n) (S (l_tick n)).

#[global] Instance local_Network : Network local := {|
  net_now n := (l_clock n, n);
  net_Int31 n := (l_Int31 n (l_tick n), l_next n (l_server n) (l_queue n));
  net_dial n := (true, n);
  net_write b n :=
    let '(r, s) := serveOne (l_Int63 n (l_tick n)) b (l_server n) in
    (true, l_next n s (match r with Some r => l_queue n ++ [r] | None => l_queue n end));
  net_read d n := match l_queue n with [] => (RTimeout, n) | r :: q => (RPacket r, l_next n (l_server n) q) end;
|}.

(** ** The announcer of a client (torrent/tracker_announcer.go) *)

(** A tracker with its number of announces: the first one without an event says that the
    download starts. *)
Record trackerURL (T : Type) := mkTrackerURL { tu : T; numAnnounces : Z }.
Arguments mkTrackerURL {T} tu numAnnounces.
Arguments tu {T} t.
Arguments numAnnounces {T} t.

Definition set_event (e : Event) (r : AnnounceReq) : AnnounceReq :=
  mkAnnounceReq (rq_InfoHash r) (rq_PeerID r) (rq_Downloaded r) (rq_Left r) (rq_Uploaded r) e (rq_IP r) (rq_Key r) (rq_Numwant r) (rq_Port r).

Definition trackerURL_Announce {T R} (Announce : AnnounceReq -> T -> R * T) (req : AnnounceReq) (t : trackerURL T)
    : R * trackerURL T :=
  let req := if bool_decide (rq_Event req = None_) && (numAnnounces t =? 0) then set_event Started req else req in
  let '(r, u) := Announce req (tu t) in
  (r, mkTrackerURL u (numAnnounces t + 1)).

Definition announcer_req (hash peerID : bytes) (s : Stats) (e : Event) (port : Z) : AnnounceReq :=
  mkAnnounceReq hash peerID (BytesDownloaded s) (BytesLeft s) (BytesUploaded s) e 0 0 200 (int16 port).

(** [newTrackerURL] makes the tracker of a URL, or fails. *)
Definition announcer_announce {T R} (newTrackerURL : bytes -> option T) (Announce : AnnounceReq -> T -> R * T)
    (url : bytes) (req : AnnounceReq) (trackers : gmap bytes (trackerURL T)) : option R * gmap bytes (trackerURL T) :=
  match (match trackers !! url with Some t => Some t | None => (fun t => mkTrackerURL t 0) <$> newTrackerURL url end) with
  | None => (None, trackers)
  | Some t => let '(r, t) := trackerURL_Announce Announce req t in (Some r, <[url := t]> trackers)
  end.
