(* ===== verification/TrackerInv.v ===== *)
(** * The UDP tracker client: retries end, and the client understands the server

    Every announce and scrape returns, whatever the network does. Against the server of
    the package, the client gets the data of the server, as far as its buffer holds it. *)

From S2P Require Import Prelude Strconv GoValue BenDecode BenEncode ConnInfo Tracker.

(** ** Retries *)

Section returns.
Context {N : Type} `{Network N}.

Abbreviation ct s := (u_consecutiveTimeouts (fst s)).

(** [m] ends properly and forgets no timeout. *)
Definition ends {A} (m : UM (N := N) A) : Prop :=
  forall s, 0 <= ct s -> let '(r, s') := m s in r <> Err UFuel /\ r <> Panic /\ ct s <= ct s'.

Lemma ends_ret {A} (a : A) : ends (mret a).
Proof. intros s Hs. by split_and!. Qed.
Lemma ends_fail {A} e : e <> UFuel -> ends (ufail e : UM A).
Proof. intros He s Hs. split_and!; [congruence|done|done]. Qed.
Lemma ends_lift {A} (r : result uerr A) : r <> Err UFuel -> r <> Panic -> ends (ulift r : UM A).
Proof. intros H1 H2 s Hs. by split_and!. Qed.
Lemma ends_bind {A B} (m : UM A) (f : A -> UM B) : ends m -> (forall a, ends (f a)) -> ends (m ≫= f).
Proof.
  intros Hm Hf s Hs. specialize (Hm s Hs). unfold mbind, UM_bind. destruct (m s) as [[a|e|] s1].
  - destruct Hm as (_ & _ & Hc). specialize (Hf a s1 ltac:(lia)). destruct (f a s1) as [r s2]. destruct Hf as (H1 & H2 & H3).
    split_and!; [done|done|lia].
  - destruct Hm as (H1 & H2 & H3). by split_and!; [congruence|..].
  - by destruct Hm as (_ & ? & _).
Qed.
Lemma ends_get {A} (f : UDPTrackerURL -> A) : ends (uget f).
Proof. intros s Hs. by split_and!. Qed.
Lemma ends_net {A} (f : N -> A * N) : ends (unet f).
Proof. intros s Hs. unfold unet. destruct (f s.2). by split_and!. Qed.
Lemma ends_mod f : (forall t, u_consecutiveTimeouts (f t) = u_consecutiveTimeouts t) -> ends (umod f).
Proof. intros Hf s Hs. split_and!; [done|done|]. cbn. rewrite Hf. lia. Qed.

Create HintDb ends discriminated.
Hint Resolve ends_ret ends_get ends_net : ends.
Ltac finish := repeat first
  [ solve [eauto with ends nocore] | solve [by apply ends_fail] | solve [by apply ends_mod; intros []]
  | match goal with |- ends (mbind _ _) => apply ends_bind; [|intros ?] end
  | match goal with |- ends (match ?x with _ => _ end) => destruct x eqn:? end ].

Lemma binary_Read_ends n b : binary_Read n b <> Err UFuel /\ binary_Read n b <> Panic.
Proof. unfold binary_Read. by repeat case_match. Qed.

Lemma checkRespHeader_ends b h :
  checkRespHeader b h <> Err UFuel /\ checkRespHeader b h <> Panic /\ checkRespHeader b h <> Err UTimeout.
Proof.
  unfold checkRespHeader. destruct (_ && _); [done|]. destruct (_ && _); [done|]. destruct (_ && _); [done|].
  destruct (negb _); [done|]. unfold r_respHeader, binary_Read. destruct (_ <=? _)%nat; cbn; [|by destruct (_ =? _)%nat].
  by repeat case_match.
Qed.

(** A response counts a timeout, and after eight of them there is none. *)
Lemma readResponse_ends h s : 0 <= ct s ->
  let '(r, s') := readResponse h s in
  r <> Err UFuel /\ r <> Panic /\ ct s <= ct s' /\ (r = Err UTimeout -> ct s < 8 /\ ct s' = ct s + 1).
Proof.
  intros Hs. unfold readResponse, mbind, UM_bind, uget, timeoutTime. destruct (Z.leb_spec 8 (ct s)) as [Hc|Hc]; [by split_and!|].
  assert (Hd : 0 <= 2 ^ ct s * 15 * Second) by (unfold Second; pose proof (Z.pow_nonneg 2 (ct s)); lia).
  destruct (Z.ltb_spec (2 ^ ct s * 15 * Second) 0); [lia|]. unfold unet. destruct (net_read _ _) as [r n].
  pose proof (checkRespHeader_ends) as Hh. destruct r as [b| | |]; cbn.
  - destruct (Hh (take 256 b) h) as (H1 & H2 & H3). by split_and!; [..|intros E].
  - split_and!; [done|done|lia|]. intros _. lia.
  - by split_and!.
  - by split_and!.
Qed.

Lemma request_ends again h req fuel :
  ends again -> forall s, 0 <= ct s -> (0 < fuel)%nat -> 9 - ct s <= Z.of_nat fuel ->
  let '(r, s') := request_fuel fuel again h req s in r <> Err UFuel /\ r <> Panic /\ ct s <= ct s'.
Proof.
  intros Ha. induction fuel as [|fuel IH]; intros s Hs Hp Hf; [lia|]. cbn [request_fuel].
  unfold mbind at 1, UM_bind at 1. pose proof (Ha s Hs) as Has. destruct (again s) as [[[]|e|] s1]; destruct Has as (H1 & H2 & Hc);
    [|by split_and!; [congruence|..]|done].
  assert (Hw : ends (writeRequest req : UM unit)) by (unfold writeRequest; finish).
  unfold mbind at 1, UM_bind at 1. specialize (Hw s1 ltac:(lia)). destruct (writeRequest req s1) as [[[]|e|] s2]; destruct Hw as (H3 & H4 & Hc2);
    [|split_and!; [congruence|done|lia]|done].
  unfold mbind, UM_bind, ucatch. pose proof (readResponse_ends h s2 ltac:(lia)) as Hr.
  destruct (readResponse h s2) as [[b|e|] s3]; destruct Hr as (H5 & H6 & Hc3 & Ht); [by split_and!; [..|lia]| |done].
  assert (Hlast : e <> UTimeout -> forall k : UM bytes, let '(r, s') := (match e with UTimeout => k | e => ufail e end) s3 in
    r <> Err UFuel /\ r <> Panic /\ ct s <= ct s').
  { intros Hne k. destruct e; try done; by split_and!; [..|cbn; lia]. }
  destruct e; try (by apply (Hlast ltac:(discriminate) (ufail UFuel))).
  destruct (Ht eq_refl) as [Hlt Heq]. specialize (IH s3 ltac:(lia) ltac:(lia) ltac:(lia)).
  destruct (request_fuel fuel again h req s3) as [r s4]. destruct IH as (H7 & H8 & Hc4). split_and!; [done|done|lia].
Qed.

Lemma request_connect_ends h req : ends (request_connect h req).
Proof. intros s Hs. apply request_ends; [apply ends_ret|done|lia|lia]. Qed.
Hint Resolve request_connect_ends : ends.

Lemma ends_Read n b : ends (ulift (binary_Read n b) : UM _).
Proof. apply ends_lift; apply binary_Read_ends. Qed.
Hint Resolve ends_Read : ends.

Lemma connect_ends : ends connect.
Proof. unfold connect, isConnected. finish. Qed.

Lemma request_all_ends h req : ends (request h req).
Proof. intros s Hs. apply request_ends; [apply connect_ends|done|lia|lia]. Qed.
Hint Resolve connect_ends request_all_ends : ends.

Lemma r_fixed_ends b : ends (ulift (r_fixed b) : UM _).
Proof. unfold r_fixed. pose proof (binary_Read_ends 12 b) as [H1 H2]. apply ends_lift; destruct (binary_Read 12 b) as [[]|e|]; cbn in *; congruence. Qed.
Lemma r_scrapeInfos_ends n b : ends (ulift (r_scrapeInfos n b) : UM _).
Proof. unfold r_scrapeInfos. pose proof (binary_Read_ends (12 * n) b) as [H1 H2]. apply ends_lift; destruct (binary_Read (12 * n) b) as [[]|e|]; cbn -[Nat.mul] in *; congruence. Qed.
Hint Resolve r_fixed_ends r_scrapeInfos_ends : ends.

Lemma udp_announce_ends req : ends (udp_announce req).
Proof. unfold udp_announce. finish. Qed.
Lemma udp_scrape_ends l : ends (udp_scrape l).
Proof. unfold udp_scrape. finish. Qed.

(** A tracker that is not asked again after eight timeouts. *)
Lemma readResponse_dead h s : 8 <= ct s -> readResponse h s = (Err UWaited, s).
Proof. intros Hc. unfold readResponse, mbind, UM_bind, uget, timeoutTime. by destruct (Z.leb_spec 8 (ct s)); [|lia]. Qed.

Lemma dead_request again h req fuel s :
  8 <= ct s -> ends again -> forall b, (request_fuel fuel again h req s).1 <> Ok b.
Proof.
  intros Hc Ha b. destruct fuel as [|fuel]; [done|]. cbn [request_fuel]. unfold mbind at 1, UM_bind at 1. pose proof (Ha s ltac:(lia)) as Has.
  destruct (again s) as [[[]|e|] s1]; [|done..]. destruct Has as (_ & _ & Hc1).
  assert (Hw : ends (writeRequest req : UM unit)) by (unfold writeRequest; finish).
  unfold mbind at 1, UM_bind at 1. specialize (Hw s1 ltac:(lia)). destruct (writeRequest req s1) as [[[]|e|] s2]; [|done..].
  destruct Hw as (_ & _ & Hc2). unfold mbind, UM_bind, ucatch. by rewrite readResponse_dead by lia.
Qed.

End returns.

(** ** Binary data *)

Lemma be_signed w n z : 1 <= w -> 2 ^ w = 256 ^ Z.of_nat n -> in_s w z -> wrapS w (be_dec (be_enc n z)) = z.
Proof.
  intros Hw E Hz. rewrite be_dec_enc, <- E. rewrite <- (wrapS_id w z) at 2 by done. unfold wrapS.
  by rewrite Z.add_mod_idemp_l by lia.
Qed.

Lemma int32_enc z : in_s 32 z -> int32 (be_dec (be_enc 4 z)) = z.
Proof. by apply be_signed. Qed.
Lemma int64_enc z : in_s 64 z -> int64 (be_dec (be_enc 8 z)) = z.
Proof. by apply be_signed. Qed.

Lemma i32_at_enc (pre post : bytes) z i : in_s 32 z -> i = length pre -> i32_at i (pre ++ be_enc 4 z ++ post) = z.
Proof.
  intros Hz ->. unfold i32_at. rewrite drop_app_length, take_app_le by (rewrite length_be_enc; lia).
  rewrite take_ge by (rewrite length_be_enc; lia). by apply int32_enc.
Qed.

Lemma i32_at_0 z (post : bytes) : in_s 32 z -> i32_at 0 (be_enc 4 z ++ post) = z.
Proof. intros Hz. by apply (i32_at_enc []). Qed.

Lemma binary_Read_app n (d rest : bytes) : length d = n -> binary_Read n (d ++ rest) = Ok (d, rest).
Proof.
  intros <-. unfold binary_Read. rewrite length_app. destruct (Nat.leb_spec (length d) (length d + length rest)); [|lia].
  by rewrite take_app_length, drop_app_length.
Qed.

Lemma r_respHeader_w h rest :
  in_s 32 (rh_Action h) -> in_s 32 (rh_TxID h) -> r_respHeader (w_respHeader h ++ rest) = Ok (h, rest).
Proof.
  intros Ha Ht. unfold r_respHeader. rewrite binary_Read_app by done. cbn [mbind result_bind]. unfold w_respHeader.
  rewrite i32_at_0 by done. rewrite <- (app_nil_r (be_enc 4 (rh_TxID h))), (i32_at_enc (be_enc 4 (rh_Action h))) by done.
  by destruct h.
Qed.

Lemma r_reqHeader_w h rest :
  in_s 64 (qh_ConnID h) -> in_s 32 (qh_Action h) -> in_s 32 (qh_TxID h) -> r_reqHeader (w_reqHeader h ++ rest) = Ok (h, rest).
Proof.
  intros Hc Ha Ht. unfold r_reqHeader. rewrite binary_Read_app by done. cbn [mbind result_bind]. unfold w_reqHeader.
  rewrite (take_app_length' (be_enc 8 _)) by done. rewrite int64_enc by done. rewrite (i32_at_enc (be_enc 8 (qh_ConnID h))) by done.
  rewrite (assoc_L (++)), <- (app_nil_r (be_enc 4 (qh_TxID h))).
  rewrite (i32_at_enc (be_enc 8 (qh_ConnID h) ++ be_enc 4 (qh_Action h))) by done. by destruct h.
Qed.

Lemma length_w_reqHeader h : length (w_reqHeader h) = 16%nat.
Proof. done. Qed.

Lemma i32_three a b c :
  in_s 32 a -> in_s 32 b -> in_s 32 c ->
  let d := be_enc 4 a ++ be_enc 4 b ++ be_enc 4 c in i32_at 0 d = a /\ i32_at 4 d = b /\ i32_at 8 d = c.
Proof.
  intros Ha Hb Hc d. unfold d. split_and!.
  - by rewrite i32_at_0.
  - by rewrite (i32_at_enc (be_enc 4 a)).
  - rewrite (assoc_L (++)), <- (app_nil_r (be_enc 4 c)). by rewrite (i32_at_enc (be_enc 4 a ++ be_enc 4 b)).
Qed.

(** ** Peers *)

Definition peer_of (p : portIP) : tpeer := mkTPeer None (be_enc 4 (pi_IP p)) (pi_port p mod 65536).

Lemma length_w_portIP p : length (w_portIP p) = 6%nat.
Proof. done. Qed.

Lemma peers_loop_take ps m k :
  (6 * m <= k)%nat -> (m <= length ps)%nat -> peers_loop m (take k (concat (w_portIP <$> ps))) = take m (peer_of <$> ps).
Proof.
  revert ps k. induction m as [|m IH]; intros [|p ps] k Hk Hm; cbn in Hm; try done; [lia|].
  cbn [fmap list_fmap concat peers_loop]. change (take (S m) (peer_of p :: ?l)) with (peer_of p :: take m l).
  assert (Hd : forall x, drop 6 (w_portIP p ++ x) = x) by done.
  assert (Ht : forall i (x : bytes), (i <= 6)%nat -> take i (w_portIP p ++ x) = take i (w_portIP p)).
  { intros i x Hi. by rewrite take_app_le by (rewrite length_w_portIP; lia). }
  f_equal.
  - unfold peer_of. rewrite take_take, Nat.min_l by lia. rewrite Ht by lia. f_equal.
    rewrite take_drop_commute, take_take, Nat.min_l by lia. rewrite Ht by lia.
    change (drop 4 (take (4 + 2) (w_portIP p))) with (be_enc 2 (pi_port p)). by rewrite be_dec_enc.
  - rewrite <- (IH ps (k - 6)%nat) by lia. f_equal. by rewrite skipn_firstn_comm.
Qed.

Lemma cheap_peers_take ps k :
  cheap_peers (take k (concat (w_portIP <$> ps))) = take (k / 6) (peer_of <$> ps).
Proof.
  assert (Hlen : length (concat (w_portIP <$> ps)) = (6 * length ps)%nat).
  { induction ps as [|p ps IH]; [done|]. cbn [fmap list_fmap concat]. rewrite length_app, IH, length_w_portIP. cbn. lia. }
  unfold cheap_peers. rewrite length_take, Hlen.
  pose proof (Nat.div_mod_eq k 6). pose proof (Nat.mod_upper_bound k 6).
  destruct (Nat.le_ge_cases k (6 * length ps)) as [Hk|Hk].
  - rewrite Nat.min_l by done. apply peers_loop_take; lia.
  - rewrite Nat.min_r, (Nat.mul_comm 6), Nat.div_mul by lia. rewrite peers_loop_take by lia.
    rewrite !take_ge; [done|..]; rewrite ?length_fmap; lia.
Qed.

(** ** The client and the server *)

Lemma checkRespHeader_w a tx rest :
  a ∈ [actionConnect; actionAnnounce; actionScrape] -> in_s 32 tx ->
  (a = actionConnect -> (8 <= length rest)%nat) -> (a = actionAnnounce -> (12 <= length rest)%nat) ->
  checkRespHeader (w_respHeader (mkRespHeader a tx) ++ rest) (mkRespHeader a tx) = Ok rest.
Proof.
  intros Ha Ht H1 H2. assert (Hs : in_s 32 a) by (repeat (apply elem_of_cons in Ha as [->|Ha]; [done|]); by apply elem_of_nil in Ha).
  unfold checkRespHeader. rewrite length_app. change (length (w_respHeader (mkRespHeader a tx))) with 8%nat. cbn [rh_Action rh_TxID].
  rewrite r_respHeader_w by done. cbn [mbind result_bind rh_Action rh_TxID]. rewrite !Z.eqb_refl. cbn [negb].
  repeat (apply elem_of_cons in Ha as [->|Ha]; [|]); [..|by apply elem_of_nil in Ha]; cbn -[Nat.ltb];
    repeat (match goal with |- context [(?x <? ?y)%nat] => destruct (Nat.ltb_spec x y); [try lia|] end); try done.
Qed.

Lemma UM_bind_Ok {N A C} (m : UM (N := N) A) (f : A -> UM C) s a s1 : m s = (Ok a, s1) -> (m ≫= f) s = f a s1.
Proof. intros E. unfold mbind, UM_bind. by rewrite E. Qed.

Lemma UM_bind_Err {N A C} (m : UM (N := N) A) (f : A -> UM C) s e s1 : m s = (Err e, s1) -> (m ≫= f) s = (Err e, s1).
Proof. intros E. unfold mbind, UM_bind. by rewrite E. Qed.

Lemma local_write req t n answer srv :
  serveOne (l_Int63 n (l_tick n)) req (l_server n) = (Some answer, srv) ->
  writeRequest req (t, n) = (Ok (), (t, l_next n srv (l_queue n ++ [answer]))).
Proof. intros Es. unfold writeRequest, mbind, UM_bind, unet. cbn [fst snd net_write local_Network]. by rewrite Es. Qed.

Lemma local_read h t n answer :
  l_queue n = [answer] -> 0 <= u_consecutiveTimeouts t < 8 ->
  readResponse h (t, n) = (checkRespHeader (take 256 answer) h, (t, l_next n (l_server n) [])).
Proof.
  intros Hq Hc. unfold readResponse, mbind, UM_bind, uget, timeoutTime. cbn [fst].
  destruct (Z.leb_spec 8 (u_consecutiveTimeouts t)); [lia|].
  destruct (Z.ltb_spec (2 ^ u_consecutiveTimeouts t * 15 * Second) 0) as [Hd|_].
  { unfold Second in Hd. pose proof (Z.pow_nonneg 2 (u_consecutiveTimeouts t)). lia. }
  unfold unet. cbn [fst snd net_read local_Network]. by rewrite Hq.
Qed.

(** One exchange with the server. *)
Lemma local_request again h req fuel t n t1 n1 answer srv :
  again (t, n) = (Ok (), (t1, n1)) -> l_queue n1 = [] -> 0 <= u_consecutiveTimeouts t1 < 8 ->
  serveOne (l_Int63 n1 (l_tick n1)) req (l_server n1) = (Some answer, srv) ->
  request_fuel (S fuel) again h req (t, n) =
  (checkRespHeader (take 256 answer) h, (t1, l_next (l_next n1 srv [answer]) srv [])).
Proof.
  intros Ea Hq Hc Es. cbn [request_fuel]. rewrite (UM_bind_Ok _ _ _ _ _ Ea), (UM_bind_Ok _ _ _ _ _ (local_write _ _ _ _ _ Es)).
  rewrite Hq. cbn [app]. unfold mbind, UM_bind, ucatch. rewrite (local_read _ _ _ answer) by done. cbn [l_server l_next].
  destruct (checkRespHeader_ends (take 256 answer) h) as (_ & H2 & H3).
  destruct (checkRespHeader (take 256 answer) h) as [b|e|]; [done| |done]. by destruct e.
Qed.

(** A client that, if it counts as connected, is known to the server. *)
Record friends (t : UDPTrackerURL) (n : local) : Prop := mkFriends {
  fr_queue : l_queue n = [];
  fr_timeouts : 0 <= u_consecutiveTimeouts t < 8;
  fr_conn : IsZero (u_lastConncted t) = false -> Since (l_clock n) (u_lastConncted t) < Minute -> u_connID t ∈ s_conns (l_server n);
  fr_conns : forall id, id ∈ s_conns (l_server n) -> in_s 64 id;
  fr_Int31 : forall k, 0 <= l_Int31 n k < 2 ^ 31;
  fr_Int63 : forall k, 0 <= l_Int63 n k < 2 ^ 63;
}.

(** What connecting leaves. *)
Record joined (t : UDPTrackerURL) (n : local) (t1 : UDPTrackerURL) (n1 : local) : Prop := mkJoined {
  jo_friends : friends t1 n1;
  jo_conn : u_connID t1 ∈ s_conns (l_server n1);
  jo_recent : IsZero (u_lastConncted t1) = false /\ Since (l_clock n1) (u_lastConncted t1) < Minute;
  jo_t : s_t (l_server n1) = s_t (l_server n);
}.

Lemma isConnected_local t n :
  isConnected (t, n) = (Ok (negb (IsZero (u_lastConncted t)) && (Since (l_clock n) (u_lastConncted t) <? Minute)), (t, n)).
Proof. unfold isConnected, mbind, UM_bind, uget, unet. cbn. by destruct (IsZero (u_lastConncted t)). Qed.

Lemma Since_now now : Since now (Some now) = 0.
Proof. unfold Since, MaxInt64. lia. Qed.

Lemma connect_local t n : friends t n -> exists t1 n1, connect (t, n) = (Ok (), (t1, n1)) /\ joined t n t1 n1.
Proof.
  intros Hf. unfold connect. rewrite (UM_bind_Ok _ _ _ _ _ (isConnected_local t n)).
  destruct (negb _ && _) eqn:E.
  { apply andb_true_iff in E as [E1%negb_true_iff E2%Z.ltb_lt]. exists t, n. split; [done|]. constructor; [done|by apply (fr_conn _ _ Hf)|done|done]. }
  destruct Hf as [Hq Ht Hc Hs H31 H63]. unfold mbind at 1, UM_bind at 1, unet at 1. cbn [fst snd net_dial local_Network negb].
  unfold mbind at 1, UM_bind at 1, unet at 1. cbn [fst snd net_Int31 local_Network].
  set (tx := l_Int31 n (l_tick n)). set (n1 := l_next n (l_server n) (l_queue n)). pose proof (H31 (l_tick n)) as Htx.
  set (rnd := l_Int63 n1 (l_tick n1)). pose proof (H63 (l_tick n1)) as Hrnd.
  set (srv := mkServer (s_conns (l_server n) ∪ {[ rnd ]}) (s_t (l_server n))).
  assert (Es : serveOne rnd (w_reqHeader (mkReqHeader protoID actionConnect tx)) (l_server n1) =
    (Some (w_respHeader (mkRespHeader actionConnect tx) ++ be_enc 8 rnd), srv)).
  { unfold serveOne. rewrite take_ge by (rewrite length_w_reqHeader; lia). rewrite <- (app_nil_r (w_reqHeader _)), r_reqHeader_w; [|done|done|unfold in_s; cbn; lia].
    done. }
  unfold request_connect. rewrite (UM_bind_Ok _ _ _ (be_enc 8 rnd) (t, l_next (l_next n1 srv [w_respHeader (mkRespHeader actionConnect tx) ++ be_enc 8 rnd]) srv [])).
  2:{ rewrite (local_request _ _ _ _ _ _ t n1 _ srv (eq_refl _) Hq Ht Es). f_equal. rewrite take_ge by (cbn; lia).
      apply checkRespHeader_w; [left|unfold in_s; lia|done|done]. }
  rewrite (UM_bind_Ok _ _ _ (be_enc 8 rnd, []) (t, l_next (l_next n1 srv [w_respHeader (mkRespHeader actionConnect tx) ++ be_enc 8 rnd]) srv [])) by done.
  eexists _, _. split; [done|]. cbn [fst snd net_now local_Network unet].
  assert (Hr64 : in_s 64 rnd) by (unfold in_s; cbn in *; lia). rewrite int64_enc by done.
  assert (Hin : rnd ∈ s_conns srv) by (apply elem_of_union_r; by apply elem_of_singleton). constructor.
  - constructor; cbn [u_consecutiveTimeouts u_connID l_server l_next s_conns srv l_queue]; [done|done|by intros _ _| |exact H31|exact H63].
    intros id [Hid| ->%elem_of_singleton]%elem_of_union; [by apply Hs|done].
  - exact Hin.
  - split; [done|]. cbn [u_lastConncted]. rewrite Since_now. reflexivity.
  - done.
Qed.

Lemma connect_again t n :
  IsZero (u_lastConncted t) = false -> Since (l_clock n) (u_lastConncted t) < Minute -> connect (t, n) = (Ok (), (t, n)).
Proof.
  intros Hz Hs. unfold connect. rewrite (UM_bind_Ok _ _ _ _ _ (isConnected_local t n)), Hz.
  by destruct (Z.ltb_spec (Since (l_clock n) (u_lastConncted t)) Minute); [|lia].
Qed.

(** A request of a joined client. *)
Lemma joined_request t n t1 n1 h req answer :
  joined t n t1 n1 ->
  serveOne (l_Int63 n1 (S (l_tick n1))) req (l_server n1) = (Some answer, l_server n1) ->
  exists n2, request h req (t1, l_next n1 (l_server n1) (l_queue n1)) = (checkRespHeader (take 256 answer) h, (t1, n2)).
Proof.
  intros [[Hq Ht _ _ _ _] _ [Hz Hs] _] Es. set (n' := l_next n1 (l_server n1) (l_queue n1)).
  exists (l_next (l_next n' (l_server n1) [answer]) (l_server n1) []).
  assert (Ec : connect (t1, n') = (Ok (), (t1, n'))) by (apply connect_again; [exact Hz|exact Hs]).
  unfold request. by rewrite (local_request connect h req 8 t1 n' t1 n' answer (l_server n1) Ec Hq Ht Es).
Qed.

Definition req_ok (r : AnnounceReq) : Prop := length (rq_InfoHash r) = 20%nat /\ length (rq_PeerID r) = 20%nat.
Definition info_ok (i : udpScrapeInfo) : Prop := in_s 32 (si_Seeders i) /\ in_s 32 (si_Completed i) /\ in_s 32 (si_Leechers i).

Lemma length_w_announceReq r : req_ok r -> length (w_announceReq r) = 82%nat.
Proof. intros [H1 H2]. unfold w_announceReq. rewrite !length_app, H1, H2, !length_be_enc. done. Qed.

Lemma serve_announce rnd s connID tx r t :
  connID ∈ s_conns s -> in_s 64 connID -> in_s 32 tx -> req_ok r -> s_t s !! rq_InfoHash r = Some t ->
  serveOne rnd (w_reqHeader (mkReqHeader connID actionAnnounce tx) ++ w_announceReq r) s =
  (Some (w_respHeader (mkRespHeader actionAnnounce tx) ++
         w_fixed (mkFixed 900 (si_Leechers (st_stats t)) (si_Seeders (st_stats t))) ++ concat (w_portIP <$> st_Peers t)), s).
Proof.
  intros Hc Hi Htx Hr Ht. unfold serveOne. pose proof (length_w_announceReq r Hr) as Hl.
  rewrite take_ge by (rewrite length_app, length_w_reqHeader, Hl; lia). rewrite r_reqHeader_w by done. cbn [qh_Action].
  change (actionAnnounce =? actionConnect) with false. change (actionAnnounce =? actionAnnounce) with true. cbn match.
  unfold checkConnectionID. cbn [qh_ConnID qh_TxID]. rewrite bool_decide_true by done. rewrite Hl. cbn [Nat.ltb Nat.leb].
  assert (take 20 (w_announceReq r) = rq_InfoHash r) as ->; [|by rewrite Ht].
  unfold w_announceReq. apply take_app_length'. by destruct Hr.
Qed.

Lemma length_concat_chunks {A} (l : list A) (f : A -> bytes) k : (forall x, x ∈ l -> length (f x) = k) -> length (concat (f <$> l)) = (k * length l)%nat.
Proof.
  induction l as [|x l IH]; intros Hf; cbn [fmap list_fmap concat length]; [lia|].
  rewrite length_app, (Hf x) by left. rewrite IH by (intros; apply Hf; by right). lia.
Qed.

Lemma chunks_concat {A} (l : list A) (f : A -> bytes) k rest :
  (forall x, x ∈ l -> length (f x) = k) -> chunks k (length l) (concat (f <$> l) ++ rest) = f <$> l.
Proof.
  induction l as [|x l IH]; intros Hf; [done|]. cbn [fmap list_fmap concat length chunks]. rewrite <- (assoc_L (++)).
  rewrite take_app_length', drop_app_length' by (rewrite (Hf x); [done|left]). f_equal. apply IH. intros; apply Hf. by right.
Qed.

Lemma serve_scrape rnd s connID tx hs ts :
  connID ∈ s_conns s -> in_s 64 connID -> in_s 32 tx -> Forall (fun h => length h = 20%nat) hs -> (length hs <= 74)%nat ->
  mapM (fun h => s_t s !! h) hs = Some ts ->
  serveOne rnd (w_reqHeader (mkReqHeader connID actionScrape tx) ++ concat hs) s =
  (Some (w_respHeader (mkRespHeader actionScrape tx) ++ concat (w_scrapeInfo ∘ st_stats <$> ts)), s).
Proof.
  intros Hc Hi Htx Hh Hn Hts. assert (Hf : forall x, x ∈ hs -> length (id x) = 20%nat) by (by apply Forall_forall).
  pose proof (length_concat_chunks hs id 20 Hf) as Hl. pose proof (chunks_concat hs id 20 [] Hf) as Hch.
  rewrite list_fmap_id in Hl, Hch. rewrite app_nil_r in Hch.
  unfold serveOne. rewrite take_ge by (rewrite length_app, length_w_reqHeader, Hl; lia). rewrite r_reqHeader_w by done. cbn [qh_Action].
  change (actionScrape =? actionConnect) with false. change (actionScrape =? actionAnnounce) with false.
  change (actionScrape =? actionScrape) with true. cbn match.
  unfold checkConnectionID. cbn [qh_ConnID qh_TxID]. rewrite bool_decide_true by done.
  rewrite Hl, (Nat.mul_comm 20), Nat.Div0.mod_mul, Nat.div_mul by lia. cbn [Nat.eqb negb].
  destruct (Nat.ltb_spec 74 (length hs)); [lia|]. by rewrite Hch, Hts.
Qed.

Lemma joined_ids t n t1 n1 : joined t n t1 n1 -> in_s 64 (u_connID t1).
Proof. intros [[_ _ _ Hs _ _] Hc _ _]. by apply Hs. Qed.

Lemma joined_tx t n t1 n1 : joined t n t1 n1 -> in_s 32 (l_Int31 n1 (l_tick n1)).
Proof. intros [[_ _ _ _ H31 _] _ _ _]. specialize (H31 (l_tick n1)). unfold in_s. cbn in *. lia. Qed.

(** ** Theorems *)

(** The call came back, with a response or an error of the code. *)
Definition came_back {N A} (o : result uerr A * (UDPTrackerURL * N)) : Prop := o.1 <> Err UFuel /\ o.1 <> Panic.

(** Announces and scrapes end: whatever the network and the clock do, and whatever
    happened before, the retries stop (after eight timeouts at the latest) and the
    call returns a response or an error of the code; nothing panics. *)
Theorem udp_returns {N} `{Network N} (t : UDPTrackerURL) (n : N) req ihashes :
  0 <= u_consecutiveTimeouts t ->
  came_back (udp_announce req (t, n)) /\ came_back (udp_scrape ihashes (t, n)).
Proof.
  intros Ht. pose proof (udp_announce_ends req (t, n) Ht) as Ha. pose proof (udp_scrape_ends ihashes (t, n) Ht) as Hs.
  unfold came_back. destruct (udp_announce req (t, n)) as [r s]. destruct (udp_scrape ihashes (t, n)) as [r' s'].
  destruct Ha as (H1 & H2 & _). by destruct Hs as (H3 & H4 & _).
Qed.

(** C35: An announce to a server that knows the torrent gives back the interval, the numbers
    and the peers of the server: all of them up to 39, which is what the buffer of the
    client holds, whether the client was connected before or has to connect first. *)
Theorem announce_served t n req tor :
  friends t n -> req_ok req -> s_t (l_server n) !! rq_InfoHash req = Some tor -> info_ok (st_stats tor) ->
  exists t' n', udp_announce req (t, n) =
    (Ok (mkAnnounceResp 900 (si_Leechers (st_stats tor)) (si_Seeders (st_stats tor)) (take 39 (peer_of <$> st_Peers tor)) 0), (t', n')).
Proof.
  intros Hf Hr Ht (Hi1 & Hi2 & Hi3). destruct (connect_local t n Hf) as (t1 & n1 & Ec & J). pose proof (jo_t _ _ _ _ J) as Et. rewrite <- Et in Ht.
  unfold udp_announce. rewrite (UM_bind_Ok _ _ _ _ _ Ec). pose proof (joined_tx _ _ _ _ J) as Htx. set (tx := l_Int31 n1 (l_tick n1)) in *.
  rewrite (UM_bind_Ok _ _ _ tx (t1, l_next n1 (l_server n1) (l_queue n1))) by done.
  rewrite (UM_bind_Ok _ _ _ (u_connID t1) (t1, l_next n1 (l_server n1) (l_queue n1))) by done.
  set (h := mkRespHeader actionAnnounce tx). set (fixed := mkFixed 900 (si_Leechers (st_stats tor)) (si_Seeders (st_stats tor))).
  set (rest := concat (w_portIP <$> st_Peers tor)).
  destruct (joined_request t n t1 n1 h _ _ J (serve_announce _ _ _ tx req tor (jo_conn _ _ _ _ J) (joined_ids _ _ _ _ J) Htx Hr Ht)) as [n2 E].
  fold h fixed rest in E. rewrite (UM_bind_Ok _ _ _ (w_fixed fixed ++ take 236 rest) (t1, n2)).
  2:{ rewrite E. f_equal. change (take 256 (w_respHeader h ++ w_fixed fixed ++ rest)) with (w_respHeader h ++ w_fixed fixed ++ take 236 rest).
      apply checkRespHeader_w; [right; left|done|done|]. intros _. rewrite length_app. change (length (w_fixed fixed)) with 12%nat. lia. }
  assert (Ef : r_fixed (w_fixed fixed ++ take 236 rest) = Ok (fixed, take 236 rest)).
  { unfold r_fixed. rewrite binary_Read_app by done. cbn [mbind result_bind].
    destruct (i32_three 900 (si_Leechers (st_stats tor)) (si_Seeders (st_stats tor))) as (E1 & E2 & E3); [done|done|done|].
    unfold w_fixed. cbn [af_Interval af_Leechers af_Seeders fixed]. by rewrite E1, E2, E3. }
  rewrite (UM_bind_Ok _ _ _ (fixed, take 236 rest) (t1, n2)) by (unfold ulift; by rewrite Ef).
  exists t1, n2. unfold rest. rewrite cheap_peers_take. done.
Qed.

(** What the server says of a torrent. *)
Definition told (t : storrent) : TorrentInfo :=
  mkTorrentInfo (si_Seeders (st_stats t)) (si_Completed (st_stats t)) (si_Leechers (st_stats t)) [].

Lemma r_scrapeInfos_w ts rest :
  Forall (fun t => info_ok (st_stats t)) ts ->
  r_scrapeInfos (length ts) (concat (w_scrapeInfo ∘ st_stats <$> ts) ++ rest) = Ok (st_stats <$> ts, rest).
Proof.
  intros Hok. assert (Hl : forall x, x ∈ ts -> length ((w_scrapeInfo ∘ st_stats) x) = 12%nat) by done.
  unfold r_scrapeInfos. rewrite binary_Read_app by (by apply length_concat_chunks). cbn [mbind result_bind].
  pose proof (chunks_concat ts _ 12 [] Hl) as Hc. rewrite app_nil_r in Hc. rewrite Hc, <- list_fmap_compose. do 2 f_equal.
  apply list_fmap_ext. intros i x Hx. destruct (proj1 (Forall_forall _ _) Hok x) as (H1 & H2 & H3); [by eapply list_elem_of_lookup_2|].
  change (scrapeInfo_at (w_scrapeInfo (st_stats x)) = st_stats x). unfold scrapeInfo_at, w_scrapeInfo. destruct (i32_three _ _ _ H1 H2 H3) as (E1 & E2 & E3). rewrite E1, E2, E3. by destruct (st_stats x).
Qed.

(** A scrape of up to 20 torrents that the server knows gives back its numbers; with
    more of them, up to the 74 that the protocol and the server allow, the response does not
    fit into the buffer of the client and the scrape fails. *)
Theorem scrape_served t n hs ts :
  friends t n -> Forall (fun h => length h = 20%nat) hs -> (length hs <= 74)%nat ->
  mapM (fun h => s_t (l_server n) !! h) hs = Some ts -> Forall (fun t => info_ok (st_stats t)) ts ->
  exists t' n', udp_scrape hs (t, n) =
    (if (length hs <=? 20)%nat then Ok (foldl (fun m '(h, i) => map_set h i m) [] (zip hs (told <$> ts))) else Err UUnexpectedEOF, (t', n')).
Proof.
  intros Hf Hh Hn Hts Hok. destruct (connect_local t n Hf) as (t1 & n1 & Ec & J). rewrite <- (jo_t _ _ _ _ J) in Hts.
  unfold udp_scrape. rewrite (UM_bind_Ok _ _ _ _ _ Ec). pose proof (joined_tx _ _ _ _ J) as Htx. set (tx := l_Int31 n1 (l_tick n1)) in *.
  rewrite (UM_bind_Ok _ _ _ tx (t1, l_next n1 (l_server n1) (l_queue n1))) by done.
  rewrite (UM_bind_Ok _ _ _ (u_connID t1) (t1, l_next n1 (l_server n1) (l_queue n1))) by done.
  set (h := mkRespHeader actionScrape tx). set (infos := concat (w_scrapeInfo ∘ st_stats <$> ts)).
  destruct (joined_request t n t1 n1 h _ _ J (serve_scrape _ _ _ tx hs ts (jo_conn _ _ _ _ J) (joined_ids _ _ _ _ J) Htx Hh Hn Hts)) as [n2 E].
  fold h infos in E. rewrite (UM_bind_Ok _ _ _ (take 248 infos) (t1, n2)).
  2:{ rewrite E. f_equal. change (take 256 (w_respHeader h ++ infos)) with (w_respHeader h ++ take 248 infos).
      by apply checkRespHeader_w; [right; right; left|..]. }
  assert (Hlen : length infos = (12 * length hs)%nat).
  { unfold infos. rewrite (length_concat_chunks ts _ 12) by done. by rewrite <- (length_mapM _ _ _ Hts). }
  exists t1, n2. destruct (Nat.leb_spec (length hs) 20) as [Hle|Hgt].
  - rewrite take_ge by lia. pose proof (r_scrapeInfos_w ts [] Hok) as Ei. rewrite app_nil_r in Ei. fold infos in Ei.
    rewrite <- (length_mapM _ _ _ Hts) in Ei. rewrite (UM_bind_Ok _ _ _ (st_stats <$> ts, []) (t1, n2)) by (unfold ulift; by rewrite Ei).
    unfold mret, UM_ret. do 2 f_equal. clear. generalize (@nil (bytes * TorrentInfo)). revert hs.
    induction ts as [|x ts IH]; intros [|k hs] m; cbn; [done..|]. apply IH.
  - assert (Er : r_scrapeInfos (length hs) (take 248 infos) = Err UUnexpectedEOF).
    { unfold r_scrapeInfos, binary_Read. rewrite length_take, Hlen. destruct (Nat.leb_spec (12 * length hs) (248 `min` (12 * length hs))); [lia|].
      by destruct (Nat.eqb_spec (248 `min` (12 * length hs)) 0); [lia|]. }
    by rewrite (UM_bind_Err _ _ _ UUnexpectedEOF (t1, n2)) by (unfold ulift; by rewrite Er).
Qed.

(** The count of timeouts is never taken back: after eight timeouts in its life, a tracker
    gives no response any more. *)
Theorem timeouts_never_forgotten {N} `{Network N} (t : UDPTrackerURL) (n : N) req resp s :
  8 <= u_consecutiveTimeouts t -> udp_announce req (t, n) <> (Ok resp, s).
Proof.
  intros Ht E. unfold udp_announce, mbind at 1, UM_bind at 1 in E. pose proof (connect_ends (t, n) ltac:(cbn; lia)) as Hc.
  destruct (connect (t, n)) as [[[]|e|] s1]; [|done..]. destruct Hc as (_ & _ & Hc). cbn [fst] in Hc.
  unfold mbind at 1, UM_bind at 1, unet at 1 in E. destruct (net_Int31 s1.2) as [tx n1]. unfold mbind at 1, UM_bind at 1, uget in E. cbn [fst snd] in E.
  unfold mbind at 1, UM_bind at 1 in E. match type of E with context [request ?h ?q ?s0] => 
    pose proof (dead_request connect h q 9 s0 ltac:(cbn; lia) connect_ends) as Hd; fold (request h q s0) in Hd; destruct (request h q s0) as [[b|e|] s2] end;
    [|done..]. by destruct (Hd b).
Qed.
