(* ===== verification/Announcer.v ===== *)
(** * torrent/tracker_announcer.go: the goroutine that announces for all torrents

    Torrents submit announces on a channel of the client and get the responses on a channel of
    their own. The main goroutines of the torrents, their dialers and the announcer run next to
    each other; the trackers are parameters. *)

From S2P Require Import Prelude Strconv Bitfield GoValue BenDecode BenEncode Wire Metainfo Bitmap Piece Pieces.
From S2P Require Import Metadata ConnInfo Swarm SwarmInv Torrent TorrentInv TorrentSafe Tracker Frames.

(** ** The system *)

Definition ann_event (e : tracker_event) : Event :=
  match e with EvNone => None_ | EvCompleted => Completed | EvStarted => Started | EvStopped => Stopped end.

(** A response for a torrent; [None]: the announce failed. *)
Definition response : Type := option (Z * list Peer).

(** A torrent with what the announcer shares with it: the announces that the main goroutine and
    the dialers still have to submit, the channel of responses, and whether the timer of the
    next announce runs. A turn is taken as a whole, and then its announces are submitted: the
    torrent has canAnnounceTracker as the turn leaves it at its end, and [sd_flag] is what other
    goroutines read meanwhile, because the flag is cleared only when the submit is over. *)
Record tside (B S : Type) := mkSide {
  sd_t : torrent B S;
  sd_flag : bool;
  sd_main : list (tracker_event * Stats);
  sd_dialers : list (tracker_event * Stats);
  sd_resp : option response;
  sd_timer : bool;
}.
Arguments mkSide {B S}.
Arguments sd_t {B S} t.
Arguments sd_flag {B S} t.
Arguments sd_main {B S} t.
Arguments sd_dialers {B S} t.
Arguments sd_resp {B S} t.
Arguments sd_timer {B S} t.

(** trackerAnnouncerEvent *)
Record announcement := mkAnnouncement { an_torrent : nat; an_event : tracker_event; an_stats : Stats }.

(** The announcer waits in its select, has a response for a torrent, or has returned. *)
Inductive arun := AIdle | ASend (id : nat) (r : response) | AGone.

Record asys (B S T : Type) := mkAsys {
  a_sides : gmap nat (tside B S);
  a_queue : list announcement;           (* trackerAnnouncerSubmitEventCh *)
  a_run : arun;
  a_trackers : gmap bytes (trackerURL T);
  a_closed : bool;                       (* the client is closed *)
}.
Arguments mkAsys {B S T}.
Arguments a_sides {B S T} a.
Arguments a_queue {B S T} a.
Arguments a_run {B S T} a.
Arguments a_trackers {B S T} a.
Arguments a_closed {B S T} a.

Section announcer.
Context {B : Type} `{BitmapLaws B} {S : Type} `{PieceSelector S B} `{SortSliceLaws (Piece B)} `{SortSliceLaws Z}.
Variable env : Env.
Context `{EnvLaws env}.
Variable ip6_String : bytes -> bytes.
Variable int_of_Inf : Z.
Variable sha1_Sum : bytes -> bytes.
Variable openStorage : InfoDict -> list Z -> bool.
Variable SelectorF : S.
Variable outboundIP : bytes.

(** Trackers, the identity of the client and its port. *)
Context {T : Type}.
Variable newTrackerURL : bytes -> option T.
Variable Announce : AnnounceReq -> T -> response * T.
Variable peerID : bytes.
Variable port : Z.

Abbreviation torrent := (torrent B S).
Abbreviation tside := (tside B S).
Abbreviation asys := (asys B S T).
Abbreviation turn := (mainLoop_turn env ip6_String int_of_Inf sha1_Sum openStorage SelectorF outboundIP).
Abbreviation input_ok := (input_ok (B := B) (S := S) sha1_Sum).
Implicit Types (t : torrent) (w : asys) (d : tside).

Definition announces (l : list tevent) : list (tracker_event * Stats) :=
  omap (fun e => match e with EAnnounceTracker e s => Some (e, s) | _ => None end) l.

(** The announces between two states of a torrent. *)
Definition new_announces t t' : list (tracker_event * Stats) := announces (drop (length (t_events t)) (t_events t')).

(** trackerAnnouncer.announce, and the response that run sends. *)
Definition answer (a : announcement) t (trackers : gmap bytes (trackerURL T)) : response * gmap bytes (trackerURL T) :=
  let '(r, trackers) := announcer_announce newTrackerURL Announce (mi_Announce (t_data t))
    (announcer_req (Hash (mi_Info (t_data t))) peerID (an_stats a) (ann_event (an_event a)) port) trackers in
  (match r with Some r => r | None => None end, trackers).

Definition with_side (id : nat) d w : asys := mkAsys (<[id := d]> (a_sides w)) (a_queue w) (a_run w) (a_trackers w) (a_closed w).
Definition with_t t' d : tside := mkSide t' (sd_flag d) (sd_main d) (sd_dialers d) (sd_resp d) (sd_timer d).

(** The torrent with the flag that is in memory. *)
Definition in_memory d : torrent := set_announce (sd_flag d) (canAnnounceDht (t_dial (sd_t d))) (sd_t d).

(** The flag while the announces [new] of a turn from [t] to [t'] wait: a turn announces EvNone
    only when it is set. *)
Definition flag_while t t' (new : list (tracker_event * Stats)) : bool :=
  match new with
  | [] => canAnnounceTracker (t_dial t')
  | (EvNone, _) :: _ => true
  | _ => canAnnounceTracker (t_dial t)
  end.

Definition sd_closed d : bool := isClosed (t_data (sd_t d)).

(** What the main loop of a torrent receives from other goroutines than the announcer and its
    own timer. *)
Definition outside_announcer (inp : tinput B) : bool := match inp with InTracker _ | InTrackerTimer => false | _ => true end.

(** What connections and other torrents change in a torrent between its turns. *)
Inductive shared_step t : torrent -> Prop :=
| sh_pieces p p' :
    pieces_ (t_data t) = Some p -> conn_op (tparams_of (t_data t)) p p' -> shared_step t (set_data (d_pieces (Some p') (t_data t)) t)
| sh_metadata m :
    shared_step t (set_data (d_info (mi_Info (t_data t)) (mkUts m (correctSize (utmetadata (t_data t)))) (t_data t)) t)
| sh_banned ip : shared_step t (set_blackList (blackList (t_dial t) ++ [ip]) t).

(** [may]: when the goroutines of a torrent take a turn that can announce. *)
Inductive step_of (may : tside -> Prop) : asys -> asys -> Prop :=
(** The announcer. *)
| as_take w a rest d r trackers :
    a_run w = AIdle -> a_queue w = a :: rest -> a_sides w !! an_torrent a = Some d -> answer a (sd_t d) (a_trackers w) = (r, trackers) ->
    step_of may w (mkAsys (a_sides w) rest (ASend (an_torrent a) r) trackers (a_closed w))
| as_respond w id r d :
    a_run w = ASend id r -> a_sides w !! id = Some d -> sd_closed d = false -> sd_resp d = None ->
    step_of may w (mkAsys (<[id := mkSide (sd_t d) (sd_flag d) (sd_main d) (sd_dialers d) (Some r) (sd_timer d)]> (a_sides w))
               (a_queue w) AIdle (a_trackers w) (a_closed w))
| as_gone w : a_run w = AIdle -> a_closed w = true -> step_of may w (mkAsys (a_sides w) (a_queue w) AGone (a_trackers w) true)
(** The client is closed; AddFromParser starts a torrent. *)
| as_client_closes w : step_of may w (mkAsys (a_sides w) (a_queue w) (a_run w) (a_trackers w) true)
| as_added w id cfg info ann ib t0 :
    a_sides w !! id = None -> setup_ok cfg info ib ->
    start env ip6_String int_of_Inf openStorage SelectorF outboundIP (newTorrent cfg info ann ib) = Ok ((), t0) ->
    step_of may w (with_side id (mkSide t0 (flag_while (newTorrent cfg info ann ib) t0 (announces (t_events t0))) (announces (t_events t0)) [] None false) w)
(** A torrent: the main loop and the dialers submit, and then clear the flag; the main loop turns. *)
| as_submit w id d e s rest :
    a_sides w !! id = Some d -> sd_main d = (e, s) :: rest -> lenZ (a_queue w) < 5 ->
    step_of may w (mkAsys (<[id := mkSide (sd_t d) false rest (sd_dialers d) (sd_resp d) (sd_timer d)]> (a_sides w))
               (a_queue w ++ [mkAnnouncement id e s]) (a_run w) (a_trackers w) (a_closed w))
| as_submit_dialer w id d l e s rest :
    a_sides w !! id = Some d -> sd_dialers d = l ++ (e, s) :: rest -> lenZ (a_queue w) < 5 ->
    step_of may w (mkAsys (<[id := mkSide (sd_t d) false (sd_main d) (l ++ rest) (sd_resp d) (sd_timer d)]> (a_sides w))
               (a_queue w ++ [mkAnnouncement id e s]) (a_run w) (a_trackers w) (a_closed w))
| as_turn w id d inp t' :
    a_sides w !! id = Some d -> may d -> sd_closed d = false -> sd_main d = [] -> outside_announcer inp = true ->
    input_ok (in_memory d) inp -> turn inp (in_memory d) = Ok ((), t') ->
    step_of may w (with_side id (let new := new_announces (in_memory d) t' in
      mkSide t' (flag_while (in_memory d) t' new) new (sd_dialers d) (sd_resp d) (sd_timer d)) w)
| as_timer w id d t' :
    a_sides w !! id = Some d -> may d -> sd_closed d = false -> sd_main d = [] -> sd_timer d = true ->
    turn InTrackerTimer (in_memory d) = Ok ((), t') ->
    step_of may w (with_side id (let new := new_announces (in_memory d) t' in
      mkSide t' (flag_while (in_memory d) t' new) new (sd_dialers d) (sd_resp d) false) w)
| as_receive w id d r t' :
    a_sides w !! id = Some d -> may d -> sd_closed d = false -> sd_main d = [] -> sd_resp d = Some r ->
    turn (InTracker r) (in_memory d) = Ok ((), t') ->
    step_of may w (with_side id (let new := new_announces (in_memory d) t' in
      mkSide t' (flag_while (in_memory d) t' new) new (sd_dialers d) None true) w)
| as_dialed w id d addr t' :
    a_sides w !! id = Some d -> may d -> sd_closed d = false -> is_Some (halfOpen (t_dial (sd_t d)) !! addr) ->
    removeHalfOpen env ip6_String int_of_Inf addr (in_memory d) = Ok ((), t') ->
    step_of may w (with_side id (let new := new_announces (in_memory d) t' in
      mkSide t' (flag_while (in_memory d) t' new) (sd_main d) (sd_dialers d ++ new) (sd_resp d) (sd_timer d)) w)
| as_shared w id d t' :
    a_sides w !! id = Some d -> shared_step (sd_t d) t' -> step_of may w (with_side id (with_t t' d) w).

Definition a_start : asys := mkAsys ∅ [] AIdle ∅ false.

(** The code: the main loop and the dialers of a torrent go on while another of them waits to
    submit. *)
Definition astep : asys -> asys -> Prop := step_of (fun _ => True).
Definition a_reachable w : Prop := rtc astep a_start w.

(** The runs in which they do not while a flag that is still to be cleared is read as set. *)
Definition cleared d : Prop := sd_flag d = true -> canAnnounceTracker (t_dial (sd_t d)) = true.
Definition cstep : asys -> asys -> Prop := step_of cleared.
Definition c_reachable w : Prop := rtc cstep a_start w.

Lemma cstep_astep w w' : cstep w w' -> astep w w'.
Proof. intros Hs. destruct Hs; econstructor; eauto. Qed.

(** ** What a turn spends

    A torrent may announce when its timer has let it, and once more when it is complete. *)

Definition can t : nat := Nat.b2n (canAnnounceTracker (t_dial t)).
Definition incomplete t : nat := Nat.b2n (negb (DownloadedDataC_closed (t_data t))).

Definition spends t t' : Prop :=
  exists new, t_events t' = t_events t ++ new /\ (length (announces new) + can t' + incomplete t' <= can t + incomplete t)%nat.

Lemma announces_app l k : announces (l ++ k) = announces l ++ announces k.
Proof. apply omap_app. Qed.

#[local] Instance spends_pre : PreOrder spends.
Proof.
  split; [intros t; exists []; by rewrite app_nil_r|].
  intros t1 t2 t3 (l & E1 & N1) (k & E2 & N2). exists (l ++ k). rewrite E2, E1, app_assoc. split; [done|].
  rewrite announces_app, length_app. lia.
Qed.

(** A change without announces. *)
Lemma spends_nothing t t' :
  t_events t' = t_events t -> canAnnounceTracker (t_dial t') = canAnnounceTracker (t_dial t) ->
  (DownloadedDataC_closed (t_data t) = true -> DownloadedDataC_closed (t_data t') = true) -> spends t t'.
Proof.
  intros He Hc Hd. exists []. rewrite He, app_nil_r. split; [done|]. unfold can, incomplete. rewrite Hc. cbn [announces omap list_omap length].
  destruct (DownloadedDataC_closed (t_data t)); [by rewrite Hd|]. destruct (DownloadedDataC_closed (t_data t')); cbn; lia.
Qed.

#[local] Instance spends_framing : Framing spends.
Proof.
  constructor; try apply _; intros; try by apply spends_nothing.
  - exists [e]. split; [done|]. by destruct e.
  - exists [EAnnounceTracker EvNone (stats (t_data t))]. split; [done|]. unfold can, incomplete. cbn.
    match goal with E : canAnnounceTracker _ = true |- _ => rewrite E end. cbn. lia.
Qed.

#[local] Instance spends_starting : Starting spends.
Proof. intros t. by apply spends_nothing. Qed.

#[local] Instance spends_queueing : Queueing spends.
Proof. intros t i _ _. by apply spends_nothing. Qed.

#[local] Instance spends_receiving : Receiving spends.
Proof. constructor; [intros t i|..]; intros; apply spends_nothing; cbn; congruence. Qed.

#[local] Instance spends_hashing i : Hashing spends i.
Proof. intros t p ok p' cs _ _. by apply spends_nothing. Qed.

(** The announce that the download is complete is the last of its kind. *)
#[local] Instance spends_completing : Completing env ip6_String int_of_Inf spends.
Proof.
  intros t a t' E. unfold mbind at 1, M_bind in E. destruct (sendAnnounceToTracker env EvCompleted t) as [[u t1]| |] eqn:E1; [|done..].
  unfold downloadedAll in E. unfold mbind at 1, M_bind, gets in E. destruct (DownloadedDataC_closed (t_data t1)) eqn:Hd; [done|].
  unfold mbind at 1, M_bind, mod_data, modify in E.
  etrans; [|eapply (frames_range spends (fun id => notInterested env (droppedConn env ip6_String int_of_Inf) id)); [|exact E]].
  2: { intros id. apply (frames_interest env ip6_String int_of_Inf spends id). }
  revert Hd. apply sendAnnounce_Ok in E1 as [->| ->]; [intros _; by apply spends_nothing|]. cbn. intros Hd.
  eexists [_]. split; [done|]. unfold can, incomplete. cbn. rewrite Hd. cbn. lia.
Qed.

Lemma turn_spends inp t t' :
  isClosed (t_data t) = false -> inp <> InTrackerTimer -> turn inp t = Ok ((), t') -> spends t t'.
Proof.
  intros Hop Hne E. apply turn_Ok in E as [_ E]. destruct (framed inp) eqn:Hf.
  { eapply (frames_handle env ip6_String int_of_Inf sha1_Sum openStorage SelectorF outboundIP spends inp Hf (fun _ => spends_starting)). exact E. }
  destruct inp as [id m|i ok| | | | | | | | | |]; try discriminate Hf; try done; cbn [handle] in E.
  - destruct m as [| | |n| | | |]; try discriminate Hf.
    eapply (frames_metadataCompleted env ip6_String int_of_Inf sha1_Sum openStorage SelectorF outboundIP spends); [apply _|exact E].
  - destruct (onPieceHashed_after env ip6_String int_of_Inf outboundIP spends i ok _ _ _ E) as (p & p' & cs & _ & _ & Hs).
    etrans; [|exact Hs]. by apply spends_nothing.
  - injection E as <-. by apply spends_nothing.
  - eapply (frames_close env spends). exact E.
Qed.

(** The timer lets the torrent announce. *)
Lemma timer_spends t t' :
  isClosed (t_data t) = false -> turn InTrackerTimer t = Ok ((), t') ->
  exists new, t_events t' = t_events t ++ new /\ (length (announces new) + can t' + incomplete t' <= 1 + incomplete t)%nat.
Proof.
  intros Hop E. apply turn_Ok in E as [_ E]. cbn [handle] in E. unfold mbind at 1, M_bind, modify in E.
  apply (frames_tryAnnounceAll env int_of_Inf spends) in E as (new & He & Hn). by exists new.
Qed.

Lemma can_in_memory d : cleared d -> (can (in_memory d) <= can (sd_t d))%nat.
Proof. unfold cleared, can. cbn. destruct (sd_flag d); [by intros ->|cbn; lia]. Qed.

Lemma tor_ok_memory d : tor_ok (sd_t d) -> tor_ok (in_memory d).
Proof. intros Ht. eapply tor_ok_ext; [exact Ht|by apply ext_same|]. apply (wf_same (sd_t d)); try done; apply Ht. Qed.

(** What a side has left after a turn of its main loop or of a dialer. *)
Lemma turn_left d t' :
  cleared d -> spends (in_memory d) t' ->
  (length (new_announces (in_memory d) t') + can t' + incomplete t' <= can (sd_t d) + incomplete (sd_t d))%nat.
Proof.
  intros Hc (new & He & Hn). unfold new_announces. rewrite He, drop_app_length. pose proof (can_in_memory d Hc).
  change (incomplete (in_memory d)) with (incomplete (sd_t d)) in Hn. lia.
Qed.

Lemma new_announces_app t t' new : t_events t' = t_events t ++ new -> new_announces t t' = announces new.
Proof. unfold new_announces. intros ->. by rewrite drop_app_length. Qed.

(** The channel of responses is read by a turn that does not close the torrent. *)
Definition as_open t t' : Prop := isClosed (t_data t') = isClosed (t_data t).

#[local] Instance as_open_framing : Framing as_open.
Proof.
  constructor; [split; [by intros t|intros t1 t2 t3 E1 E2; unfold as_open in *; congruence]|..]; intros; unfold as_open; cbn; try done.
Qed.

Lemma receive_open r t t' : isClosed (t_data t) = false -> turn (InTracker r) t = Ok ((), t') -> isClosed (t_data t') = false.
Proof.
  intros Hop E. apply turn_Ok in E as [_ E]. rewrite <- Hop. by apply (frames_trackerAnnounced env ip6_String int_of_Inf as_open) in E.
Qed.

(** ** The invariant *)

Definition waiting (id : nat) (q : list announcement) : nat := length (filter (fun a => an_torrent a = id) q).
Definition held (id : nat) (r : arun) : nat := match r with ASend id' _ => if decide (id' = id) then 1 else 0 | _ => 0 end%nat.
Definition here d : nat := length (sd_main d) + length (sd_dialers d) + (match sd_resp d with Some _ => 1 | None => 0 end).

(** The announces of a torrent whose responses the main loop has not taken. *)
Definition unanswered w id d : nat := here d + waiting id (a_queue w) + held id (a_run w).

(** What a torrent has left: the timer, the permission to announce, the end of the download. *)
Definition left_over d : nat := Nat.b2n (sd_timer d) + can (sd_t d) + incomplete (sd_t d).

#[local] Arguments waiting : simpl never.

Record a_inv w : Prop := mkAInv {
  ai_sides id d : a_sides w !! id = Some d -> sd_closed d = false -> tor_ok (sd_t d) /\ (unanswered w id d + left_over d <= 2)%nat;
  ai_known a : a ∈ a_queue w -> is_Some (a_sides w !! an_torrent a);
  ai_held id r : a_run w = ASend id r -> is_Some (a_sides w !! id);
  ai_gone : a_run w = AGone -> a_closed w = true;
  ai_flag id d : a_sides w !! id = Some d -> sd_main d = [] -> sd_dialers d = [] -> cleared d;
}.

Lemma waiting_app id q k : waiting id (q ++ k) = (waiting id q + waiting id k)%nat.
Proof. unfold waiting. by rewrite filter_app, length_app. Qed.

Lemma waiting_cons id a q : waiting id (a :: q) = (waiting id [a] + waiting id q)%nat.
Proof. apply (waiting_app id [a] q). Qed.

Lemma waiting_single id a : waiting id [a] = if decide (an_torrent a = id) then 1%nat else 0%nat.
Proof. unfold waiting. rewrite filter_cons, filter_nil. by case_decide. Qed.

Lemma insert_is_Some (m : gmap nat tside) id id' d : is_Some (m !! id') -> is_Some (<[id := d]> m !! id').
Proof. intros Hm. destruct (decide (id = id')) as [->|Hne]; [by rewrite lookup_insert_eq|by rewrite lookup_insert_ne]. Qed.

Lemma known_fresh w id : a_inv w -> a_sides w !! id = None -> waiting id (a_queue w) = 0%nat /\ held id (a_run w) = 0%nat.
Proof.
  intros Hi Hn. split.
  - assert (Hq : forall a, a ∈ a_queue w -> an_torrent a <> id) by (intros a Ha <-; destruct (ai_known w Hi a Ha); congruence).
    induction (a_queue w) as [|a q IH]; [done|]. rewrite waiting_cons, waiting_single, decide_False by (apply Hq; by left).
    apply IH. intros b Hb. apply Hq. by right.
  - destruct (a_run w) as [|id' r|] eqn:Hr; [done| |done]. cbn. case_decide as E; [|done]. subst.
    destruct (ai_held w Hi id r Hr) as [? E]. congruence.
Qed.

(** A torrent does something by itself. *)
Lemma with_side_inv w id d' :
  a_inv w ->
  (sd_closed d' = false ->
   match a_sides w !! id with
   | Some d => sd_closed d = false /\ (tor_ok (sd_t d) -> tor_ok (sd_t d') /\ (here d' + left_over d' <= here d + left_over d)%nat)
   | None => tor_ok (sd_t d') /\ (here d' + left_over d' <= 2)%nat
   end) ->
  (sd_main d' = [] -> sd_dialers d' = [] -> cleared d') ->
  a_inv (with_side id d' w).
Proof.
  intros Hi Hd Hf. constructor; cbn.
  - intros id' d. destruct (decide (id = id')) as [<-|Hne].
    + rewrite lookup_insert_eq. intros [= <-] Hc. specialize (Hd Hc).
      change (unanswered (with_side id d' w) id d') with (here d' + waiting id (a_queue w) + held id (a_run w))%nat. destruct (a_sides w !! id) as [d|] eqn:E.
      * destruct Hd as [Hc' Hd]. destruct (ai_sides w Hi id d E Hc') as [Ht Hn]. destruct (Hd Ht) as [Ht' Hn']. split; [done|].
        unfold unanswered in Hn. lia.
      * destruct (known_fresh w id Hi E) as [-> ->]. split; [apply Hd|]. destruct Hd. lia.
    + rewrite lookup_insert_ne by done. apply (ai_sides w Hi).
  - intros a Ha. by apply insert_is_Some, (ai_known w Hi).
  - intros id' r Hr. by eapply insert_is_Some, (ai_held w Hi).
  - apply (ai_gone w Hi).
  - intros id' d1. destruct (decide (id = id')) as [<-|Hne]; [rewrite lookup_insert_eq; by intros [= <-]|].
    rewrite lookup_insert_ne by done. apply (ai_flag w Hi).
Qed.

Lemma a_turn_ok inp t t' : tor_ok t -> input_ok t inp -> turn inp t = Ok ((), t') -> isClosed (t_data t') = false -> tor_ok t'.
Proof. intros Ht Hin E Hc. eapply (tor_ok_step env ip6_String int_of_Inf sha1_Sum openStorage SelectorF outboundIP); [exact Ht|].
  by eapply (ts_turn _ _ _ _ _ _ _ inp). Qed.

Lemma shared_ok t t' : shared_step t t' ->
  (tor_ok t -> tor_ok t') /\ spends t t' /\ t_events t' = t_events t /\ isClosed (t_data t') = isClosed (t_data t) /\
  canAnnounceTracker (t_dial t') = canAnnounceTracker (t_dial t).
Proof.
  intros Hs. split.
  - intros Ht. eapply (tor_ok_step env ip6_String int_of_Inf sha1_Sum openStorage SelectorF outboundIP); [exact Ht|].
    destruct Hs; [by eapply ts_pieces|apply ts_metadata|apply ts_banned].
  - destruct Hs; split_and!; try done; by apply spends_nothing.
Qed.

Lemma cleared_after t t' new main dialers resp timer :
  new = [] -> cleared (mkSide t' (flag_while t t' new) main dialers resp timer).
Proof. unfold cleared. by intros ->. Qed.

Lemma start_spends cfg info ann ib t0 :
  start env ip6_String int_of_Inf openStorage SelectorF outboundIP (newTorrent cfg info ann ib) = Ok ((), t0) ->
  spends (newTorrent cfg info ann ib) t0.
Proof.
  assert (Hf : frames spends (start env ip6_String int_of_Inf openStorage SelectorF outboundIP : M B S unit)); [|by intros E%Hf].
  unfold start. apply (frames_bind spends); [apply (frames_gets spends)|]. intros b.
  apply (frames_bind spends); [|intros _; apply (frames_tryAnnounceAll env int_of_Inf spends)].
  apply (frames_when spends). apply (frames_gotInfo env ip6_String int_of_Inf openStorage SelectorF outboundIP spends). apply _.
Qed.

Lemma submit_inv w id d d' e s :
  a_inv w -> a_sides w !! id = Some d -> sd_t d' = sd_t d -> sd_flag d' = false -> (here d' + 1 = here d)%nat -> sd_timer d' = sd_timer d ->
  a_inv (mkAsys (<[id := d']> (a_sides w)) (a_queue w ++ [mkAnnouncement id e s]) (a_run w) (a_trackers w) (a_closed w)).
Proof.
  intros Hi E Ht Hfl Hh Hti. constructor; cbn.
  - intros id' d1. unfold unanswered. cbn. rewrite waiting_app, waiting_single. cbn. destruct (decide (id = id')) as [<-|Hne].
    + rewrite lookup_insert_eq. intros [= <-] Hc. unfold sd_closed in Hc. rewrite Ht in Hc. destruct (ai_sides w Hi id d E Hc) as [H1' H2'].
      unfold unanswered in H2'. unfold left_over in *. rewrite Ht, Hti. split; [done|lia].
    + rewrite lookup_insert_ne by done. intros E1 Hc. destruct (ai_sides w Hi id' d1 E1 Hc) as [H1' H2']. unfold unanswered in H2'. split; [done|lia].
  - intros a [Ha| ->%list_elem_of_singleton]%elem_of_app; [by apply insert_is_Some, (ai_known w Hi)|]. cbn. by rewrite lookup_insert_eq.
  - intros id' r Hr. by eapply insert_is_Some, (ai_held w Hi).
  - apply (ai_gone w Hi).
  - intros id' d1. destruct (decide (id = id')) as [<-|Hne]; [rewrite lookup_insert_eq; intros [= <-] _ _; unfold cleared; congruence|].
    rewrite lookup_insert_ne by done. apply (ai_flag w Hi).
Qed.

Lemma take_inv w a rest r trackers :
  a_inv w -> a_run w = AIdle -> a_queue w = a :: rest -> a_inv (mkAsys (a_sides w) rest (ASend (an_torrent a) r) trackers (a_closed w)).
Proof.
  intros Hi Hr Hq. constructor; cbn.
  - intros id d E Hc. destruct (ai_sides w Hi id d E Hc) as [H1' H2']. split; [done|]. unfold unanswered in *. rewrite Hr, Hq in H2'.
    rewrite waiting_cons, waiting_single in H2'. cbn in *. lia.
  - intros b Hb. apply (ai_known w Hi). rewrite Hq. by right.
  - intros id r' [= <- _]. apply (ai_known w Hi). rewrite Hq. by left.
  - done.
  - apply (ai_flag w Hi).
Qed.

Lemma respond_inv w id r d :
  a_inv w -> a_run w = ASend id r -> a_sides w !! id = Some d -> sd_resp d = None ->
  a_inv (mkAsys (<[id := mkSide (sd_t d) (sd_flag d) (sd_main d) (sd_dialers d) (Some r) (sd_timer d)]> (a_sides w)) (a_queue w) AIdle (a_trackers w) (a_closed w)).
Proof.
  intros Hi Hr E Hn. constructor; cbn.
  - intros id' d1. destruct (decide (id = id')) as [<-|Hne].
    + rewrite lookup_insert_eq. intros [= <-] Hc. destruct (ai_sides w Hi id d E Hc) as [H1' H2']. split; [done|].
      unfold unanswered, here, left_over in *. rewrite Hr, Hn in H2'. cbn in *. rewrite decide_True in H2' by done. lia.
    + rewrite lookup_insert_ne by done. intros E1 Hc. destruct (ai_sides w Hi id' d1 E1 Hc) as [H1' H2']. split; [done|].
      unfold unanswered in *. cbn. lia.
  - intros a Ha. by apply insert_is_Some, (ai_known w Hi).
  - done.
  - done.
  - intros id' d1. destruct (decide (id = id')) as [<-|Hne].
    + rewrite lookup_insert_eq. intros [= <-]. apply (ai_flag w Hi _ _ E).
    + rewrite lookup_insert_ne by done. apply (ai_flag w Hi).
Qed.

Lemma step_inv w w' : a_inv w -> cstep w w' -> a_inv w'.
Proof.
  intros Hi Hst. destruct Hst as [w a rest d r trackers Hr Hq E Ea|w id r d Hr E Hc Hn|w Hr Hcl|w|w id cfg info ann ib t0 E Hs E0
    |w id d e s rest E Hm Hl|w id d l e s rest E Hm Hl|w id d inp t' E Hmay Hc Hm Ho Hin Et|w id d t' E Hmay Hc Hm Htm Et
    |w id d r t' E Hmay Hc Hm Hr Et|w id d addr t' E Hmay Hc Ha Et|w id d t' E Hsh].
  - by eapply take_inv.
  - by eapply respond_inv.
  - constructor; cbn; [|apply Hi|done|done|apply Hi]. intros id d E Hc. destruct (ai_sides w Hi id d E Hc) as [H1' H2'].
    unfold unanswered in *. rewrite Hr in H2'. done.
  - constructor; cbn; [apply Hi|apply Hi|apply Hi|done|apply Hi].
  - apply with_side_inv; [done| |intros Hn _; by apply cleared_after]. intros _. rewrite E.
    destruct (okay_started env ip6_String int_of_Inf sha1_Sum openStorage SelectorF outboundIP cfg info ann ib Hs) as ([] & t1 & E1 & Ht).
    rewrite E0 in E1. injection E1 as <-. split; [done|]. apply start_spends in E0 as (new & -> & Hn).
    change (t_events (newTorrent cfg info ann ib)) with (@nil tevent). cbn [app].
    change (can (newTorrent cfg info ann ib)) with 1%nat in Hn. change (incomplete (newTorrent cfg info ann ib)) with 1%nat in Hn.
    unfold here, left_over. cbn [sd_main sd_dialers sd_resp sd_timer sd_t length Nat.b2n]. lia.
  - apply (submit_inv w id d); try done. unfold here. rewrite Hm. cbn. destruct (sd_resp d); lia.
  - apply (submit_inv w id d); try done. unfold here. cbn. rewrite Hm, !length_app. cbn. lia.
  - apply with_side_inv; [done| |intros Hn _; by apply cleared_after]. intros Hc'. rewrite E. split; [done|]. intros Ht.
    split; [by eapply (a_turn_ok _ (in_memory d)); [apply tor_ok_memory| | |]|].
    pose proof (turn_left d t' Hmay (turn_spends inp (in_memory d) t' Hc ltac:(by intros ->) Et)). unfold here, left_over. cbn [sd_main sd_dialers sd_resp sd_timer sd_t sd_flag Nat.b2n length]. rewrite Hm. cbn [length]. lia.
  - apply with_side_inv; [done| |intros Hn _; by apply cleared_after]. intros Hc'. rewrite E. split; [done|]. intros Ht.
    split; [by eapply (a_turn_ok InTrackerTimer (in_memory d)); [apply tor_ok_memory| | |]|].
    destruct (timer_spends (in_memory d) t' Hc Et) as (new & He & Hn). rewrite (new_announces_app _ _ _ He).
    change (incomplete (in_memory d)) with (incomplete (sd_t d)) in Hn. unfold here, left_over. cbn [sd_main sd_dialers sd_resp sd_timer sd_t sd_flag Nat.b2n length]. rewrite Hm, Htm. cbn [length Nat.b2n]. lia.
  - apply with_side_inv; [done| |intros Hn _; by apply cleared_after]. intros Hc'. rewrite E. split; [done|]. intros Ht.
    split; [by eapply (a_turn_ok (InTracker r) (in_memory d)); [apply tor_ok_memory| | |]|].
    pose proof (turn_left d t' Hmay (turn_spends (InTracker r) (in_memory d) t' Hc ltac:(discriminate) Et)). unfold here, left_over. cbn [sd_main sd_dialers sd_resp sd_timer sd_t sd_flag Nat.b2n length]. rewrite Hm, Hr. cbn [length]. lia.
  - apply with_side_inv; [done| |intros _ [_ Hn]%app_nil; by apply cleared_after]. intros Hc'. rewrite E. split; [done|]. intros Ht. split.
    { eapply (tor_ok_step env ip6_String int_of_Inf sha1_Sum openStorage SelectorF outboundIP); [by apply tor_ok_memory|].
      by eapply (ts_dialed _ _ _ _ _ _ _ _ addr). }
    pose proof (turn_left d t' Hmay (frames_removeHalfOpen env ip6_String int_of_Inf spends addr _ _ _ Et)).
    unfold here, left_over. cbn [sd_main sd_dialers sd_resp sd_timer sd_t sd_flag Nat.b2n length]. rewrite length_app. lia.
  - destruct (shared_ok _ _ Hsh) as (Ht & (new & He & Hn) & He' & Hcl & Hca). apply with_side_inv; [done| |].
    + rewrite E. intros Hc'.
      split; [unfold sd_closed in *; cbn in Hc'; congruence|]. intros Hok. split; [by apply Ht|]. unfold here, left_over. cbn. lia.
    + cbn. intros Hm Hd. unfold cleared. cbn. rewrite Hca. by apply (ai_flag w Hi id d E).
Qed.

Lemma reachable_inv w : c_reachable w -> a_inv w.
Proof.
  intros Hr. refine (rtc_ind_r a_inv a_start _ _ w Hr).
  - by constructor; cbn; [intros ? ? ?|intros ? ?%elem_of_nil| | |intros ? ? ?].
  - intros x y _ Hxy IH. by eapply step_inv.
Qed.

(** ** Every announce is answered *)

Definition all_open w : Prop := a_closed w = false /\ forall id d, a_sides w !! id = Some d -> sd_closed d = false.

(** Nothing is on its way: all torrents have taken the responses to their announces. *)
Definition settled w : Prop := a_run w = AIdle /\ a_queue w = [] /\ map_Forall (fun _ d => here d = 0%nat) (a_sides w).

Lemma insert_open w id d d' q r trackers :
  all_open w -> a_sides w !! id = Some d -> sd_closed d' = false -> all_open (mkAsys (<[id := d']> (a_sides w)) q r trackers (a_closed w)).
Proof.
  intros [Hc Hd] E Hd'. split; [done|]. cbn. intros id' d1. destruct (decide (id = id')) as [<-|Hne].
  - rewrite lookup_insert_eq. by intros [= <-].
  - rewrite lookup_insert_ne by done. apply Hd.
Qed.

(** The main loop of an open torrent that has a response takes it. *)
Lemma receives w id d r :
  a_inv w -> all_open w -> a_sides w !! id = Some d -> sd_main d = [] -> sd_dialers d = [] -> sd_resp d = Some r ->
  exists d', cstep w (with_side id d' w) /\ all_open (with_side id d' w) /\ sd_resp d' = None /\
    (4 * length (sd_main d') + 4 * length (sd_dialers d') + 5 * can (sd_t d') + 5 * incomplete (sd_t d') <=
     5 * can (sd_t d) + 5 * incomplete (sd_t d))%nat.
Proof.
  intros Hi Ho E Hm Hd Hr. pose proof (proj2 Ho id d E) as Hc. destruct (ai_sides w Hi id d E Hc) as [Ht _].
  pose proof (ai_flag w Hi id d E Hm Hd) as Hcl.
  destruct (okay_turn env ip6_String int_of_Inf sha1_Sum openStorage SelectorF outboundIP (InTracker r) (in_memory d)
    (tor_ok_memory d Ht) I) as ([] & t' & Et & _).
  eexists. split_and!; [by eapply as_receive| |done|].
  - eapply insert_open; [done|exact E|]. by eapply (receive_open _ (in_memory d)).
  - pose proof (turn_left d t' Hcl (turn_spends (InTracker r) (in_memory d) t' Hc ltac:(discriminate) Et)).
    cbn [sd_main sd_dialers sd_t]. rewrite Hd. cbn [length]. lia.
Qed.

(** When the channel of responses is full the main loop does not wait for the announcer. *)
Lemma full_main w id r d r0 :
  a_inv w -> all_open w -> a_run w = ASend id r -> a_sides w !! id = Some d -> sd_resp d = Some r0 -> sd_main d = [] /\ sd_dialers d = [].
Proof.
  intros Hi Ho Hr E Hd. destruct (ai_sides w Hi id d E (proj2 Ho id d E)) as [_ Hn]. unfold unanswered, here in Hn.
  rewrite Hr, Hd in Hn. cbn [held] in Hn. rewrite decide_True in Hn by done.
  destruct (sd_main d); [|cbn in Hn; lia]. destruct (sd_dialers d); [done|cbn in Hn; lia].
Qed.

(** The announcer gets rid of its response. *)
Lemma responds w id r :
  a_inv w -> all_open w -> a_run w = ASend id r ->
  exists w' d', rtc cstep w w' /\ a_inv w' /\ all_open w' /\ a_run w' = AIdle /\ a_queue w' = a_queue w /\
    a_sides w' !! id = Some d' /\ sd_resp d' = Some r.
Proof.
  assert (Hnow : forall w d, a_inv w -> all_open w -> a_run w = ASend id r -> a_sides w !! id = Some d -> sd_resp d = None ->
    exists w' d', rtc cstep w w' /\ a_inv w' /\ all_open w' /\ a_run w' = AIdle /\ a_queue w' = a_queue w /\
      a_sides w' !! id = Some d' /\ sd_resp d' = Some r).
  { intros v d Hi Ho Hr E Hn. pose proof (proj2 Ho id d E) as Hc. eexists _, _.
    split_and!; [by eapply rtc_once, (as_respond cleared)|by eapply respond_inv|by eapply (insert_open v id d)|done|done|cbn; by rewrite lookup_insert_eq|done]. }
  intros Hi Ho Hr. destruct (ai_held w Hi id r Hr) as [d E]. destruct (sd_resp d) as [r0|] eqn:Hd; [|by apply (Hnow w d)].
  destruct (full_main w id r d r0 Hi Ho Hr E Hd) as [Hm Hm'].
  destruct (receives w id d r0 Hi Ho E Hm Hm' Hd) as (d1 & Hs & Ho1 & Hn1 & _).
  destruct (Hnow (with_side id d1 w) d1) as (w' & d' & Hw & ?); [by eapply step_inv|done|done|cbn; by rewrite lookup_insert_eq|done|].
  exists w', d'. split; [|done]. by eapply rtc_l.
Qed.

(** *** All announces *)

Definition side_work d : nat :=
  4 * length (sd_main d) + 4 * length (sd_dialers d) + (match sd_resp d with Some _ => 1 | None => 0 end) + 5 * can (sd_t d) + 5 * incomplete (sd_t d).
Definition total (m : gmap nat tside) : nat := map_fold (fun _ d n => side_work d + n)%nat 0%nat m.
Definition work w : nat := 3 * length (a_queue w) + (match a_run w with ASend _ _ => 2 | _ => 0 end) + total (a_sides w).

Lemma total_insert m id d d' : m !! id = Some d -> (total (<[id := d']> m) + side_work d = total m + side_work d')%nat.
Proof.
  intros E. unfold total. rewrite <- insert_delete_eq.
  rewrite (map_fold_insert_L (fun _ d n => side_work d + n)%nat 0%nat id d' (delete id m)) by (try (intros; lia); apply lookup_delete_eq).
  rewrite (map_fold_delete_L (fun _ d n => side_work d + n)%nat 0%nat id d m) by (try (intros; lia); done). lia.
Qed.

Lemma works w : a_inv w -> all_open w -> settled w \/ exists w', cstep w w' /\ all_open w' /\ (work w' < work w)%nat.
Proof.
  intros Hi Ho. destruct (a_run w) as [|id r|] eqn:Hr.
  - destruct (a_queue w) as [|a rest] eqn:Hq.
    + destruct (decide (map_Forall (fun _ d => here d = 0%nat) (a_sides w))) as [Hall|Hex]; [by left|]. right.
      apply map_not_Forall in Hex as (id & d & E & Hn); [|intros; apply _]. pose proof (proj2 Ho id d E) as Hc.
      destruct (sd_main d) as [|[e s] rest] eqn:Hm; [destruct (sd_dialers d) as [|[e s] rest] eqn:Hd; [destruct (sd_resp d) as [r0|] eqn:Hres|]|].
      * destruct (receives w id d r0 Hi Ho E Hm Hd Hres) as (d' & Hs & Ho' & Hn' & Hw). eexists. split_and!; [exact Hs|done|].
        unfold work. cbn. pose proof (total_insert _ _ _ d' E) as Ht. unfold side_work in Ht. rewrite Hm, Hd, Hres, Hn' in Ht.
        cbn [length] in *. lia.
      * unfold here in Hn. rewrite Hm, Hd, Hres in Hn. done.
      * eexists. split_and!; [apply (as_submit_dialer cleared w id d [] e s rest E Hd); rewrite Hq; cbn; lia|by eapply insert_open|].
        unfold work. cbn [a_queue a_run a_sides app]. rewrite Hq, Hr.
        match goal with |- context [<[id := ?x]> _] => pose proof (total_insert _ _ _ x E) as Ht end. unfold side_work in Ht. cbn in Ht.
        rewrite Hm, Hd in *. cbn [length app] in *. lia.
      * eexists. split_and!; [apply (as_submit cleared w id d e s rest E Hm); rewrite Hq; cbn; lia|by eapply insert_open|].
        unfold work. cbn [a_queue a_run a_sides app]. rewrite Hq, Hr.
        match goal with |- context [<[id := ?x]> _] => pose proof (total_insert _ _ _ x E) as Ht end. unfold side_work in Ht. cbn in Ht.
        rewrite Hm in *. cbn [length app] in *. lia.
    + right. destruct (ai_known w Hi a) as [d E]; [rewrite Hq; by left|]. destruct (answer a (sd_t d) (a_trackers w)) as [r trackers] eqn:Ea.
      eexists. split_and!; [by eapply as_take|exact Ho|]. unfold work. cbn. rewrite Hq, Hr. cbn. lia.
  - right. destruct (ai_held w Hi id r Hr) as [d E]. pose proof (proj2 Ho id d E) as Hc. destruct (sd_resp d) as [r0|] eqn:Hd.
    + destruct (full_main w id r d r0 Hi Ho Hr E Hd) as [Hm Hm'].
      destruct (receives w id d r0 Hi Ho E Hm Hm' Hd) as (d' & Hs & Ho' & Hn' & Hw). eexists. split_and!; [exact Hs|done|].
      unfold work. cbn. pose proof (total_insert _ _ _ d' E) as Ht. unfold side_work in Ht. rewrite Hm, Hm', Hd, Hn' in Ht. cbn [length] in *. lia.
    + eexists. split_and!; [by eapply as_respond|by eapply insert_open|]. unfold work. cbn. rewrite Hr.
      match goal with |- context [<[id := ?x]> _] => pose proof (total_insert _ _ _ x E) as Ht end. unfold side_work in Ht. cbn in Ht. rewrite Hd in Ht.
      lia.
  - apply (ai_gone w Hi) in Hr. destruct Ho. congruence.
Qed.

Lemma settles w : a_inv w -> all_open w -> exists w', rtc cstep w w' /\ settled w' /\ all_open w'.
Proof.
  induction (Nat.lt_wf_0_projected work w) as [w _ IH]. intros Hi Ho. destruct (works w Hi Ho) as [Hs|(w1 & Hst & Ho1 & Hlt)]; [by exists w|].
  destruct (IH w1 Hlt ltac:(by eapply step_inv) Ho1) as (w' & Hw & ?). exists w'. split; [by eapply rtc_l|done].
Qed.

(** ** The announcer that waits for ever *)

(** The announcer has a response for a torrent that is closed, whose channel is nil; or for one
    whose channel is full and whose main loop waits for room in the queue of announces, which
    is full too. *)
Definition blocked (q : list announcement) d : Prop :=
  sd_closed d = true \/ is_Some (sd_resp d) /\ sd_main d <> [] /\ 5 <= lenZ q.
Definition stuck id r w : Prop := a_run w = ASend id r /\ exists d, a_sides w !! id = Some d /\ blocked (a_queue w) d.

(** No torrent gets a response, and who waits for the full queue goes on waiting. *)
Definition starves w w' : Prop :=
  a_queue w `prefix_of` a_queue w' /\
  forall id d, a_sides w !! id = Some d -> exists d', a_sides w' !! id = Some d' /\ (sd_resp d = None -> sd_resp d' = None) /\
    (5 <= lenZ (a_queue w) -> sd_main d <> [] -> sd_main d' = sd_main d).

Lemma starves_insert w id d d' q r trackers c :
  a_queue w `prefix_of` q -> a_sides w !! id = Some d -> (sd_resp d = None -> sd_resp d' = None) ->
  (5 <= lenZ (a_queue w) -> sd_main d <> [] -> sd_main d' = sd_main d) -> starves w (mkAsys (<[id := d']> (a_sides w)) q r trackers c).
Proof.
  intros Hq E Hr Hm. split; [done|]. cbn. intros id' d0 E0. destruct (decide (id = id')) as [<-|Hne].
  - rewrite lookup_insert_eq. eexists. rewrite E in E0. injection E0 as <-. by split_and!.
  - rewrite lookup_insert_ne by done. by exists d0.
Qed.

Lemma blocked_more q q' d : q `prefix_of` q' -> blocked q d -> blocked q' d.
Proof. intros Hq%prefix_length [?|(? & ? & ?)]; [by left|right]. split_and!; [done..|lia]. Qed.

Lemma stuck_insert id r w id' d d' q trackers c :
  stuck id r w -> a_sides w !! id' = Some d -> a_queue w `prefix_of` q -> (blocked (a_queue w) d -> blocked (a_queue w) d') ->
  stuck id r (mkAsys (<[id' := d']> (a_sides w)) q (a_run w) trackers c).
Proof.
  intros [Hr (d0 & E0 & Hb)] E Hq Hd. split; [done|]. cbn. destruct (decide (id' = id)) as [->|Hne].
  - rewrite lookup_insert_eq. eexists. split; [done|]. eapply blocked_more; [done|]. apply Hd. congruence.
  - rewrite lookup_insert_ne by done. exists d0. split; [done|]. by eapply blocked_more.
Qed.

(** A torrent that takes a turn of its main loop does not block the announcer. *)
Lemma blocked_turn q d d' : sd_closed d = false -> sd_main d = [] -> blocked q d -> blocked q d'.
Proof. intros Hc Hm [?|(_ & ? & _)]; [congruence|done]. Qed.

Lemma stuck_step id r w w' : stuck id r w -> astep w w' -> stuck id r w' /\ starves w w'.
Proof.
  intros Hs Hst. assert (Hrefl : forall c, stuck id r (mkAsys (a_sides w) (a_queue w) (a_run w) (a_trackers w) c) /\
    starves w (mkAsys (a_sides w) (a_queue w) (a_run w) (a_trackers w) c)) by (intros c; split; [done|split; [done|intros ? d ?; by exists d]]).
  destruct Hst as [w a rest d r0 trackers Hr|w id0 r0 d Hr E Hc Hn|w Hr Hcl|w|w id0 cfg info ann ib t0 E
    |w id0 d e s rest E Hm Hl|w id0 d l e s rest E Hm Hl|w id0 d inp t' E _ Hc Hm|w id0 d t' E _ Hc Hm|w id0 d r0 t' E _ Hc Hm
    |w id0 d addr t' E _ Hc|w id0 d t' E Hsh]; try (destruct Hs as [Hs _]; congruence); try apply Hrefl.
  - exfalso. destruct Hs as [Hs (d0 & E0 & Hb)]. rewrite Hr in Hs. injection Hs as -> _. rewrite E in E0. injection E0 as <-.
    destruct Hb as [?|([? Hx] & _)]; congruence.
  - destruct Hs as [Hs (d0 & E0 & Hc0)]. split.
    + split; [done|]. exists d0. cbn. rewrite lookup_insert_ne by congruence. done.
    + split; [done|]. cbn. intros id' d1 E1. exists d1. rewrite lookup_insert_ne by congruence. done.
  - split; [eapply (stuck_insert id r w id0 d); [done|done|by eexists|]|eapply (starves_insert w id0 d); [by eexists|done|done|lia]].
    intros [?|(? & _ & ?)]; [by left|lia].
  - split; [eapply (stuck_insert id r w id0 d); [done|done|by eexists|]|eapply (starves_insert w id0 d); [by eexists|done|done|lia]].
    intros [?|(? & _ & ?)]; [by left|lia].
  - split; [eapply (stuck_insert id r w id0 d); [done|done|done|by apply blocked_turn]|by eapply (starves_insert w id0 d)].
  - split; [eapply (stuck_insert id r w id0 d); [done|done|done|by apply blocked_turn]|by eapply (starves_insert w id0 d)].
  - split; [eapply (stuck_insert id r w id0 d); [done|done|done|by apply blocked_turn]|by eapply (starves_insert w id0 d)].
  - split; [eapply (stuck_insert id r w id0 d); [done|done|done|]|by eapply (starves_insert w id0 d)].
    intros [?|?]; [congruence|by right].
  - destruct (shared_ok _ _ Hsh) as (_ & _ & _ & Hcl & _).
    split; [eapply (stuck_insert id r w id0 d); [done|done|done|]|by eapply (starves_insert w id0 d)].
    intros [?|?]; [left; unfold sd_closed in *; cbn; congruence|by right].
Qed.

Lemma starves_refl w : starves w w.
Proof. split; [done|]. intros id d E. by exists d. Qed.

Lemma starves_trans w1 w2 w3 : starves w1 w2 -> starves w2 w3 -> starves w1 w3.
Proof.
  intros [Q1 S1] [Q2 S2]. split; [by etrans|]. intros id d E. destruct (S1 id d E) as (d1 & E1 & R1 & M1).
  destruct (S2 id d1 E1) as (d2 & E2 & R2 & M2). exists d2. split_and!; [done|by intros ?%R1%R2|].
  intros Hl Hm. specialize (M1 Hl Hm). rewrite M2; [done| |by rewrite M1]. apply prefix_length in Q1. lia.
Qed.

Lemma stuck_for_ever id r w w' : stuck id r w -> rtc astep w w' -> stuck id r w' /\ starves w w'.
Proof.
  intros Hs Hw. induction Hw as [w|w1 w2 w3 Hst Hw IH]; [split; [done|apply starves_refl]|].
  destruct (stuck_step id r _ _ Hs Hst) as [Hs2 Hst2]. destruct (IH Hs2) as [Hs3 Hst3]. split; [done|]. by eapply starves_trans.
Qed.

(** ** Theorems *)


(** C38: A torrent that is closed while its announce is being made stops the announcer of the
    client for ever: its channel of responses is nil then. No other torrent gets a response any
    more, and when the queue is full the main loops that announce never go on. *)
Theorem announcer_stuck w w' id r d :
  a_run w = ASend id r -> a_sides w !! id = Some d -> sd_closed d = true -> rtc astep w w' ->
  a_run w' = ASend id r /\ starves w w'.
Proof.
  intros Hr E Hc Hw. destruct (stuck_for_ever id r w w') as [[? _] ?]; [|done..]. split; [done|]. exists d. split; [done|by left].
Qed.

(** Dialers that read the flag before it is cleared can fill the queue and the channel of
    responses of their torrent. When its main loop then waits to submit, it and the announcer
    wait for each other for ever, although the torrent is open. *)
Theorem announce_circle w w' id r d :
  a_run w = ASend id r -> a_sides w !! id = Some d -> is_Some (sd_resp d) -> sd_main d <> [] -> 5 <= lenZ (a_queue w) ->
  rtc astep w w' ->
  a_run w' = ASend id r /\ starves w w' /\ exists d', a_sides w' !! id = Some d' /\ sd_main d' = sd_main d.
Proof.
  intros Hr E Hd Hm Hq Hw. destruct (stuck_for_ever id r w w') as [[? _] Hst]; [|done|].
  - split; [done|]. exists d. split; [done|by right].
  - split_and!; [done|done|]. destruct (proj2 Hst id d E) as (d' & E' & _ & Hm'). exists d'. split; [done|by apply Hm'].
Qed.

End announcer.
