(* ===== verification/HttpTracker.v ===== *)
(** * tracker/http.go: announces and scrapes over HTTP

    The query of a request, the request, and what is made of the body of a response. Parsing
    and printing URLs, the request itself and the parsing and lookup of addresses are
    parameters. *)

From S2P Require Import Prelude Strconv GoValue BenDecode BenEncode BenTotal Metainfo ConnInfo Tracker.

(** ** Queries (net/url) *)

Definition is_unreserved (b : byte) : bool :=
  let z := b2z b in
  ((97 <=? z) && (z <=? 122)) || ((65 <=? z) && (z <=? 90)) || ((48 <=? z) && (z <=? 57)) ||
  bool_decide (b ∈ ["-"%byte; "_"%byte; "."%byte; "~"%byte]).

Definition upperhex (d : Z) : byte := z2b (if d <? 10 then 48 + d else 55 + d).

Definition escape_byte (b : byte) : bytes :=
  if is_unreserved b then [b]
  else if bool_decide (b = " "%byte) then ["+"%byte]
  else ["%"%byte; upperhex (b2z b / 16); upperhex (b2z b mod 16)].

Definition QueryEscape (s : bytes) : bytes := concat (escape_byte <$> s).

(** url.Values, with one value per key, in the order of the keys. *)
Definition Values : Type := list (bytes * bytes).
Definition Values_Set (k v : bytes) (m : Values) : Values := map_set k v m.

Fixpoint Values_Encode (m : Values) : bytes :=
  match m with
  | [] => []
  | [(k, v)] => QueryEscape k ++ "="%byte :: QueryEscape v
  | (k, v) :: m => QueryEscape k ++ "="%byte :: QueryEscape v ++ "&"%byte :: Values_Encode m
  end.

Definition event_name (e : Event) : bytes :=
  match e with None_ => [] | Completed => bs "completed" | Started => bs "started" | Stopped => bs "stopped" end.

Definition values_of (r : AnnounceReq) : Values :=
  let v := Values_Set (bs "info_hash") (rq_InfoHash r) [] in
  let v := Values_Set (bs "peer_id") (rq_PeerID r) v in
  let v := Values_Set (bs "port") (Itoa (rq_Port r)) v in
  let v := Values_Set (bs "uploaded") (Itoa (rq_Uploaded r)) v in
  let v := Values_Set (bs "downloaded") (Itoa (rq_Downloaded r)) v in
  let v := Values_Set (bs "left") (Itoa (rq_Left r)) v in
  let v := Values_Set (bs "compact") (bs "1") v in
  let v := Values_Set (bs "no_peer_id") (bs "1") v in
  let v := if negb (Event_Z (rq_Event r) =? 0) then Values_Set (bs "event") (event_name (rq_Event r)) v else v in
  let v := if negb (rq_Numwant r =? -1) then Values_Set (bs "numwant") (Itoa (rq_Numwant r)) v else v in
  if negb (rq_Key r =? 0) then Values_Set (bs "key") (Itoa (rq_Key r)) v else v.

Definition queryValues (r : AnnounceReq) : bytes := Values_Encode (values_of r).

(** The query of a scrape. *)
Definition scrape_values (infoHashes : list bytes) : Values :=
  foldl (fun v info => Values_Set (bs "info_hash") info v) [] infoHashes.
Definition scrape_query (infoHashes : list bytes) : bytes := Values_Encode (scrape_values infoHashes).

(** ** Responses *)

Definition Peer_fields : list (sfield * gtype) :=
  [ fld "ID" "peer id" "" TBytes; fld "IP" "ip" "" TBytes; fld "Port" "port" "" (TUint 16) ].

Definition httpAnnounce_fields : list (sfield * gtype) :=
  [ fld "Fail" "failure reason" "omit" TString;
    fld "Warning" "warning message" "omit" TString;
    fld "Interval" "interval" "" (TInt 32);
    fld "MinInterval" "min interval" "omit" (TInt 32);
    fld "TrackerID" "tracker id" "omit" TBytes;
    fld "Complete" "complete" "omit" (TInt 32);
    fld "Incomplete" "incomplete" "omit" (TInt 32);
    fld "Peers" "peers" "omit" (TSlice (TStruct Peer_fields));
    fld "CheapPeers" "peers" "omit" TBytes ].
Definition httpAnnounce_type : gtype := TStruct httpAnnounce_fields.

Record httpAnnounceResponse := mkHttpResp {
  h_Fail : bytes;
  h_Warning : bytes;
  h_Interval : Z;
  h_MinInterval : Z;
  h_TrackerID : option bytes;
  h_Complete : Z;
  h_Incomplete : Z;
  h_Peers : option (list tpeer);
  h_CheapPeers : option bytes;
}.

Definition Peer_of (v : gval) : option tpeer :=
  match v with
  | VStruct [VBytes id; VBytes ip; VUint port] => Some (mkTPeer id (default [] ip) port)
  | _ => None
  end.

Definition httpResp_of (v : gval) : option httpAnnounceResponse :=
  match v with
  | VStruct [VString fail; VString warn; VInt interval; VInt minInterval; VBytes id; VInt complete; VInt incomplete; peers; VBytes cheap] =>
      peers ← val_slice Peer_of peers;
      Some (mkHttpResp fail warn interval minInterval id complete incomplete peers cheap)
  | _ => None
  end.

Inductive herr :=
| HURL | HRequest | HDo | HRead | HBencode (e : derror) | HFail (msg : bytes) | HWarning (msg : bytes) | HPeerID | HLookup | HNoPeers | HHashLength.

(** net/url and net/http: a URL is parsed, gets another query and is printed; a request is made
    of its text and sent over the network, and the body of the response is read. *)
Record Web (URL N : Type) := mkWeb {
  url_Parse : bytes -> option URL;
  url_Scheme : URL -> bytes;
  url_Host : URL -> bytes;
  with_RawQuery : bytes -> URL -> URL;
  url_String : URL -> bytes;
  NewRequest : bytes -> bool;
  client_Do : bytes -> N -> option (option bytes) * N;
}.
Arguments url_Parse {URL N} w.
Arguments url_Scheme {URL N} w.
Arguments url_Host {URL N} w.
Arguments with_RawQuery {URL N} w.
Arguments url_String {URL N} w.
Arguments NewRequest {URL N} w.
Arguments client_Do {URL N} w.

(** The body of the response to a request for a URL. *)
Definition get_body {URL N} (w : Web URL N) (u : URL) (n : N) : result herr bytes * N :=
  if negb (NewRequest w (url_String w u)) then (Err HRequest, n)
  else
    let '(resp, n) := client_Do w (url_String w u) n in
    (match resp with None => Err HDo | Some None => Err HRead | Some (Some benData) => Ok benData end, n).

Section http.
(** net.ParseIP, and net.LookupIP, which fails or gives addresses. *)
Variable ParseIP : bytes -> option bytes.
Variable LookupIP : bytes -> option (list bytes).

Fixpoint parse_peers (l : list tpeer) : result herr (list tpeer) :=
  match l with
  | [] => Ok []
  | p :: l =>
      if negb (length (default [] (tp_ID p)) =? 20)%nat then Err HPeerID
      else
        ip ← match ParseIP (tp_IP p) with
             | Some ip => Ok ip
             | None => match LookupIP (tp_IP p) with
                       | None => Err HLookup
                       | Some (ip :: _) => Ok ip
                       | Some [] => Panic
                       end
             end;
        rest ← parse_peers l;
        Ok (mkTPeer (tp_ID p) ip (tp_Port p) :: rest)
  end.

Definition with_peers (r : httpAnnounceResponse) (l : list tpeer) : httpAnnounceResponse :=
  mkHttpResp (h_Fail r) (h_Warning r) (h_Interval r) (h_MinInterval r) (h_TrackerID r) (h_Complete r) (h_Incomplete r)
    (Some l) (h_CheapPeers r).

Definition resp_parse (r : httpAnnounceResponse) : result herr httpAnnounceResponse :=
  if negb (bool_decide (h_Fail r = [])) then Err (HFail (h_Fail r))
  else if negb (bool_decide (h_Warning r = [])) then Err (HWarning (h_Warning r))
  else match h_Peers r, h_CheapPeers r with
       | Some l, _ => with_peers r <$> parse_peers l
       | None, Some cheap => Ok (with_peers r (cheap_peers cheap))
       | None, None => Err HNoPeers
       end.

Definition announceResp (r : httpAnnounceResponse) : AnnounceResp :=
  mkAnnounceResp (h_Interval r) (h_Incomplete r) (h_Complete r) (default [] (h_Peers r)) (h_MinInterval r).

(** What is made of the body. *)
Definition announce_body (body : bytes) : result herr httpAnnounceResponse :=
  match Decode body httpAnnounce_type (zero httpAnnounce_type) with
  | Ok (v, None) => match httpResp_of v with Some r => resp_parse r | None => Panic end
  | Ok (_, Some e) => Err (HBencode e)
  | Err e => Err (HBencode e)
  | Panic => Panic
  end.

Definition buildURL {URL N} (w : Web URL N) (url : bytes) (r : AnnounceReq) : option URL :=
  (fun u => with_RawQuery w (queryValues r) u) <$> url_Parse w url.

Definition http_announce {URL N} (w : Web URL N) (url : bytes) (r : AnnounceReq) (n : N) : result herr httpAnnounceResponse * N :=
  match buildURL w url r with
  | None => (Err HURL, n)
  | Some u => let '(body, n) := get_body w u n in (benData ← body; announce_body benData, n)
  end.

(** The tracker id [id] is kept, and changed when the response has another one. *)
Definition http_Announce {URL N} (w : Web URL N) (url : bytes) (r : AnnounceReq) (id : option bytes) (n : N)
    : result herr AnnounceResp * option bytes * N :=
  let '(resp, n) := http_announce w url r n in
  match resp with
  | Ok resp =>
      let id := match h_TrackerID resp with
                | None => id
                | Some new => if bool_decide (id = Some new) then id else Some new
                end in
      (Ok (announceResp resp), id, n)
  | Err e => (Err e, id, n)
  | Panic => (Panic, id, n)
  end.

End http.

(** *** Scrapes *)

Definition TorrentInfo_fields : list (sfield * gtype) :=
  [ fld "Seeders" "complete" "" (TInt 32); fld "Downloaded" "downloaded" "" (TInt 32);
    fld "Leechers" "incomplete" "" (TInt 32); fld "Name" "name" "omit" TString ].
Definition httpScrape_fields : list (sfield * gtype) :=
  [ fld "Files" "files" "" (TMap (TStruct TorrentInfo_fields)); fld "Fail" "failure_reason" "omit" TString ].
Definition httpScrape_type : gtype := TStruct httpScrape_fields.

Definition TorrentInfo_of (v : gval) : option TorrentInfo :=
  match v with VStruct [VInt s; VInt d; VInt l; VString n] => Some (mkTorrentInfo s d l n) | _ => None end.

(** The files and the failure. *)
Definition httpScrape_of (v : gval) : option (ScrapeResp * bytes) :=
  match v with
  | VStruct [VMap m; VString fail] =>
      files ← mapM (fun e => (fun i => (e.1, i)) <$> TorrentInfo_of e.2) (default [] m); Some (files, fail)
  | _ => None
  end.

Definition scrape_parse (files : ScrapeResp) (fail : bytes) : result herr ScrapeResp :=
  if negb (bool_decide (fail = [])) then Err (HFail fail)
  else if forallb (fun e => (length e.1 =? 20)%nat) files then Ok files else Err HHashLength.

Definition scrape_body (body : bytes) : result herr ScrapeResp :=
  match Decode body httpScrape_type (zero httpScrape_type) with
  | Ok (v, None) => match httpScrape_of v with Some (files, fail) => scrape_parse files fail | None => Panic end
  | Ok (_, Some e) => Err (HBencode e)
  | Err e => Err (HBencode e)
  | Panic => Panic
  end.

(** Nothing is done when the tracker has no scrape convention: the URL is then empty. *)
Definition http_scrape {URL N} (w : Web URL N) (url : bytes) (infoHashes : list bytes) (n : N) : result herr ScrapeResp * N :=
  match url_Parse w (ScrapeURL url) with
  | None => (Err HURL, n)
  | Some u =>
      let '(body, n) := get_body w (with_RawQuery w (scrape_query infoHashes) u) n in
      (benData ← body; scrape_body benData, n)
  end.

(** ** Reading a query back

    The reading of a query that the receiver does: url.ParseQuery. *)

Definition unhex (b : byte) : option Z :=
  let z := b2z b in
  if (48 <=? z) && (z <=? 57) then Some (z - 48)
  else if (97 <=? z) && (z <=? 102) then Some (z - 87)
  else if (65 <=? z) && (z <=? 70) then Some (z - 55)
  else None.

Fixpoint QueryUnescape (s : bytes) : option bytes :=
  match s with
  | [] => Some []
  | b :: s =>
      if bool_decide (b = "%"%byte) then
        match s with
        | x :: y :: s => a ← unhex x; c ← unhex y; r ← QueryUnescape s; Some (z2b (16 * a + c) :: r)
        | _ => None
        end
      else r ← QueryUnescape s; Some ((if bool_decide (b = "+"%byte) then " "%byte else b) :: r)
  end.

Fixpoint split_on (c : byte) (s : bytes) : list bytes :=
  match s with
  | [] => [[]]
  | b :: s =>
      if bool_decide (b = c) then [] :: split_on c s
      else match split_on c s with p :: l => (b :: p) :: l | [] => [[b]] end
  end.

Fixpoint cut (c : byte) (s : bytes) : bytes * bytes :=
  match s with
  | [] => ([], [])
  | b :: s => if bool_decide (b = c) then ([], s) else let '(k, v) := cut c s in (b :: k, v)
  end.

Definition ParseQuery (s : bytes) : option Values :=
  mapM (fun kv => let '(k, v) := cut "="%byte kv in k ← QueryUnescape k; v ← QueryUnescape v; Some (k, v)) (split_on "&"%byte s).

(** The escape of a byte stands for it, and has no separator: for every byte. *)
Definition escape_good (b : byte) : bool :=
  forallb (fun c => negb (bool_decide (c ∈ ["&"%byte; "="%byte]))) (escape_byte b) &&
  match escape_byte b with
  | [c] => negb (bool_decide (c = "%"%byte)) && bool_decide ((if bool_decide (c = "+"%byte) then " "%byte else c) = b)
  | [p; x; y] =>
      bool_decide (p = "%"%byte) &&
      match unhex x, unhex y with Some a, Some c => bool_decide (z2b (16 * a + c) = b) | _, _ => false end
  | _ => false
  end.

Lemma escape_good_all b : escape_good b = true.
Proof. destruct b; by vm_compute. Qed.

Lemma unescape_byte b rest r : QueryUnescape rest = Some r -> QueryUnescape (escape_byte b ++ rest) = Some (b :: r).
Proof.
  intros E. pose proof (escape_good_all b) as Hg. unfold escape_good in Hg. apply andb_true_iff in Hg as [_ Hg].
  destruct (escape_byte b) as [|c [|x [|y [|? ?]]]]; try done; cbn [app QueryUnescape].
  - apply andb_true_iff in Hg as [Hc%negb_true_iff Hb%bool_decide_eq_true]. rewrite Hc, E. cbn [mbind option_bind]. by rewrite Hb.
  - apply andb_true_iff in Hg as [Hc Hb]. rewrite Hc, E. destruct (unhex x) as [p|]; [|done]. destruct (unhex y) as [q|]; [|done].
    apply bool_decide_eq_true in Hb. cbn [mbind option_bind]. by rewrite Hb.
Qed.

Lemma QueryUnescape_Escape s : QueryUnescape (QueryEscape s) = Some s.
Proof. induction s as [|b s IH]; [done|]. by apply unescape_byte. Qed.

Lemma escape_byte_plain b c : c ∈ ["&"%byte; "="%byte] -> c ∉ escape_byte b.
Proof.
  intros Hc Hin. pose proof (escape_good_all b) as Hg. unfold escape_good in Hg. apply andb_true_iff in Hg as [Hg _].
  apply Is_true_true, forallb_True in Hg. pose proof (proj1 (Forall_forall _ _) Hg c Hin) as Hf. cbn beta in Hf.
  apply negb_True in Hf. by apply Hf, bool_decide_pack.
Qed.

Lemma QueryEscape_plain s c : c ∈ ["&"%byte; "="%byte] -> c ∉ QueryEscape s.
Proof.
  intros Hc. induction s as [|b s IH]; [apply not_elem_of_nil|]. intros [Hin|Hin]%elem_of_app; [by apply escape_byte_plain in Hin|by apply IH].
Qed.

Lemma split_on_plain c s : c ∉ s -> split_on c s = [s].
Proof.
  induction s as [|b s IH]; [done|]. intros Hn. cbn. rewrite bool_decide_false by set_solver. by rewrite IH by set_solver.
Qed.

Lemma split_on_app c s rest : c ∉ s -> split_on c (s ++ c :: rest) = s :: split_on c rest.
Proof.
  induction s as [|b s IH]; intros Hn; cbn; [by rewrite bool_decide_true|]. rewrite bool_decide_false by set_solver. by rewrite IH by set_solver.
Qed.

Lemma cut_app c k v : c ∉ k -> cut c (k ++ c :: v) = (k, v).
Proof.
  induction k as [|b k IH]; intros Hn; cbn; [by rewrite bool_decide_true|]. rewrite bool_decide_false by set_solver. by rewrite IH by set_solver.
Qed.

Lemma ParseQuery_Encode m : m <> [] -> ParseQuery (Values_Encode m) = Some m.
Proof.
  assert (Hone : forall k v, (let '(k', v') := cut "="%byte (QueryEscape k ++ "="%byte :: QueryEscape v) in
    k' ← QueryUnescape k'; v' ← QueryUnescape v'; Some (k', v')) = Some (k, v)).
  { intros k v. rewrite cut_app by (apply QueryEscape_plain; right; left). by rewrite !QueryUnescape_Escape. }
  assert (Hno : forall k v, "&"%byte ∉ QueryEscape k ++ "="%byte :: QueryEscape v).
  { assert (Hq : forall s, "&"%byte ∉ QueryEscape s) by (intros s; apply QueryEscape_plain; left).
    intros k v [Hin|[Hin|Hin]%elem_of_cons]%elem_of_app; [by apply Hq in Hin|discriminate|by apply Hq in Hin]. }
  unfold ParseQuery. induction m as [|[k v] m IH]; [done|]. intros _. destruct m as [|e m].
  - cbn [Values_Encode]. rewrite split_on_plain by apply Hno. cbn [mapM]. by rewrite Hone.
  - change (Values_Encode ((k, v) :: e :: m)) with (QueryEscape k ++ "="%byte :: QueryEscape v ++ "&"%byte :: Values_Encode (e :: m)).
    replace (QueryEscape k ++ "="%byte :: QueryEscape v ++ "&"%byte :: Values_Encode (e :: m))
      with ((QueryEscape k ++ "="%byte :: QueryEscape v) ++ "&"%byte :: Values_Encode (e :: m)) by (by rewrite <- (assoc_L (++))).
    rewrite split_on_app by apply Hno. cbn [mapM]. rewrite Hone. cbn [mbind option_bind]. by rewrite IH.
Qed.

(** ** Responses are read without panics *)

Lemma Peer_of_wt v : wt (TStruct Peer_fields) v -> exists p, Peer_of v = Some p.
Proof.
  intros H. destruct v as [| | | | | | | |vals| |]; try done. struct_fields H. cbn [snd fld] in *.
  destruct v; try done. destruct v0; try done. destruct v1; try done. by eexists.
Qed.

Lemma httpResp_of_wt v : wt httpAnnounce_type v -> exists r, httpResp_of v = Some r.
Proof.
  intros H. destruct v as [| | | | | | | |vals| |]; try done. struct_fields H. cbn [snd fld] in *.
  destruct v; try done. destruct v0; try done. destruct v1; try done. destruct v2; try done. destruct v3; try done.
  destruct v4; try done. destruct v5; try done. destruct v7; try done. cbn [httpResp_of].
  destruct (val_slice_wt Peer_of _ v6 Peer_of_wt Hv6) as [ps ->]. by eexists.
Qed.

Lemma TorrentInfo_of_wt v : wt (TStruct TorrentInfo_fields) v -> exists i, TorrentInfo_of v = Some i.
Proof.
  intros H. destruct v as [| | | | | | | |vals| |]; try done. struct_fields H. cbn [snd fld] in *.
  destruct v; try done. destruct v0; try done. destruct v1; try done. destruct v2; try done. by eexists.
Qed.

Lemma httpScrape_of_wt v : wt httpScrape_type v -> exists r, httpScrape_of v = Some r.
Proof.
  intros H. destruct v as [| | | | | | | |vals| |]; try done. struct_fields H. cbn [snd fld] in *.
  destruct v as [| | | | | | |m| | |]; try done. destruct v0; try done. cbn [httpScrape_of]. cbn in Hv.
  assert (exists l, mapM (fun e : bytes * gval => (fun i => (e.1, i)) <$> TorrentInfo_of e.2) (default [] m) = Some l) as [l ->]; [|by eexists].
  induction Hv as [|e l He _ [ys IH]]; [by eexists|]. destruct (TorrentInfo_of_wt _ He) as [i Ei]. cbn. rewrite Ei. cbn. rewrite IH. by eexists.
Qed.

Lemma parse_peers_returns ParseIP LookupIP l : (forall h, LookupIP h <> Some []) -> parse_peers ParseIP LookupIP l <> Panic.
Proof.
  intros Hl. induction l as [|p l IH]; [done|]. cbn [parse_peers]. destruct (negb _); [done|].
  assert (Hr : forall ip, (rest ← parse_peers ParseIP LookupIP l; Ok (mkTPeer (tp_ID p) ip (tp_Port p) :: rest)) <> Panic).
  { intros ip. cbn. by destruct (parse_peers ParseIP LookupIP l). }
  destruct (ParseIP (tp_IP p)) as [ip|]; [apply Hr|]. destruct (LookupIP (tp_IP p)) as [[|ip ips]|] eqn:E; [by apply Hl in E|apply Hr|done].
Qed.

Lemma resp_parse_returns ParseIP LookupIP r : (forall h, LookupIP h <> Some []) -> resp_parse ParseIP LookupIP r <> Panic.
Proof.
  intros Hl. unfold resp_parse. destruct (negb _); [done|]. destruct (negb _); [done|].
  destruct (h_Peers r) as [l|]; [|by destruct (h_CheapPeers r)].
  pose proof (parse_peers_returns ParseIP LookupIP l Hl). cbn. by destruct (parse_peers ParseIP LookupIP l).
Qed.

(** A body gives a response or an error. *)
Lemma announce_body_returns ParseIP LookupIP body :
  (forall host, LookupIP host <> Some []) -> announce_body ParseIP LookupIP body <> Panic.
Proof.
  intros Hl. unfold announce_body.
  pose proof (Decode_shape body httpAnnounce_type (zero httpAnnounce_type) eq_refl (wt_zero httpAnnounce_type eq_refl)) as H.
  destruct (Decode _ _ _) as [[v [e|]]|e|]; try done. destruct (httpResp_of_wt v H) as [r ->]. by apply resp_parse_returns.
Qed.

Lemma scrape_body_returns body : scrape_body body <> Panic.
Proof.
  unfold scrape_body. pose proof (Decode_shape body httpScrape_type (zero httpScrape_type) eq_refl (wt_zero httpScrape_type eq_refl)) as H.
  destruct (Decode _ _ _) as [[v [e|]]|e|]; try done. destruct (httpScrape_of_wt v H) as [[files fail] ->].
  unfold scrape_parse. by repeat case_match.
Qed.

Lemma get_body_returns {URL N} (w : Web URL N) u n : (get_body w u n).1 <> Panic.
Proof. unfold get_body. destruct (negb _); [done|]. destruct (client_Do w _ n) as [[[b|]|] n']; done. Qed.

Lemma http_Announce_returns {URL N} ParseIP LookupIP (w : Web URL N) url r id n :
  (forall host, LookupIP host <> Some []) -> (http_Announce ParseIP LookupIP w url r id n).1.1 <> Panic.
Proof.
  intros Hl. unfold http_Announce, http_announce. destruct (buildURL w url r) as [u|]; [|done].
  pose proof (get_body_returns w u n) as Hb. destruct (get_body w u n) as [body n']. cbn in Hb.
  destruct body as [b|e|]; [|done|done]. cbn. pose proof (announce_body_returns ParseIP LookupIP b Hl). by destruct (announce_body _ _ b).
Qed.

Lemma http_scrape_returns {URL N} (w : Web URL N) url hashes n : (http_scrape w url hashes n).1 <> Panic.
Proof.
  unfold http_scrape. destruct (url_Parse w _) as [u|]; [|done]. pose proof (get_body_returns w (with_RawQuery w (scrape_query hashes) u) n) as Hb.
  destruct (get_body w _ n) as [[b|e|] n']; [|done|done]. apply scrape_body_returns.
Qed.

Lemma scrape_values_snoc l h : scrape_values (l ++ [h]) = Values_Set (bs "info_hash") h (scrape_values l).
Proof. unfold scrape_values. by rewrite foldl_app. Qed.

Lemma scrape_values_shape l : scrape_values l = [] \/ exists y, scrape_values l = [(bs "info_hash", y)].
Proof.
  induction l as [|h l IH] using rev_ind; [by left|]. right. rewrite scrape_values_snoc. destruct IH as [->|[y ->]]; by eexists.
Qed.

(** ** Theorems *)

(** What a tracker makes of an announce: the receiver of the query reads back exactly the
    parameters of the request, in whatever bytes the hash and the id consist of. *)
Theorem query_read_back r :
  exists m, ParseQuery (queryValues r) = Some m /\
    assoc (bs "info_hash") m = Some (rq_InfoHash r) /\ assoc (bs "peer_id") m = Some (rq_PeerID r) /\
    assoc (bs "port") m = Some (Itoa (rq_Port r)) /\ assoc (bs "uploaded") m = Some (Itoa (rq_Uploaded r)) /\
    assoc (bs "downloaded") m = Some (Itoa (rq_Downloaded r)) /\ assoc (bs "left") m = Some (Itoa (rq_Left r)) /\
    assoc (bs "event") m = (if Event_Z (rq_Event r) =? 0 then None else Some (event_name (rq_Event r))) /\
    assoc (bs "numwant") m = (if rq_Numwant r =? -1 then None else Some (Itoa (rq_Numwant r))) /\
    assoc (bs "key") m = (if rq_Key r =? 0 then None else Some (Itoa (rq_Key r))).
Proof.
  exists (values_of r). unfold queryValues, values_of. destruct (Event_Z (rq_Event r) =? 0), (rq_Numwant r =? -1), (rq_Key r =? 0);
    (split; [apply ParseQuery_Encode; discriminate|]); by split_and!.
Qed.


(** A scrape asks for the last of the torrents only. *)
Theorem scrape_asks_last hashes h : scrape_query (hashes ++ [h]) = scrape_query [h].
Proof.
  unfold scrape_query. rewrite scrape_values_snoc. f_equal. destruct (scrape_values_shape hashes) as [->|[y ->]]; done.
Qed.
