(* ===== verification/Trackers.v ===== *)
(** * tracker/tracker.go: trackers by their URL

    A tracker is reached over HTTP or UDP, as the scheme of its URL says. *)

From S2P Require Import Prelude Strconv GoValue BenDecode BenEncode BenTotal Metainfo ConnInfo Tracker TrackerInv HttpTracker.

(** The values behind the interface TrackerURL. *)
Inductive TrackerURL :=
| HTTPTracker (url : bytes) (id : option bytes)
| UDPTracker (url host : bytes) (t : UDPTrackerURL).

Inductive terr := EParse | EBadScheme | EHttp (e : herr) | EUdp (e : uerr).

Section trackers.
Context {URL N : Type} `{Network N}.
Variable web : Web URL N.
Variable ParseIP : bytes -> option bytes.
Variable LookupIP : bytes -> option (list bytes).
Hypothesis LookupIP_some : forall host, LookupIP host <> Some [].

Definition NewTrackerURL (tURL : bytes) : result terr TrackerURL :=
  match url_Parse web tURL with
  | None => Err EParse
  | Some u =>
      if bool_decide (url_Scheme web u ∈ [bs "http"; bs "https"]) then Ok (HTTPTracker tURL None)
      else if bool_decide (url_Scheme web u = bs "udp") then Ok (UDPTracker tURL (addPortMaybe (url_Host web u)) newUDP)
      else Err EBadScheme
  end.

Definition map_err {E E' A} (f : E -> E') (r : result E A) : result E' A :=
  match r with Ok a => Ok a | Err e => Err (f e) | Panic => Panic end.

(** The methods of the interface. *)
Definition Announce (r : AnnounceReq) (t : TrackerURL) (n : N) : result terr AnnounceResp * (TrackerURL * N) :=
  match t with
  | HTTPTracker url id => let '(resp, id, n) := http_Announce ParseIP LookupIP web url r id n in (map_err EHttp resp, (HTTPTracker url id, n))
  | UDPTracker url host u => let '(resp, (u, n)) := udp_announce r (u, n) in (map_err EUdp resp, (UDPTracker url host u, n))
  end.

Definition Scrape (hashes : list bytes) (t : TrackerURL) (n : N) : result terr ScrapeResp * (TrackerURL * N) :=
  match t with
  | HTTPTracker url id => let '(resp, n) := http_scrape web url hashes n in (map_err EHttp resp, (HTTPTracker url id, n))
  | UDPTracker url host u => let '(resp, (u, n)) := UDP_Scrape url hashes (u, n) in (map_err EUdp resp, (UDPTracker url host u, n))
  end.

(** What a user does with a tracker, one call after the other; [None] when one of them panics
    or does not return. *)
Inductive tcall := CAnnounce (r : AnnounceReq) | CScrape (hashes : list bytes).

Definition returned {A} (r : result terr A) : bool := match r with Panic | Err (EUdp UFuel) => false | _ => true end.

Fixpoint tcalls (l : list tcall) (t : TrackerURL) (n : N) : option (TrackerURL * N) :=
  match l with
  | [] => Some (t, n)
  | CAnnounce r :: l => let '(resp, (t, n)) := Announce r t n in if returned resp then tcalls l t n else None
  | CScrape hashes :: l => let '(resp, (t, n)) := Scrape hashes t n in if returned resp then tcalls l t n else None
  end.

(** The timeouts of a UDP tracker are counted. *)
Definition tracker_ok (t : TrackerURL) : Prop := match t with UDPTracker _ _ u => 0 <= u_consecutiveTimeouts u | _ => True end.

Lemma UDP_Scrape_ends url hashes : ends (UDP_Scrape url hashes : UM (N := N) _).
Proof using. unfold UDP_Scrape. case_bool_decide; [by apply ends_fail|apply udp_scrape_ends]. Qed.

Lemma ends_came_back {A} (m : UM (N := N) A) u n :
  ends m -> 0 <= u_consecutiveTimeouts u ->
  returned (map_err EUdp (m (u, n)).1) = true /\ 0 <= u_consecutiveTimeouts (m (u, n)).2.1.
Proof using.
  intros Hm Hu. specialize (Hm (u, n) Hu). destruct (m (u, n)) as [r [u' n']]. destruct Hm as (H1 & H2 & H3). cbn in *.
  split; [by destruct r as [|[]|]|]. cbn in *. lia.
Qed.

Lemma Announce_returns r t n : tracker_ok t -> returned (Announce r t n).1 = true /\ tracker_ok (Announce r t n).2.1.
Proof using LookupIP_some.
  destruct t as [url id|url host u]; cbn [Announce]; intros Ht.
  - pose proof (http_Announce_returns ParseIP LookupIP web url r id n LookupIP_some) as Hr.
    destruct (http_Announce _ _ _ _ _ _ _) as [[[a|e|] id'] n']; done.
  - destruct (ends_came_back (udp_announce r) u n (udp_announce_ends r) Ht) as [H1 H2].
    destruct (udp_announce r (u, n)) as [resp [u' n']]. done.
Qed.

Lemma Scrape_returns hashes t n : tracker_ok t -> returned (Scrape hashes t n).1 = true /\ tracker_ok (Scrape hashes t n).2.1.
Proof using.
  destruct t as [url id|url host u]; cbn [Scrape]; intros Ht.
  - pose proof (http_scrape_returns web url hashes n) as Hr. destruct (http_scrape web url hashes n) as [[a|e|] n']; done.
  - destruct (ends_came_back (UDP_Scrape url hashes) u n (UDP_Scrape_ends url hashes) Ht) as [H1 H2].
    destruct (UDP_Scrape url hashes (u, n)) as [resp [u' n']]. done.
Qed.

Lemma tcalls_return l t n : tracker_ok t -> is_Some (tcalls l t n).
Proof using LookupIP_some.
  revert t n. induction l as [|[r|hashes] l IH]; intros t n Ht; [by eexists|..]; cbn [tcalls].
  - destruct (Announce_returns r t n Ht) as [H1 H2]. destruct (Announce r t n) as [resp [t' n']]. cbn in *. rewrite H1. by apply IH.
  - destruct (Scrape_returns hashes t n Ht) as [H1 H2]. destruct (Scrape hashes t n) as [resp [t' n']]. cbn in *. rewrite H1. by apply IH.
Qed.

(** ** Theorems *)

(** C36: Whatever its URL, its responses, the network and the clock are, making a tracker and
    announcing to it and scraping it any number of times always returns, with responses or
    errors: nothing panics and the retries stop. *)
Theorem trackers_return tURL n l :
  NewTrackerURL tURL <> Panic /\ forall t, NewTrackerURL tURL = Ok t -> is_Some (tcalls l t n).
Proof using LookupIP_some.
  unfold NewTrackerURL. destruct (url_Parse web tURL) as [u|]; [|done].
  case_bool_decide; [|case_bool_decide; [|done]]; (split; [done|]); intros t [= <-]; by apply tcalls_return.
Qed.

End trackers.
