(* ===== verification/Net.v ===== *)
(** * torrent/net.go, misc.go, peer_id.go: addresses, the listening port and the client's identity

    Texts of addresses are taken apart as in the Go library (net.SplitHostPort, net.ParseIP);
    only the text of an IPv6 address is a parameter. Which ports are free and the random bytes
    of the identity are arguments. *)

From S2P Require Import Prelude Strconv Bitfield GoValue Wire Metainfo Bitmap Piece Pieces Metadata ConnInfo Swarm.

(** ** Go's net package *)

Fixpoint IndexByte (s : bytes) (c : byte) : option nat :=
  match s with
  | [] => None
  | x :: s => if bool_decide (x = c) then Some 0%nat else S <$> IndexByte s c
  end.

Fixpoint LastIndexByte (s : bytes) (c : byte) : option nat :=
  match s with
  | [] => None
  | x :: s => match LastIndexByte s c with
              | Some i => Some (S i)
              | None => if bool_decide (x = c) then Some 0%nat else None
              end
  end.

Inductive addr_error := missingPort | missingBracket | tooManyColons | unexpectedBracket | badPort.

Definition has_byte (s : bytes) (c : byte) : bool := match IndexByte s c with Some _ => true | None => false end.

(** The checks that end SplitHostPort: no further opening bracket from [j] on, no closing one
    from [k] on. *)
Definition split_at (s host : bytes) (i j k : nat) : result addr_error (bytes * bytes) :=
  if has_byte (drop j s) "["%byte || has_byte (drop k s) "]"%byte then Err unexpectedBracket
  else Ok (host, drop (S i) s).

Definition SplitHostPort (s : bytes) : result addr_error (bytes * bytes) :=
  match LastIndexByte s ":"%byte with
  | None => Err missingPort
  | Some i =>
      if bool_decide (head s = Some "["%byte) then
        match IndexByte s "]"%byte with
        | None => Err missingBracket
        | Some e =>
            if (S e =? length s)%nat then Err missingPort
            else if (S e =? i)%nat then split_at s (take (e - 1) (drop 1 s)) i 1 (S e)
            else if bool_decide (s !! S e = Some ":"%byte) then Err tooManyColons else Err missingPort
        end
      else if has_byte (take i s) ":"%byte then Err tooManyColons
      else split_at s (take i s) i 0 0
  end.

(** dtoi: the digits at the front, with their value, and what follows. *)
Fixpoint dtoi_loop (n : Z) (c : nat) (s : bytes) : option (Z * nat * bytes) :=
  match s with
  | x :: s' => if is_digit x then
                 let n := n * 10 + digit_val x in if 16777215 <=? n then None else dtoi_loop n (S c) s'
               else Some (n, c, s)
  | [] => Some (n, c, s)
  end.

Definition dtoi (s : bytes) : option (Z * nat * bytes) :=
  match dtoi_loop 0 0 s with Some (n, S c, s') => Some (n, S c, s') | _ => None end.

(** One field of an IPv4 address: at most 255, no leading zeros. *)
Definition parse_field (s : bytes) : option (byte * bytes) :=
  '(n, c, s') ← dtoi s;
  if 255 <? n then None
  else if (1 <? c)%nat && bool_decide (head s = Some "0"%byte) then None
  else Some (z2b n, s').

Fixpoint parse_fields (k : nat) (s : bytes) : option bytes :=
  match k with
  | O => match s with [] => Some [] | _ => None end
  | S k =>
      match s with
      | x :: s => if bool_decide (x = "."%byte) then '(b, s) ← parse_field s; r ← parse_fields k s; Some (b :: r) else None
      | [] => None
      end
  end.

Definition parseIPv4 (s : bytes) : option bytes :=
  '(b, s) ← parse_field s; r ← parse_fields 3 s; Some (v4InV6Prefix ++ b :: r).

Section net.
(** The 16 bytes of the text of an IPv6 address. *)
Variable parseIPv6 : bytes -> option bytes.

Definition ParseIP (s : bytes) : option bytes :=
  match list_find (fun c => c = "."%byte \/ c = ":"%byte) s with
  | Some (_, c) => if bool_decide (c = "."%byte) then parseIPv4 s else parseIPv6 s
  | None => None
  end.

(** [] is the nil address. *)
Definition To4 (ip : bytes) : bytes :=
  if (length ip =? 4)%nat then ip
  else if (length ip =? 16)%nat && bool_decide (take 12 ip = v4InV6Prefix) then drop 12 ip
  else [].

(** ** torrent/misc.go *)

Record addrPort := mkAddrPort { ap_ip : bytes; ap_port : Z }.

(** When the host is no address, the nil pointer is returned with the error variable, which is
    nil by then. *)
Definition parseAddr (address : bytes) : result addr_error (option addrPort) :=
  '(shost, sport) ← SplitHostPort address;
  match ParseUint sport with
  | Ok port =>
      if 65535 <? port then Err badPort
      else match ParseIP shost with
           | None => Ok None
           | Some ip => Ok (Some (mkAddrPort (To4 ip) (uint16 port)))
           end
  | _ => Err badPort
  end.

Definition misc_min (a b : Z) : Z := if a <=? b then a else b.

(** ** torrent/client.go: the peer behind an address *)

(** An address that cannot be parsed panics, and so does the nil pointer. *)
Definition addrToPeer (address : bytes) (source : PeerSource) : result Empty_set Peer :=
  match parseAddr address with
  | Ok (Some ap) => Ok (mkPeer None (ap_ip ap) (ap_port ap) source)
  | _ => Panic
  end.

(** ** torrent/net.go: listen

    [free] says which of the usual ports can be bound, [any] is the text of the address that
    the system gives for an arbitrary one. *)

Inductive listen_error := errNoPort | errAddr (e : addr_error).

Fixpoint listen_loop (free : Z -> bool) (ports : list Z) : option Z :=
  match ports with
  | [] => None
  | i :: ports => if free i then Some i else listen_loop free ports
  end.

Definition listen (free : Z -> bool) (any : option bytes) : result listen_error Z :=
  match listen_loop free (seqZ 6881 (6890 - 6881)) with
  | Some i => Ok i
  | None =>
      match any with
      | None => Err errNoPort
      | Some address =>
          match parseAddr address with
          | Ok (Some ap) => Ok (ap_port ap)
          | Ok None => Panic
          | Err e => Err (errAddr e)
          | Panic => Panic
          end
      end
  end.

(** ** torrent/peer_id.go *)

Definition clientID : bytes := bs "CH".
Definition version : bytes := bs "0001".

(** [rbytes] are the twelve random bytes; a longer slice is cut to the array. *)
Definition newPeerID (rbytes : bytes) : bytes :=
  let s := bs "-" ++ clientID ++ version ++ bs "-" ++ rbytes in
  take 20 (s ++ replicate 20 Byte.x00).

(** ** Lemmas *)

Lemma IndexByte_None s c : c ∉ s -> IndexByte s c = None.
Proof.
  induction s as [|x s IH]; cbn; [done|]. intros [Hx Hs]%not_elem_of_cons.
  rewrite bool_decide_false, IH by (done || by intros ->). done.
Qed.

Lemma LastIndexByte_None s c : c ∉ s -> LastIndexByte s c = None.
Proof.
  induction s as [|x s IH]; cbn; [done|]. intros [Hx Hs]%not_elem_of_cons.
  by rewrite IH, bool_decide_false by (done || by intros ->).
Qed.

Lemma LastIndexByte_app a c b : c ∉ b -> LastIndexByte (a ++ c :: b) c = Some (length a).
Proof.
  intros Hb. induction a as [|x a IH]; cbn; [|by rewrite IH]. by rewrite LastIndexByte_None, bool_decide_true by done.
Qed.

Lemma has_byte_false s c : c ∉ s -> has_byte s c = false.
Proof. intros Hs. unfold has_byte. by rewrite IndexByte_None. Qed.

(** A host and a port without colons and brackets. *)
Lemma SplitHostPort_plain host port :
  (forall c, c ∈ host ++ port -> c <> ":"%byte /\ c <> "["%byte /\ c <> "]"%byte) ->
  SplitHostPort (host ++ bs ":" ++ port) = Ok (host, port).
Proof.
  intros Hc. change (bs ":" ++ port) with (":"%byte :: port). unfold SplitHostPort.
  assert (Hne : forall c, c = ":"%byte \/ c = "["%byte \/ c = "]"%byte -> c ∉ host /\ c ∉ port).
  { intros c Hx. split; intros Hin; destruct (Hc c) as (? & ? & ?); rewrite ?elem_of_app; tauto. }
  rewrite LastIndexByte_app by (apply Hne; tauto). rewrite bool_decide_false.
  2:{ destruct host as [|x host]; [done|]. intros [= ->]. destruct (Hne "["%byte ltac:(tauto)) as [H _]. apply H. left. }
  rewrite take_app_length, has_byte_false by (apply Hne; tauto). unfold split_at. cbn [drop].
  rewrite !has_byte_false by (apply not_elem_of_app; split; [by apply Hne; tauto|]; apply not_elem_of_cons; split; [done|]; apply Hne; tauto).
  cbn [orb]. replace (host ++ ":"%byte :: port) with ((host ++ [":"%byte]) ++ port) by (by rewrite <- app_assoc).
  rewrite drop_app_length' by (rewrite length_app; cbn; lia). done.
Qed.

(** A field of an address, before a point or at the end. *)
Lemma dtoi_byte b s :
  s = [] \/ head s = Some "."%byte -> parse_field (FormatUint (b2z b) ++ s) = Some (b, s).
Proof. intros [->|Hs]; [by destruct b|]. destruct s as [|x s]; [done|]. injection Hs as ->. by destruct b. Qed.

Definition dotted (a b c d : byte) : bytes :=
  FormatUint (b2z a) ++ bs "." ++ FormatUint (b2z b) ++ bs "." ++ FormatUint (b2z c) ++ bs "." ++ FormatUint (b2z d).

Lemma parse_fields_cons k b s r :
  s = [] \/ head s = Some "."%byte -> parse_fields k s = Some r -> parse_fields (S k) ("."%byte :: FormatUint (b2z b) ++ s) = Some (b :: r).
Proof. intros Hs Hr. cbn [parse_fields]. rewrite bool_decide_true, (dtoi_byte b s Hs) by done. cbn. by rewrite Hr. Qed.

Lemma parseIPv4_dotted a b c d : parseIPv4 (dotted a b c d) = Some (v4InV6Prefix ++ [a; b; c; d]).
Proof.
  assert (H : parse_fields 3 (bs "." ++ FormatUint (b2z b) ++ bs "." ++ FormatUint (b2z c) ++ bs "." ++ FormatUint (b2z d)) = Some [b; c; d]).
  { apply parse_fields_cons; [by right|]. apply parse_fields_cons; [by right|].
    rewrite <- (app_nil_r (FormatUint (b2z d))). apply (parse_fields_cons 0 d []); [by left|done]. }
  unfold parseIPv4, dotted. rewrite dtoi_byte by (by right). cbn [mbind option_bind]. by rewrite H.
Qed.

Lemma digits_bytes n c : 0 <= n -> c ∈ FormatUint n -> is_digit c = true.
Proof. intros Hn Hc. pose proof (FormatUint_digits n Hn) as Hd. rewrite forallb_forall in Hd. apply Hd. by apply list_elem_of_In. Qed.

Lemma dotted_bytes a b c d x : x ∈ dotted a b c d -> is_digit x = true \/ x = "."%byte.
Proof.
  assert (Hu : forall b, x ∈ FormatUint (b2z b) -> is_digit x = true).
  { intros e. apply digits_bytes. pose proof (b2z_range e). lia. }
  assert (Hp : x ∈ bs "." -> x = "."%byte) by (cbn; by intros ?%list_elem_of_singleton).
  unfold dotted. rewrite !elem_of_app. intros H. decompose [or] H; eauto.
Qed.

(** The first byte that is not a digit is a point. *)
Lemma ParseIP_dotted a b c d : ParseIP (dotted a b c d) = Some (v4InV6Prefix ++ [a; b; c; d]).
Proof.
  unfold ParseIP. assert (list_find (fun c => c = "."%byte \/ c = ":"%byte) (dotted a b c d) = Some (length (FormatUint (b2z a)), "."%byte)) as ->.
  2:{ rewrite bool_decide_true by done. apply parseIPv4_dotted. }
  apply list_find_Some. unfold dotted. split_and!; [by apply list_lookup_middle|by left|].
  intros j y Hj Hlt. rewrite lookup_app_l in Hj by done. apply list_elem_of_lookup_2, digits_bytes in Hj; [|pose proof (b2z_range a); lia].
  by intros [->| ->].
Qed.

Lemma To4_v4 a b c d : To4 (v4InV6Prefix ++ [a; b; c; d]) = [a; b; c; d].
Proof. unfold To4. cbn [length app]. by rewrite bool_decide_true. Qed.

Variable ip6_String : bytes -> bytes.

(** ** Theorems *)

(** An IPv4 address is read back from its text: the key under which a dialed peer is
    remembered, and the remote address of an incoming connection, give the peer's address and
    port again. *)
Theorem addrToPeer_String p source a b c d :
  p_IP p = [a; b; c; d] \/ p_IP p = v4InV6Prefix ++ [a; b; c; d] -> 0 <= p_Port p < 65536 ->
  addrToPeer (peer_String ip6_String p) source = Ok (mkPeer None [a; b; c; d] (p_Port p) source).
Proof.
  intros Hip Hport. assert (E : peer_String ip6_String p = dotted a b c d ++ bs ":" ++ FormatUint (p_Port p)).
  { unfold peer_String. f_equal. by destruct Hip as [-> | ->]. }
  unfold addrToPeer, parseAddr. rewrite E, SplitHostPort_plain.
  2:{ intros x [Hx%dotted_bytes|Hx%digits_bytes]%elem_of_app; [| |lia]; split_and!; intros ->; first [by destruct Hx|done]. }
  cbn [mbind result_bind]. rewrite ParseUint_FormatUint by (unfold in_u; lia).
  destruct (Z.ltb_spec 65535 (p_Port p)); [lia|]. rewrite ParseIP_dotted, To4_v4. cbn [ap_ip ap_port].
  by rewrite wrapU_id by (unfold in_u; lia).
Qed.

(** An address whose host is no IP address gives a nil pointer without an error, which
    addrToPeer dereferences. *)
Theorem parseAddr_nil :
  parseAddr (bs "localhost:80") = Ok None /\ addrToPeer (bs "localhost:80") SourceIncoming = Panic.
Proof. by vm_compute. Qed.

(** The listener gets a port from 6881 to 6889 whenever one is free, the lowest one, and
    otherwise the port of the address that the system gave. *)
Theorem listen_port free any :
  match listen free any with
  | Ok port =>
      (6881 <= port < 6890 /\ free port = true /\ forall i, 6881 <= i < port -> free i = false) \/
      ((forall i, 6881 <= i < 6890 -> free i = false) /\ exists a ap, any = Some a /\ parseAddr a = Ok (Some ap) /\ port = ap_port ap)
  | _ => forall i, 6881 <= i < 6890 -> free i = false
  end.
Proof.
  assert (H : forall n lo, match listen_loop free (seqZ lo (Z.of_nat n)) with
    | Some i => lo <= i < lo + Z.of_nat n /\ free i = true /\ forall j, lo <= j < i -> free j = false
    | None => forall j, lo <= j < lo + Z.of_nat n -> free j = false end).
  { induction n as [|n IH]; intros lo; [intros j Hj; lia|]. rewrite seqZ_cons by lia.
    replace (Z.pred (Z.of_nat (S n))) with (Z.of_nat n) by lia. cbn [listen_loop]. destruct (free lo) eqn:E.
    - split_and!; [lia|lia|done|]. intros j Hj. lia.
    - specialize (IH (Z.succ lo)). destruct (listen_loop free _) as [i|].
      + destruct IH as (Hi & Hf & Hall). split_and!; [lia|lia|done|]. intros j Hj.
        destruct (decide (j = lo)) as [->|]; [done|]. apply Hall. lia.
      + intros j Hj. destruct (decide (j = lo)) as [->|]; [done|]. apply IH. lia. }
  specialize (H 9%nat 6881). unfold listen. change (6890 - 6881) with (Z.of_nat 9). destruct (listen_loop free _) as [i|]; [left; destruct H as (? & ? & ?); split_and!; [lia|lia|done|done]|].
  destruct any as [a|]; [|intros; apply H; lia]. destruct (parseAddr a) as [[ap|]|e|] eqn:E; [|intros; apply H; lia..].
  right. split; [intros; apply H; lia|]. by exists a, ap.
Qed.

(** The identity has twenty bytes, the prefix of the client and then the random bytes. *)
Theorem newPeerID_shape rbytes :
  length rbytes = 12%nat -> newPeerID rbytes = bs "-CH0001-" ++ rbytes /\ length (newPeerID rbytes) = 20%nat.
Proof.
  intros Hr. unfold newPeerID. change (bs "-" ++ clientID ++ version ++ bs "-" ++ rbytes) with (bs "-CH0001-" ++ rbytes).
  rewrite take_app_length' by (rewrite length_app, Hr; done). split; [done|]. by rewrite length_app, Hr.
Qed.

End net.
