(* ===== verification/Client.v ===== *)
(** * torrent/client.go, net.go, extension.go: the client around the torrents

    What a new client decides, the metainfo that becomes a torrent, the registry of torrents and
    banned addresses under the client's mutex, and the connections that are accepted and dialed,
    up to the point where they run. The parsers are those of [Metainfo] and [Magnet], a
    connection is the byte stream of [Handshake]. Counters, logs, deadlines and the goroutines of
    the DHT server are left out. *)

From S2P Require Import Prelude Strconv Bitfield GoValue BenEncode Wire Handshake Metainfo Magnet Bitmap Piece Pieces.
From S2P Require Import Metadata ConnInfo Swarm Torrent Conc Net.

(** ** Configuration *)

(** The storage, which is opened by a parameter, and the timeouts are left out. *)
Record Config (S : Type) := mkClientConfig {
  cf_SelectorF : S;
  MaxOnFlightReqs : Z;
  MaxEstablishedConns : Z;
  RejectIncomingConnections : bool;
  cf_DisableTrackers : bool;
  cf_DisableDHT : bool;
  BaseDir : bytes;
}.
Arguments mkClientConfig {S}.
Arguments cf_SelectorF {S} c.
Arguments MaxOnFlightReqs {S} c.
Arguments MaxEstablishedConns {S} c.
Arguments RejectIncomingConnections {S} c.
Arguments cf_DisableTrackers {S} c.
Arguments cf_DisableDHT {S} c.
Arguments BaseDir {S} c.

(** [None]: os.Getwd fails. *)
Definition DefaultConfig {S} (NewDefaultPieceSelector : S) (wd : option bytes) : option (Config S) :=
  dir ← wd; Some (mkClientConfig NewDefaultPieceSelector 250 55 false false false dir).

Record Client (S : Type) := mkClient {
  cl_config : Config S;
  cl_peerID : bytes;
  cl_reserved_bits : Reserved;
  cl_port : Z;
  cl_listener : bool;                    (* there is a listener *)
  cl_announcer : bool;                   (* trackerAnnouncer is not nil *)
  cl_dhtServer : bool;                   (* dhtServer is not nil *)
}.
Arguments mkClient {S}.
Arguments cl_config {S} c.
Arguments cl_peerID {S} c.
Arguments cl_reserved_bits {S} c.
Arguments cl_port {S} c.
Arguments cl_listener {S} c.
Arguments cl_announcer {S} c.
Arguments cl_dhtServer {S} c.

Inductive client_error := errGetwd | errLogFile.

Definition disableDHT {S} (c : Config S) : Config S :=
  mkClientConfig (cf_SelectorF c) (MaxOnFlightReqs c) (MaxEstablishedConns c) (RejectIncomingConnections c)
    (cf_DisableTrackers c) true (BaseDir c).

(** What happens around a new client: random bytes, whether the log file can be created, the
    ports and the DHT server. *)
Record world_ := mkWorld_ {
  wd : option bytes;
  rbytes : bytes;
  log_ok : bool;
  free_port : Z -> bool;
  any_addr : option bytes;
  dht_ok : bool;
}.

Section client.
Context {S : Type}.
Variable parseIPv6 : bytes -> option bytes.
Variable NewDefaultPieceSelector : S.

(** log.Fatal ends the process, as a panic does. *)
Definition NewClient (cfg : option (Config S)) (w : world_) : result client_error (Client S) :=
  cfg ← match cfg with
        | Some c => Ok c
        | None => match DefaultConfig NewDefaultPieceSelector (wd w) with Some c => Ok c | None => Err errGetwd end
        end;
  if negb (log_ok w) then Err errLogFile
  else
    '(cfg, port, lst) ← (if negb (RejectIncomingConnections cfg)
                         then match listen parseIPv6 (free_port w) (any_addr w) with
                              | Ok port => Ok (cfg, port, true)
                              | _ => Panic
                              end
                         else Ok (disableDHT cfg, 0, false));
    let ann := negb (cf_DisableTrackers cfg) in
    let r := replicate 8 Byte.x00 in
    '(r, dht) ← (if negb (cf_DisableDHT cfg)
                 then match SetDHT r with
                      | Some r => if dht_ok w then Ok (r, true) else Panic
                      | None => Panic
                      end
                 else Ok (r, false));
    match SetExtended r with
    | Some r => Ok (mkClient cfg (newPeerID (rbytes w)) r port lst ann dht)
    | None => Panic
    end.

Definition ListenPort (cl : Client S) : Z := cl_port cl.
Definition ID (cl : Client S) : bytes := cl_peerID cl.

(** The port of the DHT server, whose address is [addr]; nil and bad addresses panic. *)
Definition client_dhtPort (cl : Client S) (addr : bytes) : result Empty_set Z :=
  if negb (cl_dhtServer cl) then Panic
  else match parseAddr parseIPv6 addr with Ok (Some ap) => Ok (ap_port ap) | _ => Panic end.

(** What a torrent takes from its client (newTorrent). *)
Definition torrent_config (cl : Client S) (dhtPort : Z) : config :=
  mkConfig (MaxEstablishedConns (cl_config cl)) 55 100 (cf_DisableTrackers (cl_config cl)) (cf_DisableDHT (cl_config cl))
    (cl_announcer cl) (cl_dhtServer cl) (cl_reserved_bits cl) dhtPort.

End client.

(** ** The registry: the fields that the mutex guards *)

Record registry := mkRegistry {
  rg_blackList : list bytes;
  rg_torrents : gmap bytes nat;          (* *Torrent by info hash *)
}.

Definition empty_registry : registry := mkRegistry [] ∅.

Inductive reply :=
| RAdded (ptr : nat)
| RAddExists
| RDropped (ok : bool)
| RTorrents (l : list nat)
| RBanned
| RContains (b : bool)
| RLookup (o : option nat)
| RClosed                                (* Close returns *)
| RWaits                                 (* Close waits for ever *)
| RNegative.                             (* the wait group panics *)

Abbreviation rprog := (prog Empty_set registry reply).

Definition with_torrents (f : gmap bytes nat -> gmap bytes nat) (g : registry) : registry :=
  mkRegistry (rg_blackList g) (f (rg_torrents g)).

(** The end of AddFromParser; when there is such a torrent it returns before it unlocks. *)
Definition register (ptr : nat) (ihash : bytes) : rprog :=
  Lock (read (fun g => rg_torrents g !! ihash) (fun o =>
    match o with
    | Some _ => Ret RAddExists
    | None => write (with_torrents <[ihash := ptr]>) (Unlock (Ret (RAdded ptr)))
    end)).

Definition dropTorrent (infohash : bytes) (k : bool -> rprog) : rprog :=
  Lock (read (fun g => rg_torrents g !! infohash) (fun o =>
    match o with
    | None => Unlock (k false)
    | Some _ => write (with_torrents (delete infohash)) (Unlock (k true))
    end)).

(** [order]: of the iteration over the map. *)
Definition Torrents (order : list nat -> list nat) (k : list nat -> rprog) : rprog :=
  Lock (read (fun g => order (snd <$> map_to_list (rg_torrents g))) (fun l => Unlock (k l))).

Definition client_banIP (ip : bytes) : rprog :=
  Lock (write (fun g => mkRegistry (rg_blackList g ++ [ip]) (rg_torrents g)) (Unlock (Ret RBanned))).

Definition client_containsInBlackList (ip : bytes) : rprog :=
  Lock (read (fun g => existsb (fun addr => IP_Equal addr ip) (rg_blackList g)) (fun b => Unlock (Ret (RContains b)))).

(** The lookup of Accept. *)
Definition lookupTorrent (infohash : bytes) : rprog :=
  Lock (read (fun g => rg_torrents g !! infohash) (fun o => Unlock (Ret (RLookup o)))).

Section close.
(** The info hash of a torrent, and whether its Close finds it open. *)
Variable hash_of : nat -> bytes.
Variable alive : nat -> bool.

(** Torrent.Close for each of the torrents. *)
Fixpoint close_all (ts : list nat) (k : rprog) : rprog :=
  match ts with
  | [] => k
  | t :: ts => if alive t then dropTorrent (hash_of t) (fun _ => close_all ts k) else close_all ts k
  end.

(** Client.Close: the wait group counts the torrents before the list is read under the mutex. *)
Definition Close (order : list nat -> list nat) : rprog :=
  read (fun g => base.size (rg_torrents g)) (fun n =>
    Torrents order (fun ts => close_all ts (Ret
      (if (n <? length ts)%nat then RNegative else if (length ts <? n)%nat then RWaits else RClosed)))).

End close.

(** ** From a metainfo to a torrent *)

Section add.
Context {B : Type} `{BitmapOps B} {S : Type} `{PieceSelector S B} `{SortSlice Z}.
Variable env : Env.
Variable ip6_String : bytes -> bytes.
Variable int_of_Inf : Z.
Variable openStorage : InfoDict -> list Z -> bool.
Variable outboundIP : bytes.

(** AddFromParser up to the start of the main loop: a nil metainfo, or one without an info
    dictionary, is dereferenced. *)
Definition prepare (cl : Client S) (dhtPort : Z) (parsed : result merror (option MetaInfo)) : result merror (torrent B S) :=
  match parsed with
  | Err e => Err e
  | Panic | Ok None => Panic
  | Ok (Some mi) =>
      match Info mi with
      | None => Panic
      | Some info =>
          let t := newTorrent (torrent_config cl dhtPort) info (Announce mi) (InfoBytes mi) in
          match when (match InfoBytes mi with None => false | Some _ => true end)
                  (gotInfo env ip6_String int_of_Inf openStorage (cf_SelectorF (cl_config cl)) outboundIP) t with
          | Ok (_, t) => Ok t
          | _ => Panic
          end
      end
  end.

(** AddFromParser: the torrent whose main loop is started, and what is left to do. *)
Definition AddFromParser (cl : Client S) (dhtPort : Z) (ptr : nat) (parsed : result merror (option MetaInfo))
    : result merror (torrent B S * rprog) :=
  t ← prepare cl dhtPort parsed; Ok (t, register ptr (Hash (mi_Info (t_data t)))).

Variable sha1_Sum : bytes -> bytes.

(** A file that was read, or not. *)
Definition AddFromFile (cl : Client S) (dhtPort : Z) (ptr : nat) (file : option bytes) :=
  AddFromParser cl dhtPort ptr (Some <$> LoadMetainfoFile sha1_Sum file).

Definition AddFromMagnet (url_Parse : bytes -> option (bytes * bytes)) (cl : Client S) (dhtPort : Z) (ptr : nat) (uri : bytes) :=
  AddFromParser cl dhtPort ptr (MagnetParser_Parse url_Parse uri).

Definition AddFromInfoHash (cl : Client S) (dhtPort : Z) (ptr : nat) (infohash : bytes) :=
  AddFromParser cl dhtPort ptr (Ok (Some (InfoHashParser_Parse infohash))).

End add.

(** ** Connections *)

(** A TCP connection: its bytes, whether it has been closed, and its remote address. *)
Record tcp := mkTcp { tc_conn : conn; tc_closed : bool; tc_remote : bytes }.

Inductive conn_error := errHandshake (e : herror) | errPeerID | errNotManaged | errDial | errExt (e : herror).

(** The handshake of a client; a connection that fails is left as it is. *)
Definition handshake (h : HandShake) (peer : Peer) (c : conn) : result conn_error (HandShake * conn) :=
  match Handshake.Do h c with
  | Err e => Err (errHandshake e)
  | Panic => Panic
  | Ok (hs, c) =>
      match p_ID peer with
      | Some id => if negb (bool_decide (id = hs_PeerID hs)) then Err errPeerID else Ok (hs, c)
      | None => Ok (hs, c)
      end
  end.

(** extension.go: the handshake of the extension protocol; the size is omitted when it is zero. *)
Definition extHandshake_type : gtype := TStruct
  [ (mkField (bs "ExtMap") (bs "m") [], TMap (TInt 8)); (mkField (bs "MetaSz") (bs "metadata_size") (bs "omit"), TInt 64) ].
Definition extensions : gval := VMap (Some [(bs "ut_metadata", VInt ExtMetadataID)]).

(** The bytes of the message; [None] is a panic. *)
Definition extensionHandshakeMsg (metaSz : Z) : option bytes :=
  match BenEncode.Encode (TPtr TIface) (VPtr (Some (VIface (Some (extHandshake_type, VStruct [extensions; VInt metaSz]))))) with
  | Ok text => let b := w8 Extended ++ w8 ExtHandshakeID ++ text in Some (w32 (uint32 (lenZ b)) ++ b)
  | _ => None
  end.

(** net.go *)
Definition maybeSendExtHandshake (ours theirs : Reserved) (uts : utMetadatas) (c : conn) : result herror conn :=
  match SupportExtended theirs with
  | None => Panic
  | Some false => Ok c
  | Some true =>
      match SupportExtended ours with
      | None => Panic
      | Some false => Ok c
      | Some true =>
          let infoSize := match uts_correct uts with Some ut => lenZ (infoBytes ut) | None => 0 end in
          match extensionHandshakeMsg infoSize with Some s => conn_write s c | None => Panic end
      end
  end.

(** What a connection goroutine starts with. *)
Record accepted := mkAccepted { ac_torrent : nat; ac_peer : Peer; ac_reserved : Reserved }.

Definition set_conn (c : conn) (s : tcp) : tcp := mkTcp c (tc_closed s) (tc_remote s).
Definition tcp_Close (s : tcp) : tcp := mkTcp (tc_conn s) true (tc_remote s).

Section conns.
Context {S : Type}.
Variable parseIPv6 : bytes -> option bytes.
(** utmetadata of a torrent. *)
Variable uts_of : nat -> utMetadatas.

(** The deferred close looks at the error variable, which an unmanaged info hash and a failed
    extension handshake do not set. *)
Definition Accept (cl : Client S) (torrents : gmap bytes nat) (s : tcp) : result conn_error accepted * tcp :=
  match addrToPeer parseIPv6 (tc_remote s) SourceIncoming with
  | Ok peer =>
      match handshake (mkHandShake (cl_reserved_bits cl) zero20 (cl_peerID cl)) peer (tc_conn s) with
      | Err e => (Err e, tcp_Close s)
      | Panic => (Panic, s)
      | Ok (hs, c) =>
          match torrents !! hs_InfoHash hs with
          | None => (Err errNotManaged, set_conn c s)
          | Some t =>
              match maybeSendExtHandshake (cl_reserved_bits cl) (hs_Reserved hs) (uts_of t) c with
              | Ok c => (Ok (mkAccepted t peer (hs_Reserved hs)), set_conn c s)
              | Err e => (Err (errExt e), set_conn c s)
              | Panic => (Panic, set_conn c s)
              end
          end
      end
  | _ => (Panic, s)
  end.

(** dial, once the connection is there; the address leaves the half-open ones at the end
    (removeHalfOpen). *)
Definition dial (cl : Client S) (t : nat) (infoHash : bytes) (peer : Peer) (dialed : option tcp) : result conn_error accepted * option tcp :=
  match dialed with
  | None => (Err errDial, None)
  | Some s =>
      match handshake (mkHandShake (cl_reserved_bits cl) infoHash (cl_peerID cl)) peer (tc_conn s) with
      | Err e => (Err e, Some (tcp_Close s))
      | Panic => (Panic, Some s)
      | Ok (hs, c) =>
          match maybeSendExtHandshake (cl_reserved_bits cl) (hs_Reserved hs) (uts_of t) c with
          | Ok c => (Ok (mkAccepted t peer (hs_Reserved hs)), Some (set_conn c s))
          | Err e => (Err (errExt e), Some (set_conn c s))
          | Panic => (Panic, Some (set_conn c s))
          end
      end
  end.

(** What informTorrent finds: the torrent takes the connection, is closed, or does not answer
    for a minute. *)
Inductive inform := Informed | TorrentClosed | InformTimeout.

(** runConnection: the connection runs, and its peer is banned if it says so; it is closed in
    any case. *)
Definition runConnection (a : accepted) (i : inform) (ban : bool) (s : tcp) : option rprog * tcp :=
  (match i with Informed => if ban then Some (client_banIP (p_IP (ac_peer a))) else None | _ => None end, tcp_Close s).

(** makeOutgoingConnection. *)
Definition makeOutgoingConnection (cl : Client S) (t : nat) (infoHash : bytes) (peer : Peer) (dialed : option tcp)
    (i : inform) (ban : bool) : option rprog * option tcp :=
  match dial cl t infoHash peer dialed with
  | (Ok a, Some s) => let '(r, s) := runConnection a i ban s in (r, Some s)
  | (_, s) => (None, s)
  end.

End conns.
