(* ===== verification/ClientInv.v ===== *)
(** * The client: registry, new clients, and accepted connections

    The critical sections of the client refine an abstract registry, for any number of
    goroutines; what a new client is; and what happens to incoming and outgoing connections. *)

From S2P Require Import Prelude Strconv Bitfield GoValue BenDecode BenEncode BenRound Wire Handshake Metainfo Magnet Bitmap Piece Pieces.
From S2P Require Import Metadata ConnInfo Swarm SwarmInv Torrent TorrentInv TorrentSafe Conc Net Client.

(** ** The abstract registry

    Its atomic operations, each with what it replies. *)

Inductive rg_op :=
| ORegister (ptr : nat) (ok : bool)
| ODrop (h : bytes) (ok : bool)
| OTorrents (l : list nat)
| OBan (ip : bytes)
| OContains (ip : bytes) (b : bool)
| OLookup (h : bytes) (o : option nat)
| OSize (n : nat).

(** A call of the client: AddFromParser once it has built its torrent, and the others. *)
Inductive client_call :=
| KRegister (ptr : nat)
| KDrop (h : bytes)
| KTorrents (order : list nat -> list nat)
| KBan (ip : bytes)
| KContains (ip : bytes)
| KLookup (h : bytes)
| KClose (order : list nat -> list nat).

Section registry.
Variable hash_of : nat -> bytes.
Variable alive : nat -> bool.

Definition rg_does (o : rg_op) (g g' : registry) : Prop :=
  match o with
  | ORegister ptr ok =>
      if ok then rg_torrents g !! hash_of ptr = None /\ g' = with_torrents <[hash_of ptr := ptr]> g
      else is_Some (rg_torrents g !! hash_of ptr) /\ g' = g
  | ODrop h ok =>
      if ok then is_Some (rg_torrents g !! h) /\ g' = with_torrents (delete h) g else rg_torrents g !! h = None /\ g' = g
  | OTorrents l => l = snd <$> map_to_list (rg_torrents g) /\ g' = g
  | OBan ip => g' = mkRegistry (rg_blackList g ++ [ip]) (rg_torrents g)
  | OContains ip b => b = existsb (fun addr => IP_Equal addr ip) (rg_blackList g) /\ g' = g
  | OLookup h o => o = rg_torrents g !! h /\ g' = g
  | OSize n => n = base.size (rg_torrents g) /\ g' = g
  end.

(** The program of a call. *)
Definition client_prog (c : client_call) : rprog :=
  match c with
  | KRegister ptr => register ptr (hash_of ptr)
  | KDrop h => dropTorrent h (fun ok => Ret (RDropped ok))
  | KTorrents order => Torrents order (fun l => Ret (RTorrents l))
  | KBan ip => client_banIP ip
  | KContains ip => client_containsInBlackList ip
  | KLookup h => lookupTorrent h
  | KClose order => Close hash_of alive order
  end.

(** The operations of a call that returns [r]. Close does several: it counts, lists, and drops
    the torrents of the list that it finds open. *)
Definition answers_call (c : client_call) (l : list rg_op) (r : reply) : Prop :=
  match c with
  | KRegister ptr => exists ok, l = [ORegister ptr ok] /\ r = if ok then RAdded ptr else RAddExists
  | KDrop h => exists ok, l = [ODrop h ok] /\ r = RDropped ok
  | KTorrents order => exists ts, l = [OTorrents ts] /\ r = RTorrents (order ts)
  | KBan ip => l = [OBan ip] /\ r = RBanned
  | KContains ip => exists b, l = [OContains ip b] /\ r = RContains b
  | KLookup h => exists o, l = [OLookup h o] /\ r = RLookup o
  | KClose order => exists n ts oks, l = OSize n :: OTorrents ts :: zip_with ODrop (hash_of <$> filter (fun t => alive t = true) (order ts)) oks /\
      length oks = length (filter (fun t => alive t = true) (order ts)) /\
      r = if (n <? length (order ts))%nat then RNegative else if (length (order ts) <? n)%nat then RWaits else RClosed
  end.

(** The goroutine [u] makes the call [calls u]. *)
Variable calls : nat -> client_call.
Definition starts (u : nat) (p : rprog) : Prop := p = client_prog (calls u).
Definition returns (u : nat) : list rg_op -> reply -> Prop := answers_call (calls u).
Abbreviation outer := (outer rg_does).
Abbreviation cstep := (pstep starts).
Abbreviation creach := (preach starts empty_registry).

Lemma outer_drop Q l h k : (forall ok, outer Q (l ++ [ODrop h ok]) (k ok)) -> outer Q l (dropTorrent h k).
Proof.
  intros Hk. apply ou_lock, before_read. intros g _. destruct (rg_torrents g !! h) eqn:E.
  - left. apply before_write. intros g' <-. exists (ODrop h true). split; [|apply Hk]. split; [by eexists|done].
  - right. exists (ODrop h false). split; [done|]. constructor. apply Hk.
Qed.

Lemma outer_Torrents Q l order k : (forall ts, outer Q (l ++ [OTorrents ts]) (k (order ts))) -> outer Q l (Torrents order k).
Proof. intros Hk. apply (outer_look rg_does Q l). intros g. exists (OTorrents (snd <$> map_to_list (rg_torrents g))). split; [done|apply Hk]. Qed.

Lemma outer_close_all Q ts k : forall l,
  (forall oks, length oks = length (filter (fun t => alive t = true) ts) ->
    outer Q (l ++ zip_with ODrop (hash_of <$> filter (fun t => alive t = true) ts) oks) k) ->
  outer Q l (close_all hash_of alive ts k).
Proof.
  induction ts as [|t ts IH]; intros l Hk; cbn [close_all].
  - specialize (Hk [] eq_refl). cbn in Hk. by rewrite app_nil_r in Hk.
  - rewrite filter_cons in Hk. destruct (alive t); [rewrite decide_True in Hk by done|rewrite decide_False in Hk by done; by apply IH].
    apply outer_drop. intros ok. apply IH. intros oks Ho. rewrite <- app_assoc. apply (Hk (ok :: oks)). cbn. by rewrite Ho.
Qed.

Lemma call_outer u p : starts u p -> outer (returns u) [] p.
Proof.
  intros ->. unfold returns. destruct (calls u) as [ptr|h|order|ip|ip|h|order]; cbn [client_prog answers_call].
  - apply ou_lock, before_read. intros g _. destruct (rg_torrents g !! hash_of ptr) eqn:E.
    + right. exists (ORegister ptr false). split; [split; [by eexists|done]|]. constructor. by exists false.
    + left. apply before_write. intros g' <-. exists (ORegister ptr true). split; [done|]. constructor. by exists true.
  - apply outer_drop. intros ok. constructor. by exists ok.
  - apply outer_Torrents. intros ts. constructor. by exists ts.
  - apply ou_lock, before_write. intros g _. exists (OBan ip). split; [done|]. by constructor.
  - apply (outer_look rg_does). intros g. eexists (OContains ip _). split; [done|]. constructor. by eexists.
  - apply (outer_look rg_does). intros g. eexists (OLookup h _). split; [done|]. constructor. by eexists.
  - apply ou_read; [by intros g k g' [= _ <-]|]. intros g k g' [= <- <-]. exists (OSize (base.size (rg_torrents g))). split; [done|].
    apply outer_Torrents. intros ts. apply outer_close_all. intros oks Ho. constructor. by eexists _, ts, oks.
Qed.

(** The torrents are under their own hashes. *)
Definition keyed (g : registry) : Prop := forall h ptr, rg_torrents g !! h = Some ptr -> hash_of ptr = h.

Lemma keyed_does o g g' : keyed g -> rg_does o g g' -> keyed g'.
Proof.
  intros Hk. assert (Hdel : forall h, keyed (with_torrents (delete h) g)).
  { intros h h' q. cbn. destruct (decide (h' = h)) as [->|Hne]; [by rewrite lookup_delete_eq|]. rewrite lookup_delete_ne by done. apply Hk. }
  destruct o as [ptr []|h []| | | | |]; cbn [rg_does]; try by intros [_ ->].
  - intros [_ ->] h q. cbn. destruct (decide (h = hash_of ptr)) as [->|Hne]; [rewrite lookup_insert_eq; by intros [= <-]|].
    rewrite lookup_insert_ne by done. apply Hk.
  - intros ->. apply Hk.
Qed.

Lemma bans_does ips o g g' : ips `prefix_of` rg_blackList g -> rg_does o g g' -> ips `prefix_of` rg_blackList g'.
Proof. intros Hp. destruct o as [ptr []|h []| | | | |]; cbn [rg_does]; try by intros [_ ->]. intros ->. cbn. by apply prefix_app_r. Qed.

(** C16: The registry of a client is linearizable. However its goroutines interleave, its state
    is the outcome of a log of atomic operations, which the goroutines extend as they go on:
    each of them does the operations of its own call, with the replies that the call returns,
    after it has started and before it has returned. A torrent is added only when its hash is
    free, and replaces none; only the operations of a drop call and of Close drop, and only
    what they name; addresses once banned stay banned; every torrent is registered under its
    own info hash, so no torrent is listed twice. *)
Theorem registry_refines w w' :
  creach w -> rtc cstep w w' ->
  exists h h',
    runs_log rg_does empty_registry h (p_st w) /\ runs_log rg_does (p_st w) h' (p_st w') /\
    (forall u r, p_thr w' !! u = Some (Ret r) -> answers_call (calls u) (did u (h ++ h')) r) /\
    (forall u, p_thr w !! u = None -> did u h = []) /\
    (forall u r, p_thr w !! u = Some (Ret r) -> did u h' = []) /\
    rg_blackList (p_st w) `prefix_of` rg_blackList (p_st w') /\
    (forall k ptr, rg_torrents (p_st w) !! k = Some ptr -> hash_of ptr = k) /\
    (forall k k' ptr, rg_torrents (p_st w) !! k = Some ptr -> rg_torrents (p_st w) !! k' = Some ptr -> k = k').
Proof.
  intros Hw Hw'. destruct (linearizable starts rg_does returns call_outer _ _ Hw) as (h & Hl & Hr).
  destruct (logged_steps starts rg_does returns call_outer _ _ _ Hl Hw') as (h' & Hl' & Hr' & Hlater).
  assert (Hk : keyed (p_st w)).
  { apply (runs_log_keeps rg_does keyed empty_registry h); [by intros o g g' ? ?; eapply keyed_does|done|].
    intros k ptr Hx. cbn in Hx. by rewrite lookup_empty in Hx. }
  exists h, h'. split_and!; try done.
  - intros u r Hu. by apply (logged_ret rg_does returns _ w').
  - intros u Hu. by apply (logged_none rg_does returns _ w).
  - apply (runs_log_keeps rg_does (fun g => rg_blackList (p_st w) `prefix_of` rg_blackList g) (p_st w) h'); [|done|done].
    intros o g g' ? ?. by eapply bans_does.
  - intros k k' ptr Hh Hh'. by rewrite <- (Hk _ _ Hh), <- (Hk _ _ Hh').
Qed.

(** Adding a torrent that is there already deadlocks the client: AddFromParser returns its
    error with the mutex locked, and from then on no goroutine gets past it. *)
Theorem add_existing_deadlock w u ptr q :
  creach w -> p_thr w !! u = Some (register ptr (hash_of ptr)) -> p_mu w = false ->
  rg_torrents (p_st w) !! hash_of ptr = Some q ->
  exists w', rtc cstep w w' /\ p_thr w' !! u = Some (Ret RAddExists) /\
    forall w'', rtc cstep w' w'' ->
      p_mu w'' = true /\ p_st w'' = p_st w /\ forall v k, p_thr w' !! v = Some (Lock k) -> p_thr w'' !! v = Some (Lock k).
Proof.
  intros Hw Hu Hmu Hq. destruct (linearizable starts rg_does returns call_outer _ _ Hw) as (h & Hl & _).
  unfold logged in Hl. rewrite Hmu in Hl.
  set (w1 := mkPool (p_st w) true (<[u := Ret RAddExists]> (p_thr w)) : pool Empty_set registry reply).
  assert (H1 : rtc cstep w w1).
  { eapply rtc_l; [by eapply ps_lock|]. apply rtc_once. unfold w1.
    match goal with |- pstep _ (mkPool _ _ (<[u := ?k]> _)) _ => rewrite <- (insert_insert_eq (p_thr w) u (Ret RAddExists) k) end.
    eapply (ps_do _ (mkPool _ _ _)); [cbn; by rewrite lookup_insert_eq|]. cbn [p_st]. by rewrite Hq. }
  assert (Hret : p_thr w1 !! u = Some (Ret RAddExists)) by (cbn; by rewrite lookup_insert_eq).
  exists w1. split_and!; [done|done|]. intros w'' Hr. change (p_st w) with (p_st w1).
  eapply (abandoned starts rg_does returns call_outer h w1 u); [done|done| |exact Hr]. intros v Hne. apply outside_stay; [apply Hl|done].
Qed.

End registry.

(** ** Closing the client *)

Section closing.
Variable hash_of : nat -> bytes.
Variable alive : nat -> bool.
Variable calls : nat -> client_call.
Abbreviation pool := (pool Empty_set registry reply).
Abbreviation starts := (starts hash_of alive calls).
Abbreviation pstep := (pstep starts).
Implicit Types (w : pool) (u : nat).

(** The steps of one goroutine, as far as the next state is concerned. *)
Lemma step_do (st st' : registry) mu thr u m (k : rprog) :
  thr !! u = Some (Do m) -> m st = Ok (k, st') -> pstep (mkPool st mu thr) (mkPool st' mu (<[u := k]> thr)).
Proof. intros Hu Hm. exact (ps_do starts (mkPool st mu thr) u m k st' Hu Hm). Qed.

Lemma step_unlock (st : registry) thr u (k : rprog) :
  thr !! u = Some (Unlock k) -> pstep (mkPool st true thr) (mkPool st false (<[u := k]> thr)).
Proof. intros Hu. exact (ps_unlock starts (mkPool st true thr) u k Hu eq_refl). Qed.

Lemma go_lock_read {A} w u (f : registry -> A) (k : A -> rprog) :
  p_thr w !! u = Some (Lock (read f k)) -> p_mu w = false ->
  rtc pstep w (mkPool (p_st w) true (<[u := k (f (p_st w))]> (p_thr w))).
Proof.
  intros Hu Hmu. eapply rtc_l; [by eapply ps_lock|]. apply rtc_once.
  rewrite <- (insert_insert_eq (p_thr w) u (k (f (p_st w))) (read f k)). eapply step_do; [by rewrite lookup_insert_eq|done].
Qed.

Lemma go_write_unlock w u (f : registry -> registry) (k : rprog) :
  p_thr w !! u = Some (write f (Unlock k)) -> p_mu w = true ->
  rtc pstep w (mkPool (f (p_st w)) false (<[u := k]> (p_thr w))).
Proof.
  intros Hu Hmu. eapply rtc_l; [by eapply ps_do|]. apply rtc_once.
  rewrite <- (insert_insert_eq (p_thr w) u k (Unlock k)), Hmu. apply step_unlock. by rewrite lookup_insert_eq.
Qed.

Lemma go_unlock w u (k : rprog) :
  p_thr w !! u = Some (Unlock k) -> p_mu w = true ->
  rtc pstep w (mkPool (p_st w) false (<[u := k]> (p_thr w))).
Proof. intros Hu Hmu. apply rtc_once. by eapply ps_unlock. Qed.

(** The goroutine [u] alone gets to [p], with the registry [g]; the others are where they were. *)
Definition alone w u g p : Prop :=
  exists thr, rtc pstep w (mkPool g false thr) /\ thr !! u = Some p /\ forall v, v <> u -> thr !! v = p_thr w !! v.

Lemma alone_refl w u p : p_thr w !! u = Some p -> p_mu w = false -> alone w u (p_st w) p.
Proof. intros Hu Hmu. exists (p_thr w). split_and!; [destruct w; cbn in *; by subst|done|done]. Qed.

Lemma alone_bind w u g p g' q :
  alone w u g p -> (forall w, p_thr w !! u = Some p -> p_mu w = false -> p_st w = g -> alone w u g' q) -> alone w u g' q.
Proof.
  intros (thr & Hr & Hu & Hv) Hq. destruct (Hq (mkPool g false thr) Hu eq_refl eq_refl) as (thr' & Hr' & Hu' & Hv').
  exists thr'. split_and!; [by etrans|done|]. intros v Hne. etrans; [by apply Hv'|by apply Hv].
Qed.

Lemma alone_Torrents w u order k :
  p_thr w !! u = Some (Torrents order k) -> p_mu w = false ->
  alone w u (p_st w) (k (order (snd <$> map_to_list (rg_torrents (p_st w))))).
Proof.
  intros Hu Hmu. eexists. split_and!.
  - etrans; [exact (go_lock_read _ _ _ _ Hu Hmu)|]. apply (go_unlock (mkPool (p_st w) true _) u); [cbn; by rewrite lookup_insert_eq|done].
  - by rewrite lookup_insert_eq.
  - intros v Hne. cbn. by rewrite !lookup_insert_ne.
Qed.

Lemma alone_drop w u h k :
  p_thr w !! u = Some (dropTorrent h k) -> p_mu w = false ->
  exists b, alone w u (with_torrents (delete h) (p_st w)) (k b).
Proof.
  intros Hu Hmu. pose proof (go_lock_read _ _ _ _ Hu Hmu) as Hr. cbn beta in Hr.
  destruct (rg_torrents (p_st w) !! h) eqn:E; rewrite ?E in Hr; cbn beta iota in Hr.
  - exists true. eexists. split_and!.
    + etrans; [exact Hr|]. apply (go_write_unlock (mkPool (p_st w) true _) u (with_torrents (delete h)) (k true)); [cbn; by rewrite lookup_insert_eq|done].
    + by rewrite lookup_insert_eq.
    + intros v Hne. cbn. by rewrite !lookup_insert_ne.
  - exists false. eexists. split_and!.
    + etrans; [exact Hr|]. replace (with_torrents (delete h) (p_st w)) with (p_st w).
      * apply (go_unlock (mkPool (p_st w) true _) u); [cbn; by rewrite lookup_insert_eq|done].
      * destruct (p_st w) as [bl m]. unfold with_torrents. cbn in *. by rewrite delete_id.
    + by rewrite lookup_insert_eq.
    + intros v Hne. cbn. by rewrite !lookup_insert_ne.
Qed.

Lemma alone_close_all ts k w u :
  p_thr w !! u = Some (close_all hash_of alive ts k) -> p_mu w = false -> Forall (fun t => alive t = true) ts ->
  alone w u (with_torrents (fun m => foldl (fun m t => delete (hash_of t) m) m ts) (p_st w)) k.
Proof.
  intros Hu Hmu Ha. revert w Hu Hmu. induction Ha as [|t ts Ht _ IH]; intros w Hu Hmu; cbn [foldl close_all] in *.
  - replace (with_torrents (fun m => m) (p_st w)) with (p_st w) by (by destruct (p_st w)). by apply alone_refl.
  - rewrite Ht in Hu. destruct (alone_drop _ _ _ _ Hu Hmu) as [b Hb]. eapply alone_bind; [exact Hb|].
    intros w' Hu' Hmu' E. destruct (IH w' Hu' Hmu') as (thr & Hr). exists thr. rewrite E in Hr. exact Hr.
Qed.

Lemma foldl_delete (ts : list nat) (m : gmap bytes nat) h :
  foldl (fun m t => delete (hash_of t) m) m ts !! h = if decide (h ∈ hash_of <$> ts) then None else m !! h.
Proof.
  revert m. induction ts as [|t ts IH]; intros m; [done|]. cbn [foldl]. rewrite IH, fmap_cons.
  destruct (decide (h = hash_of t)) as [->|Hne].
  - rewrite lookup_delete_eq. rewrite (decide_True (P := hash_of t ∈ hash_of t :: _)) by left. by destruct (decide _).
  - rewrite lookup_delete_ne by done. apply decide_ext. rewrite elem_of_cons. naive_solver.
Qed.

(** Close, undisturbed, returns and leaves a client without torrents. *)
Theorem Close_empties w u order :
  preach starts empty_registry w -> p_thr w !! u = Some (Close hash_of alive order) -> p_mu w = false ->
  (forall l, order l ≡ₚ l) -> (forall h ptr, rg_torrents (p_st w) !! h = Some ptr -> alive ptr = true /\ hash_of ptr = h) ->
  exists w', rtc pstep w w' /\ p_thr w' !! u = Some (Ret RClosed) /\ p_mu w' = false /\
    rg_torrents (p_st w') = ∅ /\ rg_blackList (p_st w') = rg_blackList (p_st w) /\
    forall v, v <> u -> p_thr w' !! v = p_thr w !! v.
Proof.
  intros _ Hu Hmu Ho Hg. set (ts := order (snd <$> map_to_list (rg_torrents (p_st w)))).
  assert (Hts : forall t, t ∈ ts <-> exists h, rg_torrents (p_st w) !! h = Some t).
  { intros t. unfold ts. rewrite Ho, list_elem_of_fmap. split.
    - intros ([h t'] & -> & Hin). exists h. by apply elem_of_map_to_list.
    - intros [h Hh]. exists (h, t). by rewrite elem_of_map_to_list. }
  assert (H1 : alone w u (p_st w) (Torrents order (fun ts => close_all hash_of alive ts (Ret
    (if (base.size (rg_torrents (p_st w)) <? length ts)%nat then RNegative else if (length ts <? base.size (rg_torrents (p_st w)))%nat then RWaits else RClosed))))).
  { eexists. split_and!; [|by rewrite lookup_insert_eq|intros v Hne; by rewrite lookup_insert_ne]. apply rtc_once.
    rewrite <- Hmu. eapply ps_do; [exact Hu|reflexivity]. }
  assert (Hlen : length ts = base.size (rg_torrents (p_st w))).
  { unfold ts. rewrite Ho, length_fmap. apply length_map_to_list. }
  assert (H2 : alone w u (with_torrents (fun m => foldl (fun m t => delete (hash_of t) m) m ts) (p_st w)) (Ret RClosed)).
  { eapply alone_bind; [exact H1|]. intros w1 Hu1 Hmu1 E1. eapply alone_bind; [by apply alone_Torrents|]. intros w2 Hu2 Hmu2 E2.
    rewrite E1 in Hu2. fold ts in Hu2. rewrite Hlen, Nat.ltb_irrefl in Hu2. rewrite <- E1, <- E2. apply alone_close_all; [done|done|].
    apply Forall_forall. intros t [h Hh]%Hts. by destruct (Hg h t Hh). }
  destruct H2 as (thr & Hr & Hu' & Hv). eexists. split_and!; [exact Hr|exact Hu'|done| |done|exact Hv].
  cbn. apply map_eq. intros h. rewrite foldl_delete, lookup_empty. destruct (decide _) as [|Hn]; [done|].
  destruct (rg_torrents (p_st w) !! h) as [t|] eqn:E; [|done]. destruct Hn. destruct (Hg h t E) as [_ <-].
  apply list_elem_of_fmap_2, Hts. by eexists.
Qed.

(** Close counts the torrents before it takes the mutex: when a torrent is dropped in between, it
    waits for ever for one that is gone. *)
Theorem Close_may_wait w u v t :
  p_thr w !! u = Some (Close hash_of alive (fun l => l)) -> p_thr w !! v = Some (dropTorrent (hash_of t) (fun ok => Ret (RDropped ok))) ->
  u <> v -> p_mu w = false -> rg_torrents (p_st w) = {[ hash_of t := t ]} ->
  exists w', rtc pstep w w' /\ p_thr w' !! u = Some (Ret RWaits).
Proof.
  intros Hu Hv Hne Hmu Hg.
  set (k := Torrents (fun l => l) (fun ts => close_all hash_of alive ts (Ret (if (1 <? length ts)%nat then RNegative else if (length ts <? 1)%nat then RWaits else RClosed)))).
  set (w1 := mkPool (p_st w) (p_mu w) (<[u := k]> (p_thr w))).
  assert (H1 : rtc pstep w w1).
  { apply rtc_once. eapply ps_do; [exact Hu|]. unfold k. by rewrite Hg, map_size_singleton. }
  destruct (alone_drop w1 v (hash_of t) (fun ok => Ret (RDropped ok))) as (b & thr & Hr & _ & Hother); [cbn; by rewrite lookup_insert_ne|done|].
  destruct (alone_Torrents (mkPool (with_torrents (delete (hash_of t)) (p_st w1)) false thr) u (fun l => l)
    (fun ts => close_all hash_of alive ts (Ret (if (1 <? length ts)%nat then RNegative else if (length ts <? 1)%nat then RWaits else RClosed))))
    as (thr' & Hr' & Hu' & _).
  - cbn. rewrite (Hother u) by done. cbn. by rewrite lookup_insert_eq.
  - done.
  - eexists. split; [etrans; [exact H1|]; etrans; [exact Hr|exact Hr']|]. cbn in Hu' |- *. rewrite Hg, delete_singleton_eq in Hu'. exact Hu'.
Qed.

End closing.
