(* ===== verification/ClientConn.v ===== *)
(** * New clients and their connections

    What a new client is, which torrent an added metainfo starts, the extension handshake as
    the peer reads it, and the two ends of a connection between two clients: accepting and
    dialing. *)

From S2P Require Import Prelude Strconv Bitfield GoValue BenDecode BenEncode BenRound Wire Handshake Metainfo Magnet Bitmap Piece Pieces.
From S2P Require Import Metadata ConnInfo Swarm SwarmInv Torrent TorrentInv TorrentSafe Conc Net Client.

(** ** New clients *)

(** What is true of every client. *)
Record client_wf {S} (cl : Client S) : Prop := {
  cw_reserved : length (cl_reserved_bits cl) = 8%nat;
  cw_peerID : length (cl_peerID cl) = 20%nat;
  cw_ext : SupportExtended (cl_reserved_bits cl) = Some true;
  cw_dht : SupportDHT (cl_reserved_bits cl) = Some (cl_dhtServer cl);
  cw_dhtServer : cl_dhtServer cl = negb (cf_DisableDHT (cl_config cl));
  cw_listener : cl_listener cl = negb (RejectIncomingConnections (cl_config cl));
  cw_announcer : cl_announcer cl = negb (cf_DisableTrackers (cl_config cl));
}.

Section newclient.
Context {S : Type}.
Variable parseIPv6 : bytes -> option bytes.
Variable NewDefaultPieceSelector : S.
Implicit Types (cfg : option (Config S)) (cl : Client S).

(** The fields of a new client agree with each other: its reserved bits announce the
    extension protocol always and the DHT exactly when it runs a DHT server, which it does when
    the DHT is enabled; without a listener there is no DHT. *)
Theorem NewClient_wf cfg w cl :
  length (rbytes w) = 12%nat -> NewClient parseIPv6 NewDefaultPieceSelector cfg w = Ok cl ->
  client_wf cl /\ (cl_dhtServer cl = true -> cl_listener cl = true) /\
  (cl_listener cl = true -> listen parseIPv6 (free_port w) (any_addr w) = Ok (cl_port cl)) /\
  forall c, cfg = Some c -> cl_config cl = (if RejectIncomingConnections c then disableDHT c else c).
Proof.
  intros Hr Hcl. assert (Hid : length (newPeerID (rbytes w)) = 20%nat).
  { unfold newPeerID. rewrite length_take, !length_app, Hr. done. }
  assert (exists c, NewClient parseIPv6 NewDefaultPieceSelector (Some c) w = Ok cl /\ (forall c', cfg = Some c' -> c' = c)) as (c & Hc & Hcfg).
  { destruct cfg as [c|]; [exists c; split; [done|congruence]|]. revert Hcl. unfold NewClient.
    destruct (DefaultConfig _ _) as [c|]; cbn [mbind result_bind]; [|done]. intros Hcl. by exists c. }
  cut (client_wf cl /\ (cl_dhtServer cl = true -> cl_listener cl = true) /\
    (cl_listener cl = true -> listen parseIPv6 (free_port w) (any_addr w) = Ok (cl_port cl)) /\
    cl_config cl = (if RejectIncomingConnections c then disableDHT c else c)).
  { intros (W & D & L & E). split_and!; [done..|]. by intros c' ->%Hcfg. }
  clear Hcl Hcfg cfg. revert Hc. unfold NewClient. cbn [mbind result_bind]. destruct (log_ok w); cbn [negb]; [|done].
  destruct c as [sel m1 m2 rej dt dd dir]. cbn [RejectIncomingConnections]. destruct rej; cbn [negb].
  - cbn. intros [= <-]. by split_and!.
  - destruct (listen _ _ _) as [port| |]; [|done..]. cbn [mbind result_bind cf_DisableDHT cf_DisableTrackers]. destruct dd; cbn [negb].
    + cbn. intros [= <-]. by split_and!.
    + destruct (dht_ok w); [|done]. cbn. intros [= <-]. by split_and!.
Qed.

End newclient.

(** ** The extension handshake *)

(** Our dictionary as the decoder gives it. *)
Definition ext_dict (metaSz : Z) : list (bytes * gval) :=
  (bs "m", VIface (Some (TMap TIface, VMap (Some [(bs "ut_metadata", VIface (Some (TInt 64, VInt ExtMetadataID)))])))) ::
  (if metaSz =? 0 then [] else [(bs "metadata_size", VIface (Some (TInt 64, VInt metaSz)))]).

Lemma ext_dict_canon metaSz : in_s 64 metaSz -> canon ExtHandshakeDict_type (VMap (Some (ext_dict metaSz))).
Proof.
  intros Hz. assert (Hm : canon TIface (VIface (Some (TMap TIface, VMap (Some [(bs "ut_metadata", VIface (Some (TInt 64, VInt ExtMetadataID)))]))))).
  { apply canon_iface_dict; [by repeat constructor|]. constructor; [|constructor]. split; [done|]. by apply canon_iface_int. }
  unfold ext_dict. destruct (metaSz =? 0).
  - apply canon_map; [done|by repeat constructor|]. by constructor.
  - apply canon_map; [done| |].
    + constructor; [by repeat constructor|]. by constructor.
    + constructor; [done|]. constructor; [|constructor]. split; [done|]. by apply canon_iface_int.
Qed.

Lemma ext_dict_text metaSz :
  BenEncode.Encode (TPtr TIface) (VPtr (Some (VIface (Some (extHandshake_type, VStruct [extensions; VInt metaSz]))))) =
  BenEncode.Encode ExtHandshakeDict_type (VMap (Some (ext_dict metaSz))).
Proof.
  change (encode extHandshake_type (VStruct [extensions; VInt metaSz]) = encode (TMap TIface) (VMap (Some (ext_dict metaSz)))).
  unfold extHandshake_type. rewrite encode_struct. cbn [struct_fields encode]. unfold field_skipped.
  assert (E : isZero (VInt metaSz) = (metaSz =? 0)) by done. rewrite E. clear E. unfold ext_dict.
  destruct (metaSz =? 0); vm_compute; reflexivity.
Qed.

Definition ext_text (metaSz : Z) : bytes :=
  bs "d1:md11:ut_metadatai1ee" ++
  (if metaSz =? 0 then bs "e" else bs "13:metadata_sizei" ++ FormatInt metaSz ++ bs "ee").

Lemma ext_dict_encode metaSz :
  BenEncode.Encode ExtHandshakeDict_type (VMap (Some (ext_dict metaSz))) = Ok (ext_text metaSz).
Proof.
  unfold ext_text, ext_dict. destruct (metaSz =? 0); [by vm_compute|].
  cbv -[FormatInt app]. generalize (FormatInt metaSz). intros text.
  change (FormatInt 1) with (bs "1"). change (FormatInt 11) with (bs "11"). change (FormatInt 13) with (bs "13").
  cbn. by rewrite app_nil_r, <- !app_assoc.
Qed.

Lemma length_format_loop fuel n acc : (length (format_loop fuel n acc) <= fuel + length acc)%nat.
Proof.
  revert n acc. induction fuel as [|fuel IH]; intros n acc; cbn [format_loop]; [lia|].
  cbv zeta. case_match; [cbn; lia|]. etrans; [apply IH|]. cbn. lia.
Qed.

Lemma length_FormatInt n : in_s 64 n -> (length (FormatInt n) <= 66)%nat.
Proof.
  assert (Hu : forall m, 0 <= m <= 2 ^ 63 -> (length (FormatUint m) <= 65)%nat).
  { intros m Hm. unfold FormatUint. etrans; [apply length_format_loop|]. cbn [length].
    pose proof (Z.log2_le_mono m (2 ^ 63) ltac:(lia)) as Hl. rewrite Z.log2_pow2 in Hl by lia. lia. }
  unfold in_s, FormatInt. intros Hn. change (2 ^ (64 - 1)) with (2 ^ 63) in Hn. destruct (Z.ltb_spec n 0).
  - specialize (Hu (- n) ltac:(lia)). cbn [length]. lia.
  - specialize (Hu n ltac:(lia)). lia.
Qed.

Lemma length_ext_text metaSz : in_s 64 metaSz -> (length (ext_text metaSz) <= 108)%nat.
Proof.
  intros Hz%length_FormatInt. unfold ext_text. destruct (metaSz =? 0); rewrite !length_app.
  - cbn. lia.
  - change (length (bs "d1:md11:ut_metadatai1ee")) with 23%nat. change (length (bs "13:metadata_sizei")) with 17%nat.
    change (length (bs "ee")) with 2%nat. lia.
Qed.

(** The message as it is written. *)
Definition ext_frame (metaSz : Z) : bytes :=
  let b := w8 Extended ++ w8 ExtHandshakeID ++ ext_text metaSz in w32 (uint32 (lenZ b)) ++ b.

Lemma extensionHandshakeMsg_frame metaSz : extensionHandshakeMsg metaSz = Some (ext_frame metaSz).
Proof. unfold extensionHandshakeMsg. by rewrite ext_dict_text, ext_dict_encode. Qed.

Definition ext_msg (metaSz : Z) : Msg := mkMsg Extended 0 0 0 [] [] 0 ExtHandshakeID (ExtDict (Some (ext_dict metaSz))).

Lemma ext_frame_read metaSz rest : in_s 64 metaSz -> Wire.Decode (ext_frame metaSz ++ rest) = Ok (ext_msg metaSz, rest).
Proof.
  intros Hz. pose proof (length_ext_text _ Hz) as Hl.
  destruct (body_reads_ext _ _ _ (ext_reads_handshake _ _ (ext_dict_canon _ Hz) (ext_dict_encode metaSz))) as (_ & Hb & Hd).
  - change maxMsgLength with 262144. lia.
  - unfold ext_frame. rewrite <- app_assoc, Decode_frame by done. by rewrite Hd.
Qed.

Lemma ext_msg_fields metaSz :
  Extensions (Some (ext_dict metaSz)) = Ok [(bs "ut_metadata", ExtMetadataID)] /\
  MetadataSize (Some (ext_dict metaSz)) = if metaSz =? 0 then None else Some metaSz.
Proof. split; [by vm_compute|]. unfold MetadataSize, ext_dict. by destruct (metaSz =? 0). Qed.

(** ** Handshakes *)

Lemma conn_ReadFull_length n c b c' : 0 <= n -> conn_ReadFull n c = Ok (b, c') -> lenZ b = n /\ c_writes c' = c_writes c.
Proof.
  intros Hn. unfold conn_ReadFull, ReadFull. destruct (Z.leb_spec n (lenZ (c_in c))); [|by destruct (c_in c)].
  intros [= <- <-]. split; [|done]. rewrite length_take. lia.
Qed.

Lemma conn_ReadFull_returns n c : conn_ReadFull n c <> Panic.
Proof. unfold conn_ReadFull, ReadFull. by repeat case_match; simplify_eq. Qed.

Lemma readHsWithoutPeerID_ok c :
  match readHsWithoutPeerID c with
  | Ok (h, c') => length (hs_Reserved h) = 8%nat /\ c_writes c' = c_writes c
  | Err _ => True
  | Panic => False
  end.
Proof.
  unfold readHsWithoutPeerID. pose proof (conn_ReadFull_returns 20 c) as Hp.
  destruct (conn_ReadFull 20 c) as [[b c1]|e|] eqn:E; [|done..]. cbn [mbind result_bind].
  destruct (conn_ReadFull_length 20 c b c1 ltac:(lia) E) as [Hb Hw].
  destruct b as [|b0 pstr]; [done|]. destruct (negb _ && bool_decide _); [done|]. pose proof (conn_ReadFull_returns 28 c1) as Hp1.
  destruct (conn_ReadFull 28 c1) as [[b' c2]|e|] eqn:E'; [|done..]. cbn [mbind result_bind].
  destruct (conn_ReadFull_length 28 c1 b' c2 ltac:(lia) E') as [Hb' Hw']. cbn [hs_Reserved].
  split; [rewrite length_take; lia|congruence].
Qed.

Lemma readPeerID_ok h c :
  match readPeerID h c with
  | Ok (h', c') => hs_Reserved h' = hs_Reserved h /\ hs_InfoHash h' = hs_InfoHash h /\ c_writes c' = c_writes c
  | Err _ => True
  | Panic => False
  end.
Proof.
  unfold readPeerID. pose proof (conn_ReadFull_returns 20 c) as Hp.
  destruct (conn_ReadFull 20 c) as [[b c1]|e|] eqn:E; [|done..]. cbn [mbind result_bind].
  by destruct (conn_ReadFull_length 20 c b c1 ltac:(lia) E).
Qed.

Lemma conn_write_returns b c : conn_write b c <> Panic.
Proof. unfold conn_write. by destruct (c_writes c) as [|[] ?]. Qed.

Lemma conn_write_Ok b c c' : conn_write b c = Ok c' -> c_in c' = c_in c /\ c_out c' = c_out c ++ b.
Proof. unfold conn_write. by destruct (c_writes c) as [|[] ?]; intros; simplify_eq. Qed.

(** A handshake returns; when it succeeds, what it read is about the torrent that was asked for,
    if one was. *)
Lemma Do_ok h c :
  match Handshake.Do h c with
  | Ok (h', c') => length (hs_Reserved h') = 8%nat /\ (hs_InfoHash h <> zero20 -> hs_InfoHash h' = hs_InfoHash h)
  | Err _ => True
  | Panic => False
  end.
Proof.
  unfold Handshake.Do. case_bool_decide as Hz; cbn [negb].
  - unfold receipt. pose proof (readHsWithoutPeerID_ok c) as H1. destruct (readHsWithoutPeerID c) as [[h1 c1]|e|]; [|done..].
    cbn [mbind result_bind]. unfold hs_write.
    match goal with |- context [conn_write ?a ?b] => pose proof (conn_write_returns a b); destruct (conn_write a b) as [c1'| |]; [|done..] end.
    cbn [mbind result_bind].
    match goal with |- context [readPeerID ?a ?b] => pose proof (readPeerID_ok a b) as H2; destruct (readPeerID a b) as [[h2 c2]|e|]; [|done..] end.
    destruct H1 as [H1 _], H2 as (-> & _). by split.
  - unfold initiate, hs_write. pose proof (conn_write_returns (hs_bytes h) c). destruct (conn_write (hs_bytes h) c) as [c0| |]; [|done..].
    cbn [mbind result_bind]. unfold readHs. pose proof (readHsWithoutPeerID_ok c0) as H1. destruct (readHsWithoutPeerID c0) as [[h1 c1]|e|]; [|done..].
    cbn [mbind result_bind]. pose proof (readPeerID_ok h1 c1) as H2. destruct (readPeerID h1 c1) as [[h2 c2]|e|]; [|done..].
    cbn [mbind result_bind]. case_bool_decide as Hi; cbn [negb]; [|done]. destruct H1 as [H1 _], H2 as (-> & _). by split.
Qed.

Lemma handshake_ok h peer c :
  match handshake h peer c with
  | Ok (h', c') => Handshake.Do h c = Ok (h', c') /\ (forall id, p_ID peer = Some id -> id = hs_PeerID h')
  | Err _ => True
  | Panic => False
  end.
Proof.
  unfold handshake. pose proof (Do_ok h c) as H. destruct (Handshake.Do h c) as [[h' c']|e|]; [|done..].
  destruct (p_ID peer) as [id|]; [|by split]. case_bool_decide; cbn [negb]; [|done]. split; [done|]. by intros ? [= <-].
Qed.

(** ** Accepting and dialing *)

(** The length of our info dictionary, as far as we have it. *)
Definition info_size (uts : utMetadatas) : Z :=
  match uts_correct uts with Some ut => lenZ (infoBytes ut) | None => 0 end.

(** What is written after the handshake to a peer with the reserved bits [theirs]. *)
Definition ext_sent (theirs : Reserved) (uts : utMetadatas) : bytes :=
  match SupportExtended theirs with Some true => ext_frame (info_size uts) | _ => [] end.

Definition our_handshake {S} (cl : Client S) (infoHash : bytes) : HandShake :=
  mkHandShake (cl_reserved_bits cl) infoHash (cl_peerID cl).

Section conns.
Context {S : Type}.
Variable parseIPv6 : bytes -> option bytes.
Variable uts_of : nat -> utMetadatas.
Implicit Types (cl clA clB : Client S) (s sA sB : tcp).

Lemma our_handshake_wf cl h : client_wf cl -> length h = 20%nat -> hs_wf (our_handshake cl h).
Proof. intros W Hh. split_and!; [apply W|done|apply W]. Qed.

(** One write, if both ends support extensions. *)
Lemma maybeSendExtHandshake_eq cl theirs uts c :
  client_wf cl -> length theirs = 8%nat ->
  maybeSendExtHandshake (cl_reserved_bits cl) theirs uts c =
    match SupportExtended theirs with Some true => conn_write (ext_frame (info_size uts)) c | _ => Ok c end.
Proof.
  intros W Hl. unfold maybeSendExtHandshake. rewrite (cw_ext cl W).
  assert (exists b, SupportExtended theirs = Some b) as [b ->].
  { do 8 (destruct theirs as [|? theirs]; [done|]). by eexists. }
  destruct b; [|done]. by rewrite extensionHandshakeMsg_frame.
Qed.

Lemma maybeSendExtHandshake_ok cl theirs uts c :
  client_wf cl -> length theirs = 8%nat -> c_writes c = [] ->
  maybeSendExtHandshake (cl_reserved_bits cl) theirs uts c = Ok (mkConn (c_in c) (c_out c ++ ext_sent theirs uts) []).
Proof.
  intros W Hl Hw. rewrite maybeSendExtHandshake_eq by done. unfold ext_sent, conn_write. rewrite Hw.
  destruct (SupportExtended theirs) as [[]|]; [done|..]; rewrite app_nil_r; destruct c; cbn in *; by subst.
Qed.


(** A peer that asks for a torrent we do not have keeps its connection: the error that makes the
    deferred function close it is not set. *)
Theorem Accept_leaks cl torrents s hI rest peer :
  hs_wf hI -> addrToPeer parseIPv6 (tc_remote s) SourceIncoming = Ok peer -> torrents !! hs_InfoHash hI = None ->
  tc_conn s = mkConn (hs_bytes hI ++ rest) [] [] ->
  exists c, Accept parseIPv6 uts_of cl torrents s = (Err errNotManaged, mkTcp c (tc_closed s) (tc_remote s)).
Proof.
  intros Hh Ha Ht Hs. assert (p_ID peer = None) as Hid.
  { revert Ha. unfold addrToPeer. repeat case_match; intros [= <-]; done. }
  unfold Accept, handshake. rewrite Ha, Hs, Do_receipt by done. cbn [mbind result_bind]. rewrite Hid, Ht. by eexists.
Qed.

(** C17: Two clients of this program connect: when one dials the other about a torrent that the
    other one manages, each gets the handshake of the other and reads its extension handshake,
    with the name and the number of the metadata extension and with the size of the info
    dictionary if the other one has it, and what follows is left for the connection. *)
Theorem clients_connect clA clB torrents sA sB tA tB h peerA peerB restA restB :
  client_wf clA -> client_wf clB -> length h = 20%nat -> h <> zero20 -> torrents !! h = Some tB ->
  addrToPeer parseIPv6 (tc_remote sB) SourceIncoming = Ok peerA ->
  (forall id, p_ID peerB = Some id -> id = cl_peerID clB) ->
  in_s 64 (info_size (uts_of tA)) -> in_s 64 (info_size (uts_of tB)) ->
  let outA := hs_bytes (our_handshake clA h) ++ ext_frame (info_size (uts_of tA)) in
  let outB := hs_bytes (our_handshake clB h) ++ ext_frame (info_size (uts_of tB)) in
  tc_conn sA = mkConn (outB ++ restB) [] [] -> tc_conn sB = mkConn (outA ++ restA) [] [] ->
  let inA := ext_frame (info_size (uts_of tB)) ++ restB in
  let inB := ext_frame (info_size (uts_of tA)) ++ restA in
  dial uts_of clA tA h peerB (Some sA) =
    (Ok (mkAccepted tA peerB (cl_reserved_bits clB)), Some (mkTcp (mkConn inA outA []) (tc_closed sA) (tc_remote sA))) /\
  Accept parseIPv6 uts_of clB torrents sB =
    (Ok (mkAccepted tB peerA (cl_reserved_bits clA)), mkTcp (mkConn inB outB []) (tc_closed sB) (tc_remote sB)) /\
  (exists d, Wire.Decode inA = Ok (mkMsg Extended 0 0 0 [] [] 0 ExtHandshakeID (ExtDict d), restB) /\
     Extensions d = Ok [(bs "ut_metadata", ExtMetadataID)] /\
     MetadataSize d = (if info_size (uts_of tB) =? 0 then None else Some (info_size (uts_of tB)))) /\
  (exists d, Wire.Decode inB = Ok (mkMsg Extended 0 0 0 [] [] 0 ExtHandshakeID (ExtDict d), restA) /\
     Extensions d = Ok [(bs "ut_metadata", ExtMetadataID)] /\
     MetadataSize d = (if info_size (uts_of tA) =? 0 then None else Some (info_size (uts_of tA)))).
Proof.
  intros WA WB Hh Hz Ht Ha Hid HzA HzB outA outB HA HB inA inB. split_and!.
  - unfold dial, handshake. fold (our_handshake clA h). rewrite HA. unfold outB. rewrite <- app_assoc.
    rewrite Do_initiate by (try done; by apply our_handshake_wf). destruct (p_ID peerB) as [id|].
    + rewrite (Hid id) by done. cbn [hs_PeerID our_handshake]. rewrite bool_decide_true by done. cbn [negb].
      rewrite maybeSendExtHandshake_ok by (try done; apply WB). unfold ext_sent. cbn [hs_Reserved our_handshake]. by rewrite (cw_ext clB WB).
    + rewrite maybeSendExtHandshake_ok by (try done; apply WB). unfold ext_sent. cbn [hs_Reserved our_handshake]. by rewrite (cw_ext clB WB).
  - assert (p_ID peerA = None) as Hno.
    { revert Ha. unfold addrToPeer. repeat case_match; intros [= <-]; done. }
    unfold Accept, handshake. rewrite Ha, HB. unfold outA. rewrite <- app_assoc.
    rewrite Do_receipt by (try done; by apply our_handshake_wf). rewrite Hno. cbn [hs_InfoHash our_handshake]. rewrite Ht.
    rewrite maybeSendExtHandshake_ok by (try done; apply WA). unfold ext_sent. cbn [hs_Reserved our_handshake]. by rewrite (cw_ext clA WA).
  - exists (Some (ext_dict (info_size (uts_of tB)))). split; [by apply ext_frame_read|apply ext_msg_fields].
  - exists (Some (ext_dict (info_size (uts_of tA)))). split; [by apply ext_frame_read|apply ext_msg_fields].
Qed.

End conns.

(** ** Adding torrents *)

Section add.
Context {B : Type} `{BitmapLaws B} {S : Type} `{PieceSelector S B} `{SortSliceLaws (Piece B)} `{SortSliceLaws Z}.
Variable env : Env.
Context `{EnvLaws env}.
Variable ip6_String : bytes -> bytes.
Variable int_of_Inf : Z.
Variable openStorage : InfoDict -> list Z -> bool.
Variable outboundIP : bytes.
Implicit Types (cl : Client S).

Abbreviation AddFromParser := (AddFromParser (B := B) env ip6_String int_of_Inf openStorage outboundIP).
Abbreviation torrent := (torrent B S).

(** A metainfo that is prepared: the torrent after the first lines of [start]. *)
Lemma prepare_runs cl dhtPort mi info :
  client_wf cl -> Info mi = Some info ->
  InfoBytes mi = None \/ (exists b, InfoBytes mi = Some b /\ b <> []) /\ params_ok (info_params info) ->
  let cfg := torrent_config cl dhtPort in
  exists t : torrent, prepare env ip6_String int_of_Inf openStorage outboundIP cl dhtPort (Ok (Some mi)) = Ok t /\ tor_ok t /\
    (InfoBytes mi = None -> t = newTorrent cfg info (Announce mi) None) /\
    when (negb (infoWasDownloaded (newTorrent cfg info (Announce mi) (InfoBytes mi) : torrent)))
      (gotInfo env ip6_String int_of_Inf openStorage (cf_SelectorF (cl_config cl)) outboundIP) (newTorrent cfg info (Announce mi) (InfoBytes mi)) = Ok ((), t).
Proof.
  intros W Hi Hib cfg. assert (Hr : length (cl_reserved cfg) = 8%nat) by apply W.
  pose proof (tor_ok_empty cfg info (Announce mi) Hr : tor_ok (newTorrent cfg info (Announce mi) None : torrent)) as Hnew.
  unfold prepare. rewrite Hi. fold cfg. destruct Hib as [->|[(b & -> & Hb) Hpar]]; cbn [infoWasDownloaded newTorrent t_data mi_InfoBytes negb when].
  - eexists. split; [reflexivity|]. by split_and!.
  - set (d := t_data (newTorrent cfg info (Announce mi) (Some b)) : tdata B S).
    assert (Hok : okay (gotInfo env ip6_String int_of_Inf openStorage (cf_SelectorF (cl_config cl)) outboundIP)
      (set_data d (newTorrent cfg info (Announce mi) None)) (fun _ => tor_ok)).
    { refine (okay_gotInfo env ip6_String int_of_Inf (fun b => b) openStorage _ outboundIP (newTorrent cfg info (Announce mi) None) d _ Hnew _ (fun _ => eq_refl)).
      constructor; [done|done|done|reflexivity| |done]. cbn. by destruct b. }
    destruct Hok as ([] & t & E & Ht). change (set_data d _) with (newTorrent cfg info (Announce mi) (Some b) : torrent) in E.
    exists t. rewrite E. by split_and!.
Qed.

(** C27: An added metainfo becomes a torrent: with an info dictionary that describes pieces of a
    usable length, or without one, AddFromParser gives a torrent in the state from which the
    main loop of [start] goes on, so everything that is shown of the states a started
    torrent reaches holds for it. It is to be registered under its info hash; a parser's error
    is returned, and a parser that returns a nil metainfo panics. *)
Theorem AddFromParser_starts cl dhtPort ptr :
  client_wf cl ->
  (forall mi info, Info mi = Some info ->
     InfoBytes mi = None \/ (exists b, InfoBytes mi = Some b /\ b <> []) /\ params_ok (info_params info) ->
     let cfg := torrent_config cl dhtPort in
     exists t : torrent,
       AddFromParser cl dhtPort ptr (Ok (Some mi)) = Ok (t, register ptr (Hash (mi_Info (t_data t)))) /\ tor_ok t /\
       (InfoBytes mi = None -> t = newTorrent cfg info (Announce mi) None /\ Hash (mi_Info (t_data t)) = Hash info) /\
       setup_ok cfg info (InfoBytes mi) /\
       (exists t0, tryAnnounceAll env int_of_Inf t = Ok ((), t0) /\
          start env ip6_String int_of_Inf openStorage (cf_SelectorF (cl_config cl)) outboundIP
            (newTorrent cfg info (Announce mi) (InfoBytes mi)) = Ok ((), t0))) /\
  (forall e, AddFromParser cl dhtPort ptr (Err e) = Err e) /\
  AddFromParser cl dhtPort ptr (Ok None) = Panic.
Proof.
  intros W. split; [|done]. intros mi info Hi Hib cfg. assert (Hr : length (cl_reserved cfg) = 8%nat) by apply W.
  assert (Hs : setup_ok cfg info (InfoBytes mi)) by done.
  destruct (prepare_runs cl dhtPort mi info W Hi Hib) as (t & E & Ht & Hnone & Hrun). fold cfg in Hnone, Hrun. exists t. unfold Client.AddFromParser. rewrite E. split_and!; [done|done| |done|].
  - intros Hn. rewrite (Hnone Hn). by split.
  - pose proof (runs_tryAnnounceAll env int_of_Inf t) as Hann. destruct (okay_runs_True _ _ _ Ht (Hann ltac:(apply Ht))) as ([] & t0 & Ea & _).
    exists t0. split; [done|]. unfold start. cbn -[gotInfo newTorrent infoWasDownloaded when tryAnnounceAll].
    unfold mbind, M_bind, gets. cbn -[gotInfo newTorrent infoWasDownloaded when tryAnnounceAll]. by rewrite Hrun.
Qed.

End add.
