(* ===== verification/Command.v ===== *)
(** * cmd/charo-download/main.go: the command line

    From the flags to the end of the process: main makes a client, adds the torrent of the file or
    the magnet link, and loops next to the torrent, its hasher and its files: it starts the transfer
    when the info dictionary is there, seeds for an hour after the download, and prints the status.
    Nobody else calls the exported methods of the torrent. What ends the process with an error is
    log.Fatal in main or in NewClient, Fatalf in a connection, and a panic of the main loop of the
    torrent; panics of other goroutines are not part of this file. *)

From S2P Require Import Prelude Strconv Bitfield GoValue BenDecode BenEncode Wire Metainfo Bitmap Piece Pieces Storage StorageSafe.
From S2P Require Import Metadata ConnInfo Swarm SwarmInv Choker Torrent TorrentInv TorrentSafe Frames Hasher Download Conc Status Exported.
From S2P Require Import Conn ConnInv Magnet Net Client ClientConn.

(** ** The program *)

(** Where the torrent comes from; without a file or a magnet link the program ends. *)
Inductive source := FromFile (name : bytes) | FromMagnet (uri : bytes).
Definition main_source (torrentFile magnet : bytes) : option source :=
  if negb (bool_decide (torrentFile = [])) then Some (FromFile torrentFile)
  else if negb (bool_decide (magnet = [])) then Some (FromMagnet magnet) else None.

(** The variables of main: whether infoC and downloadC are still the channels of the torrent, when
    the timer of seedC fires, and what has been printed. *)
Record cmd := mkCmd {
  cm_infoC : bool;
  cm_downloadC : bool;
  cm_seedC : option Z;
  cm_out : list bytes;
}.

(** Why the process ends with an error: the configuration, the client, no file and no link, adding
    the torrent; and later the start of the transfer, a torrent that is closed, a panic of its main
    loop, a failed write to its files. *)
Inductive reason := FConfig | FClient | FNoSource | FAdd | FStart | FClosed | FPanic | FWrite.

Inductive mrun := MLoop | MFatal (r : reason) | MExit.

Definition hour : Z := 3600 * 10 ^ 9.
Definition got_info_text : bytes := bs "downloaded info!".
Definition downloaded_text : bytes := bs "Downloaded torrent. Will be seeding for 1 hour...".

Record msys (B S : Type) := mkMsys {
  m_h : hsys B S FileStorage;
  m_now : Z;
  m_cmd : cmd;
  m_run : mrun;
}.
Arguments mkMsys {B S}.
Arguments m_h {B S} m.
Arguments m_now {B S} m.
Arguments m_cmd {B S} m.
Arguments m_run {B S} m.

Section command.
Context {B : Type} `{BitmapLaws B} {S : Type} `{PieceSelector S B} `{SortSliceLaws (Piece B)} `{SortSliceLaws Z}.
Variable env : Env.
Context `{EnvLaws env}.
Variable ip6_String : bytes -> bytes.
Variable int_of_Inf : Z.
Variable sha1_Sum : bytes -> bytes.
Variable SelectorF : S.
Variable outboundIP : bytes.
Variable filepath_Join : list bytes -> bytes.
Variable io : fileio.
Variable dir : bytes.
Variable fs0 : fsys.

Abbreviation torrent := (torrent B S).
Abbreviation hsys := (hsys B S FileStorage).
Abbreviation msys := (msys B S).
Abbreviation openFiles := (openFiles sha1_Sum filepath_Join dir fs0).
Abbreviation dstep := (dstep (B := B) (S := S) env ip6_String int_of_Inf sha1_Sum SelectorF outboundIP filepath_Join io dir fs0).
Abbreviation hstep := (hstep (B := B) (S := S) env ip6_String int_of_Inf sha1_Sum openFiles SelectorF outboundIP
  (Storage.HashPiece filepath_Join sha1_Sum) (conn_write filepath_Join io)).
Implicit Types (t : torrent) (h : hsys) (m : msys).

(** The exported StartDataTransfer, with the torrent locked. *)
Definition start_call t : result terror (option api_error * torrent) :=
  if t_closed t then Ok (Some errTorrentClosed, t)
  else match StartDataTransfer env ip6_String int_of_Inf t with Ok (r, t') => Ok (errStart <$> r, t') | Err e => Err e | Panic => Panic end.

Definition with_h (t : torrent) h : hsys := mkHsys t (h_store h) (h_run h) (h_chan h).

(** *** From the flags to the loop *)

Variable parseIPv6 : bytes -> option bytes.
Variable url_Parse : bytes -> option (bytes * bytes).
Variable read_file : bytes -> option bytes.
Variable w : world_.
Variable dhtPort : Z.
Variable torrentFile magnet : bytes.

(** What the file or the link gives. *)
Definition main_parse (src : source) : result merror (option MetaInfo) :=
  match src with
  | FromFile name => Some <$> LoadMetainfoFile sha1_Sum (read_file name)
  | FromMagnet uri => MagnetParser_Parse url_Parse uri
  end.

(** main up to its loop: the torrent that has been added. A log.Fatal of NewClient ends the
    process like its own. *)
Definition main_begin : result reason torrent :=
  match DefaultConfig SelectorF (wd w) with
  | None => Err FConfig
  | Some c =>
      match NewClient parseIPv6 SelectorF (Some c) w with
      | Err _ | Panic => Err FClient
      | Ok cl =>
          match main_source torrentFile magnet with
          | None => Err FNoSource
          | Some src =>
              match AddFromParser env ip6_String int_of_Inf openFiles outboundIP cl dhtPort 0 (main_parse src) with
              | Ok (t, _) => Ok t
              | Err _ => Err FAdd
              | Panic => Panic
              end
          end
      end
  end.

(** *** The loop

    The torrent and its goroutines go on, time passes, and the select of main takes a case that is
    ready. *)
Inductive mstep : msys -> msys -> Prop :=
| ms_torrent h h' now c : dstep False h h' -> mstep (mkMsys h now c MLoop) (mkMsys h' now c MLoop)
| ms_time h now now' c : now <= now' -> mstep (mkMsys h now c MLoop) (mkMsys h now' c MLoop)
| ms_info h now dl seed out r t' :
    InfoC_closed (t_data (h_t h)) = true -> start_call (h_t h) = Ok (r, t') ->
    mstep (mkMsys h now (mkCmd true dl seed out) MLoop)
      (match r with
       | None => mkMsys (with_h t' h) now (mkCmd false dl seed (out ++ [got_info_text])) MLoop
       | Some _ => mkMsys (with_h t' h) now (mkCmd true dl seed out) (MFatal FStart)
       end)
| ms_download h now ic seed out :
    DownloadedDataC_closed (t_data (h_t h)) = true ->
    mstep (mkMsys h now (mkCmd ic true seed out) MLoop)
      (mkMsys h now (mkCmd ic false (Some (now + hour)) (out ++ [downloaded_text])) MLoop)
| ms_tick h now ic dl seed out pr text :
    writeStatus ip6_String pr (h_t h) = Ok (text, h_t h) ->
    mstep (mkMsys h now (mkCmd ic dl seed out) MLoop) (mkMsys h now (mkCmd ic dl seed (out ++ [text])) MLoop)
| ms_closed h now c : t_closed (h_t h) = true -> mstep (mkMsys h now c MLoop) (mkMsys h now c (MFatal FClosed))
| ms_panic h now c inp :
    internal inp = true -> input_ok sha1_Sum (h_t h) inp ->
    mainLoop_turn env ip6_String int_of_Inf sha1_Sum openFiles SelectorF outboundIP inp (h_t h) = Panic ->
    mstep (mkMsys h now c MLoop) (mkMsys h now c (MFatal FPanic))
| ms_write h now c p i o len s' n e :
    0 <= i < NumPieces (st_info (h_store h)) -> PieceLength (st_info (h_store h)) i = Some len -> p <> [] -> 0 <= o -> o + lenZ p <= len ->
    0 <= pieceOff (h_store h) i + o ->
    WriteBlock filepath_Join io (h_store h) p (pieceOff (h_store h) i + o) = Some (s', n, Some e) -> e <> ErrAlreadyWritten ->
    mstep (mkMsys h now c MLoop) (mkMsys (mkHsys (h_t h) s' (h_run h) (h_chan h)) now c (MFatal FWrite))
| ms_seed h now ic dl at_ out :
    at_ <= now -> mstep (mkMsys h now (mkCmd ic dl (Some at_) out) MLoop) (mkMsys h now (mkCmd ic dl (Some at_) out) MExit).

(** What each of the errors in the loop says. *)
Definition ends_by (r : reason) m : Prop :=
  match r with FStart | FClosed | FPanic => t_closed (h_t (m_h m)) = true | FWrite => io_fails io | _ => False end.

(** What is claimed of a run of the loop from [m0] to [m]. *)
Definition main_claims m0 m : Prop :=
  (forall r, m_run m = MFatal r -> ends_by r m) /\
  (m_run m = MLoop -> cm_infoC (m_cmd m) = true -> t_closed (h_t (m_h m)) = false -> InfoC_closed (t_data (h_t (m_h m))) = true ->
     exists t', start_call (h_t (m_h m)) = Ok (None, t')) /\
  (m_run m = MExit ->
     (exists m1, rtc mstep m0 m1 /\ rtc mstep m1 m /\ m_now m1 + hour <= m_now m /\ DownloadedDataC_closed (t_data (h_t (m_h m1))) = true) /\
     (t_closed (h_t (m_h m)) = false -> forall i, 0 <= i < numPieces (h_t (m_h m)) ->
        owned (h_t (m_h m)) i = true /\
        let info' := mi_Info (t_data (h_t (m_h m))) in
        info_good filepath_Join io dir fs0 info' ->
        exists len data, PieceLength info' i = Some len /\ lenZ data = len /\ PieceHash info' i = Some (sha1_Sum data) /\
          forall g, 0 <= g < len -> fbyte filepath_Join (h_store (m_h m)) (FilesInfo info') (i * PieceLen info' + g) = data !! Z.to_nat g)).

Section added.
Variable cfg : config.
Variable info : InfoDict.
Variable ann : bytes.
Variable ib : option bytes.
Hypothesis Hsetup : setup_ok cfg info ib.

Abbreviation dreachable := (dreachable env ip6_String int_of_Inf sha1_Sum SelectorF outboundIP filepath_Join io dir fs0 True cfg info ann ib).

(** The loop of main with a torrent that has just been started. *)
Definition m_added m : Prop :=
  exists t0 s0 now, start env ip6_String int_of_Inf openFiles SelectorF outboundIP (newTorrent cfg info ann ib) = Ok ((), t0) /\
    (haveInfo t0 = true -> opened (B := B) (S := S) sha1_Sum SelectorF filepath_Join dir fs0 t0 s0) /\
    m = mkMsys (mkHsys t0 s0 (HIdle 0) []) now (mkCmd true true None []) MLoop.

(** ** What only main changes *)

(** The transfer is not started or stopped, and what is downloaded stays so. *)
Definition unstarted t t' : Prop :=
  uploadEnabled (t_data t') = uploadEnabled (t_data t) /\ downloadEnabled (t_data t') = downloadEnabled (t_data t) /\
  (DownloadedDataC_closed (t_data t) = true -> DownloadedDataC_closed (t_data t') = true).

#[local] Instance unstarted_framing : Framing unstarted.
Proof using.
  constructor; try by (intros; split_and!).
  split; [by intros t|]. intros t1 t2 t3 (? & ? & ?) (? & ? & ?). split_and!; [congruence|congruence|auto].
Qed.
#[local] Instance unstarted_queueing : Queueing unstarted.
Proof using. by intros t i _ _. Qed.
#[local] Instance unstarted_hashing i : Hashing unstarted i.
Proof using. by intros t p ok p' cs _ _. Qed.
#[local] Instance unstarted_receiving : Receiving unstarted.
Proof using. constructor; [by intros t i|by intros|]. intros t d _ _ Hd Hu Hw. split_and!; [done|done|]. cbn. congruence. Qed.
#[local] Instance unstarted_completing : Completing env ip6_String int_of_Inf unstarted.
Proof using.
  intros t a t' E. unfold mbind, M_bind in E. destruct (sendAnnounceToTracker env EvCompleted t) as [[u t1]| |] eqn:E1; [|done..].
  etrans; [|eapply (frames_downloadedAll env ip6_String int_of_Inf unstarted); exact E].
  by apply sendAnnounce_Ok in E1 as [->| ->].
Qed.

Lemma turn_unstarted inp t t' :
  internal inp = true ->
  mainLoop_turn env ip6_String int_of_Inf sha1_Sum openFiles SelectorF outboundIP inp t = Ok ((), t') -> unstarted t t'.
Proof.
  intros Hint E. apply turn_Ok in E as [_ E]. destruct (framed inp) eqn:Hf.
  - eapply (frames_handle env ip6_String int_of_Inf sha1_Sum openFiles SelectorF outboundIP unstarted inp Hf); [|exact E]. by intros ->.
  - destruct inp as [id msg|i ok| | | | | | | | | |]; try discriminate Hf; try discriminate Hint.
    + destruct msg as [| | |n| | | |]; try discriminate Hf. cbn in E.
      eapply (frames_metadataCompleted env ip6_String int_of_Inf sha1_Sum openFiles SelectorF outboundIP unstarted); [apply _|exact E].
    + cbn [handle] in E. destruct (onPieceHashed_after env ip6_String int_of_Inf outboundIP unstarted i ok _ _ _ E) as (p & p' & cs & _ & _ & Hr).
      exact Hr.
    + cbn in E. unfold mbind, M_bind, modify in E. etrans; [|eapply (frames_tryAnnounceAll env int_of_Inf unstarted); exact E]. done.
    + cbn in E. by injection E as <-.
Qed.

Lemma hstep_unstarted h h' : hstep False h h' -> unstarted (h_t h) (h_t h').
Proof.
  intros [? inp t' _ _ Hint _ E|? i ok rest t' _ _ E|? n i rest t' len st' ok _ _ E _ _|? n i ok _ _|? n _ _|? st' _|? p p' _ _|? m|? ip|? addr t' _ E];
    cbn [h_t]; try done.
  - destruct Hint as [Hint|[]]. by eapply turn_unstarted.
  - by eapply (turn_unstarted (InPieceHashed i ok)).
  - by eapply (turn_unstarted InHasherTake).
  - eapply (frames_removeHalfOpen env ip6_String int_of_Inf unstarted). exact E.
Qed.

Lemma hstep_users h h' : hstep False h h' -> hstep True h h'.
Proof using.
  destruct 1; [eapply hs_turn; eauto|eapply hs_result; eauto|eapply hs_take; eauto|eapply hs_send; eauto|eapply hs_closed; eauto|
    eapply hs_store; eauto|eapply hs_pieces; eauto|eapply hs_metadata|eapply hs_banned|eapply hs_dialed; eauto].
Qed.

Lemma dstep_users h h' : dstep False h h' -> dstep True h h'.
Proof using. destruct 1 as [h1 Hs Hi|h1 s Hs Hi Hi' Ho]; [apply ds_step|apply ds_open]; try done; by apply hstep_users. Qed.

Lemma dstep_unstarted h h' : dstep False h h' -> unstarted (h_t h) (h_t h').
Proof. intros [h1 Hs _|h1 s Hs _ _ _]; exact (hstep_unstarted h h1 Hs). Qed.

(** StartDataTransfer on a torrent that has its info and is not started. *)
Lemma start_call_ok h :
  dinv sha1_Sum filepath_Join io dir fs0 info ib h -> InfoC_closed (t_data (h_t h)) = true ->
  uploadEnabled (t_data (h_t h)) = false -> downloadEnabled (t_data (h_t h)) = false ->
  exists t', start_call (h_t h) = Ok (None, t') /\ dstep True h (with_h t' h) /\ t_closed t' = false.
Proof.
  intros (Hh & _) Hic Hu Hd. pose proof Hh as [Ht Hc]. assert (Hi : haveInfo (h_t h) = true).
  { destruct (haveInfo (h_t h)) eqn:Hi; [done|]. destruct (tk_before _ Ht Hi) as (_ & Hobs & _). injection Hobs as _ Hx _ _. congruence. }
  destruct (okay_start env ip6_String int_of_Inf (h_t h) Ht) as (r & t' & E & Ht'). exists t'. split_and!; [| |apply Ht'].
  - unfold start_call. rewrite (tor_open _ Ht), E. destruct r as [e|]; [|done]. exfalso. revert E.
    unfold StartDataTransfer. unfold mbind at 1, M_bind, gets. unfold mbind at 1, M_bind. rewrite Hi. cbn [negb]. rewrite Hu, Hd. cbn [orb].
    intros E. apply bind_Ok in E as (? & ? & _ & E). apply bind_Ok in E as (stray & ? & _ & E). destruct stray; [done|].
    do 4 (apply bind_Ok in E as (? & ? & _ & E)). by injection E.
  - assert (E' : mainLoop_turn env ip6_String int_of_Inf sha1_Sum openFiles SelectorF outboundIP InStartDataTransfer (h_t h) = Ok ((), t')).
    { rewrite turn_open by apply Ht. cbn [handle]. unfold mbind, M_bind. by rewrite E. }
    assert (Hs : hstep True h (with_h t' h)) by (by apply (hs_turn _ _ _ _ _ _ _ _ _ _ h InStartDataTransfer); [apply Ht|..|right| |]).
    apply ds_step; [done|]. cbn [with_h h_t].
    destruct (turn_quiet _ _ _ _ _ _ _ InStartDataTransfer _ _ Ht eq_refl I E' (tk_open _ Ht')) as [(_ & _ & _ & _ & Hx & _)|[Hx _]]; [done|congruence].
Qed.

(** ** The invariant *)

Abbreviation dinv := (dinv (B := B) (S := S) sha1_Sum filepath_Join io dir fs0 info ib).

Record minv m0 m : Prop := mkMinv {
  mi_reach : dreachable (m_h m);
  mi_info : t_closed (h_t (m_h m)) = false ->
    uploadEnabled (t_data (h_t (m_h m))) = negb (cm_infoC (m_cmd m)) /\ downloadEnabled (t_data (h_t (m_h m))) = negb (cm_infoC (m_cmd m));
  mi_done : cm_downloadC (m_cmd m) = false -> DownloadedDataC_closed (t_data (h_t (m_h m))) = true;
  mi_seed at_ : cm_seedC (m_cmd m) = Some at_ -> cm_downloadC (m_cmd m) = false /\
    exists m1, rtc mstep m0 m1 /\ m_now m1 + hour = at_ /\ DownloadedDataC_closed (t_data (h_t (m_h m1))) = true /\ rtc mstep m1 m;
  mi_fatal r : m_run m = MFatal r -> ends_by r m;
  mi_exit : m_run m = MExit -> exists at_, cm_seedC (m_cmd m) = Some at_ /\ at_ <= m_now m;
}.

Lemma reach_step h h' : dreachable h -> dstep True h h' -> dreachable h'.
Proof using. intros (t0 & s0 & E & Ho & Hr) Hs. exists t0, s0. split_and!; [done|done|]. by eapply rtc_r. Qed.

Lemma dstep_was_open h h' : dstep True h h' -> t_closed (h_t h') = false -> t_closed (h_t h) = false.
Proof. intros [h1 Hs _|h1 s Hs _ _ _] Hc; eapply hstep_open; [exact Hs|exact Hc|exact Hs|exact Hc]. Qed.

Lemma started_unstarted t t' : start_call t = Ok (None, t') ->
  uploadEnabled (t_data t') = true /\ downloadEnabled (t_data t') = true /\ (DownloadedDataC_closed (t_data t) = true -> DownloadedDataC_closed (t_data t') = true).
Proof.
  unfold start_call. destruct (t_closed t); [done|].
  destruct (StartDataTransfer env ip6_String int_of_Inf t) as [[r t1]| |] eqn:E; [|done..]. intros [= Hr ->]. destruct r; [done|].
  apply (StartDataTransfer_after env ip6_String int_of_Inf unstarted) in E as (? & ? & ?). split_and!; auto.
Qed.

Lemma rtc_seed m0 m m' at_ : mstep m m' ->
  (exists m1, rtc mstep m0 m1 /\ m_now m1 + hour = at_ /\ DownloadedDataC_closed (t_data (h_t (m_h m1))) = true /\ rtc mstep m1 m) ->
  exists m1, rtc mstep m0 m1 /\ m_now m1 + hour = at_ /\ DownloadedDataC_closed (t_data (h_t (m_h m1))) = true /\ rtc mstep m1 m'.
Proof using. intros Hs (m1 & H1' & H2' & H3' & H4'). exists m1. split_and!; [done..|]. by eapply rtc_r. Qed.

(** A write that does not find its block written fails because of the files. *)
Lemma WriteBlock_fails st p off st' n e :
  0 <= off -> WriteBlock filepath_Join io st p off = Some (st', n, Some e) -> e <> ErrAlreadyWritten -> io_fails io.
Proof.
  intros Ho. unfold WriteBlock. destruct (pieceIndex st off) as [i|]; [|done]. cbn [mbind option_bind].
  destruct (at_index (st_pieces st) i) as [piece|]; [|done]. cbn [mbind option_bind].
  destruct (reserveOffset piece off) as [piece' []]; cbn [negb]; [|congruence].
  destruct (set_index _ _ _); [|done]. cbn [mbind option_bind]. intros [= E] _. revert E. unfold WriteAt.
  destruct (WriteAt_files _ _ _ _ _ _ _) as [[s1 n1] err] eqn:E. intros [= <- <- ->]. by eapply WriteAt_files_err.
Qed.

Lemma minv_step m0 m m' : rtc mstep m0 m -> minv m0 m -> mstep m m' -> minv m0 m'.
Proof.
  intros Hr0 [Hr Hi Hd Hs Hf He] Hst. pose proof (fun at_ Hx => rtc_seed m0 m m' at_ Hst (proj2 (Hs at_ Hx))) as Hseed.
  destruct Hst as [h h' now c Hst|h now now' c Hn|h now dl seed out r t' Hic E|h now ic seed out Hdl|h now ic dl seed out pr text E|h now c Hcl
    |h now c inp Hint Hin E|h now c p i o len s' n e Hbi Hlen Hp Ho Hol Hoff E He'|h now ic dl at_ out Hat];
    cbn [m_h m_now m_cmd m_run cm_infoC cm_downloadC cm_seedC] in *.
  - pose proof (dstep_users _ _ Hst) as Hst'. destruct (dstep_unstarted _ _ Hst) as (U1 & U2 & U3).
    constructor; cbn [m_h m_now m_cmd m_run]; try done; [by eapply reach_step| |by auto|intros at_ Hx; split; [by apply (Hs at_)|by apply Hseed]].
    intros Hc. rewrite U1, U2. apply Hi. by eapply dstep_was_open.
  - constructor; try done. intros at_ Hx; split; [by apply (Hs at_)|by apply Hseed].
  - destruct (t_closed (h_t h)) eqn:Hc.
    { unfold start_call in E. rewrite Hc in E. injection E as <- <-. destruct h as [ht hst hr hch].
      change (with_h (h_t (mkHsys ht hst hr hch)) (mkHsys ht hst hr hch)) with (mkHsys ht hst hr hch) in *.
      constructor; try done; cbn [m_h m_cmd m_run with_h h_t h_store h_run h_chan t_data cm_seedC cm_downloadC] in *.
      - cbn [h_t] in Hc. congruence.
      - intros at_ Hx; split; [by apply (Hs at_)|by apply Hseed].
      - by intros r [= <-]. }
    destruct (Hi eq_refl) as [U1 U2].
    pose proof (dreachable_inv env ip6_String int_of_Inf sha1_Sum SelectorF outboundIP filepath_Join io dir fs0 True cfg info ann ib Hsetup h Hr Hc) as Hinv.
    destruct (start_call_ok h Hinv Hic U1 U2) as (t2 & E2 & Hst & Hc2). rewrite E in E2. injection E2 as -> ->.
    destruct (started_unstarted _ _ E) as (W1 & W2 & W3). constructor; cbn [m_h m_now m_cmd m_run with_h h_t cm_infoC cm_downloadC cm_seedC] in *; try done.
    + by eapply reach_step.
    + auto.
    + intros at_ Hx; split; [by apply (Hs at_)|by apply Hseed].
  - constructor; try done. intros at_ [= <-]. split; [done|]. exists (mkMsys h now (mkCmd ic true seed out) MLoop).
    split_and!; [done|done|done|]. apply rtc_once. by apply ms_download.
  - constructor; try done. intros at_ Hx; split; [by apply (Hs at_)|by apply Hseed].
  - constructor; try done; [intros at_ Hx; split; [by apply (Hs at_)|by apply Hseed]|]. by intros r [= <-].
  - constructor; try done; [intros at_ Hx; split; [by apply (Hs at_)|by apply Hseed]|]. intros r [= <-]. cbn.
    destruct (t_closed (h_t h)) eqn:Hc; [done|]. exfalso.
    destruct (dreachable_inv env ip6_String int_of_Inf sha1_Sum SelectorF outboundIP filepath_Join io dir fs0 True cfg info ann ib Hsetup h Hr Hc) as ([Ht _] & _).
    destruct (okay_turn env ip6_String int_of_Inf sha1_Sum openFiles SelectorF outboundIP inp (h_t h) Ht Hin) as (? & ? & E' & _). congruence.
  - assert (Hw : conn_write filepath_Join io (h_store h) s') by (exists p, i, o, len, n, (Some e); destruct Hbi; by split_and!).
    constructor; cbn [m_h m_now m_cmd m_run]; try done.
    + eapply reach_step; [exact Hr|]. apply ds_step; [by apply hs_store|done].
    + intros at_ Hx; split; [by apply (Hs at_)|by apply Hseed].
    + intros r [= <-]. by eapply WriteBlock_fails.
  - constructor; try done.
    + intros at2 Hx; split; [by apply (Hs at2)|by apply Hseed].
    + intros _. by exists at_.
Qed.

Lemma minv_start m0 : m_added m0 -> minv m0 m0.
Proof.
  intros (t0 & s0 & now & E & Ho & ->). constructor; cbn [m_h m_now m_cmd m_run cm_infoC cm_downloadC cm_seedC h_t]; try done.
  - exists t0, s0. split_and!; [done|done|apply rtc_refl].
  - intros _. assert (Hf : frames unstarted (start env ip6_String int_of_Inf openFiles SelectorF outboundIP : M B S unit)).
    { unfold start. apply (frames_bind unstarted); [apply (frames_gets unstarted)|]. intros b.
      apply (frames_bind unstarted); [|intros _; apply (frames_tryAnnounceAll env int_of_Inf unstarted)].
      apply (frames_when unstarted). apply (frames_gotInfo env ip6_String int_of_Inf openFiles SelectorF outboundIP unstarted). apply _. }
    by destruct (Hf _ _ _ E) as (-> & -> & _).
Qed.

Lemma minv_rtc m0 m : m_added m0 -> rtc mstep m0 m -> minv m0 m.
Proof. intros Hm0. apply (rtc_ind_r (minv m0)); [by apply minv_start|]. intros y z Hxy Hyz IH. by eapply minv_step. Qed.

(** A torrent whose download is complete owns all pieces. *)
Lemma downloaded_owned t i : tor_ok t -> DownloadedDataC_closed (t_data t) = true -> 0 <= i < numPieces t -> owned t i = true.
Proof.
  intros Ht Hd Hb. unfold owned. destruct (pieces_ (t_data t)) as [p|] eqn:Hp.
  - destruct (tk_data _ Ht p Hp) as [_ Hok]. pose proof (do_done _ _ _ Hok Hd) as Hall.
    destruct (bm_Get (ownedPieces p) i) eqn:Ho; [done|]. by rewrite (haveAll_missing _ p i (do_pieces _ _ _ Hok) Hb Ho) in Hall.
  - exfalso. destruct (haveInfo t) eqn:Hi; [destruct (wf_pieces _ (tk_wf _ Ht) Hi) as [? E]; congruence|].
    destruct (tk_before _ Ht Hi) as (_ & Hobs & _). injection Hobs as Hx _ _ _. congruence.
Qed.

(** What is shown of the loop. *)
Lemma added_ends m0 m :
  m_added m0 -> rtc mstep m0 m -> main_claims m0 m.
Proof.
  intros Hm0 Hr. unfold main_claims. destruct (minv_rtc m0 m Hm0 Hr) as [Hre Hi Hd Hs Hf He].
  pose proof (dreachable_inv env ip6_String int_of_Inf sha1_Sum SelectorF outboundIP filepath_Join io dir fs0 True cfg info ann ib Hsetup _ Hre) as Hinv.
  split_and!; [done| |].
  - intros _ Hic Hc Hinfo. destruct (Hi Hc) as [U1 U2]. rewrite Hic in U1, U2.
    destruct (start_call_ok _ (Hinv Hc) Hinfo U1 U2) as (t' & E & _). by exists t'.
  - intros Hx. destruct (He Hx) as (at_ & Hat & Hle). destruct (Hs at_ Hat) as (Hdl & m1 & R1 & E1 & D1 & R2).
    split; [exists m1; split_and!; [done|done|lia|done]|]. intros Hc i Hb. specialize (Hd Hdl).
    assert (Ho : owned (h_t (m_h m)) i = true) by (destruct (Hinv Hc) as ([Ht _] & _); by apply downloaded_owned). split; [done|].
    intros Hg. destruct (owned_intact sha1_Sum filepath_Join io dir fs0 info ib _ i (Hinv Hc) Ho) as [_ Hdata].
    destruct (Hdata Hg) as (len & data & ? & ? & ? & ? & _). exists len, data. by split_and!.
Qed.

End added.

(** *** The start *)

(** The info dictionary of a torrent file describes pieces of a usable length. *)
Definition usable : Prop := forall src mi info,
  main_source torrentFile magnet = Some src -> main_parse src = Ok (Some mi) -> Info mi = Some info ->
  InfoBytes mi = None \/ (exists b, InfoBytes mi = Some b /\ b <> []) /\ params_ok (info_params info).

(** main has added the torrent, whose main loop starts, and enters its loop. *)
Definition m_start m : Prop :=
  exists t t0 s0 now, wd w = Some dir /\ main_begin = Ok t /\ tryAnnounceAll env int_of_Inf t = Ok ((), t0) /\
    (haveInfo t0 = true -> opened (B := B) (S := S) sha1_Sum SelectorF filepath_Join dir fs0 t0 s0) /\
    m = mkMsys (mkHsys t0 s0 (HIdle 0) []) now (mkCmd true true None []) MLoop.

Lemma NewClient_reserved c cl :
  length (rbytes w) = 12%nat -> NewClient parseIPv6 SelectorF (Some c) w = Ok cl -> RejectIncomingConnections c = false ->
  client_wf cl /\ cl_config cl = c.
Proof.
  intros Hr E Hrej. destruct (NewClient_wf parseIPv6 SelectorF (Some c) w cl Hr E) as (W & _ & _ & Hc). split; [done|].
  rewrite (Hc c eq_refl). by rewrite Hrej.
Qed.

(** Adding a torrent, and how it fails. *)
Lemma main_begin_Ok t :
  length (rbytes w) = 12%nat -> main_begin = Ok t ->
  exists cl src mi info, client_wf cl /\ cf_SelectorF (cl_config cl) = SelectorF /\
    main_source torrentFile magnet = Some src /\ main_parse src = Ok (Some mi) /\ Info mi = Some info /\
    prepare env ip6_String int_of_Inf openFiles outboundIP cl dhtPort (Ok (Some mi)) = Ok t.
Proof.
  intros Hr. unfold main_begin. destruct (DefaultConfig SelectorF (wd w)) as [c|] eqn:Ec; [|done].
  assert (Hc : RejectIncomingConnections c = false /\ cf_SelectorF c = SelectorF).
  { revert Ec. unfold DefaultConfig. destruct (wd w); [|done]. by intros [= <-]. }
  destruct (NewClient _ _ _ _) as [cl| |] eqn:Ecl; [|done..]. destruct (NewClient_reserved c cl Hr Ecl (proj1 Hc)) as [W Hcfg].
  destruct (main_source _ _) as [src|] eqn:Es; [|done]. unfold AddFromParser.
  destruct (prepare _ _ _ _ _ _ _ _) as [t1| |] eqn:Ep; [|done..]. cbn [mbind result_bind]. intros [= ->].
  revert Ep. destruct (main_parse src) as [[mi|]| |] eqn:Em; cbn [prepare]; [|done..]. destruct (Info mi) as [info|] eqn:Ei; [|done].
  intros Ep. exists cl, src, mi, info. split_and!; try done; [by rewrite Hcfg; apply Hc|]. cbn [prepare]. by rewrite Ei.
Qed.

Lemma prepare_start cl mi info t t0 :
  Info mi = Some info -> prepare env ip6_String int_of_Inf openFiles outboundIP cl dhtPort (Ok (Some mi)) = Ok t ->
  tryAnnounceAll env int_of_Inf t = Ok ((), t0) ->
  start env ip6_String int_of_Inf openFiles (cf_SelectorF (cl_config cl)) outboundIP
    (newTorrent (torrent_config cl dhtPort) info (Announce mi) (InfoBytes mi)) = Ok ((), t0).
Proof.
  intros Hi. cbn [prepare]. rewrite Hi. unfold start. unfold mbind at 1, M_bind, gets. unfold mbind at 1, M_bind.
  destruct (InfoBytes mi) as [b|].
  all: match goal with |- context [negb ?x] => let y := eval cbv in (negb x) in change (negb x) with y end.
  all: match goal with |- context [when ?b ?m ?t] => destruct (when b m t) as [[[] t1]| |]; [|done..] end; by intros [= ->].
Qed.

Lemma m_start_added m : length (rbytes w) = 12%nat -> usable -> m_start m ->
  exists cfg info ann ib, setup_ok cfg info ib /\ m_added cfg info ann ib m.
Proof.
  intros Hr Hu (t & t0 & s0 & now & _ & Eb & Ea & Ho & ->).
  destruct (main_begin_Ok t Hr Eb) as (cl & src & mi & info & W & Hsel & Hs & Hp & Hi & Epr).
  exists (torrent_config cl dhtPort), info, (Announce mi), (InfoBytes mi). split; [split; [apply W|by eapply Hu]|].
  exists t0, s0, now. split_and!; [|done|done]. rewrite <- Hsel. by apply prepare_start with (t := t).
Qed.

(** ** Theorem *)


End command.
