(* ===== verification/FreqMap.v ===== *)
(** * torrent/freqmap.go: a multiset of int64 values

    The map from a value to its count, with the order in which Go visits a map and the
    random choice as arguments. It implements finite multisets, as long as no key has
    been entered with the count zero. *)

From S2P Require Import Prelude.
From stdpp Require Import gmultiset.
From stdpp Require Import list.
Open Scope Z_scope.

Abbreviation freqMap := (gmap Z Z).

Definition newFreqMap : freqMap := ∅.

Definition add (f : freqMap) (n : Z) : freqMap :=
  match f !! n with
  | None => <[n := 1]> f
  | Some count => <[n := int64 (count + 1)]> f
  end.

Definition remove (f : freqMap) (n : Z) : freqMap :=
  match f !! n with
  | None => f
  | Some count =>
      let f := <[n := int64 (count - 1)]> f in
      if bool_decide (f !! n = Some 0) then delete n f else f
  end.

Definition len (f : freqMap) : Z := Z.of_nat (size f).

Definition initKey (f : freqMap) (n : Z) : freqMap :=
  match f !! n with Some _ => f | None => <[n := 0]> f end.

(** The loops of max and min over the entries in the order [l]. *)
Fixpoint max_loop (l : list (Z * Z)) (maxFreq max : Z) : Z :=
  match l with
  | [] => max
  | (k, v) :: l => if maxFreq <? v then max_loop l v k else max_loop l maxFreq max
  end.

Fixpoint min_loop (l : list (Z * Z)) (minFreq min : Z) : Z :=
  match l with
  | [] => min
  | (k, v) :: l => if v <? minFreq then min_loop l v k else min_loop l minFreq min
  end.

Definition max (order : list (Z * Z) -> list (Z * Z)) (f : freqMap) : Z :=
  max_loop (order (map_to_list f)) 0 0.
Definition min (order : list (Z * Z) -> list (Z * Z)) (f : freqMap) : Z :=
  min_loop (order (map_to_list f)) MaxInt64 0.

(** [None] is the panic. *)
Definition pickRandom (order : list (Z * Z) -> list (Z * Z)) (Intn : Z -> Z) (f : freqMap) (val : Z) : option Z :=
  let equals := fst <$> filter (fun kv => kv.2 = val) (order (map_to_list f)) in
  if (length equals =? 0)%nat then None else at_index equals (Intn (lenZ equals)).

(** ** The multiset that a map stands for *)

(** Every count is the multiplicity, and only the elements have an entry; the counts are
    in the range of an int. *)
Definition represents (f : freqMap) (X : gmultiset Z) : Prop :=
  Z.of_nat (size X) < 2 ^ 63 /\
  forall n, f !! n = if decide (n ∈ X) then Some (Z.of_nat (multiplicity n X)) else None.

Lemma multiplicity_size (X : gmultiset Z) n : (multiplicity n X <= size X)%nat.
Proof.
  induction X as [|x X IH] using gmultiset_ind; [rewrite multiplicity_empty; lia|].
  rewrite multiplicity_disj_union, gmultiset_size_disj_union, gmultiset_size_singleton.
  destruct (decide (n = x)) as [->|]; [rewrite multiplicity_singleton, decide_True by done|rewrite multiplicity_singleton_ne by done]; lia.
Qed.

(** Membership and multiplicities of sums and differences. *)
Ltac mult :=
  repeat match goal with
  | H : _ ∈ _ |- _ => rewrite elem_of_multiplicity in H
  | H : _ ∉ _ |- _ => rewrite elem_of_multiplicity in H
  | |- _ ∉ _ => rewrite elem_of_multiplicity
  | |- _ ∈ _ => rewrite elem_of_multiplicity
  end;
  rewrite ?multiplicity_disj_union, ?multiplicity_difference, ?multiplicity_empty, ?multiplicity_singleton;
  repeat case_decide; try (lia || congruence).

Section rep.
Implicit Types (f : freqMap) (X : gmultiset Z) (n : Z).

Lemma rep_Some f X n : represents f X -> n ∈ X -> f !! n = Some (Z.of_nat (multiplicity n X)) /\ (0 < multiplicity n X)%nat.
Proof.
  intros [_ Hf] Hn. rewrite Hf, decide_True by done. split; [done|]. by apply elem_of_multiplicity.
Qed.

Lemma rep_None f X n : represents f X -> n ∉ X -> f !! n = None.
Proof. intros [_ Hf] Hn. by rewrite Hf, decide_False. Qed.

Lemma mult_range X n : Z.of_nat (size X) < 2 ^ 63 -> 0 <= Z.of_nat (multiplicity n X) < 2 ^ 63.
Proof. pose proof (multiplicity_size X n). lia. Qed.

Lemma newFreqMap_rep : represents newFreqMap ∅.
Proof. split; [done|]. intros n. by rewrite decide_False by mult. Qed.

Lemma add_rep f X n : Z.of_nat (size X) + 1 < 2 ^ 63 -> represents f X -> represents (add f n) ({[+ n +]} ⊎ X).
Proof.
  intros Hs Hf. split; [rewrite gmultiset_size_disj_union, gmultiset_size_singleton; lia|].
  assert (E : add f n = <[n := Z.of_nat (multiplicity n ({[+ n +]} ⊎ X))]> f).
  { rewrite multiplicity_disj_union, multiplicity_singleton, decide_True by done. unfold add. destruct (decide (n ∈ X)) as [Hn|Hn].
    - destruct (rep_Some _ _ _ Hf Hn) as [-> _]. pose proof (multiplicity_size X n).
      rewrite int64_small by lia. f_equal. lia.
    - rewrite (rep_None _ _ _ Hf Hn). apply not_elem_of_multiplicity in Hn. by rewrite Hn. }
  intros m. rewrite E. destruct (decide (m = n)) as [->|Hm].
  - by rewrite lookup_insert_eq, decide_True by mult.
  - rewrite lookup_insert_ne, (proj2 Hf) by done. rewrite multiplicity_disj_union, multiplicity_singleton_ne by done.
    destruct (decide (m ∈ X)); [rewrite decide_True by mult; done|].
    rewrite decide_False; [done|]. mult.
Qed.

Lemma remove_rep f X n : represents f X -> represents (remove f n) (X ∖ {[+ n +]}).
Proof.
  intros Hf. pose proof (proj1 Hf) as Hs. split.
  { enough (size (X ∖ {[+ n +]}) <= size X)%nat by lia. apply gmultiset_subseteq_size. intros x. mult. }
  assert (Hother : forall m, m <> n -> f !! m = if decide (m ∈ X ∖ {[+ n +]}) then Some (Z.of_nat (multiplicity m (X ∖ {[+ n +]}))) else None).
  { intros m Hm. rewrite (proj2 Hf), multiplicity_difference, multiplicity_singleton_ne, Nat.sub_0_r by done.
    assert (Hin : m ∈ X ∖ {[+ n +]} <-> m ∈ X).
    { rewrite !elem_of_multiplicity, multiplicity_difference, multiplicity_singleton_ne by done. lia. }
    destruct (decide (m ∈ X)); [rewrite decide_True by tauto|rewrite decide_False by tauto]; done. }
  unfold remove. destruct (decide (n ∈ X)) as [Hn|Hn].
  - destruct (rep_Some _ _ _ Hf Hn) as [-> Hpos]. pose proof (multiplicity_size X n). rewrite int64_small by lia.
    rewrite lookup_insert_eq. intros m.
    assert (Hin : n ∈ X ∖ {[+ n +]} <-> (1 < multiplicity n X)%nat).
    { rewrite elem_of_multiplicity, multiplicity_difference, multiplicity_singleton, decide_True by done. lia. }
    case_bool_decide as Hz; (destruct (decide (m = n)) as [->|Hm];
      [|rewrite ?lookup_delete_ne, lookup_insert_ne by done; by apply Hother]).
    + rewrite lookup_delete_eq, decide_False; [done|]. rewrite Hin. injection Hz. lia.
    + rewrite lookup_insert_eq, decide_True by (rewrite Hin; assert (Z.of_nat (multiplicity n X) - 1 <> 0) by congruence; lia).
      rewrite multiplicity_difference, multiplicity_singleton, decide_True by done. f_equal. lia.
  - rewrite (rep_None _ _ _ Hf Hn). intros m. destruct (decide (m = n)) as [->|Hm]; [|by apply Hother].
    rewrite (rep_None _ _ _ Hf Hn), decide_False; [done|]. rewrite elem_of_multiplicity, multiplicity_difference.
    apply not_elem_of_multiplicity in Hn. lia.
Qed.

(** ** The loops *)

Lemma max_loop_spec l maxFreq m0 :
  (exists v, (max_loop l maxFreq m0, v) ∈ l /\ maxFreq < v /\ Forall (fun kv => kv.2 <= v) l) \/
  (max_loop l maxFreq m0 = m0 /\ Forall (fun kv => kv.2 <= maxFreq) l).
Proof.
  revert maxFreq m0. induction l as [|[k v] l IH]; intros maxFreq m0; cbn [max_loop]; [by right|].
  destruct (Z.ltb_spec maxFreq v).
  - left. destruct (IH v k) as [(w & Hin & Hw & Hall)|[-> Hall]].
    + exists w. split_and!; [by right|lia|]. constructor; [cbn; lia|done].
    + exists v. split_and!; [left|done|]. constructor; [done|done].
  - destruct (IH maxFreq m0) as [(w & Hin & Hw & Hall)|[-> Hall]].
    + left. exists w. split_and!; [by right|done|]. constructor; [cbn; lia|done].
    + right. split; [done|]. by constructor.
Qed.

Lemma min_loop_spec l minFreq m0 :
  (exists v, (min_loop l minFreq m0, v) ∈ l /\ v < minFreq /\ Forall (fun kv => v <= kv.2) l) \/
  (min_loop l minFreq m0 = m0 /\ Forall (fun kv => minFreq <= kv.2) l).
Proof.
  revert minFreq m0. induction l as [|[k v] l IH]; intros minFreq m0; cbn [min_loop]; [by right|].
  destruct (Z.ltb_spec v minFreq).
  - left. destruct (IH v k) as [(w & Hin & Hw & Hall)|[-> Hall]].
    + exists w. split_and!; [by right|lia|]. constructor; [cbn; lia|done].
    + exists v. split_and!; [left|done|]. constructor; [done|done].
  - destruct (IH minFreq m0) as [(w & Hin & Hw & Hall)|[-> Hall]].
    + left. exists w. split_and!; [by right|done|]. constructor; [cbn; lia|done].
    + right. split; [done|]. by constructor.
Qed.

Lemma rep_entry f X n v : represents f X -> (n, v) ∈ map_to_list f <-> n ∈ X /\ v = Z.of_nat (multiplicity n X).
Proof.
  intros Hf. rewrite elem_of_map_to_list. destruct (decide (n ∈ X)) as [Hn|Hn].
  - destruct (rep_Some _ _ _ Hf Hn) as [-> _]. split; [intros [= <-]; done|by intros [_ ->]].
  - rewrite (rep_None _ _ _ Hf Hn). split; [done|tauto].
Qed.

Lemma order_elem (order : list (Z * Z) -> list (Z * Z)) kv l : (forall l, order l ≡ₚ l) -> kv ∈ order l <-> kv ∈ l.
Proof. intros Ho. by rewrite (Ho l). Qed.

Lemma max_rep order f X :
  (forall l, order l ≡ₚ l) -> represents f X -> X <> ∅ ->
  max order f ∈ X /\ forall n, (multiplicity n X <= multiplicity (max order f) X)%nat.
Proof.
  intros Ho Hf Hne. unfold max. destruct (max_loop_spec (order (map_to_list f)) 0 0) as [(v & Hin & _ & Hall)|[_ Hall]].
  - rewrite (order_elem order), (rep_entry _ _ _ _ Hf) in Hin by done. destruct Hin as [Hm ->]. split; [done|]. intros n.
    destruct (decide (n ∈ X)) as [Hn|Hn%not_elem_of_multiplicity]; [|lia]. rewrite Forall_forall in Hall.
    specialize (Hall (n, Z.of_nat (multiplicity n X))). cbn in Hall. apply Nat2Z.inj_le, Hall. rewrite (order_elem order) by done.
    by apply (rep_entry _ _ _ _ Hf).
  - exfalso. destruct (gmultiset_choose X Hne) as [n Hn]. rewrite Forall_forall in Hall.
    specialize (Hall (n, Z.of_nat (multiplicity n X))). cbn in Hall. destruct (rep_Some _ _ _ Hf Hn) as [_ Hpos].
    enough (Z.of_nat (multiplicity n X) <= 0) by lia. apply Hall. rewrite (order_elem order) by done. by apply (rep_entry _ _ _ _ Hf).
Qed.

Lemma min_rep order f X :
  (forall l, order l ≡ₚ l) -> represents f X -> X <> ∅ -> Z.of_nat (size X) < MaxInt64 ->
  min order f ∈ X /\ forall n, n ∈ X -> (multiplicity (min order f) X <= multiplicity n X)%nat.
Proof.
  intros Ho Hf Hne Hsz. unfold min. destruct (min_loop_spec (order (map_to_list f)) MaxInt64 0) as [(v & Hin & _ & Hall)|[_ Hall]].
  - rewrite (order_elem order), (rep_entry _ _ _ _ Hf) in Hin by done. destruct Hin as [Hm ->]. split; [done|]. intros n Hn.
    rewrite Forall_forall in Hall. specialize (Hall (n, Z.of_nat (multiplicity n X))). cbn in Hall. apply Nat2Z.inj_le, Hall.
    rewrite (order_elem order) by done. by apply (rep_entry _ _ _ _ Hf).
  - exfalso. destruct (gmultiset_choose X Hne) as [n Hn]. rewrite Forall_forall in Hall. pose proof (multiplicity_size X n).
    specialize (Hall (n, Z.of_nat (multiplicity n X))). cbn in Hall.
    enough (MaxInt64 <= Z.of_nat (multiplicity n X)) by lia. apply Hall. rewrite (order_elem order) by done. by apply (rep_entry _ _ _ _ Hf).
Qed.

Lemma len_rep f X : represents f X -> len f = Z.of_nat (size (dom X)).
Proof.
  intros Hf. unfold len. rewrite <- size_dom. do 2 f_equal. apply set_eq. intros n.
  rewrite elem_of_dom, gmultiset_elem_of_dom, (proj2 Hf). destruct (decide (n ∈ X)); [split; [done|by eexists]|split; [by intros [? ?]|done]].
Qed.

Lemma at_index_elem (l : list Z) i x : at_index l i = Some x -> x ∈ l.
Proof. unfold at_index. destruct (0 <=? i); [apply list_elem_of_lookup_2|done]. Qed.

(** pickRandom panics exactly when no key has the value, and gives such a key otherwise. *)
Lemma pickRandom_spec order Intn f val :
  (forall l, order l ≡ₚ l) -> (forall n, 0 < n -> 0 <= Intn n < n) ->
  (forall k, f !! k <> Some val) /\ pickRandom order Intn f val = None \/
  exists k, f !! k = Some val /\ pickRandom order Intn f val = Some k.
Proof.
  intros Ho Hr. unfold pickRandom. set (l := fst <$> _).
  assert (Hl : forall k, k ∈ l <-> f !! k = Some val).
  { intros k. unfold l. rewrite list_elem_of_fmap. setoid_rewrite list_elem_of_filter. setoid_rewrite (fun kv l => order_elem order kv l Ho). split.
    - intros ([k' v] & -> & Hv & Hin). cbn in Hv. subst v. by apply elem_of_map_to_list in Hin.
    - intros Hk. exists (k, val). by rewrite elem_of_map_to_list. }
  destruct (Nat.eqb_spec (length l) 0) as [Hz|Hz].
  - left. split; [|done]. intros k Hk%Hl. destruct l; [by apply elem_of_nil in Hk|done].
  - right. destruct (at_index_Some l (Intn (lenZ l))) as [k Hk]; [apply Hr; lia|]. exists k. split; [|done].
    by apply Hl, (at_index_elem _ _ _ Hk).
Qed.

End rep.

(** ** Theorem *)

(** The frequency map implements finite multisets of values: adding and removing a value,
    the number of different values, and the values that occur most and least often, whatever
    order the map is visited in. *)
Theorem freqMap_refines order f X n :
  (forall l, order l ≡ₚ l) -> represents f X -> Z.of_nat (size X) + 1 < MaxInt64 ->
  represents (add f n) ({[+ n +]} ⊎ X) /\ represents (remove f n) (X ∖ {[+ n +]}) /\
  len f = Z.of_nat (size (dom X)) /\
  (X <> ∅ ->
   (max order f ∈ X /\ forall m, (multiplicity m X <= multiplicity (max order f) X)%nat) /\
   (min order f ∈ X /\ forall m, m ∈ X -> (multiplicity (min order f) X <= multiplicity m X)%nat)).
Proof.
  intros Ho Hf Hs. unfold MaxInt64 in *. split_and!.
  - apply add_rep; [lia|done].
  - by apply remove_rep.
  - by apply len_rep.
  - intros Hne. split; [by apply max_rep|]. apply min_rep; try done. unfold MaxInt64. lia.
Qed.

(** A key that was entered with the count zero goes below zero when it is removed. *)
Example remove_initKey : remove (initKey newFreqMap 5) 5 !! 5 = Some (-1).
Proof. by vm_compute. Qed.

Lemma freqMap_refines_witness :
  let f := add (add (add newFreqMap 7) 3) 7 in
  represents f ({[+ 7; 3; 7 +]}) /\ len (remove f 3) = 1 /\ max (fun l => l) f = 7 /\ min (fun l => l) f = 3.
Proof.
  assert (H0 := newFreqMap_rep).
  assert (H1 : represents (add newFreqMap 7) {[+ 7 +]}).
  { destruct (freqMap_refines (fun l => l) newFreqMap ∅ 7 (fun _ => reflexivity _) H0 ltac:(done)) as [H _].
    by rewrite (gmultiset_disj_union_right_id _) in H. }
  assert (H2 : represents (add (add newFreqMap 7) 3) ({[+ 3 +]} ⊎ {[+ 7 +]})).
  { by apply (freqMap_refines (fun l => l) _ _ 3 (fun _ => reflexivity _) H1 ltac:(rewrite gmultiset_size_singleton; done)). }
  split_and!; [|by vm_compute|by vm_compute|by vm_compute].
  replace ({[+ 7; 3; 7 +]} : gmultiset Z) with ({[+ 7 +]} ⊎ ({[+ 3 +]} ⊎ {[+ 7 +]}) : gmultiset Z).
  2:{ apply gmultiset_eq. intros x. mult. }
  apply (freqMap_refines (fun l => l) _ _ 7 (fun _ => reflexivity _) H2). by vm_compute.
Defined.
