(* ===== verification/Examples.v ===== *)
(** * Concrete instances

    For the theorems with hypotheses: inputs that satisfy them, evaluated with the
    executable definitions. *)
From S2P Require Import Prelude Strconv Bitfield GoValue BenDecode BenEncode BenTotal BenRound BenGet.
From S2P Require Import Wire Handshake Metainfo Bitmap Piece Pieces Storage StorageSafe Metadata.
From stdpp Require Import list gmap sorting.
#[local] Open Scope Z_scope.

(** ** Bencode *)

Definition ex_fields : list (sfield * gtype) :=
  [ (mkField (bs "Id") (bs "id") [], TInt 64); (mkField (bs "Names") (bs "names") (bs "omit"), TSlice TString) ].
Definition ex_vals : list gval := [VInt (-7); VSlice (Some [VString (bs "ab"); VString []])].

(** A check of [struct_ok] that evaluates. *)
Lemma struct_ok_check fs :
  bool_decide (NoDup ((fun f => sf_name f.1) <$> fs)) && bool_decide (NoDup ((fun f => field_key f.1) <$> fs)) &&
  forallb (fun f => no_question (sf_name f.1) && bool_decide (short (field_key f.1))) fs = true ->
  fs <> [] -> struct_ok fs.
Proof.
  rewrite !andb_true_iff, !bool_decide_eq_true. intros [[Hn Hk] Hf] Hne.
  apply Is_true_true_2, forallb_True in Hf. constructor; [done|done| | |].
  - intros i j f g Hi Hj _ _ E. eapply NoDup_lookup; [exact Hk| |]; rewrite list_lookup_fmap.
    + by rewrite Hi.
    + rewrite Hj. cbn. by rewrite E.
  - eapply Forall_impl; [exact Hf|]. cbn. intros f. by rewrite andb_True; intros [?%Is_true_true _].
  - eapply Forall_impl; [exact Hf|]. cbn. intros f. by rewrite andb_True; intros [_ ?%bool_decide_unpack].
Qed.

Lemma ex_struct_ok : struct_ok ex_fields.
Proof. apply struct_ok_check; [by vm_compute|discriminate]. Qed.

Lemma ex_canon : canon (TStruct ex_fields) (VStruct ex_vals).
Proof.
  apply canon_struct; [apply ex_struct_ok|]. apply Forall2_cons; split; [|apply Forall2_cons; split; [|constructor]].
  - right. split; [reflexivity|]. apply canon_int; [lia|]. unfold in_s. lia.
  - right. split; [reflexivity|]. apply canon_slice. repeat (apply Forall_cons; split; [|]); try apply Forall_nil;
      try apply canon_string; reflexivity || done.
Qed.

Definition ex_text : bytes := bs "d2:idi-7e5:namesl2:ab0:ee".

Lemma Decode_Encode_witness :
  exists s, BenEncode.Encode (TStruct ex_fields) (VStruct ex_vals) = Ok s /\
    BenDecode.Decode s (TStruct ex_fields) (zero (TStruct ex_fields)) = Ok (VStruct ex_vals, None).
Proof. apply Decode_Encode, ex_canon. Defined.

Lemma Decode_trailing_witness :
  BenDecode.Decode (ex_text ++ bs "xy") (TStruct ex_fields) (zero (TStruct ex_fields)) =
  Ok (VStruct ex_vals, Some (LargeBufferErr 2)).
Proof. apply (Decode_trailing (TStruct ex_fields) (VStruct ex_vals) ex_text); [apply ex_canon|reflexivity]. Defined.


Lemma Get_Encode_witness :
  match Get ex_text (bs "names") with
  | Ok (Some x) => exists i f v, ex_fields !! i = Some f /\ ex_vals !! i = Some v /\
      field_key f.1 = bs "names" /\ field_skipped f.1 v = false /\ BenEncode.Encode f.2 v = Ok x
  | Ok None => forall i f v, ex_fields !! i = Some f -> ex_vals !! i = Some v ->
      field_key f.1 = bs "names" -> field_skipped f.1 v = true
  | _ => False
  end.
Proof. apply Get_Encode; [apply ex_canon|reflexivity|reflexivity]. Defined.

(** ** Wire protocol *)

Lemma SetPiece_HasPiece_witness :
  exists bf', SetPiece [Byte.x00; Byte.x80] 3 = Some bf' /\ length bf' = 2%nat /\
    HasPiece bf' 8 = (if 8 =? 3 then Some true else HasPiece [Byte.x00; Byte.x80] 8).
Proof. apply SetPiece_HasPiece; cbn; lia. Defined.

Definition ex_piece_msg : Msg := mkMsg Wire.Piece 1 16384 0 [] (bs "data") 0 0 ExtNil.

Lemma ex_piece_msg_wf : wf_msg ex_piece_msg.
Proof. apply wf_piece; unfold in_u; vm_compute; intuition discriminate. Qed.

Lemma Decode_Encode_msg_witness :
  exists s, Wire.Encode ex_piece_msg = Some s /\ forall rest, Wire.Decode (s ++ rest) = Ok (ex_piece_msg, rest).
Proof. apply Decode_Encode_msg, ex_piece_msg_wf. Defined.

Lemma Request_of_piece_witness :
  exists q, Wire.Request ex_piece_msg = Some q /\ wf_msg q /\ Index q = 1 /\ Begin q = 16384 /\ Wire.Len q = 4.
Proof. apply (Request_of_piece ex_piece_msg); [apply ex_piece_msg_wf|reflexivity]. Defined.

Definition ex_hsI : HandShake :=
  mkHandShake (replicate 8 Byte.x00) (replicate 20 "h"%byte) (replicate 20 "i"%byte).
Definition ex_hsR : HandShake := mkHandShake (replicate 8 Byte.x01) zero20 (replicate 20 "r"%byte).

Lemma handshake_agrees_witness :
  let answer := mkHandShake (hs_Reserved ex_hsR) (hs_InfoHash ex_hsI) (hs_PeerID ex_hsR) in
  Do ex_hsR (mkConn (hs_bytes ex_hsI ++ bs "x") [] []) = Ok (ex_hsI, mkConn (bs "x") (hs_bytes answer) []) /\
  Do ex_hsI (mkConn (hs_bytes answer ++ bs "y") [] []) = Ok (answer, mkConn (bs "y") (hs_bytes ex_hsI) []).
Proof. apply handshake_agrees; [by split_and!|by split_and!|discriminate|reflexivity]. Defined.

Lemma initiate_same_torrent_witness :
  hs_InfoHash (mkHandShake (hs_Reserved ex_hsR) (hs_InfoHash ex_hsI) (hs_PeerID ex_hsR)) = hs_InfoHash ex_hsI.
Proof.
  apply (initiate_same_torrent ex_hsI
    (mkConn (hs_bytes (mkHandShake (hs_Reserved ex_hsR) (hs_InfoHash ex_hsI) (hs_PeerID ex_hsR))) [] [])
    _ (mkConn [] (hs_bytes ex_hsI) [])).
  vm_compute. reflexivity.
Defined.

Lemma protocol_name_ignored_witness :
  readHs (mkConn ([protoLen] ++ bs "Not the protocol..." ++ hs_Reserved ex_hsI ++ hs_InfoHash ex_hsI ++
                  hs_PeerID ex_hsI ++ []) [] []) = Ok (ex_hsI, mkConn [] [] []).
Proof. apply protocol_name_ignored; [by split_and!|reflexivity]. Defined.

(** ** Metainfo *)

Definition ex_sha1 (d : bytes) : bytes := take 20 (d ++ replicate 20 Byte.x00).
(** Five bytes in three pieces of two bytes. *)
Definition ex_info : InfoDict :=
  mkInfo None 5 None (bs "f") 2 (Some (ex_sha1 (bs "ab") ++ ex_sha1 (bs "cd") ++ ex_sha1 (bs "e"))) 0
         (replicate 20 Byte.x00).
Definition ex_meta : MetaInfo := mkMeta (bs "http://t/a") None [] [] 0 [] (Some ex_info) None.

Lemma PieceLength_sum_witness :
  exists ls, mapM (PieceLength ex_info) (seqZ 0 (NumPieces ex_info)) = Some ls /\
    sumZ ls = TotalLength ex_info - (if TotalLength ex_info mod PieceLen ex_info =? 0 then PieceLen ex_info else 0).
Proof. apply PieceLength_sum. constructor; reflexivity. Defined.

Lemma PiecesHash_PieceHash_witness :
  exists hs, PiecesHash ex_info = Some hs /\ concat hs = default [] (Metainfo.Pieces ex_info) /\
    forall k x, hs !! k = Some x -> PieceHash ex_info (Z.of_nat k) = Some x.
Proof. apply PiecesHash_PieceHash. reflexivity. Defined.

Lemma ex_meta_canon : canon MetaInfo_type (Meta_val (bare ex_meta)).
Proof.
  assert (HI : canon InfoDict_type (Info_val ex_info)).
  { apply canon_struct; [apply struct_ok_check; [by vm_compute|discriminate]|].
    repeat (apply Forall2_cons; split); try apply Forall2_nil_2; try (left; split; reflexivity).
    - right. split; [reflexivity|]. apply canon_int; [lia|]. unfold in_s. cbn. lia.
    - right. split; [reflexivity|]. by apply canon_string.
    - right. split; [reflexivity|]. apply canon_int; [lia|]. unfold in_s. cbn. lia.
    - right. split; [reflexivity|]. by apply canon_bytes. }
  apply canon_struct; [apply struct_ok_check; [by vm_compute|discriminate]|].
  repeat (apply Forall2_cons; split); try apply Forall2_nil_2; try (left; split; reflexivity).
  - right. split; [reflexivity|]. by apply canon_string.
  - right. split; [reflexivity|]. apply canon_ptr, HI.
Qed.

Lemma load_CreateTorrentFile_witness :
  exists s ib, CreateTorrentFile ex_meta = Ok s /\ BenEncode.Encode InfoDict_type (Info_val ex_info) = Ok ib /\
    loadMetainfoFromBytes ex_sha1 s = Ok (set_Info ex_meta (set_Hash ex_info (ex_sha1 ib)) (Some ib)).
Proof.
  destruct (CreateTorrentFile ex_meta) as [s| |] eqn:E; [|by vm_compute in E..].
  destruct (load_CreateTorrentFile ex_sha1 ex_meta ex_info s) as (ib & H1 & H2);
    [apply ex_meta_canon|reflexivity|reflexivity|exact E|vm_compute in E; injection E as <-; reflexivity|].
  exists s, ib. split; [reflexivity|]. split; [exact H1|exact H2].
Defined.

(** ** Pieces and blocks *)

Definition ex_t : tparams := mkT 7 4 2 2.
Definition ex_peer : gset Z := {[ 0; 1 ]}.
Definition ex_p : pieces (gset Z) nextF :=
  match newPieces ex_t nextRand with Some p => setDownloadEnabled p true | None => mkPieces ∅ [] nextRand false false end.
Definition ex_pc (p : pieces (gset Z) nextF) (i : Z) : Piece.Piece (gset Z) :=
  default (fresh_piece ex_t 0 0 0) (at_index (pcs p) i).

Lemma ex_params : params_ok ex_t.
Proof. constructor; cbn; lia. Qed.

Lemma ex_reachable : reachable ex_t ex_p.
Proof.
  destruct (newPieces ex_t nextRand) as [p|] eqn:E; [|by vm_compute in E].
  unfold ex_p. rewrite E. eapply reach_step; [by eapply reach_init|]. constructor.
Qed.

Lemma ex_p_ok : pieces_ok ex_t ex_p.
Proof. apply reachable_ok; [apply ex_params|apply ex_reachable]. Qed.

(** The state after the blocks of piece 0 have come. *)
Definition ex_full : pieces (gset Z) nextF :=
  match Pieces.setBlockComplete ex_t ex_p 0 0 7 with
  | Some (p, _) => match Pieces.setBlockComplete ex_t p 0 2 7 with Some (q, _) => q | None => p end
  | None => ex_p
  end.

Lemma ex_full_ok : pieces_ok ex_t ex_full.
Proof.
  apply reachable_ok; [apply ex_params|].
  destruct (Pieces.setBlockComplete ex_t ex_p 0 0 7) as [[p evs]|] eqn:E1; [|by vm_compute in E1].
  destruct (Pieces.setBlockComplete ex_t p 0 2 7) as [[q evs']|] eqn:E2.
  2:{ exfalso. revert E2. vm_compute in E1. injection E1 as <- <-. by vm_compute. }
  unfold ex_full. rewrite E1, E2.
  assert (R1 : reachable ex_t p).
  { eapply reach_step; [apply ex_reachable|]. eapply (ps_block _ _ 0 0 7 (ex_pc ex_p 0)); [| |exact E1].
    - by vm_compute.
    - by apply (bool_decide_unpack _); vm_compute. }
  eapply reach_step; [exact R1|]. eapply (ps_block _ _ 0 2 7 (ex_pc p 0)); [| |exact E2].
  - vm_compute in E1. injection E1 as <- <-. by vm_compute.
  - vm_compute in E1. injection E1 as <- <-. by apply (bool_decide_unpack _); vm_compute.
Qed.

Lemma reachable_invariant_witness :
  lenZ (pcs ex_p) = 2 /\ index (ex_pc ex_p 1) = 1 /\ verified (ex_pc ex_p 1) = bm_Get (ownedPieces ex_p) 1.
Proof.
  destruct (reachable_invariant ex_t ex_p ex_params ex_reachable) as [Hl Hi].
  split; [exact Hl|]. destruct (Hi 1 (ex_pc ex_p 1)) as (H1 & H2 & _); [by vm_compute|]. split; [exact H1|exact H2].
Defined.

Lemma fillRequests_correct_witness :
  exists p' new, fillRequests ex_t (fun _ _ => 0) ex_peer 3 ex_p = Some (p', new) /\ lenZ new <= 3 /\ NoDup (keys new).
Proof.
  destruct (fillRequests_correct ex_t (fun _ _ => 0) ex_peer 3 ex_p ex_p_ok ltac:(lia))
    as (p' & new & E & _ & Hl & Hn & _).
  exists p', new. split; [exact E|]. split; [exact Hl|exact Hn].
Defined.

Lemma fill_discard_witness :
  exists p' new p'', fillRequests ex_t (fun _ _ => 0) ex_peer 3 ex_p = Some (p', new) /\
    discardRequests p' new = Some p'' /\ state_of p'' 0 0 = state_of ex_p 0 0.
Proof.
  destruct (fillRequests ex_t (fun _ _ => 0) ex_peer 3 ex_p) as [[p' new]|] eqn:E; [|by vm_compute in E].
  destruct (fill_discard ex_t (fun _ _ => 0) ex_peer 3 ex_p p' new ex_p_ok ltac:(lia) E) as (p'' & E' & _ & Hs).
  exists p', new, p''. split; [reflexivity|]. split; [exact E'|]. apply (Hs 0 (ex_pc ex_p 0) 0); [by vm_compute|].
  by apply (bool_decide_unpack _); vm_compute.
Defined.

Lemma block_received_witness :
  exists p' evs start, Pieces.setBlockComplete ex_t ex_p 0 2 7 = Some (p', evs) /\ endGame p' = endGame ex_p || start.
Proof.
  destruct (block_received ex_t ex_p 0 2 7 (ex_pc ex_p 0) ex_p_ok) as (p' & evs & start & E & _ & He & _).
  - by vm_compute.
  - by apply (bool_decide_unpack _); vm_compute.
  - exists p', evs, start. split; [exact E|exact He].
Defined.

Lemma piece_hashed_witness :
  exists p', pieceHashed ex_full 0 true = Some (p', Piece.contributors (ex_pc ex_full 0)) /\
    bm_Get (ownedPieces p') 0 = true.
Proof.
  destruct (piece_hashed ex_t ex_full 0 true (ex_pc ex_full 0) ex_full_ok) as (p' & E & _ & Ho & _).
  - by vm_compute.
  - by vm_compute.
  - by vm_compute.
  - exists p'. split; [exact E|]. rewrite Ho. reflexivity.
Defined.

Definition ex_piece : Piece.Piece (gset Z) := fresh_piece ex_t 0 2 2.

Lemma ex_piece_ok : piece_ok ex_t ex_piece.
Proof. apply fresh_piece_ok; cbn; lia. Qed.

Lemma piece_refines_witness :
  blk_state (piece_step ex_t (Piece.Request 2) ex_piece) 2 = Pending.
Proof.
  destruct (piece_refines ex_t ex_piece (Piece.Request 2) ex_piece_ok) as (_ & _ & Hs).
  - cbn [event_ok]. by apply (bool_decide_unpack _); vm_compute.
  - rewrite Hs; [reflexivity|]. by apply (bool_decide_unpack _); vm_compute.
Defined.

Lemma piece_counts_witness :
  UnrequestedBlocks ex_piece + PendingBlocks ex_piece + CompletedBlocks ex_piece = 2.
Proof. apply (piece_counts ex_t ex_piece ex_piece_ok). Defined.

Lemma newPiece_blocks_witness :
  exists p : Piece.Piece (gset Z), newPiece ex_t 1 = Some p /\ piece_ok ex_t p /\ sum_len ex_t p (offsets ex_t p) = 3.
Proof.
  destruct (newPiece_blocks (B := gset Z) ex_t 1 3) as (p & E & Hok & _ & _ & _ & Hs); [reflexivity|cbn; lia..|].
  exists p. split; [exact E|]. split; [exact Hok|exact Hs].
Defined.

Lemma verificationFailed_reopens_witness :
  match verificationFailed ex_piece with
  | Some (p', cs) => forall o, o ∈ offsets ex_t ex_piece -> blk_state p' o = Unrequested
  | None => exists o, o ∈ offsets ex_t ex_piece /\ blk_state ex_piece o <> Complete
  end.
Proof.
  pose proof (verificationFailed_reopens ex_t ex_piece ex_piece_ok) as Hv.
  destruct (verificationFailed ex_piece) as [[p' cs]|]; [apply Hv|exact Hv].
Defined.

Lemma blockLenSafe_offsets_witness :
  blockLenSafe ex_t ex_piece 2 = Ok 2 <-> 2 ∈ offsets ex_t ex_piece /\ 2 = blockLen ex_t ex_piece 2.
Proof. apply blockLenSafe_offsets; [apply ex_piece_ok|lia]. Defined.

Lemma Less_strict_weak_witness :
  Less nextByRarity 0 ex_piece ex_piece = false.
Proof. apply (Less_strict_weak 0 ex_piece (fresh_piece ex_t 1 2 2) (fresh_piece ex_t 2 2 2)); reflexivity. Defined.

Lemma last_piece_empty_witness :
  exists (p : pieces (gset Z) nextF) pc, newPieces (mkT 8 4 2 2) nextRand = Some p /\
    at_index (pcs p) 1 = Some pc /\ blocks pc = 0.
Proof.
  destruct (last_piece_empty (B := gset Z) (mkT 8 4 2 2) nextRand) as (p & pc & E & Hi & Hb & _);
    [constructor; cbn; lia|cbn; lia|reflexivity|].
  exists p, pc. split; [exact E|]. split; [exact Hi|exact Hb].
Defined.

(** ** Storage *)

Definition ex_join : list bytes -> bytes := @concat byte.
Definition ex_io : fileio := good_io.
Definition ex_storage : FileStorage :=
  mkStorage [] ex_info [mkSpiece 1 ∅ false; mkSpiece 1 ∅ true; mkSpiece 1 ∅ false] {[ bs "f" := bs "abcde" ]}.

Lemma ex_storage_ok : files_ok ex_join ex_io ex_storage (FilesInfo (st_info ex_storage)).
Proof.
  constructor; [apply Forall_singleton; cbn; lia|apply NoDup_singleton|apply Forall_singleton; reflexivity].
Qed.

Lemma WriteAt_ReadAt_witness :
  exists s', WriteAt ex_join ex_io ex_storage (bs "XY") 1 = (s', 2, None) /\
    ReadAt ex_join s' 2 1 = (bs "XY", None).
Proof.
  destruct (WriteAt_ReadAt ex_join ex_io ex_storage (bs "XY") 1 ltac:(done) ex_storage_ok) as (s' & Hw & _ & Hr & _);
    [discriminate|lia|by vm_compute|].
  exists s'. split; [exact Hw|exact Hr].
Defined.

Lemma WriteBlock_once_witness :
  exists s' n err, WriteBlock ex_join ex_io ex_storage (bs "ab") 0 = Some (s', n, err) /\
    WriteBlock ex_join ex_io s' (bs "zz") 0 = Some (s', 0, Some ErrAlreadyWritten).
Proof.
  destruct (WriteBlock ex_join ex_io ex_storage (bs "ab") 0) as [[[s' n] err]|] eqn:E; [|by vm_compute in E].
  exists s', n, err. split; [reflexivity|]. by apply (WriteBlock_once ex_join ex_io ex_storage (bs "ab") 0 s' n err).
Defined.

(** A storage that is opened empty, gets a block and hashes its piece. *)
Definition ex_opened : FileStorage := mkStorage [] ex_info (replicate 3 (mkSpiece 1 ∅ false)) ∅.
Definition ex_filled : FileStorage :=
  match WriteBlock ex_join ex_io ex_opened (bs "ab") 0 with Some (s, _, _) => s | None => ex_opened end.
Definition ex_hashed : FileStorage :=
  match HashPiece ex_join ex_sha1 ex_filled 0 2 with Some (s, _) => s | None => ex_filled end.

Lemma verified_data_witness :
  exists data, lenZ data = 2 /\ PieceHash ex_info 0 = Some (ex_sha1 data) /\ Data ex_join ex_hashed 0 2 = Some (data, false).
Proof.
  destruct (verified_data ex_join ex_io ex_sha1 ex_info [] [1; 1; 1] ∅ ex_opened false ex_hashed 0 (mkSpiece 1 ∅ true))
    as (len & data & Hl & Hd & Hh & _ & HD).
  - constructor; reflexivity.
  - reflexivity.
  - constructor; [apply Forall_singleton; cbn; lia|apply NoDup_singleton|apply Forall_singleton; reflexivity].
  - vm_compute. reflexivity.
  - apply rtc_l with ex_filled.
    + apply (ss_write _ _ _ ex_opened (bs "ab") 0 0 2 ex_filled 2 None);
        [split; [lia|vm_compute; reflexivity]|reflexivity|discriminate|lia|vm_compute; discriminate|vm_compute; reflexivity].
    + apply rtc_once. apply (ss_hash _ _ _ ex_filled 0 2 ex_hashed true); [split; [lia|vm_compute; reflexivity]|reflexivity|vm_compute; reflexivity].
  - vm_compute. reflexivity.
  - reflexivity.
  - injection Hl as <-. exists data. split; [exact Hd|]. split; [exact Hh|]. apply HD; [reflexivity|]. split; vm_compute; [discriminate|reflexivity].
Defined.

Lemma hashPiece_correct_witness :
  exists s', hashPiece ex_join ex_sha1 ex_storage 0 2 = Some (s', true).
Proof.
  rewrite (hashPiece_correct ex_join ex_sha1 ex_io ex_storage 0 2 (ex_sha1 (bs "ab")) (mkSpiece 1 ∅ false) ex_storage_ok);
    [|vm_compute; discriminate|lia| |reflexivity|reflexivity].
  - rewrite bool_decide_true by reflexivity. by eexists.
  - intros g Hg. change (pieceOff ex_storage 0) with 0 in Hg.
    assert (g = 0 \/ g = 1) as [-> | ->] by lia; by eexists.
Defined.

Lemma ReadBlock_verified_witness :
  exists i piece, pieceIndex ex_storage 2 = Some i /\ at_index (st_pieces ex_storage) i = Some piece /\
    sp_verified piece = true.
Proof.
  apply (ReadBlock_verified ex_join ex_storage 2 2 (bs "cd") None); [by vm_compute|discriminate].
Defined.

Lemma WriteBlock_verified_witness :
  WriteBlock ex_join ex_io ex_storage (bs "zz") 2 = Some (ex_storage, 0, Some ErrAlreadyWritten).
Proof. apply (WriteBlock_verified ex_join ex_io ex_storage (bs "zz") 2 1 (mkSpiece 1 ∅ true)); reflexivity. Defined.

(** ** Metadata *)

Lemma metadata_assembled_witness :
  exists ut, ut_writes (bs "info") [(0, bs "ip"); (0, bs "ip")] (newUtMetadata 4) = Some ut /\
    (ut_complete ut = true -> infoBytes ut = bs "info").
Proof.
  destruct (metadata_assembled (bs "info") [(0, bs "ip"); (0, bs "ip")]) as (ut & E & _ & Hc).
  - repeat constructor; cbn; lia.
  - exists ut. split; [exact E|exact Hc].
Defined.

Lemma writeBlock_panic_witness :
  ut_writeBlock (newUtMetadata 4) (bs "info") 9 4 [] = None.
Proof. apply (writeBlock_panic 4); [by apply newUtMetadata_ok|]. left. intros [_ Hlt]. vm_compute in Hlt. discriminate Hlt. Defined.

Lemma readBlock_piece_witness :
  ut_readBlock (newUtMetadata 4) 4 0 = Some (Ok (piece_of (infoBytes (newUtMetadata 4)) 0)).
Proof. apply (readBlock_piece 4 (newUtMetadata 4) 0); [by apply newUtMetadata_ok|reflexivity|reflexivity]. Defined.

Lemma fillRequest_correct_witness :
  NoDup (ut_fillRequest (fun l => l) (newUtMetadata 4) 5 []).
Proof. apply fillRequest_correct; [reflexivity|lia]. Defined.
