(* ===== verification/SwarmExamples.v ===== *)
(** * Concrete instances for the torrent

    A torrent of five bytes that starts, gets a connection and a block: the states and
    inputs at which the theorems on the torrent apply. *)
From S2P Require Import Prelude Strconv Bitfield GoValue BenDecode BenEncode BenTotal Wire Metainfo Bitmap Piece Pieces.
From S2P Require Import Metadata ConnInfo Swarm SwarmInv Choker Torrent TorrentInv TorrentSafe Status Exported Examples.
From stdpp Require Import list gmap sorting.
#[local] Open Scope Z_scope.

Definition ex_env : Env :=
  mkEnv (fun k => Z.of_nat k * 1000000000) (fun _ _ => 0) (fun _ n => seq 0 n) (fun _ => Sent)
    (fun _ => true) (fun _ => true) (fun _ => true).

#[export] Instance ex_env_laws : EnvLaws ex_env.
Proof. by constructor; [cbn; lia|..]. Qed.

Definition ex_cfg : config := mkConfig 55 20 50 true true false false (replicate 8 Byte.x00) 6881.
Definition ex_ip (n : Z) : bytes := [z2b 10; z2b 0; z2b 0; z2b n].

Abbreviation ex_torrent := (torrent (gset Z) nextF).
Abbreviation ex_turn := (mainLoop_turn (B := gset Z) (S := nextF) ex_env id 0 ex_sha1 (fun _ _ => false) nextRand (ex_ip 9)).
Abbreviation ex_start := (start (B := gset Z) (S := nextF) ex_env id 0 (fun _ _ => false) nextRand (ex_ip 9)).
Abbreviation ex_input_ok := (input_ok (B := gset Z) (S := nextF) ex_sha1).
Abbreviation ex_step := (tstep (B := gset Z) (S := nextF) ex_env id 0 ex_sha1 (fun _ _ => false) nextRand (ex_ip 9)).

Definition after (m : M (gset Z) nextF unit) (t : ex_torrent) : ex_torrent :=
  match m t with Ok (_, t') => t' | _ => t end.

Definition ex_ib : option bytes := Some (bs "d6:lengthi5ee").
Definition ex_new : ex_torrent := newTorrent ex_cfg ex_info (bs "http://t/a") ex_ib.
Definition ex_t0 : ex_torrent := after ex_start ex_new.
Definition ex_t1 : ex_torrent := after (ex_turn InStartDataTransfer) ex_t0.
Definition ex_t2 : ex_torrent := after (ex_turn (InNewConn 1 (mkPeer None (ex_ip 1) 6881 SourceTracker) (replicate 8 Byte.x00))) ex_t1.
Definition ex_t3 : ex_torrent := after (ex_turn (InConnMsg 1 (TDownloadedBlock (mkBlock 0 0 2)))) ex_t2.

Lemma ex_setup : setup_ok ex_cfg ex_info ex_ib.
Proof. split; [reflexivity|right]. split; [by eexists|]. constructor; vm_compute; intuition discriminate. Qed.

(** A turn that returns and leaves the torrent open is a step. *)
Lemma after_step inp t :
  ex_input_ok t inp ->
  match ex_turn inp t with Ok ((), t') => isClosed (t_data t') = false | _ => False end -> ex_step t (after (ex_turn inp) t).
Proof.
  intros Hin. unfold after. destruct (ex_turn inp t) as [[[] t']| |] eqn:E; [|done..]. by apply ts_turn with (inp := inp).
Qed.

Lemma ex_reaches t : rtc ex_step ex_t0 t ->
  t_reachable ex_env id 0 ex_sha1 (fun _ _ => false) nextRand (ex_ip 9) ex_cfg ex_info (bs "http://t/a") ex_ib t.
Proof. intros Hr. exists ex_t0. split; [by vm_compute|done]. Qed.

Lemma ex_input_conn : ex_input_ok ex_t1 (InNewConn 1 (mkPeer None (ex_ip 1) 6881 SourceTracker) (replicate 8 Byte.x00)).
Proof. split; [|done]. apply (bool_decide_unpack _). by vm_compute. Qed.

Lemma ex_input_block : ex_input_ok ex_t2 (InConnMsg 1 (TDownloadedBlock (mkBlock 0 0 2))).
Proof.
  split; [apply (bool_decide_unpack _); by vm_compute|].
  destruct (pieces_ (t_data ex_t2)) as [p|] eqn:Hp; [|by vm_compute in Hp].
  destruct (at_index (pcs p) 0) as [pc|] eqn:Hpc; [|vm_compute in Hp; injection Hp as <-; by vm_compute in Hpc].
  exists p, pc. split_and!; [done|done|].
  vm_compute in Hp. injection Hp as <-. vm_compute in Hpc. injection Hpc as <-. apply (bool_decide_unpack _). by vm_compute.
Qed.

Lemma ex_steps : rtc ex_step ex_t0 ex_t3.
Proof.
  eapply rtc_l; [apply (after_step InStartDataTransfer); [done|by vm_compute]|].
  eapply rtc_l; [apply (after_step _ _ ex_input_conn); by vm_compute|].
  eapply rtc_l; [apply (after_step _ _ ex_input_block); by vm_compute|apply rtc_refl].
Qed.

Lemma ex_tor_ok t : rtc ex_step ex_t0 t -> tor_ok t.
Proof. intros Hr. eapply tor_ok_reachable; [apply _|apply ex_setup|by apply ex_reaches]. Qed.

(** ** Witnesses *)



Lemma queued_piece_verified_witness :
  exists t1 t2 q, ex_turn InHasherTake ex_t3 = Ok ((), t1) /\ ex_turn (InPieceHashed 0 true) t1 = Ok ((), t2) /\
    pieces_ (t_data t2) = Some q /\ bm_Get (ownedPieces q) 0 = true.
Proof.
  destruct (pieces_ (t_data ex_t3)) as [p|] eqn:Hp; [|by vm_compute in Hp].
  destruct (queued_piece_verified ex_env id 0 ex_sha1 (fun _ _ => false) nextRand (ex_ip 9) ex_cfg ex_info (bs "http://t/a") ex_ib ex_t3
    0 [] p ex_setup (ex_reaches _ ex_steps) Hp ltac:(by vm_compute)) as (t1 & t2 & q & H1 & H2 & H3 & H4 & _).
  exists t1, t2, q. split; [exact H1|]. split; [exact H2|]. split; [exact H3|exact H4].
Defined.

Lemma have_never_interests_witness :
  exists t', reviewInterestsOnHave ex_env id 0 1 2 ex_t3 = Ok ((), t') /\
    known t' 1 = known ex_t3 1.
Proof.
  destruct (have_never_interests ex_env id 0 ex_t3 1 2 (tk_wf _ (ex_tor_ok _ ex_steps))) as (t' & E & Hs).
  - apply (bool_decide_unpack _). by vm_compute.
  - exists t'. split; [exact E|apply Hs].
Defined.


Lemma choker_slots_witness :
  exists t', reviewUnchokedPeers ex_env (droppedConn ex_env id 0) ex_t3 = Ok ((), t') /\ conns t' = conns ex_t3.
Proof.
  destruct (choker_slots ex_env id 0 ex_t3 ltac:(reflexivity) (tk_wf _ (ex_tor_ok _ ex_steps)) ltac:(by vm_compute))
    as (t' & E & _ & Hc & _).
  exists t'. split; [exact E|exact Hc].
Defined.

Lemma review_returns_witness :
  exists t', reviewUnchokedPeers ex_env (droppedConn ex_env id 0) ex_t3 = Ok ((), t') /\ wf t'.
Proof.
  destruct (review_returns ex_env id 0 ex_t3 (tk_wf _ (ex_tor_ok _ ex_steps))) as (t' & E & Hw & _).
  exists t'. split; [exact E|exact Hw].
Defined.

(** What WriteStatus prints; sizes are in bytes here. *)
Example ex_status :
  match writeStatus id (mkPrinting (Some (3, 4, 1800)) (fun n => Itoa n ++ bs " B") (fun _ => 0)) ex_t3 with
  | Ok (text, _) => String.string_of_list_byte text
  | _ => String.EmptyString
  end = "Name: f
#DhtAnnounces: 0
Tracker: http://t/a	Announce: OK	#AnnouncesSend: 0
Seeders: 3	Leechers: 3	Interval: 1800(secs)
State: uploading/downloading
Downloaded: 0 B	Uploaded: 0 B	Remaining: 5 B
Connected to 1 peers
Address   %   Up   Down  
10.0.0.1  0%  0 B  2 B   
"%string.
Proof. by vm_compute. Qed.

(** ** A connection lost during a broadcast *)

Definition ex_ci (n : Z) : connInfo (gset Z) := new_connInfo (mkPeer None (ex_ip n) 6881 SourceTracker) (replicate 8 Byte.x00).
Definition ex_three : ex_torrent :=
  set_conns [1; 2; 3] 3 (set_infos {[ 1 := ex_ci 1; 2 := ex_ci 2; 3 := ex_ci 3 ]} ex_t1).
(** The first select finds its connection closed. *)
Definition ex_lossy : Env := mkEnv (env_now ex_env) (env_Intn ex_env) (env_Perm ex_env)
  (fun k => if (k =? t_tick ex_three)%nat then Dropped else Sent) (fun _ => true) (fun _ => true) (fun _ => true).
Definition haves (t : ex_torrent) (id : Z) : nat :=
  match t_infos t !! id with
  | Some ci => length (filter (fun m => match m with CWire m => Kind m =? Have | _ => false end = true) (ci_sent ci))
  | None => 0%nat
  end.

(** Removing a lost connection moves the others in the array that the loop is reading:
    of three connections, when the first is lost while haves are sent, the second gets
    no have and the third gets two. *)
Theorem sendHaves_skips :
  match sendHaves ex_lossy id 0 0 ex_three with
  | Ok (_, t) => conns t = [2; 3] /\ haves t 2 = 0%nat /\ haves t 3 = 2%nat
  | _ => False
  end.
Proof. by vm_compute. Qed.
