(* ===== verification/HasherExamples.v ===== *)
(** * Concrete instances for the hasher

    The torrent of [SwarmExamples] next to the storage of [Examples], from the start to a piece
    that waits to be hashed. *)
From S2P Require Import Prelude Strconv Bitfield GoValue BenDecode BenEncode BenTotal Wire Metainfo Bitmap Piece Pieces Storage.
From S2P Require Import Metadata ConnInfo Swarm SwarmInv Torrent TorrentInv TorrentSafe Frames Hasher Examples SwarmExamples.
From stdpp Require Import list gmap sorting.
#[local] Open Scope Z_scope.

(** The first piece is written. *)
Definition ex_written : FileStorage :=
  mkStorage [] ex_info [mkSpiece 1 {[ 0 ]} false; mkSpiece 1 ∅ true; mkSpiece 1 ∅ false] {[ bs "f" := bs "abcde" ]}.

Abbreviation ex_hstep :=
  (hstep (B := gset Z) (S := nextF) ex_env id 0 ex_sha1 (fun _ _ => false) nextRand (ex_ip 9)
     (Storage.HashPiece ex_join ex_sha1) (file_step ex_join ex_io) True).

Definition ex_h (t : ex_torrent) : hsys (gset Z) nextF FileStorage := mkHsys t ex_written (HIdle 0) [].

Lemma ex_hstep_after inp t :
  t_closed t = false -> outside_hasher inp = true -> ex_input_ok t inp ->
  match ex_turn inp t with Ok _ => True | _ => False end -> ex_hstep (ex_h t) (ex_h (after (ex_turn inp) t)).
Proof.
  intros Hc Ho Hin. unfold after. destruct (ex_turn inp t) as [[[] t']| |] eqn:E; [|done..]. intros _.
  apply (hs_turn _ _ _ _ _ _ _ _ _ _ (ex_h t) inp t'); [done|done|by right|done|done].
Qed.

Lemma ex_h_reachable :
  h_reachable ex_env id 0 ex_sha1 (fun _ _ => false) nextRand (ex_ip 9) (Storage.HashPiece ex_join ex_sha1) (file_step ex_join ex_io) True
    ex_cfg ex_info (bs "http://t/a") ex_ib (ex_h ex_t3).
Proof.
  exists ex_t0, ex_written. split; [by vm_compute|].
  eapply rtc_l; [apply (ex_hstep_after InStartDataTransfer); [by vm_compute|done|done|by vm_compute]|].
  eapply rtc_l; [apply (ex_hstep_after (InNewConn 1 (mkPeer None (ex_ip 1) 6881 SourceTracker) (replicate 8 Byte.x00)) ex_t1);
    [by vm_compute|done|exact ex_input_conn|by vm_compute]|].
  eapply rtc_l; [apply (ex_hstep_after (InConnMsg 1 (TDownloadedBlock (mkBlock 0 0 2))) ex_t2);
    [by vm_compute|done|exact ex_input_block|by vm_compute]|apply rtc_refl].
Qed.

Lemma hasher_protocol_witness : NoDup (flight (ex_h ex_t3)) /\ flight (ex_h ex_t3) = [0].
Proof.
  destruct (hasher_protocol ex_env id 0 ex_sha1 (fun _ _ => false) nextRand (ex_ip 9) (Storage.HashPiece ex_join ex_sha1) (file_step ex_join ex_io) True
    ex_cfg ex_info (bs "http://t/a") ex_ib ex_setup (ex_h ex_t3) ex_h_reachable ltac:(vm_compute; reflexivity)) as (H & _).
  split; [exact H|vm_compute; reflexivity].
Defined.

Lemma ex_written_ok : files_ok ex_join ex_io ex_written (FilesInfo (st_info ex_written)).
Proof.
  constructor; [apply Forall_singleton; cbn; lia|apply NoDup_singleton|apply Forall_singleton; reflexivity].
Qed.

Lemma ex_written_available : available ex_join ex_written (pieceOff ex_written 0) 2.
Proof.
  intros g Hg. change (pieceOff ex_written 0) with 0 in Hg. assert (g = 0 \/ g = 1) as [-> | ->] by lia; by eexists.
Qed.

Lemma written_piece_owned_witness :
  exists h', rtc ex_hstep (ex_h ex_t3) h' /\ owned (h_t h') 0 = true.
Proof.
  destruct (written_piece_owned ex_env id 0 ex_sha1 (fun _ _ => false) nextRand (ex_ip 9) ex_join ex_io ex_cfg ex_info (bs "http://t/a") ex_ib
    (ex_h ex_t3) 0 0 [] 2 (ex_sha1 (bs "ab")) (mkSpiece 1 {[ 0 ]} false) ex_setup ex_h_reachable
    ltac:(vm_compute; reflexivity) eq_refl ltac:(vm_compute; reflexivity) ltac:(vm_compute; reflexivity)
    ex_written_ok ltac:(vm_compute; discriminate) ltac:(lia) ex_written_available ltac:(vm_compute; reflexivity) eq_refl eq_refl eq_refl)
    as (h' & piece' & H1 & _ & _ & H2 & _).
  exists h'. split; [exact H1|]. rewrite H2. vm_compute. reflexivity.
Defined.
