(* ===== verification/DownloadExamples.v ===== *)
(** * A piece from the wire to the files

    The torrent of [SwarmExamples] over an empty directory: it starts, gets a connection, the
    connection writes the first piece, the hasher hashes it and the main loop takes the result. *)
From S2P Require Import Prelude Strconv Bitfield GoValue BenDecode BenEncode BenTotal Wire Metainfo Bitmap Piece Pieces Storage StorageSafe.
From S2P Require Import Metadata ConnInfo Swarm SwarmInv Torrent TorrentInv TorrentSafe Frames Hasher Download Examples SwarmExamples.
From stdpp Require Import list gmap sorting.
#[local] Open Scope Z_scope.

Definition ex_openFiles : InfoDict -> list Z -> bool := openFiles ex_sha1 ex_join [] ∅.
Abbreviation ex_dturn := (mainLoop_turn (B := gset Z) (S := nextF) ex_env id 0 ex_sha1 ex_openFiles nextRand (ex_ip 9)).
Abbreviation ex_dstart := (start (B := gset Z) (S := nextF) ex_env id 0 ex_openFiles nextRand (ex_ip 9)).
Abbreviation ex_dstep := (dstep (B := gset Z) (S := nextF) ex_env id 0 ex_sha1 nextRand (ex_ip 9) ex_join ex_io [] ∅ True).
Abbreviation ex_dsys := (hsys (gset Z) nextF FileStorage).

Definition ex_conn_in : tinput (gset Z) := InNewConn 1 (mkPeer None (ex_ip 1) 6881 SourceTracker) (replicate 8 Byte.x00).
Definition ex_block_in : tinput (gset Z) := InConnMsg 1 (TDownloadedBlock (mkBlock 0 0 2)).

Definition ex_d0 : ex_torrent := after ex_dstart ex_new.
Definition ex_d1 : ex_torrent := after (ex_dturn InStartDataTransfer) ex_d0.
Definition ex_d2 : ex_torrent := after (ex_dturn ex_conn_in) ex_d1.
Definition ex_d3 : ex_torrent := after (ex_dturn ex_block_in) ex_d2.
Definition ex_d4 : ex_torrent := after (ex_dturn InHasherTake) ex_d3.
Definition ex_d5 : ex_torrent := after (ex_dturn (InPieceHashed 0 true)) ex_d4.

Definition ex_s0 : FileStorage := mkStorage [] ex_info [mkSpiece 1 ∅ false; mkSpiece 1 ∅ false; mkSpiece 1 ∅ false] ∅.
Definition ex_s1 : FileStorage := match WriteBlock ex_join ex_io ex_s0 (bs "ab") 0 with Some (s, _, _) => s | None => ex_s0 end.
Definition ex_s2 : FileStorage := match Storage.HashPiece ex_join ex_sha1 ex_s1 0 2 with Some (s, _) => s | None => ex_s1 end.

Lemma after_runs (m : M (gset Z) nextF unit) (t : ex_torrent) :
  match m t with Ok _ => true | _ => false end = true -> m t = Ok ((), after m t).
Proof. unfold after. by destruct (m t) as [[[] t']| |]. Qed.

(** A turn of the main loop next to the storage [s]. *)
Lemma ex_dturn_step inp t s r c :
  t_closed t = false -> outside_hasher inp = true -> ex_input_ok t inp ->
  match ex_dturn inp t with Ok _ => true | _ => false end = true ->
  haveInfo (after (ex_dturn inp) t) = haveInfo t -> ex_dstep (mkHsys t s r c) (mkHsys (after (ex_dturn inp) t) s r c).
Proof. intros Hc Ho Hin Hm Hi. apply ds_step; [|exact Hi]. apply (hs_turn _ _ _ _ _ _ _ _ _ _ (mkHsys t s r c) inp); [done|done|by right|done|]. by apply after_runs. Qed.

Lemma ex_dinput_block : ex_input_ok ex_d2 ex_block_in.
Proof.
  split; [apply (bool_decide_unpack _); by vm_compute|].
  destruct (pieces_ (t_data ex_d2)) as [p|] eqn:Hp; [|by vm_compute in Hp].
  destruct (at_index (pcs p) 0) as [pc|] eqn:Hpc; [|vm_compute in Hp; injection Hp as <-; by vm_compute in Hpc].
  exists p, pc. split_and!; [done|done|].
  vm_compute in Hp. injection Hp as <-. vm_compute in Hpc. injection Hpc as <-. apply (bool_decide_unpack _). by vm_compute.
Qed.

Lemma ex_dinput_conn : ex_input_ok ex_d1 ex_conn_in.
Proof. split; [|done]. apply (bool_decide_unpack _). by vm_compute. Qed.

Lemma ex_write : conn_write ex_join ex_io ex_s0 ex_s1.
Proof.
  exists (bs "ab"), 0, 0, 2, 2, None. split_and!; [done|done|by vm_compute|done|done|done|]. by vm_compute.
Qed.

(** The download of the first piece. *)
Definition ex_owner : ex_dsys := mkHsys ex_d5 ex_s2 (HIdle 1) [].

Lemma ex_downloads : rtc ex_dstep (mkHsys ex_d0 ex_s0 (HIdle 0) []) ex_owner.
Proof.
  eapply rtc_l; [apply (ex_dturn_step InStartDataTransfer); by vm_compute|].
  eapply rtc_l; [apply (ex_dturn_step ex_conn_in); [by vm_compute|done|exact ex_dinput_conn|by vm_compute|by vm_compute]|].
  eapply rtc_l; [apply ds_step; [apply hs_store, ex_write|done]|]. cbn [h_t h_store h_run h_chan].
  eapply rtc_l; [apply (ex_dturn_step ex_block_in); [by vm_compute|done|exact ex_dinput_block|by vm_compute|by vm_compute]|].
  eapply rtc_l.
  { apply ds_step; [apply (hs_take _ _ _ _ _ _ _ _ _ _ (mkHsys ex_d3 ex_s1 (HIdle 0) []) 0 0 [] ex_d4 2 ex_s2 true); [done|by vm_compute| |by vm_compute|by vm_compute]|].
    - apply after_runs. by vm_compute.
    - by vm_compute. }
  eapply rtc_l; [apply ds_step; [apply (hs_send _ _ _ _ _ _ _ _ _ _ (mkHsys ex_d4 ex_s2 (HSend 0 0 true) []) 0 0 true); [done|by vm_compute]|done]|].
  cbn [h_t h_store h_run h_chan app].
  eapply rtc_l; [|apply rtc_refl]. apply ds_step.
  - apply (hs_result _ _ _ _ _ _ _ _ _ _ (mkHsys ex_d4 ex_s2 (HIdle 1) [(0, true)]) 0 true []); [by vm_compute|done|]. apply after_runs. by vm_compute.
  - by vm_compute.
Qed.

Lemma ex_dreachable :
  dreachable ex_env id 0 ex_sha1 nextRand (ex_ip 9) ex_join ex_io [] ∅ True ex_cfg ex_info (bs "http://t/a") ex_ib ex_owner.
Proof.
  exists ex_d0, ex_s0. split_and!; [apply after_runs; by vm_compute| |exact ex_downloads]. intros _.
  destruct (newPieces (B := gset Z) (info_params (mi_Info (t_data ex_d0))) nextRand) as [p|] eqn:E; [|by vm_compute in E].
  exists p, false. split; [done|]. vm_compute in E. injection E as <-. by vm_compute.
Qed.

Lemma ex_info_good : info_good ex_join ex_io [] ∅ ex_info.
Proof.
  split; [constructor; vm_compute; congruence|]. split; [reflexivity|].
  constructor; [apply Forall_singleton; cbn; lia|apply NoDup_singleton|apply Forall_singleton; reflexivity].
Qed.

Lemma owned_pieces_intact_witness :
  exists data, lenZ data = 2 /\ PieceHash ex_info 0 = Some (ex_sha1 data) /\ ReadBlock ex_join ex_s2 2 0 = Some (data, None).
Proof.
  destruct (owned_pieces_intact ex_env id 0 ex_sha1 nextRand (ex_ip 9) ex_join ex_io [] ∅ True ex_cfg ex_info (bs "http://t/a") ex_ib ex_setup
    ex_owner 0 ex_dreachable ltac:(vm_compute; reflexivity) ltac:(vm_compute; reflexivity)) as [Hd Hi].
  assert (E : mi_Info (t_data (h_t ex_owner)) = ex_info) by exact Hd. rewrite E in Hi.
  destruct (Hi ex_info_good) as (len & data & Hl & Hlen & Hh & _ & Hr). assert (len = 2) as -> by (vm_compute in Hl; congruence).
  exists data. split; [exact Hlen|]. split; [exact Hh|]. specialize (Hr 0 2 ltac:(lia) ltac:(lia) ltac:(lia)).
  change (0 * PieceLen ex_info + 0) with 0 in Hr. change (h_store ex_owner) with ex_s2 in Hr. rewrite Hr. f_equal. f_equal.
  rewrite drop_0. apply take_ge. lia.
Defined.
