(* ===== verification/CommandExamples.v ===== *)
(** * A run of the command line

    main is called with a torrent file whose data is complete on the disk: it makes a client, adds
    the torrent, starts it, hears that everything is there, and leaves an hour later. *)
From S2P Require Import Prelude Strconv Bitfield GoValue BenDecode BenEncode BenTotal Wire Metainfo Bitmap Piece Pieces Storage StorageSafe.
From S2P Require Import Metadata ConnInfo Swarm SwarmInv Torrent TorrentInv TorrentSafe Frames Hasher Download Net Client Command.
From S2P Require Import Examples SwarmExamples DownloadExamples.
From stdpp Require Import list gmap sorting.
#[local] Open Scope Z_scope.

Definition ex_dir : bytes := bs "/tmp/".
Definition ex_disk : fsys := {[ bs "/tmp/f" := bs "abcde" ]}.
Abbreviation ex_mstep := (mstep (B := gset Z) (S := nextF) ex_env id 0 ex_sha1 nextRand (ex_ip 9) ex_join ex_io ex_dir ex_disk).
Abbreviation ex_opens := (openFiles ex_sha1 ex_join ex_dir ex_disk).

(** The command line and the world around it. *)
Definition ex_text : bytes := match CreateTorrentFile ex_meta with Ok s => s | _ => [] end.
Definition ex_read (name : bytes) : option bytes := if bool_decide (name = bs "x.torrent") then Some ex_text else None.
Definition ex_mworld : world_ := mkWorld_ (Some ex_dir) (replicate 12 (z2b 1)) true (fun p => p =? 6881) None true.
Definition ex_begin : result reason ex_torrent :=
  main_begin (B := gset Z) ex_env id 0 ex_sha1 nextRand (ex_ip 9) ex_join ex_dir ex_disk (fun _ => None) (fun _ => None) ex_read ex_mworld 6881
    (bs "x.torrent") [].
Definition ex_added : ex_torrent := match ex_begin with Ok t => t | _ => ex_new end.
Definition ex_c0 : ex_torrent := after (tryAnnounceAll ex_env 0) ex_added.
Definition ex_call : ex_torrent := match start_call ex_env id 0 ex_c0 with Ok (_, t) => t | _ => ex_c0 end.
Definition ex_full : FileStorage :=
  match OpenFileStorage ex_join ex_sha1 (mi_Info (t_data ex_c0)) ex_dir [1; 1; 1] ex_disk with Some (s, _) => s | None => ex_s0 end.

Definition ex_m0 : msys (gset Z) nextF := mkMsys (mkHsys ex_c0 ex_full (HIdle 0) []) 0 (mkCmd true true None []) MLoop.
Definition ex_m4 : msys (gset Z) nextF :=
  mkMsys (mkHsys ex_call ex_full (HIdle 0) []) hour (mkCmd false false (Some hour) ([got_info_text] ++ [downloaded_text])) MExit.

Lemma ex_begin_Ok : ex_begin = Ok ex_added.
Proof. unfold ex_added. destruct ex_begin as [t|r|] eqn:E; [done|by vm_compute in E..]. Qed.

Lemma ex_m_start :
  m_start (B := gset Z) ex_env id 0 ex_sha1 nextRand (ex_ip 9) ex_join ex_dir ex_disk (fun _ => None) (fun _ => None) ex_read ex_mworld 6881
    (bs "x.torrent") [] ex_m0.
Proof.
  exists ex_added, ex_c0, ex_full, 0. split_and!; [done|exact ex_begin_Ok|apply after_runs; by vm_compute| |done]. intros _.
  destruct (newPieces (B := gset Z) (info_params (mi_Info (t_data ex_c0))) nextRand) as [p|] eqn:E; [|by vm_compute in E].
  exists p, true. split; [done|]. vm_compute in E. injection E as <-. by vm_compute.
Qed.

Lemma ex_usable : usable ex_sha1 (fun _ => None) ex_read (bs "x.torrent") [].
Proof.
  intros src mi info Hs Hm Hi. right. injection Hs as <-.
  destruct (main_parse ex_sha1 (fun _ => None) ex_read (FromFile (bs "x.torrent"))) as [[mi'|]| |] eqn:E; [|by vm_compute in E..].
  injection Hm as <-. vm_compute in E. injection E as <-. vm_compute in Hi. injection Hi as <-.
  split; [by eexists|]. constructor; vm_compute; intuition discriminate.
Qed.

Lemma ex_main : rtc ex_mstep ex_m0 ex_m4.
Proof.
  eapply rtc_l; [apply (ms_info _ _ _ _ _ _ _ _ _ _ (mkHsys ex_c0 ex_full (HIdle 0) []) 0 true None [] None ex_call); by vm_compute|].
  eapply rtc_l; [apply ms_download; by vm_compute|].
  eapply rtc_l; [apply (ms_time _ _ _ _ _ _ _ _ _ _ _ _ hour); by vm_compute|].
  eapply rtc_l; [apply ms_seed; done|apply rtc_refl].
Qed.

