(* ===== verification/ConnExamples.v ===== *)
(** * Concrete instances for the connection

    Connections of a torrent of seven bytes: the states at which the theorems on the
    connection apply, and runs in which a peer, or the order of events, defeats it. *)
From S2P Require Import Prelude Strconv Bitfield GoValue BenDecode BenEncode BenTotal Wire Metainfo Bitmap Piece Pieces Storage.
From S2P Require Import Metadata ConnInfo Swarm SwarmInv Torrent TorrentInv TorrentSafe Conn ConnInv ConnSteps ConnFlags ConnUpload ConnServe Reader.
From S2P Require Import Examples SwarmExamples.
From stdpp Require Import list gmap sorting.
#[local] Open Scope Z_scope.

Definition ex_cenv : CEnv (B := gset Z) := mkCEnv (fun _ _ _ => 0) (fun _ => false) (fun _ l => l) (fun _ l => l).

#[export] Instance ex_cenv_laws : CEnvLaws ex_cenv.
Proof. by constructor. Qed.

Abbreviation ex_world := (world (B := gset Z) (S := nextF)).
Abbreviation ex_cturn := (mainLoop_turn_c (B := gset Z) (S := nextF) ex_cenv ex_join ex_io).

(** Seven bytes in two pieces of four bytes; both pieces are missing. *)
Definition ex_info7 : InfoDict :=
  mkInfo None 7 None (bs "f") 4 (Some (ex_sha1 (bs "abcd") ++ ex_sha1 (bs "efg"))) 0 (replicate 20 Byte.x00).
Definition ex_storage7 : FileStorage := mkStorage [] ex_info7 [mkSpiece 2 ∅ false; mkSpiece 2 ∅ false] ∅.

Definition ex_bits : Reserved := replicate 5 Byte.x00 ++ [z2b 16; Byte.x00; Byte.x00].
Definition ex_shared : shared (B := gset Z) (S := nextF) := mkShared ex_t (Some ex_p) (mkUts ∅ 0) (Some ex_storage7) 250 ex_bits.
Definition ex_conn : conn (B := gset Z) := newConn (ex_ip 1) ex_bits.
Definition ex_begin (c : conn) (sh : shared) (sched : list sel) : ex_world := mkWorld c sh [] [] false sched [] 0.

(** Interested in the two pieces of a peer that is choking us. *)
Definition ex_waiting : conn (B := gset Z) :=
  with_bfs ex_peer ∅ (with_cstate (set_amInterested true) (with_haveInfo ex_conn)).

Abbreviation anything := (fun _ : FileStorage => True).

Lemma ex_fits : fits ex_t ex_p.
Proof.
  unfold ex_p. destruct (newPieces ex_t nextRand) as [p|] eqn:E; [|by vm_compute in E].
  exact (newPieces_fits ex_t ex_params nextRand p E).
Qed.

Lemma ex_shared_ok : shared_ok ex_t anything ex_shared.
Proof.
  constructor; try done.
  - intros p [= <-]. apply ex_p_ok.
  - intros p [= <-]. apply ex_fits.
  - by intros st [= <-].
Qed.

Definition ex_unchoke : Msg := simple_msg Unchoke.
Definition ex_sched : list (sel (B := gset Z) (S := nextF)) :=
  [SKeepAlive; SOther id; SRead (mkMsg RequestK 0 0 2 [] [] 0 0 ExtNil); SCmd (CWire (simple_msg Unchoke)); SSend].

Definition ended (o : outcome (B := gset Z) (S := nextF) bool) (w : ex_world) : ex_world :=
  match o with COk _ w' => w' | _ => w end.

(** A new connection learns of the info dictionary, gets the bit field of the peer and is
    told to be interested; then it waits with the schedule above. *)
Abbreviation ex_creach := (c_reach (B := gset Z) (S := nextF) ex_cenv ex_join ex_io ex_t anything).
Definition ex_r0 : ex_world := ex_begin ex_conn ex_shared [].
Definition ex_r1 : ex_world := ended (ex_cturn (InCmd CHaveInfo) ex_r0) ex_r0.
Definition ex_bf : Msg := mkMsg BitfieldK 0 0 0 [z2b 192] [] 0 0 ExtNil.
Definition ex_r2 : ex_world := ended (ex_cturn (InPeer ex_bf) ex_r1) ex_r1.
Definition ex_r3 : ex_world := ended (ex_cturn (InCmd (CWire (simple_msg Interested))) ex_r2) ex_r2.
Definition with_sched (l : list sel) (w : ex_world) : ex_world :=
  mkWorld (w_conn w) (w_shared w) (w_sent w) (w_wire w) (w_buffered w) l (w_writes w) (w_tick w).
Definition ex_ready : ex_world := with_sched ex_sched ex_r3.

Lemma ex_turned inp w :
  ex_creach w -> cinput_ok ex_t w inp ->
  match ex_cturn inp w with COk b _ => b | _ => false end = true -> ex_creach (ended (ex_cturn inp w) w).
Proof.
  intros Hw Hin. destruct (ex_cturn inp w) as [[] w'|e w'| | | |] eqn:E; try discriminate. intros _. by apply (cr_turn _ _ _ _ _ inp w w').
Qed.

Lemma ex_r3_reach : ex_creach ex_r3.
Proof.
  apply (ex_turned (InCmd (CWire (simple_msg Interested)))); [|left; set_solver|by vm_compute].
  apply (ex_turned (InPeer ex_bf)); [| |by vm_compute].
  2:{ split_and!; try discriminate. intros _ l Hl. vm_compute in Hl. injection Hl as <-. repeat constructor; lia. }
  apply (ex_turned (InCmd CHaveInfo)); [|done|by vm_compute]. eapply cr_new; [done|done|apply ex_shared_ok|done|done|done].
Qed.

Lemma ex_ready_reach : ex_creach ex_ready.
Proof.
  apply (cr_other _ _ _ _ _ ex_r3); [apply ex_r3_reach| |done|done|done|].
  { apply later_refl, (ci_shared _ _ _ _ (cinv_reach _ _ _ _ ex_params ltac:(reflexivity) _ _ ex_r3_reach)). }
  cbn. split; [intros sh Hs; by apply later_refl|]. right. split; [intros _; split_and!; cbn; lia|]. split; [left; set_solver|done].
Qed.

Lemma ex_unchoke_ok : cinput_ok ex_t ex_ready (InPeer ex_unchoke).
Proof. split_and!; intros Hk; discriminate Hk. Qed.


Lemma conn_invariant_witness : Z.of_nat (base.size (c_onFlightReqs (w_conn ex_ready))) <= maxOnFlight.
Proof. apply (conn_invariant ex_cenv ex_join ex_io ex_t ex_params ltac:(reflexivity) anything ex_ready ex_ready_reach). Defined.

(** The same turn, evaluated: the keep-alive goes out first, then the requests for the
    four blocks of the two pieces. *)
Example ex_turn_requests :
  match ex_cturn (InPeer ex_unchoke) ex_ready with
  | COk true w' => (Kind <$> w_wire w') = [Interested; KeepAlive; Unchoke; RequestK; RequestK; RequestK; RequestK] /\
      base.size (c_onFlightReqs (w_conn w')) = 4%nat /\ base.size (c_peerReqs (w_conn w')) = 1%nat /\
      last (w_sent w') = Some (TWire ex_unchoke)
  | _ => False
  end.
Proof. by vm_compute. Qed.

(** The torrent tells its connections of the info dictionary before it opens its storage. A block
    that the peer sends in between, here the one that we have just asked for, is written through a
    nil storage. *)
Definition ex_early : shared (B := gset Z) (S := nextF) := mkShared ex_t (Some ex_p) (mkUts ∅ 0) None 250 ex_bits.
Definition ex_early_runs : outcome (B := gset Z) (S := nextF) bool :=
  (ex_cturn (InCmd CHaveInfo);; ex_cturn (InPeer ex_bf);; ex_cturn (InCmd (CWire (simple_msg Interested)));;
   ex_cturn (InPeer ex_unchoke);; ex_cturn (InPeer (mkMsg Wire.Piece 0 0 0 [] (bs "ab") 0 0 ExtNil))) (ex_begin ex_conn ex_early []).

Theorem block_before_storage : shared_ok ex_t anything ex_early /\ ex_early_runs = CNil.
Proof.
  split; [|by vm_compute]. constructor; try done.
  - intros p [= <-]. apply ex_p_ok.
  - intros p [= <-]. apply ex_fits.
Qed.

(** ** Both ends *)

Definition ex_w0 : ex_world := ex_begin ex_conn ex_shared [SCmd (CWire (simple_msg Unchoke)); SSend].
Definition ex_w1 : ex_world := ended (ex_cturn (InCmd CHaveInfo) ex_w0) ex_w0.
Definition ex_w2 : ex_world := ended (ex_cturn (InPeer (simple_msg Interested)) ex_w1) ex_w1.

(** The second command is taken while the first message of the peer is handed on. *)
Lemma ends_agree_witness :
  exists ci, t_infos ex_t3 !! 1 = Some ci /\
    amInterested (c_state (w_conn ex_w2)) = amInterested (ci_state ci) /\
    amChoking (c_state (w_conn ex_w2)) = amChoking (ci_state ci).
Proof.
  destruct (t_infos ex_t3 !! 1) as [ci|] eqn:E; [|by vm_compute in E]. exists ci. split; [reflexivity|].
  apply (ends_agree ex_env id 0 ex_sha1 (fun _ _ => false) nextRand (ex_ip 9) ex_cenv ex_join ex_io
    ex_cfg ex_info (bs "http://t/a") ex_ib ex_t3 1 ci ex_w2 ex_setup (ex_reaches _ ex_steps)).
  - apply (bool_decide_unpack _). by vm_compute.
  - exact E.
  - replace (ci_sent ci) with
      (([] ++ input_cmds (InCmd CHaveInfo) ++ taken ex_w0 ex_w1) ++ input_cmds (InPeer (simple_msg Interested)) ++ taken ex_w1 ex_w2).
    + apply cp_turn; [apply cp_turn|by vm_compute]; [by apply (cp_new _ _ _ _ (ex_ip 1) ex_bits)|by vm_compute].
    + vm_compute in E. injection E as <-. by vm_compute.
Defined.

(** ** Uploads *)

(** The first piece is there and verified, and the peer has asked for its first block. *)
Definition ex_seeded : FileStorage := mkStorage [] ex_info7 [mkSpiece 2 ∅ true; mkSpiece 2 ∅ false] {[ bs "f" := bs "abcdefg" ]}.
Definition ex_uploading : ex_world :=
  ex_begin (with_reqs {[ mkBlock 0 0 2 ]} ∅ (with_bfs ∅ {[ 0 ]} (with_cstate (fun _ => mkConnState false false true true) (with_haveInfo ex_conn))))
    (mkShared ex_t (Some ex_p) (mkUts ∅ 0) (Some ex_seeded) 250 ex_bits) [].
Definition ex_request : Msg := mkMsg RequestK 0 0 2 [] [] 0 0 ExtNil.
Definition ex_uploaded : ex_world := ended (ex_cturn (InPeer ex_request) ex_uploading) ex_uploading.

Example ex_upload :
  w_wire ex_uploaded = [mkMsg Wire.Piece 0 0 0 [] (bs "ab") 0 0 ExtNil] /\ w_sent ex_uploaded = [TUploadedBlock (mkBlock 0 0 2)].
Proof. by vm_compute. Qed.

Lemma uploads_verified_witness :
  exists l, w_wire ex_uploaded = w_wire ex_uploading ++ l /\
    forall m, m ∈ l -> Kind m = Wire.Piece -> exists req, req ∈ c_peerReqs (w_conn ex_uploading) /\ answers ex_join req m ex_seeded.
Proof.
  destruct (uploads_verified ex_cenv ex_join ex_io (InPeer ex_request) true ex_uploading ex_uploaded) as (l & pre & post & El & Ep & Hl); [by vm_compute|].
  exists l. split; [exact El|]. intros m Hm Hk. destruct (Hl m Hm Hk) as (req & before & after & fl & st & i & piece & Hreq & Eb & Hr & _ & Ha & _).
  exists req. split; [exact Hreq|]. symmetry in Ep. apply app_eq_nil in Ep as [-> _]. symmetry in Eb. apply app_eq_nil in Eb as [-> _].
  inversion Hr; subst; [exact Ha|discriminate].
Defined.

(** A whole run over the seeded torrent: the connection learns of the info dictionary and of our
    pieces, the peer is interested, is unchoked and asks for the last two bytes. *)
Definition ex_opened7 : option (FileStorage * bool) := OpenFileStorage ex_join ex_sha1 ex_info7 [] [1; 1] {[ bs "f" := bs "abcdefg" ]}.
Definition ex_store7 : FileStorage := match ex_opened7 with Some (st, _) => st | None => ex_storage7 end.
Definition ex_pieces7 : pieces (gset Z) nextF := default ex_p (newPieces (info_params ex_info7) nextRand).
Definition ex_shared7 : shared (B := gset Z) (S := nextF) :=
  mkShared (info_params ex_info7) (Some ex_pieces7) (mkUts ∅ 0) (Some ex_store7) 250 ex_bits.
Definition ex_tail : Msg := mkMsg RequestK 1 1 2 [] [] 0 0 ExtNil.
Definition ex_q0 : ex_world := ex_begin ex_conn ex_shared7 [].
Definition ex_q1 : ex_world := ended (ex_cturn (InCmd CHaveInfo) ex_q0) ex_q0.
Definition ex_q2 : ex_world := ended (ex_cturn (InCmd (CBitmap {[ 0; 1 ]})) ex_q1) ex_q1.
Definition ex_q3 : ex_world := ended (ex_cturn (InPeer (simple_msg Interested)) ex_q2) ex_q2.
Definition ex_q4 : ex_world := ended (ex_cturn (InCmd (CWire (simple_msg Unchoke))) ex_q3) ex_q3.
Definition ex_q5 : ex_world := ended (readPeerMsg ex_tail ex_q4) ex_q4.
Definition ex_q6 : ex_world := ended (ex_cturn (InPeer ex_tail) ex_q5) ex_q5.

Abbreviation ex_used := (in_use ex_join ex_io ex_sha1 ex_store7).
Abbreviation ex_qreach := (c_reach (B := gset Z) (S := nextF) ex_cenv ex_join ex_io (info_params ex_info7) ex_used).

Lemma ex_params7 : params_ok (info_params ex_info7).
Proof. constructor; vm_compute; intuition discriminate. Qed.

Lemma ex_shared7_ok : shared_ok (info_params ex_info7) ex_used ex_shared7.
Proof.
  assert (E : newPieces (info_params ex_info7) nextRand = Some ex_pieces7).
  { unfold ex_pieces7. by destruct (newPieces (info_params ex_info7) nextRand) eqn:E; [|vm_compute in E]. }
  constructor; try done.
  - intros p [= <-]. destruct (newPieces_ok _ nextRand ex_params7) as (p & E' & Hp & _). rewrite E in E'. by injection E' as <-.
  - intros p [= <-]. exact (newPieces_fits _ ex_params7 _ _ E).
  - intros st [= <-]. split; by vm_compute.
  - intros st [= <-]. apply rtc_refl.
Qed.

Lemma ex_qturned inp w :
  ex_qreach w -> cinput_ok (info_params ex_info7) w inp ->
  match ex_cturn inp w with COk b _ => b | _ => false end = true -> ex_qreach (ended (ex_cturn inp w) w).
Proof.
  intros Hw Hin. destruct (ex_cturn inp w) as [[] w'|e w'| | | |] eqn:E; try discriminate. intros _. by apply (cr_turn _ _ _ _ _ inp w w').
Qed.

Lemma ended_read m w : match readPeerMsg m w with COk b _ => b | _ => false end = true -> readPeerMsg m w = COk true (ended (readPeerMsg m w) w).
Proof. by destruct (readPeerMsg m w) as [[] w'|e w'| | | |]. Qed.

Lemma ex_q6_reach : ex_qreach ex_q6.
Proof.
  apply (ex_qturned (InPeer ex_tail)); [|by split_and!|by vm_compute].
  assert (Hr : ex_qreach ex_q4).
  { apply (ex_qturned (InCmd (CWire (simple_msg Unchoke)))); [|left; set_solver|by vm_compute].
    apply (ex_qturned (InPeer (simple_msg Interested))); [|by split_and!|by vm_compute].
    apply (ex_qturned (InCmd (CBitmap {[ 0; 1 ]}))); [| |by vm_compute].
    - apply (ex_qturned (InCmd CHaveInfo)); [|done|by vm_compute]. eapply cr_new; [done|done|apply ex_shared7_ok|done|done|done].
    - split; [by vm_compute|]. intros i Hi. apply bool_decide_eq_true in Hi. change (t_numPieces (info_params ex_info7)) with 2. set_solver by lia. }
  eapply (cr_read _ _ _ _ _ ex_tail true ex_q4); [exact Hr|intros _; split_and!; vm_compute; congruence|].
  apply ended_read. by vm_compute.
Qed.

Lemma uploads_intact_witness :
  exists data, lenZ data = 3 /\ PieceHash ex_info7 1 = Some (ex_sha1 data) /\ bs "fg" = take 2 (drop 1 data).
Proof.
  assert (Hm : pieces_match ex_info7) by (constructor; vm_compute; congruence).
  assert (E : ex_opened7 = Some (ex_store7, true)) by (vm_compute; reflexivity).
  destruct (uploads_intact ex_cenv ex_join ex_io ex_sha1 ex_info7 Hm eq_refl ex_params7 ltac:(vm_compute; reflexivity) [] [1; 1]
    {[ bs "f" := bs "abcdefg" ]} ex_store7 true ex_q6 (mkMsg Wire.Piece 1 1 0 [] (bs "fg") 0 0 ExtNil)) as (len & data & Hl & Hlen & Hh & _ & _ & Hd).
  - constructor; [apply Forall_singleton; cbn; lia|apply NoDup_singleton|apply Forall_singleton; reflexivity].
  - exact E.
  - exact ex_q6_reach.
  - apply (list_elem_of_lookup_2 _ 2%nat). vm_compute. reflexivity.
  - reflexivity.
  - discriminate.
  - exists data. assert (len = 3) as -> by (vm_compute in Hl; congruence). split; [exact Hlen|]. split; [exact Hh|exact Hd].
Defined.

(** ** Order of messages *)

Definition ex_busy : conn (B := gset Z) :=
  with_reqs ∅ {[ mkBlock 0 0 2 ]} (with_cstate (set_isChoking false) ex_waiting).

(** A connection that is told to lose interest first gives its requests back, and takes
    further commands while it waits for the torrent. When it is told to be interested again meanwhile,
    the two messages go out in the wrong order: the connection is interested and the last
    thing it said to the peer is that it is not. *)
Theorem notInterested_reordered :
  match ex_cturn (InCmd (CWire (simple_msg NotInterested)))
          (ex_begin ex_busy ex_shared [SCmd (CWire (simple_msg Interested)); SSend]) with
  | COk true w' => amInterested (c_state (w_conn w')) = true /\ last (Kind <$> w_wire w') = Some NotInterested
  | _ => False
  end.
Proof. by vm_compute. Qed.

(** ** Messages that crash the program *)

Definition ex_noinfo : shared (B := gset Z) (S := nextF) := mkShared ex_t None (mkUts ∅ 0) None 250 ex_bits.

(** The frame of a payload, and the turn of a connection that gets it. *)
Definition frame (payload : bytes) : bytes := be_enc 4 (lenZ payload) ++ payload.
Definition receive (payload : bytes) (w : ex_world) : option (outcome (B := gset Z) (S := nextF) bool) :=
  match Wire.Decode (frame payload) with
  | Ok (m, _) => Some (ex_cturn (InPeer m) w)
  | _ => None
  end.
Definition fresh_conn : ex_world := ex_begin ex_conn ex_noinfo [].
Definition ext_frame (id : byte) (text : bytes) : bytes := [z2b Extended; id] ++ text.

(** Four things that a peer may send, byte by byte, after which the program panics: a have
    of a piece that the torrent does not have; a bit field with a spare bit set; an extension
    handshake with a size of the info dictionary above the limit, which is noted although
    it is refused, followed by any occasion to request metadata; a metadata piece of an
    info dictionary of size 0, before any size was given. *)
Theorem peer_crashes :
  receive (z2b Have :: be_enc 4 5) (ex_begin ex_waiting ex_shared []) = Some CPanic /\
  receive [z2b BitfieldK; Byte.xff] (ex_begin (with_haveInfo ex_conn) ex_shared []) = Some CPanic /\
  match receive (ext_frame Byte.x00 (bs "d1:md11:ut_metadatai1ee13:metadata_sizei20000000ee")) fresh_conn with
  | Some (COk true w) => c_ban (w_conn w) = true /\ ex_cturn (InCmd CRequestsAvailable) w = CPanic
  | _ => False
  end /\
  match receive (ext_frame Byte.x00 (bs "d1:md11:ut_metadatai1eee")) fresh_conn with
  | Some (COk true w) => receive (ext_frame Byte.x01 (bs "d8:msg_typei1e5:piecei0e10:total_sizei0eex")) w = Some CPanic
  | _ => False
  end.
Proof. by vm_compute. Qed.

(** ** The reader *)

(** A request twice, its cancel, and another message. *)
Definition ex_stream : list Msg := [ex_request; ex_request; mkMsg Wire.Cancel 0 0 2 [] [] 0 0 ExtNil; simple_msg Interested].

Lemma reader_delivers_witness :
  exists ss w', mapM Encode ex_stream = Some ss /\
    readPeerMsgs (fun _ w => w) (S (length (concat ss))) 0 (concat ss) ex_r0 = ([ex_request; simple_msg Interested], RErr WEOF, w').
Proof.
  destruct (reader_delivers (B := gset Z) (S := nextF) (fun _ w => w) ltac:(by intros k w)) as [_ H].
  destruct (H ex_stream ex_r0) as (ss & l & w' & E & Er & _).
  - vm_compute. discriminate.
  - assert (Hr : forall k, k = RequestK \/ k = Wire.Cancel -> wf_msg (mkMsg k 0 0 2 [] [] 0 0 ExtNil)).
    { intros k Hk. apply wf_request; [exact Hk|..]; split; vm_compute; (discriminate || reflexivity). }
    constructor; [exact (Hr _ (or_introl eq_refl))|]. constructor; [exact (Hr _ (or_introl eq_refl))|].
    constructor; [exact (Hr _ (or_intror eq_refl))|]. constructor; [apply wf_simple; right; right; left|]. constructor.
  - exists ss, w'. split; [exact E|]. rewrite Er. vm_compute in E. injection E as <-. vm_compute in Er. injection Er as <- <-. reflexivity.
Defined.
