(* ===== verification/TrackerExamples.v ===== *)
(** * Concrete instances for the trackers

    A server with one torrent, and a network that follows a script. *)
From S2P Require Import Prelude Strconv GoValue BenDecode BenEncode BenTotal Metainfo ConnInfo Tracker TrackerInv HttpTracker Trackers.
From stdpp Require Import list gmap.
#[local] Open Scope Z_scope.

Definition ex_hash : bytes := replicate 20 "h"%byte.
Definition ex_req : AnnounceReq := mkAnnounceReq ex_hash (replicate 20 "p"%byte) 10 20 30 Started 0 0 200 6881.
Definition ex_stored : storrent := mkSTorrent (mkScrapeInfo 3 4 5) [mkPortIP 167772161 6881; mkPortIP (-1) (-1)].
Definition ex_server : server := mkServer ∅ {[ ex_hash := ex_stored ]}.
Definition ex_local : local := mkLocal ex_server [] 0 (fun k => Z.of_nat k mod 2 ^ 31) (fun k => Z.of_nat k mod 2 ^ 63) 0.

Lemma ex_friends : friends newUDP ex_local.
Proof.
  constructor; try done.
  - intros k. apply Z.mod_pos_bound. lia.
  - intros k. apply Z.mod_pos_bound. lia.
Qed.

Lemma ex_info_ok : info_ok (st_stats ex_stored).
Proof. by vm_compute. Qed.

Lemma udp_returns_witness : came_back (udp_announce ex_req (newUDP, ex_local)).
Proof. apply (udp_returns newUDP ex_local ex_req []). done. Defined.

Lemma announce_served_witness :
  exists t' n', udp_announce ex_req (newUDP, ex_local) =
    (Ok (mkAnnounceResp 900 5 3 [mkTPeer None [z2b 10; z2b 0; z2b 0; z2b 1] 6881; mkTPeer None [z2b 255; z2b 255; z2b 255; z2b 255] 65535] 0),
     (t', n')).
Proof.
  destruct (announce_served newUDP ex_local ex_req ex_stored ex_friends ltac:(by split) ltac:(by vm_compute) ex_info_ok) as (t' & n' & E).
  exists t', n'. exact E.
Defined.

Lemma scrape_served_witness :
  exists t' n', udp_scrape [ex_hash] (newUDP, ex_local) = (Ok [(ex_hash, mkTorrentInfo 3 4 5 [])], (t', n')).
Proof.
  destruct (scrape_served newUDP ex_local [ex_hash] [ex_stored] ex_friends) as (t' & n' & E).
  - by repeat constructor.
  - cbn. lia.
  - by vm_compute.
  - repeat constructor; by vm_compute.
  - exists t', n'. exact E.
Defined.

(** ** A script *)

Record script := mkScript { sc_now : list Z; sc_replies : list reply; sc_sent : list bytes }.
#[global] Instance script_Network : Network script := {|
  net_now s := (default 0 (head (sc_now s)), mkScript (tail (sc_now s)) (sc_replies s) (sc_sent s));
  net_Int31 s := (7, s);
  net_dial s := (true, s);
  net_write b s := (true, mkScript (sc_now s) (sc_replies s) (sc_sent s ++ [b]));
  net_read _ s := (default RTimeout (head (sc_replies s)), mkScript (sc_now s) (tail (sc_replies s)) (sc_sent s));
|}.

(** The tracker answers the connection request with the id 1; the announce is lost, a minute
    goes by, and the tracker gives the id 2. *)
Definition ex_slow : script :=
  mkScript [0; 0; 70 * Second; 70 * Second]
    [ RPacket (w_respHeader (mkRespHeader actionConnect 7) ++ be_enc 8 1); RTimeout;
      RPacket (w_respHeader (mkRespHeader actionConnect 7) ++ be_enc 8 2);
      RPacket (w_respHeader (mkRespHeader actionAnnounce 7) ++ w_fixed (mkFixed 900 1 1)) ] [].

(** A request that is sent again after the connection id has expired still has the old id. *)
Theorem stale_connection_id :
  let '(r, (t, n)) := udp_announce ex_req (newUDP, ex_slow) in
  is_ok r = true /\ u_connID t = 2 /\ (take 8 <$> last (sc_sent n)) = Some (be_enc 8 1).
Proof. by vm_compute. Qed.

(** ** HTTP *)

Definition ex_compact : bytes := bs "d8:intervali1800e5:peers6:abcdefe".

Example ex_compact_peers :
  announceResp <$> announce_body (fun _ => None) (fun _ => None) ex_compact =
  Ok (mkAnnounceResp 1800 0 0 [mkTPeer None (bs "abcd") 25958] 0).
Proof. by vm_compute. Qed.

(** A web in which every URL is its own text and every request gets the same body. *)
Definition ex_web (scheme body : bytes) : Web bytes local :=
  mkWeb _ _ Some (fun _ => scheme) id (fun q u => u ++ bs "?" ++ q) id (fun _ => true) (fun _ n => (Some (Some body), n)).

Example ex_http_announce :
  NewTrackerURL (ex_web (bs "http") ex_compact) (bs "http://t/announce") = Ok (HTTPTracker (bs "http://t/announce") None) /\
  (Announce (ex_web (bs "http") ex_compact) (fun _ => None) (fun _ => None) ex_req (HTTPTracker (bs "http://t/announce") None) ex_local).1 =
  Ok (mkAnnounceResp 1800 0 0 [mkTPeer None (bs "abcd") 25958] 0).
Proof. by vm_compute. Qed.

Lemma trackers_return_witness :
  is_Some (tcalls (ex_web (bs "udp") []) (fun _ => None) (fun _ => None) [CAnnounce ex_req; CScrape []]
    (UDPTracker (bs "t") (bs "t:80") newUDP) ex_local).
Proof.
  apply (trackers_return (ex_web (bs "udp") []) (fun _ => None) (fun _ => None) ltac:(discriminate) (bs "t") ex_local [CAnnounce ex_req; CScrape []]).
  vm_compute. reflexivity.
Defined.
