(* ===== verification/AnnouncerExamples.v ===== *)
(** * Concrete instances for the announcer

    The torrent of [SwarmExamples] with a tracker, from an empty client to its first announce,
    and to a torrent that is closed while the tracker is asked. *)
From S2P Require Import Prelude Strconv Bitfield GoValue BenDecode BenEncode BenTotal Wire Metainfo Bitmap Piece Pieces.
From S2P Require Import Metadata ConnInfo Swarm SwarmInv Torrent TorrentInv TorrentSafe Frames Tracker Announcer Examples SwarmExamples.
From stdpp Require Import list gmap sorting.
#[local] Open Scope Z_scope.

Definition an_cfg : config := mkConfig 55 20 50 false true true false (replicate 8 Byte.x00) 6881.
Definition an_new : ex_torrent := newTorrent an_cfg ex_info (bs "http://t/a") ex_ib.
Definition an_t0 : ex_torrent := after ex_start an_new.
Definition an_t1 : ex_torrent := after (ex_turn InStartDataTransfer) an_t0.
Definition an_t2 : ex_torrent := after (ex_turn InClose) an_t1.

(** A tracker that knows one peer. *)
Definition an_response : response := Some (1800, [mkPeer None (ex_ip 7) 6881 SourceTracker]).
Definition an_Announce (_ : AnnounceReq) (u : unit) : response * unit := (an_response, u).

Abbreviation an_step_of :=
  (step_of (B := gset Z) (S := nextF) ex_env id 0 ex_sha1 (fun _ _ => false) nextRand (ex_ip 9) (T := unit) (fun _ => Some tt) an_Announce
     (replicate 20 Byte.x00) 6881).
Abbreviation an_step :=
  (astep (B := gset Z) (S := nextF) ex_env id 0 ex_sha1 (fun _ _ => false) nextRand (ex_ip 9) (T := unit) (fun _ => Some tt) an_Announce
     (replicate 20 Byte.x00) 6881).
Abbreviation an_cstep :=
  (cstep (B := gset Z) (S := nextF) ex_env id 0 ex_sha1 (fun _ _ => false) nextRand (ex_ip 9) (T := unit) (fun _ => Some tt) an_Announce
     (replicate 20 Byte.x00) 6881).
Abbreviation an_sys := (asys (gset Z) nextF unit).

Definition an_stats : Stats := stats (t_data an_t0).
Definition an_asked : response * gmap bytes (trackerURL unit) :=
  answer (B := gset Z) (S := nextF) (fun _ => Some tt) an_Announce (replicate 20 Byte.x00) 6881 (mkAnnouncement 0 EvNone an_stats) an_t1 ∅.

(** Added; started; submitted; the tracker has been asked; closed. *)
Definition an_side (t : ex_torrent) (flag : bool) (main : list (tracker_event * Stats)) : tside (gset Z) nextF :=
  mkSide t flag main [] None false.
Definition an_w1 : an_sys := mkAsys {[ 0%nat := an_side an_t0 true [] ]} [] AIdle ∅ false.
Definition an_w2 : an_sys := mkAsys {[ 0%nat := an_side an_t1 true [(EvNone, an_stats)] ]} [] AIdle ∅ false.
Definition an_w3 : an_sys := mkAsys {[ 0%nat := an_side an_t1 false [] ]} [mkAnnouncement 0 EvNone an_stats] AIdle ∅ false.
Definition an_w4 : an_sys := mkAsys (a_sides an_w3) [] (ASend 0 an_asked.1) an_asked.2 false.
Definition an_w5 : an_sys := mkAsys {[ 0%nat := an_side an_t2 false [] ]} [] (ASend 0 an_asked.1) an_asked.2 false.

Lemma an_setup : setup_ok an_cfg ex_info ex_ib.
Proof. split; [reflexivity|]. apply ex_setup. Qed.

Lemma an_w3_reachable : rtc an_cstep a_start an_w3.
Proof.
  eapply rtc_l.
  { apply (as_added _ _ _ _ _ _ _ _ _ _ _ _ a_start 0 an_cfg ex_info (bs "http://t/a") ex_ib an_t0); [done|exact an_setup|by vm_compute]. }
  apply rtc_l with an_w2.
  { apply (as_turn _ _ _ _ _ _ _ _ _ _ _ cleared an_w1 0 (an_side an_t0 true []) InStartDataTransfer an_t1); by vm_compute. }
  apply rtc_l with an_w3; [|apply rtc_refl].
  apply (as_submit _ _ _ _ _ _ _ _ _ _ _ cleared an_w2 0 (an_side an_t1 true [(EvNone, an_stats)]) EvNone an_stats []); by vm_compute.
Qed.


Lemma an_steps w w' : rtc an_cstep w w' -> rtc an_step w w'.
Proof. intros Hw. induction Hw as [|x y z Hxy _ IH]; [apply rtc_refl|]. eapply rtc_l; [by apply cstep_astep|exact IH]. Qed.

Lemma an_w5_reachable : rtc an_step a_start an_w5.
Proof.
  apply rtc_r with an_w4; [apply rtc_r with an_w3; [exact (an_steps _ _ an_w3_reachable)|]|].
  - apply (as_take _ _ _ _ _ _ _ _ _ _ _ _ an_w3 (mkAnnouncement 0 EvNone an_stats) [] (an_side an_t1 false []) an_asked.1 an_asked.2);
      [reflexivity|reflexivity|reflexivity|apply surjective_pairing].
  - apply (as_turn _ _ _ _ _ _ _ _ _ _ _ _ an_w4 0 (an_side an_t1 false []) InClose an_t2); by vm_compute.
Qed.

Lemma announcer_stuck_witness :
  rtc an_step a_start an_w5 /\ a_run (mkAsys (a_sides an_w5) [] (a_run an_w5) an_asked.2 true) = ASend 0 an_asked.1.
Proof.
  split; [exact an_w5_reachable|].
  apply (announcer_stuck ex_env id 0 ex_sha1 (fun _ _ => false) nextRand (ex_ip 9) (fun _ => Some tt) an_Announce
    (replicate 20 Byte.x00) 6881 an_w5 _ 0 an_asked.1 (an_side an_t2 false [])); [reflexivity|reflexivity|vm_compute; reflexivity|].
  apply rtc_once. apply (as_client_closes _ _ _ _ _ _ _ _ _ _ _ _ an_w5).
Defined.

(** ** The announcer and a main loop wait for each other

    Seven dialers end while the main loop waits to submit, and all announce. *)

Definition ci_peers : list Peer := map (fun n => mkPeer None (ex_ip n) 6881 SourceUser) [1; 2; 3; 4; 5; 6; 7].
Definition ci_t1 : ex_torrent := after (ex_turn (InAddPeers ci_peers)) an_t0.
Definition ci_t2 : ex_torrent := after (ex_turn InStartDataTransfer) ci_t1.

Abbreviation ci_side := (tside (gset Z) nextF).
Definition ci_world (d : ci_side) (n : nat) (r : arun) (trackers : gmap bytes (trackerURL unit)) : an_sys :=
  mkAsys {[ 0%nat := d ]} (replicate n (mkAnnouncement 0 EvNone an_stats)) r trackers false.

Definition ci_removeHalfOpen (addr : bytes) : M (gset Z) nextF unit := removeHalfOpen ex_env id 0 addr.
Definition ci_dial (d : ci_side) (p : Peer) : ci_side :=
  let t' := after (ci_removeHalfOpen (peer_String id p)) (in_memory d) in
  let new := new_announces (in_memory d) t' in
  mkSide t' (flag_while (in_memory d) t' new) (sd_main d) (sd_dialers d ++ new) (sd_resp d) (sd_timer d).
Definition ci_submit (d : ci_side) : ci_side := mkSide (sd_t d) false (sd_main d) (tail (sd_dialers d)) (sd_resp d) (sd_timer d).
Definition ci_respond (d : ci_side) (r : response) : ci_side :=
  mkSide (sd_t d) (sd_flag d) (sd_main d) (sd_dialers d) (Some r) (sd_timer d).

Definition ci_ends (d : ci_side) (p : Peer) : bool :=
  negb (sd_closed d) && bool_decide (is_Some (halfOpen (t_dial (sd_t d)) !! peer_String id p)) &&
  match ci_removeHalfOpen (peer_String id p) (in_memory d) with Ok (tt, _) => true | _ => false end.

Lemma ci_dial_step d p n r trackers : ci_ends d p = true -> an_step (ci_world d n r trackers) (ci_world (ci_dial d p) n r trackers).
Proof.
  intros [[Hc%negb_true_iff Ha%bool_decide_eq_true]%andb_true_iff He]%andb_true_iff.
  unfold ci_dial, after. destruct (ci_removeHalfOpen _ _) as [[[] t']| |] eqn:E; [|done..].
  pose proof (as_dialed ex_env id 0 ex_sha1 (fun _ _ => false) nextRand (ex_ip 9) (fun _ => Some tt) an_Announce (replicate 20 Byte.x00) 6881
    (fun _ => True) (ci_world d n r trackers) 0 d (peer_String id p) t' ltac:(done) I Hc Ha E) as Hs.
  unfold with_side, ci_world in Hs. cbn [a_sides a_queue a_run a_trackers a_closed] in Hs. rewrite insert_singleton_eq in Hs. exact Hs.
Qed.

Lemma ci_submit_step d n r trackers :
  head (sd_dialers d) = Some (EvNone, an_stats) -> (n < 5)%nat ->
  an_step (ci_world d n r trackers) (ci_world (ci_submit d) (Datatypes.S n) r trackers).
Proof.
  intros Hd Hn. destruct (sd_dialers d) as [|x rest] eqn:E; [done|]. injection Hd as ->.
  pose proof (as_submit_dialer ex_env id 0 ex_sha1 (fun _ _ => false) nextRand (ex_ip 9) (fun _ => Some tt) an_Announce (replicate 20 Byte.x00) 6881
    (fun _ => True) (ci_world d n r trackers) 0 d [] EvNone an_stats rest ltac:(done) E) as Hs.
  unfold ci_world in Hs. cbn [a_sides a_queue a_run a_trackers a_closed app] in Hs.
  rewrite insert_singleton_eq, <- replicate_S_end in Hs. unfold ci_submit. rewrite E. apply Hs.
  rewrite length_replicate. lia.
Qed.

Definition ci_d0 : ci_side := mkSide ci_t2 true [(EvNone, an_stats)] [] None false.
Definition ci_d7 : ci_side := foldl ci_dial ci_d0 ci_peers.
Definition ci_asked (trackers : gmap bytes (trackerURL unit)) : response * gmap bytes (trackerURL unit) :=
  answer (B := gset Z) (S := nextF) (fun _ => Some tt) an_Announce (replicate 20 Byte.x00) 6881 (mkAnnouncement 0 EvNone an_stats) (sd_t ci_d7) trackers.

Definition ci_d12 : ci_side := Nat.iter 5 ci_submit ci_d7.
Definition ci_r1 := ci_asked ∅.
Definition ci_r2 := ci_asked ci_r1.2.
Definition ci_d13 : ci_side := ci_respond ci_d12 ci_r1.1.
Definition ci_d15 : ci_side := ci_submit (ci_submit ci_d13).

Lemma ci_d0_reachable : rtc an_step a_start (ci_world ci_d0 0 AIdle ∅).
Proof.
  eapply rtc_l.
  { apply (as_added _ _ _ _ _ _ _ _ _ _ _ _ a_start 0 an_cfg ex_info (bs "http://t/a") ex_ib an_t0); [done|exact an_setup|by vm_compute]. }
  apply rtc_l with (mkAsys {[ 0%nat := an_side ci_t1 true [] ]} [] AIdle ∅ false).
  { by apply (as_turn _ _ _ _ _ _ _ _ _ _ _ _ an_w1 0 (an_side an_t0 true []) (InAddPeers ci_peers) ci_t1); vm_compute. }
  apply rtc_once.
  assert (E : ci_world ci_d0 0 AIdle ∅ =
    with_side 0 (let new := new_announces (in_memory (an_side ci_t1 true [])) ci_t2 in
      mkSide ci_t2 (flag_while (in_memory (an_side ci_t1 true [])) ci_t2 new) new [] None false) (ci_world (an_side ci_t1 true []) 0 AIdle ∅))
    by by vm_compute.
  rewrite E. by apply (as_turn _ _ _ _ _ _ _ _ _ _ _ _ (ci_world (an_side ci_t1 true []) 0 AIdle ∅) 0 (an_side ci_t1 true [])
    InStartDataTransfer ci_t2); vm_compute.
Qed.

(** All dialers end. *)
Lemma ci_dials l : forall d, fold_right (fun p k d => ci_ends d p && k (ci_dial d p)) (fun _ => true) l d = true ->
  rtc an_step (ci_world d 0 AIdle ∅) (ci_world (foldl ci_dial d l) 0 AIdle ∅).
Proof.
  induction l as [|p l IH]; intros d Hl; [apply rtc_refl|]. cbn in Hl. apply andb_true_iff in Hl as [Hp Hl].
  eapply rtc_l; [by apply ci_dial_step|]. by apply IH.
Qed.

Lemma ci_submits k : forall d m n r trackers, (k + n <= 5)%nat -> sd_dialers d = replicate (k + m) (EvNone, an_stats) ->
  rtc an_step (ci_world d n r trackers) (ci_world (Nat.iter k ci_submit d) (k + n) r trackers).
Proof.
  induction k as [|k IH]; intros d m n r trackers Hn Hd; [apply rtc_refl|].
  rewrite Nat.iter_succ_r. replace (Datatypes.S k + n)%nat with (k + Datatypes.S n)%nat by lia.
  eapply rtc_l; [apply ci_submit_step; [by rewrite Hd|lia]|]. apply (IH _ m); [lia|cbn; by rewrite Hd].
Qed.

Lemma ci_take d n trackers : sd_t d = sd_t ci_d7 ->
  an_step (ci_world d (Datatypes.S n) AIdle trackers) (ci_world d n (ASend 0 (ci_asked trackers).1) (ci_asked trackers).2).
Proof.
  intros Ht. apply (as_take ex_env id 0 ex_sha1 (fun _ _ => false) nextRand (ex_ip 9) (fun _ => Some tt) an_Announce (replicate 20 Byte.x00) 6881
    (fun _ => True) (ci_world d (Datatypes.S n) AIdle trackers) (mkAnnouncement 0 EvNone an_stats) (replicate n (mkAnnouncement 0 EvNone an_stats)) d);
    [reflexivity|reflexivity|reflexivity|]. rewrite Ht. apply surjective_pairing.
Qed.

Lemma ci_response d n trackers r : sd_closed d = false -> sd_resp d = None ->
  an_step (ci_world d n (ASend 0 r) trackers) (ci_world (ci_respond d r) n AIdle trackers).
Proof.
  intros Hc Hr. pose proof (as_respond ex_env id 0 ex_sha1 (fun _ _ => false) nextRand (ex_ip 9) (fun _ => Some tt) an_Announce
    (replicate 20 Byte.x00) 6881 (fun _ => True) (ci_world d n (ASend 0 r) trackers) 0 r d eq_refl eq_refl Hc Hr) as Hs.
  unfold ci_world in Hs. cbn [a_sides a_queue a_trackers a_closed] in Hs. rewrite insert_singleton_eq in Hs. exact Hs.
Qed.

Definition ci_w : an_sys := ci_world ci_d15 5 (ASend 0 ci_r2.1) ci_r2.2.

Lemma ci_w_reachable : rtc an_step a_start ci_w.
Proof.
  etrans; [exact ci_d0_reachable|]. etrans; [apply (ci_dials ci_peers); by vm_compute|]. fold ci_d7.
  etrans; [apply (ci_submits 5 ci_d7 2); [lia|by vm_compute]|]. fold ci_d12.
  eapply rtc_l; [apply ci_take; by vm_compute|]. eapply rtc_l; [apply ci_response; by vm_compute|]. fold ci_r1 ci_d13.
  etrans; [apply (ci_submits 1 ci_d13 1); [lia|by vm_compute]|].
  eapply rtc_l; [apply ci_take; by vm_compute|]. apply (ci_submits 1 (ci_submit ci_d13) 0); [lia|by vm_compute].
Qed.

(** The torrent is open, and no run goes on from here. *)
Theorem announce_race :
  rtc an_step a_start ci_w /\ sd_closed ci_d15 = false /\
  forall w', rtc an_step ci_w w' -> a_run w' = ASend 0 ci_r2.1 /\ exists d', a_sides w' !! 0%nat = Some d' /\ sd_main d' = [(EvNone, an_stats)].
Proof.
  split; [exact ci_w_reachable|]. split; [by vm_compute|]. intros w' Hw.
  destruct (announce_circle ex_env id 0 ex_sha1 (fun _ _ => false) nextRand (ex_ip 9) (fun _ => Some tt) an_Announce
    (replicate 20 Byte.x00) 6881 ci_w w' 0 ci_r2.1 ci_d15) as (Hr & _ & Hd); [done|done|by vm_compute; eauto|done|done|exact Hw|].
  split; [exact Hr|exact Hd].
Qed.
