(* ===== verification/ClientExamples.v ===== *)
(** * Concrete instances for the client

    A client with its defaults, a torrent of five bytes that users call, and two clients that
    connect: the inputs at which the theorems on the client and the exported calls apply. *)
From S2P Require Import Prelude Strconv Bitfield GoValue BenDecode BenEncode BenTotal Wire Handshake Metainfo Magnet Bitmap Piece Pieces.
From S2P Require Import Metadata ConnInfo Swarm SwarmInv Torrent TorrentInv TorrentSafe Conc Exported ExportedInv Net Client ClientInv ClientConn.
From S2P Require Import Examples SwarmExamples.
From stdpp Require Import list gmap sorting.
#[local] Open Scope Z_scope.

(** ** Users' calls *)

Definition ex_s0 : sys := mkSys ex_t0 MSelect ∅ false.
Definition ex_called (c : call) : sys := with_user 0 (ULock c) ex_s0.

Abbreviation ex_s_reachable :=
  (s_reachable ex_env id 0 ex_sha1 (fun _ _ => false) nextRand (ex_ip 9) ex_cfg ex_info (bs "http://t/a") ex_ib).

Lemma ex_called_reachable c : ex_s_reachable (ex_called c).
Proof. exists ex_t0. split; [by vm_compute|]. by apply rtc_once, ss_call. Qed.



Lemma setDataDownloadEnable_deadlock_witness :
  exists s', rtc (ustep (B := gset Z) (S := nextF) ex_env id 0 0) (ex_called (CSetDataDownloadEnable true)) s' /\ s_main s' = MServe 0.
Proof.
  destruct (pieces_ (t_data (s_t (ex_called (CSetDataDownloadEnable true))))) as [pc|] eqn:Hp; [|by vm_compute in Hp].
  destruct (setDataDownloadEnable_deadlock ex_env id 0 ex_sha1 (fun _ _ => false) nextRand (ex_ip 9) ex_cfg ex_info (bs "http://t/a") ex_ib
    ex_setup (ex_called (CSetDataDownloadEnable true)) 0 true pc (ex_called_reachable _) eq_refl eq_refl Hp) as (s' & H1 & H2).
  exists s'. split; [exact H1|]. exact (proj1 (H2 s' (rtc_refl _ _))).
Defined.

(** ** The registry *)

Definition ex_hash (ptr : nat) : bytes := replicate 20 (z2b (Z.of_nat ptr)).
(** One goroutine adds a torrent, another one adds a torrent of the same hash, a third one bans. *)
Definition ex_calls (u : nat) : client_call :=
  match u with 0 | 1 => KRegister 7 | _ => KBan (ex_ip 1) end%nat.
Abbreviation ex_starts := (starts ex_hash (fun _ => true) ex_calls).
Abbreviation ex_cpool := (Conc.pool Empty_set registry reply).
(** A goroutine starts, and takes its next step. *)
Definition spawn (u : nat) (w : ex_cpool) : ex_cpool :=
  match p_thr w !! u with
  | None => mkPool (p_st w) (p_mu w) (<[u := client_prog ex_hash (fun _ => true) (ex_calls u)]> (p_thr w))
  | Some _ => w
  end.
Definition go (w : ex_cpool) (u : nat) : ex_cpool :=
  let to st mu k := mkPool st mu (<[u := k]> (p_thr w)) in
  match p_thr w !! u with
  | Some (Do m) => match m (p_st w) with Ok (k, t) => to t (p_mu w) k | _ => w end
  | Some (Lock k) => if p_mu w then w else to (p_st w) true k
  | Some (Unlock k) => if p_mu w then to (p_st w) false k else w
  | _ => w
  end.

Lemma spawn_steps u w : rtc (pstep ex_starts) w (spawn u w).
Proof. unfold spawn. destruct (p_thr w !! u) eqn:E; [apply rtc_refl|]. by apply rtc_once, ps_go. Qed.

Lemma go_steps l : forall w, rtc (pstep ex_starts) w (foldl go w l).
Proof.
  assert (H1 : forall w u, rtc (pstep ex_starts) w (go w u)).
  { intros w u. unfold go. destruct (p_thr w !! u) as [[r|m|k|k]|] eqn:E; try apply rtc_refl.
    - destruct (m (p_st w)) as [[k t]| |] eqn:Em; [|apply rtc_refl..]. by apply rtc_once, (ps_do ex_starts w u m k t).
    - destruct (p_mu w) eqn:Em; [apply rtc_refl|]. by apply rtc_once, (ps_lock ex_starts w u k).
    - destruct (p_mu w) eqn:Em; [|apply rtc_refl]. by apply rtc_once, (ps_unlock ex_starts w u k). }
  induction l as [|u l IH]; intros w; [apply rtc_refl|]. eapply (transitivity (R := rtc (pstep ex_starts))); [apply H1|apply IH].
Qed.

(** The first one is done; then the second one finds the torrent. *)
Definition ex_pool1 : ex_cpool := foldl go (spawn 0 (mkPool empty_registry false ∅)) [0; 0; 0; 0]%nat.
Definition ex_pool2 : ex_cpool := foldl go (spawn 2 (spawn 1 ex_pool1)) [2; 1; 2; 2; 1; 1]%nat.

Lemma ex_pool1_reachable : preach ex_starts empty_registry ex_pool1.
Proof. eapply (transitivity (R := rtc (pstep ex_starts))); [apply spawn_steps|apply go_steps]. Qed.

Lemma registry_refines_witness :
  exists h h', did 0 (h ++ h') = [ORegister 7 true] /\ did 1 (h ++ h') = [ORegister 7 false] /\ did 0 h' = [].
Proof.
  destruct (registry_refines ex_hash (fun _ => true) ex_calls ex_pool1 ex_pool2 ex_pool1_reachable) as (h & h' & _ & _ & Ha & _ & Hl & _).
  - eapply (transitivity (R := rtc (pstep ex_starts))); [apply spawn_steps|]. eapply (transitivity (R := rtc (pstep ex_starts))); [apply spawn_steps|apply go_steps].
  - exists h, h'. split; [|split].
    + destruct (Ha 0%nat (RAdded 7) ltac:(vm_compute; reflexivity)) as ([] & E & Hr); [exact E|discriminate Hr].
    + destruct (Ha 1%nat RAddExists ltac:(vm_compute; reflexivity)) as ([] & E & Hr); [discriminate Hr|exact E].
    + exact (Hl 0%nat (RAdded 7) ltac:(vm_compute; reflexivity)).
Defined.

(** ** Clients *)

Definition ex_world (seed : Z) : world_ :=
  mkWorld_ (Some (bs "/tmp")) (replicate 12 (z2b seed)) true (fun p => p =? 6883) None true.
Definition no_ip6 (s : bytes) : option bytes := None.
Definition ex_client_of (seed : Z) : option (Client nextF) :=
  match NewClient no_ip6 nextRand None (ex_world seed) with Ok cl => Some cl | _ => None end.

Definition ex_client (seed : Z) : Client nextF :=
  mkClient (mkClientConfig nextRand 250 55 false false false (bs "/tmp")) (bs "-CH0001-" ++ replicate 12 (z2b seed))
    (map z2b [0; 0; 0; 0; 0; 16; 0; 1]) 6883 true true true.

Lemma ex_client_new seed : ex_client_of seed = Some (ex_client seed).
Proof. by vm_compute. Qed.

Lemma NewClient_wf_witness : client_wf (ex_client 1).
Proof.
  exact (proj1 (NewClient_wf no_ip6 nextRand None (ex_world 1) (ex_client 1) eq_refl ltac:(vm_compute; reflexivity))).
Defined.

Lemma ex_client_wf seed : client_wf (ex_client seed).
Proof. by constructor. Qed.

Lemma AddFromParser_starts_witness :
  exists t : ex_torrent, AddFromInfoHash ex_env id 0 (fun _ _ => false) (ex_ip 9) (ex_client 1) 6881 3 (ex_hash 3) = Ok (t, register 3 (ex_hash 3)).
Proof.
  destruct (AddFromParser_starts (B := gset Z) (S := nextF) ex_env id 0 (fun _ _ => false) (ex_ip 9) (ex_client 1) 6881 3 (ex_client_wf 1)) as [H _].
  destruct (H (InfoHashParser_Parse (ex_hash 3)) (mkInfo None 0 None [] 0 None 0 (ex_hash 3)) eq_refl (or_introl eq_refl)) as (t & E & _ & Hn & _).
  destruct (Hn eq_refl) as [_ Hh]. exists t. unfold AddFromInfoHash. rewrite E, Hh. reflexivity.
Defined.

(** ** Connections *)

Definition ex_uts (n : nat) : utMetadatas :=
  if bool_decide (n = 2%nat) then mkUts {[ 12 := mkUt (bs "d6:lengthi5e") [true] [] 1 12 ]} 12 else mkUts ∅ 0.
Definition ex_h : bytes := ex_hash 5.
Definition ex_outA : bytes := hs_bytes (our_handshake (ex_client 1) ex_h) ++ ext_frame (info_size (ex_uts 1)).
Definition ex_outB : bytes := hs_bytes (our_handshake (ex_client 2) ex_h) ++ ext_frame (info_size (ex_uts 2)).
Definition ex_sA : tcp := mkTcp (mkConn (ex_outB ++ bs "rest") [] []) false (bs "10.0.0.2:6883").
Definition ex_sB : tcp := mkTcp (mkConn (ex_outA ++ bs "more") [] []) false (bs "10.0.0.1:51234").


Lemma clients_connect_witness :
  exists d, Wire.Decode (ext_frame 12 ++ bs "rest") = Ok (mkMsg Extended 0 0 0 [] [] 0 ExtHandshakeID (ExtDict d), bs "rest") /\ MetadataSize d = Some 12.
Proof.
  destruct (clients_connect no_ip6 ex_uts (ex_client 1) (ex_client 2) {[ ex_h := 2%nat ]} ex_sA ex_sB 1 2 ex_h
    (mkPeer None (ex_ip 1) 51234 SourceIncoming) (mkPeer None (ex_ip 2) 6883 SourceTracker) (bs "more") (bs "rest")
    (ex_client_wf 1) (ex_client_wf 2) eq_refl ltac:(done) ltac:(by vm_compute) ltac:(by vm_compute) ltac:(done)
    ltac:(by vm_compute) ltac:(by vm_compute) eq_refl eq_refl) as (_ & _ & (d & H1 & _ & H2) & _).
  exists d. split; [exact H1|exact H2].
Defined.

Lemma addrToPeer_String_witness :
  addrToPeer no_ip6 (peer_String id (mkPeer None (ex_ip 7) 6881 SourceDHT)) SourceIncoming = Ok (mkPeer None (ex_ip 7) 6881 SourceIncoming).
Proof.
  apply (addrToPeer_String no_ip6 id (mkPeer None (ex_ip 7) 6881 SourceDHT) SourceIncoming (z2b 10) (z2b 0) (z2b 0) (z2b 7)); [by left|cbn; lia].
Defined.

(** The client writes its handshake, and then the connection breaks: the connection is refused,
    and left open. *)
Definition ex_sBroken : tcp := mkTcp (mkConn (ex_outA ++ bs "more") [] [true; false]) false (bs "10.0.0.1:51234").

Theorem Accept_leaves_open :
  match Accept no_ip6 ex_uts (ex_client 2) {[ ex_h := 2%nat ]} ex_sBroken with
  | (Err (errExt HWrite), s') => tc_closed s' = false
  | _ => False
  end.
Proof. by vm_compute. Qed.
